(** * RawMemory<T> and Vector<T> of advanced-vector/vector.h

    A shallow embedding of the two class templates and the properties of the
    growable array built on them.

    Modelling conventions.
    - [size_t] is a 64-bit unsigned integer: a [Z] in [0, 2^64), every
      arithmetic operation of the source on it reduced with [wrap].
    - The free store is a list of blocks indexed by address.  A block is a
      list of slots, a slot is [None] (raw, unconstructed storage) or
      [Some v] (a live object of value [v]).  A freed block is [None].
    - A pointer [T*] is a block address (or null) and an element offset.
    - A call either returns, lets an exception escape, stops the program
      ([assert], [std::terminate]) or has undefined behaviour.
    - The element type [T] is a parameter of the templates.  What the source
      needs of it is gathered in [Traits]: [sizeof(T)], which of its
      operations throw (as functions of the value operated on), what a
      moved-from object holds, and the three [<type_traits>] queries the
      source makes.  An operation of [T] that does not throw transfers the
      value.  [operator new] succeeds or throws [std::bad_alloc] as
      [can_alloc] says for the requested byte count. *)

From Stdlib Require Import ZArith.
From stdpp Require Import base option list.

Local Open Scope Z_scope.

(** ** Outcomes and the state-and-exception monad *)

Inductive Outcome (S A : Type) : Type :=
| Ok (a : A) (s : S)
| Throw (s : S)
| Abort
| Undefined.

Arguments Ok {S A} a s.
Arguments Throw {S A} s.
Arguments Abort {S A}.
Arguments Undefined {S A}.

Definition M (S A : Type) : Type := S → Outcome S A.

Definition ret {S A} (a : A) : M S A := λ s, Ok a s.

Definition bind {S A B} (m : M S A) (k : A → M S B) : M S B :=
  λ s, match m s with
       | Ok a s' => k a s'
       | Throw s' => Throw s'
       | Abort => Abort
       | Undefined => Undefined
       end.

Notation "'let*' x ':=' m 'in' k" := (bind m (λ x, k))
  (at level 10, x name, m at level 100, k at level 200).
Notation "m ';;' k" := (bind m (λ _, k))
  (at level 100, k at level 200, right associativity).

Definition throw {S A} : M S A := λ s, Throw s.
Definition undefined {S A} : M S A := λ _, Undefined.
Definition get {S} : M S S := λ s, Ok s s.
Definition put {S} (s : S) : M S unit := λ _, Ok tt s.

(** [assert(c)] of <cassert>. *)
Definition assert {S} (c : bool) : M S unit :=
  λ s, if c then Ok tt s else Abort.

(** [try { m } catch (...) { handler; throw; }]: the handler runs on the state
    the exception left, then the exception goes on. *)
Definition try_catch_rethrow {S A} (m : M S A) (handler : M S unit) : M S A :=
  λ s, match m s with
       | Throw s' =>
           match handler s' with
           | Ok _ s'' => Throw s''
           | Throw s'' => Throw s''
           | Abort => Abort
           | Undefined => Undefined
           end
       | r => r
       end.

(** A function declared [noexcept(b)]: an escaping exception calls
    [std::terminate] when [b] holds. *)
Definition noexcept {S A} (b : bool) (m : M S A) : M S A :=
  λ s, match m s with
       | Throw s' => if b then Abort else Throw s'
       | r => r
       end.

(** ** size_t *)

Definition SIZE_MOD : Z := 2 ^ 64.
Definition PTRDIFF_MAX : Z := 2 ^ 63 - 1.
Definition wrap (x : Z) : Z := x mod SIZE_MOD.

(** ** Pointers *)

Record Ptr : Type := mkPtr { base : option nat; off : Z }.

Definition nullptr : Ptr := mkPtr None 0.
Definition ptr_add (p : Ptr) (n : Z) : Ptr := mkPtr (base p) (off p + n).

Definition base_eqb (a b : option nat) : bool :=
  match a, b with
  | None, None => true
  | Some x, Some y => Nat.eqb x y
  | _, _ => false
  end.

Definition ptr_eqb (p q : Ptr) : bool := base_eqb (base p) (base q) && (off p =? off q).

(** [p - q], defined for two pointers into the same array only. *)
Definition ptr_diff (p q : Ptr) : option Z :=
  if base_eqb (base p) (base q) then Some (off p - off q) else None.

(** ** The element type, the free store, and the standard algorithms *)

Record Traits (T : Type) : Type := mkTraits {
  sizeof_T : Z;
  can_alloc : Z → bool;
  value_init : option T;
  copy_throws : T → bool;
  move_throws : T → bool;
  copy_assign_throws : T → bool;
  move_assign_throws : T → bool;
  moved_from : T → T;
  is_nothrow_move_constructible : bool;
  is_copy_constructible : bool;
  is_nothrow_move_assignable : bool
}.

Arguments sizeof_T {T} _.
Arguments can_alloc {T} _ _.
Arguments value_init {T} _.
Arguments copy_throws {T} _ _.
Arguments move_throws {T} _ _.
Arguments copy_assign_throws {T} _ _.
Arguments move_assign_throws {T} _ _.
Arguments moved_from {T} _ _.
Arguments is_nothrow_move_constructible {T} _.
Arguments is_copy_constructible {T} _.
Arguments is_nothrow_move_assignable {T} _.

Abbreviation Block T := (list (option T)).
Abbreviation Heap T := (list (option (Block T))).

Section Memory.

Context {T : Type} (E : Traits T).

Definition get_block (h : Heap T) (a : nat) : option (Block T) :=
  match h !! a with
  | Some (Some blk) => Some blk
  | _ => None
  end.

Definition set_block (a : nat) (blk : Block T) (h : Heap T) : Heap T := <[a := Some blk]> h.

Definition slot_at (h : Heap T) (p : Ptr) : option (option T) :=
  match base p with
  | Some a =>
      match get_block h a with
      | Some blk => if 0 <=? off p then blk !! Z.to_nat (off p) else None
      | None => None
      end
  | None => None
  end.

Definition write_slot (p : Ptr) (s : option T) : M (Heap T) unit :=
  λ h, match base p, slot_at h p with
       | Some a, Some _ =>
           match get_block h a with
           | Some blk => Ok tt (set_block a (<[Z.to_nat (off p) := s]> blk) h)
           | None => Undefined
           end
       | _, _ => Undefined
       end.

(** [::operator new(bytes)]: a fresh block of as many slots as fit. *)
Definition operator_new (bytes : Z) : M (Heap T) Ptr :=
  λ h, if can_alloc E bytes
       then Ok (mkPtr (Some (length h)) 0)
               (h ++ [Some (replicate (Z.to_nat (bytes / sizeof_T E)) None)])
       else Throw h.

(** [::operator delete(p)]: [p] is null or the start of a block that
    [operator new] returned and that was not freed since. *)
Definition operator_delete (p : Ptr) : M (Heap T) unit :=
  λ h, match base p with
       | None => if off p =? 0 then Ok tt h else Undefined
       | Some a =>
           match get_block h a with
           | Some _ => if off p =? 0 then Ok tt (<[a := None]> h) else Undefined
           | None => Undefined
           end
       end.

(** Reading a live object. *)
Definition load (p : Ptr) : M (Heap T) T :=
  λ h, match slot_at h p with
       | Some (Some v) => Ok v h
       | _ => Undefined
       end.

(** [new (p) T(...)] once the constructor has produced [v]. *)
Definition construct_at (p : Ptr) (v : T) : M (Heap T) unit := write_slot p (Some v).

(** [std::destroy_at(p)]: the destructor runs on a live object. *)
Definition destroy_at (p : Ptr) : M (Heap T) unit :=
  load p;; write_slot p None.

(** Overwriting the value of a live object. *)
Definition store (p : Ptr) (v : T) : M (Heap T) unit :=
  load p;; write_slot p (Some v).

(** Value-initialisation in place, copy and move construction of the object
    at [dst] from the object at [src], copy and move assignment of the object
    at [src] to the object at [dst]. *)
Definition value_construct_at (p : Ptr) : M (Heap T) unit :=
  match value_init E with
  | Some v => construct_at p v
  | None => throw
  end.

Definition copy_construct_at (dst src : Ptr) : M (Heap T) unit :=
  let* v := load src in
  if copy_throws E v then throw else construct_at dst v.

Definition move_construct_at (dst src : Ptr) : M (Heap T) unit :=
  let* v := load src in
  if move_throws E v then throw
  else (construct_at dst v;; store src (moved_from E v)).

Definition copy_assign_at (dst src : Ptr) : M (Heap T) unit :=
  let* v := load src in
  load dst;;
  if copy_assign_throws E v then throw else store dst v.

Definition move_assign_at (dst src : Ptr) : M (Heap T) unit :=
  let* v := load src in
  load dst;;
  if move_assign_throws E v then throw
  else (store dst v;; store src (moved_from E v)).

(** [*dst = std::move(x)] for a local object [x] of value [v]. *)
Definition move_assign_value (dst : Ptr) (v : T) : M (Heap T) unit :=
  load dst;;
  if move_assign_throws E v then throw else store dst v.

(** [std::destroy_n(p, n)]. *)
Fixpoint destroy_loop (p : Ptr) (n : nat) : M (Heap T) unit :=
  match n with
  | O => ret tt
  | S k => destroy_at p;; destroy_loop (ptr_add p 1) k
  end.

Definition destroy_n (p : Ptr) (n : Z) : M (Heap T) unit := destroy_loop p (Z.to_nat n).

(** The loop shared by the [std::uninitialized_*_n] algorithms: objects are
    constructed at [d_first + done], [d_first + done + 1], ...; when a
    construction throws, the objects constructed so far are destroyed and the
    exception goes on. *)
Fixpoint uninitialized_loop (construct_ith : Z → M (Heap T) unit)
    (d_first : Ptr) (done : nat) (n : nat) : M (Heap T) unit :=
  match n with
  | O => ret tt
  | S k =>
      try_catch_rethrow (construct_ith (Z.of_nat done)) (destroy_loop d_first done);;
      uninitialized_loop construct_ith d_first (S done) k
  end.

Definition uninitialized_value_construct_n (first : Ptr) (n : Z) : M (Heap T) unit :=
  uninitialized_loop (λ i, value_construct_at (ptr_add first i)) first 0 (Z.to_nat n).

Definition uninitialized_copy_n (first : Ptr) (n : Z) (d_first : Ptr) : M (Heap T) unit :=
  uninitialized_loop (λ i, copy_construct_at (ptr_add d_first i) (ptr_add first i))
    d_first 0 (Z.to_nat n).

Definition uninitialized_move_n (first : Ptr) (n : Z) (d_first : Ptr) : M (Heap T) unit :=
  uninitialized_loop (λ i, move_construct_at (ptr_add d_first i) (ptr_add first i))
    d_first 0 (Z.to_nat n).

(** [std::move(first, last, d_first)]: move-assignment, front to back. *)
Fixpoint move_loop (first d_first : Ptr) (n : nat) : M (Heap T) unit :=
  match n with
  | O => ret tt
  | S k => move_assign_at d_first first;; move_loop (ptr_add first 1) (ptr_add d_first 1) k
  end.

Definition std_move (first last d_first : Ptr) : M (Heap T) unit :=
  match ptr_diff last first with
  | Some n => if 0 <=? n then move_loop first d_first (Z.to_nat n) else undefined
  | None => undefined
  end.

(** [std::move_backward(first, last, d_last)]: move-assignment, back to
    front. *)
Fixpoint move_backward_loop (last d_last : Ptr) (n : nat) : M (Heap T) unit :=
  match n with
  | O => ret tt
  | S k =>
      move_assign_at (ptr_add d_last (-1)) (ptr_add last (-1));;
      move_backward_loop (ptr_add last (-1)) (ptr_add d_last (-1)) k
  end.

Definition std_move_backward (first last d_last : Ptr) : M (Heap T) unit :=
  match ptr_diff last first with
  | Some n => if 0 <=? n then move_backward_loop last d_last (Z.to_nat n) else undefined
  | None => undefined
  end.

End Memory.

(** ** RawMemory<T> *)

Record RawMemory : Type := mkRawMemory { buffer_ : Ptr; capacity_ : Z }.

Section RawMemoryMethods.

Context {T : Type} (E : Traits T).

(** [RawMemory() = default]. *)
Definition RawMemory_default : RawMemory := mkRawMemory nullptr 0.

Definition Allocate (n : Z) : M (Heap T) Ptr :=
  if negb (n =? 0) then operator_new E (wrap (n * sizeof_T E)) else ret nullptr.

Definition Deallocate (buf : Ptr) : M (Heap T) unit := operator_delete buf.

(** [explicit RawMemory(size_t capacity)]. *)
Definition RawMemory_sized (capacity : Z) : M (Heap T) RawMemory :=
  let* buffer := Allocate capacity in
  ret (mkRawMemory buffer capacity).

(** [RawMemory(RawMemory&& other)]: the new object and what is left of
    [other]. *)
Definition RawMemory_move (other : RawMemory) : RawMemory * RawMemory :=
  (mkRawMemory (buffer_ other) (capacity_ other), mkRawMemory nullptr 0).

(** [~RawMemory()]. *)
Definition RawMemory_destroy (m : RawMemory) : M (Heap T) unit := Deallocate (buffer_ m).

(** [operator+(size_t offset)]. *)
Definition RawMemory_plus {S} (m : RawMemory) (offset : Z) : M S Ptr :=
  assert (offset <=? capacity_ m);;
  ret (ptr_add (buffer_ m) offset).

(** [operator[](size_t index)]; the reference returned is the address of the
    slot. *)
Definition RawMemory_at {S} (m : RawMemory) (index : Z) : M S Ptr :=
  assert (index <? capacity_ m);;
  ret (ptr_add (buffer_ m) index).

Definition RawMemory_Swap (m other : RawMemory) : RawMemory * RawMemory := (other, m).

Definition GetAddress (m : RawMemory) : Ptr := buffer_ m.

End RawMemoryMethods.

(** ** Vector<T> *)

Record Vector : Type := mkVector { data_ : RawMemory; size_ : Z }.

(** The state a member function of [Vector] runs on: the object it is called
    on and the free store. *)
Record State (T : Type) : Type := mkState { this : Vector; mem : Heap T }.

Arguments mkState {T} this mem.
Arguments this {T} _.
Arguments mem {T} _.

Definition on_heap {T A} (m : M (Heap T) A) : M (State T) A :=
  λ st, match m (mem st) with
        | Ok a h => Ok a (mkState (this st) h)
        | Throw h => Throw (mkState (this st) h)
        | Abort => Abort
        | Undefined => Undefined
        end.

Definition get_this {T} : M (State T) Vector := λ st, Ok (this st) st.

Definition set_size {T} (n : Z) : M (State T) unit :=
  λ st, Ok tt (mkState (mkVector (data_ (this st)) n) (mem st)).

(** [data_.Swap(new_data)] for a local [new_data]: the value [new_data] has
    afterwards is returned. *)
Definition swap_data {T} (new_data : RawMemory) : M (State T) RawMemory :=
  λ st, let (d, n) := RawMemory_Swap (data_ (this st)) new_data in
        Ok n (mkState (mkVector d (size_ (this st))) (mem st)).

Definition Size (v : Vector) : Z := size_ v.
Definition Capacity (v : Vector) : Z := capacity_ (data_ v).
Definition begin (v : Vector) : Ptr := GetAddress (data_ v).
Definition end_ (v : Vector) : Ptr := ptr_add (GetAddress (data_ v)) (size_ v).
Definition cbegin (v : Vector) : Ptr := GetAddress (data_ v).
Definition cend (v : Vector) : Ptr := ptr_add (GetAddress (data_ v)) (size_ v).

Section VectorMethods.

Context {T : Type} (E : Traits T).

Local Abbreviation St := (State T).

(** [Vector() = default]. *)
Definition Vector_default : Vector := mkVector RawMemory_default 0.

(** [explicit Vector(size_t size)].  When the body throws, the member [data_],
    already constructed, is destroyed. *)
Definition Vector_sized (size : Z) : M (Heap T) Vector :=
  let* data := RawMemory_sized E size in
  try_catch_rethrow
    (uninitialized_value_construct_n E (GetAddress data) size)
    (RawMemory_destroy data);;
  ret (mkVector data size).

(** [Vector(const Vector& other)]. *)
Definition Vector_copy (other : Vector) : M (Heap T) Vector :=
  let* data := RawMemory_sized E (size_ other) in
  try_catch_rethrow
    (uninitialized_copy_n E (begin other) (size_ other) (GetAddress data))
    (RawMemory_destroy data);;
  ret (mkVector data (size_ other)).

(** [Vector(Vector&& other)]: the new object and what is left of [other]. *)
Definition Vector_move (other : Vector) : Vector * Vector :=
  let (d, o) := RawMemory_move (data_ other) in
  (mkVector d (size_ other), mkVector o 0).

(** [~Vector()], then the destructor of the member [data_]. *)
Definition Vector_destroy (v : Vector) : M (Heap T) unit :=
  destroy_n (begin v) (size_ v);;
  RawMemory_destroy (data_ v).

(** [Swap(Vector& other)] for another object [other]: the value [other] has
    afterwards is returned. *)
Definition Swap (other : Vector) : M St Vector :=
  λ st, let (d, od) := RawMemory_Swap (data_ (this st)) (data_ other) in
        Ok (mkVector od (size_ (this st))) (mkState (mkVector d (size_ other)) (mem st)).

Definition relocates_by_move : bool :=
  is_nothrow_move_constructible E || negb (is_copy_constructible E).

Definition FillNewData (new_data : RawMemory) (pos : Z) : M St unit :=
  let* v := get_this in
  if relocates_by_move
  then on_heap (uninitialized_move_n E (begin v) pos (GetAddress new_data))
  else on_heap (uninitialized_copy_n E (begin v) pos (GetAddress new_data)).

Definition Reserve (new_capacity : Z) : M St unit :=
  let* v := get_this in
  if new_capacity <=? Capacity v then ret tt
  else
    let* new_data := on_heap (RawMemory_sized E new_capacity) in
    try_catch_rethrow
      (FillNewData new_data (size_ v);;
       on_heap (destroy_n (begin v) (size_ v)))
      (on_heap (RawMemory_destroy new_data));;
    let* old_data := swap_data new_data in
    on_heap (RawMemory_destroy old_data).

Definition Resize (new_size : Z) : M St unit :=
  let* v := get_this in
  (if new_size <? size_ v
   then on_heap (destroy_n (ptr_add (begin v) new_size) (wrap (size_ v - new_size)))
   else
     (if Capacity v <? new_size
      then Reserve (Z.max (wrap (Capacity v * 2)) new_size)
      else ret tt);;
     let* v := get_this in
     on_heap (uninitialized_value_construct_n E (end_ v) (wrap (new_size - size_ v))));;
  set_size new_size.

Definition PopBack : M St unit :=
  noexcept true
    (let* v := get_this in
     assert (negb (size_ v =? 0));;
     on_heap (destroy_at (ptr_add (end_ v) (-1)));;
     set_size (wrap (size_ v - 1))).

(** [T(std::forward<Args>(args)...)]: the constructor call is given by its
    result, [None] when it throws. *)
Definition construct {S} (c : option T) : M S T :=
  match c with
  | Some v => ret v
  | None => throw
  end.

(** The branch of [Emplace] taken when [size_ != Capacity()]. *)
Definition InsertWithRelocation (iterator_pos : Z) (pos : Ptr) (c : option T) : M St unit :=
  try_catch_rethrow
    (let* v := get_this in
     if negb (ptr_eqb pos (end_ v))
     then
       let* temporary_obj := construct c in
       on_heap (uninitialized_move_n E (ptr_add (end_ v) (-1)) 1 (end_ v));;
       let* first := RawMemory_plus (data_ v) iterator_pos in
       on_heap (std_move_backward E first (ptr_add (end_ v) (-1)) (end_ v));;
       let* slot := RawMemory_at (data_ v) iterator_pos in
       on_heap (move_assign_value E slot temporary_obj)
     else
       let* x := construct c in
       on_heap (construct_at (end_ v) x))
    (let* v := get_this in
     on_heap (operator_delete (end_ v))).

(** The branch of [Emplace] taken when [size_ == Capacity()]. *)
Definition InsertWithoutRelocation (iterator_pos : Z) (pos : Ptr) (c : option T) : M St unit :=
  let* v := get_this in
  let* new_data := on_heap (RawMemory_sized E (if size_ v =? 0 then 1 else wrap (size_ v * 2))) in
  try_catch_rethrow
    (let* x := construct c in
     on_heap (construct_at (ptr_add (GetAddress new_data) iterator_pos) x);;
     FillNewData new_data iterator_pos;;
     (if relocates_by_move
      then on_heap (uninitialized_move_n E (ptr_add (begin v) iterator_pos)
                      (wrap (size_ v - iterator_pos))
                      (ptr_add (ptr_add (GetAddress new_data) iterator_pos) 1))
      else on_heap (uninitialized_copy_n E (ptr_add (begin v) iterator_pos)
                      (wrap (size_ v - iterator_pos))
                      (ptr_add (ptr_add (GetAddress new_data) iterator_pos) 1)));;
     on_heap (destroy_n (begin v) (size_ v)))
    (on_heap (RawMemory_destroy new_data));;
  let* old_data := swap_data new_data in
  on_heap (RawMemory_destroy old_data).

(** [pos - begin()] converted to [size_t]. *)
Definition iterator_offset {S} (pos first : Ptr) : M S Z :=
  match ptr_diff pos first with
  | Some d => ret (wrap d)
  | None => undefined
  end.

Definition Emplace (pos : Ptr) (c : option T) : M St Ptr :=
  let* v := get_this in
  let* iterator_pos := iterator_offset pos (begin v) in
  (if size_ v =? Capacity v
   then InsertWithoutRelocation iterator_pos pos c
   else InsertWithRelocation iterator_pos pos c);;
  let* v := get_this in
  set_size (wrap (size_ v + 1));;
  let* v := get_this in
  ret (ptr_add (begin v) iterator_pos).

(** [assert(pos >= cbegin() && pos < cend())]: the comparisons are defined for
    pointers into the same array. *)
Definition assert_in_range {S} (pos first last : Ptr) : M S unit :=
  match ptr_diff pos first, ptr_diff pos last with
  | Some d1, Some d2 => assert ((0 <=? d1) && (d2 <? 0))
  | _, _ => undefined
  end.

Definition Erase (pos : Ptr) : M St Ptr :=
  noexcept (is_nothrow_move_assignable E)
    (let* v := get_this in
     assert_in_range pos (cbegin v) (cend v);;
     let* iterator_pos := iterator_offset pos (cbegin v) in
     on_heap (std_move E (ptr_add (ptr_add (begin v) iterator_pos) 1) (end_ v)
                (ptr_add (begin v) iterator_pos));;
     PopBack;;
     let* v := get_this in
     ret (ptr_add (begin v) iterator_pos)).

(** [Insert(const_iterator, const T&)] and [Insert(const_iterator, T&&)]: the
    new element is copy- or move-constructed from [value]. *)
Definition Insert_copy (pos : Ptr) (value : T) : M St Ptr :=
  Emplace pos (if copy_throws E value then None else Some value).

Definition Insert_move (pos : Ptr) (value : T) : M St Ptr :=
  Emplace pos (if move_throws E value then None else Some value).

(** [EmplaceBack]: the reference returned is the address of the element. *)
Definition EmplaceBack (c : option T) : M St Ptr :=
  let* v := get_this in
  Emplace (end_ v) c.

Definition PushBack_copy (value : T) : M St unit :=
  EmplaceBack (if copy_throws E value then None else Some value);; ret tt.

Definition PushBack_move (value : T) : M St unit :=
  EmplaceBack (if move_throws E value then None else Some value);; ret tt.

(** [operator[](size_t index)]. *)
Definition Vector_at (index : Z) : M St Ptr :=
  let* v := get_this in
  assert (index <? size_ v);;
  RawMemory_at (data_ v) index.

(** The loop [for (; pos < std::min(size_, rhs.size_); ++pos)] of the copy
    assignment, [n] iterations from [pos] on; the final [pos] is returned. *)
Fixpoint assign_loop (data rhs_data : RawMemory) (pos : Z) (n : nat) : M St Z :=
  match n with
  | O => ret pos
  | S k =>
      let* src := RawMemory_at rhs_data pos in
      let* dst := RawMemory_at data pos in
      on_heap (copy_assign_at E dst src);;
      assign_loop data rhs_data (wrap (pos + 1)) k
  end.

(** The copy assignment from another object: what [operator=] does under
    [this != &rhs]. *)
Definition copy_assign_from (rhs : Vector) : M St unit :=
  let* v := get_this in
  if Capacity v <? size_ rhs
  then
    let* copied_rhs := on_heap (Vector_copy rhs) in
    let* copied_rhs := Swap copied_rhs in
    on_heap (Vector_destroy copied_rhs)
  else
    let* pos := assign_loop (data_ v) (data_ rhs) 0
                  (Z.to_nat (Z.min (size_ v) (size_ rhs))) in
    (if size_ rhs <? size_ v
     then
       let* p := RawMemory_at (data_ v) (size_ rhs) in
       on_heap (destroy_n p (wrap (size_ v - size_ rhs)))
     else
       let* src := RawMemory_at (data_ rhs) pos in
       let* dst := RawMemory_at (data_ v) pos in
       on_heap (uninitialized_copy_n E src (wrap (size_ rhs - size_ v)) dst));;
    set_size (size_ rhs).

End VectorMethods.

(** ** Vector objects at addresses

    The assignment operators and [Swap] take a second [Vector] by reference,
    which may be the object they are called on.  Objects live in a table
    indexed by their address. *)

Record World (T : Type) : Type := mkWorld { objects : list Vector; heap : Heap T }.

Arguments mkWorld {T} objects heap.
Arguments objects {T} _.
Arguments heap {T} _.

Section Objects.

Context {T : Type} (E : Traits T).

Definition object (a : nat) : M (World T) Vector :=
  λ w, match objects w !! a with
       | Some v => Ok v w
       | None => Undefined
       end.

Definition set_object (a : nat) (v : Vector) : M (World T) unit :=
  λ w, Ok tt (mkWorld (<[a := v]> (objects w)) (heap w)).

Definition new_object (v : Vector) : M (World T) nat :=
  λ w, Ok (length (objects w)) (mkWorld (objects w ++ [v]) (heap w)).

Definition on_free_store {A} (m : M (Heap T) A) : M (World T) A :=
  λ w, match m (heap w) with
       | Ok a h => Ok a (mkWorld (objects w) h)
       | Throw h => Throw (mkWorld (objects w) h)
       | Abort => Abort
       | Undefined => Undefined
       end.

(** A member function called on the object at address [a]. *)
Definition at_object {A} (a : nat) (m : M (State T) A) : M (World T) A :=
  λ w, match objects w !! a with
       | Some v =>
           match m (mkState v (heap w)) with
           | Ok r st => Ok r (mkWorld (<[a := this st]> (objects w)) (mem st))
           | Throw st => Throw (mkWorld (<[a := this st]> (objects w)) (mem st))
           | Abort => Abort
           | Undefined => Undefined
           end
       | None => Undefined
       end.

(** The constructors; each returns the address of the new object. *)
Definition construct_default : M (World T) nat := new_object Vector_default.

Definition construct_sized (size : Z) : M (World T) nat :=
  let* v := on_free_store (Vector_sized E size) in
  new_object v.

Definition construct_copy (other : nat) : M (World T) nat :=
  let* o := object other in
  let* v := on_free_store (Vector_copy E o) in
  new_object v.

Definition construct_move (other : nat) : M (World T) nat :=
  let* o := object other in
  let (v, o') := Vector_move o in
  set_object other o';;
  new_object v.

(** [a.Swap(b)] for the objects at [this_] and [other]. *)
Definition Swap_objects (this_ other : nat) : M (World T) unit :=
  let* o := object other in
  let* o' := at_object this_ (Swap o) in
  set_object other o'.

(** [Vector& operator=(const Vector& rhs)]. *)
Definition copy_assign (this_ rhs : nat) : M (World T) unit :=
  if negb (Nat.eqb this_ rhs)
  then
    let* r := object rhs in
    at_object this_ (copy_assign_from E r)
  else ret tt.

(** [Vector& operator=(Vector&& rhs) noexcept]. *)
Definition move_assign (this_ rhs : nat) : M (World T) unit :=
  noexcept true
    (if negb (Nat.eqb this_ rhs)
     then Swap_objects this_ rhs
     else ret tt).

End Objects.

(** ** Observations *)

Section Observations.

Context {T : Type}.

(** The element sequence: the values of the objects in slots [0, size_), if
    all of them are live. *)
Fixpoint read_range (h : Heap T) (p : Ptr) (n : nat) : option (list T) :=
  match n with
  | O => Some []
  | S k =>
      match slot_at h p, read_range h (ptr_add p 1) k with
      | Some (Some v), Some vs => Some (v :: vs)
      | _, _ => None
      end
  end.

Definition elements (st : State T) : option (list T) :=
  read_range (mem st) (begin (this st)) (Z.to_nat (size_ (this st))).

(** What a caller can observe of a container. *)
Definition observe (st : State T) : Z * Z * option (list T) :=
  (Size (this st), Capacity (this st), elements st).

End Observations.

(** ** Vector<int> *)

Definition int_traits : Traits Z :=
  {| sizeof_T := 4;
     can_alloc := λ bytes, (0 <=? bytes) && (bytes <=? PTRDIFF_MAX);
     value_init := Some 0;
     copy_throws := λ _, false;
     move_throws := λ _, false;
     copy_assign_throws := λ _, false;
     move_assign_throws := λ _, false;
     moved_from := λ x, x;
     is_nothrow_move_constructible := true;
     is_copy_constructible := true;
     is_nothrow_move_assignable := true |}.

Definition empty_state {T} : State T := mkState Vector_default [].

(** What can be observed after a call, if it returns. *)
Definition observe_after {T A} (m : M (State T) A) (st : State T)
    : option (Z * Z * option (list T)) :=
  match m st with
  | Ok _ st' => Some (observe st')
  | _ => None
  end.

(** * Properties *)

(** ** The monad *)

Definition succeeds {S A} (o : Outcome S A) : bool :=
  match o with
  | Ok _ _ => true
  | _ => false
  end.

Lemma succeeds_Ok {S A} (o : Outcome S A) :
  succeeds o = true ↔ ∃ a s, o = Ok a s.
Proof.
  destruct o; simpl; split; intros H; try discriminate; eauto;
    destruct H as (? & ? & ?); discriminate.
Qed.

Lemma bind_Ok {S A B} (m : M S A) (k : A → M S B) s a s' :
  m s = Ok a s' → bind m k s = k a s'.
Proof. unfold bind. intros ->. reflexivity. Qed.

Lemma bind_Ok_inv {S A B} (m : M S A) (k : A → M S B) s b s2 :
  bind m k s = Ok b s2 → ∃ a s1, m s = Ok a s1 ∧ k a s1 = Ok b s2.
Proof. unfold bind. destruct (m s); try discriminate. eauto. Qed.

Lemma bind_fails {S A B} (m : M S A) (k : A → M S B) s :
  succeeds (m s) = false → succeeds (bind m k s) = false.
Proof. unfold bind. destruct (m s); simpl; congruence. Qed.

Lemma try_catch_Ok {S A} (m : M S A) handler s a s' :
  m s = Ok a s' → try_catch_rethrow m handler s = Ok a s'.
Proof. unfold try_catch_rethrow. intros ->. reflexivity. Qed.

Lemma try_catch_Ok_inv {S A} (m : M S A) handler s a s' :
  try_catch_rethrow m handler s = Ok a s' → m s = Ok a s'.
Proof.
  unfold try_catch_rethrow. destruct (m s); try discriminate; [done|].
  destruct (handler _); discriminate.
Qed.

Lemma try_catch_fails {S A} (m : M S A) handler s :
  succeeds (m s) = false → succeeds (try_catch_rethrow m handler s) = false.
Proof.
  unfold try_catch_rethrow. destruct (m s); simpl; try congruence.
  destruct (handler _); reflexivity.
Qed.

Lemma noexcept_Ok {S A} b (m : M S A) s a s' :
  m s = Ok a s' → noexcept b m s = Ok a s'.
Proof. unfold noexcept. intros ->. reflexivity. Qed.

Lemma noexcept_Ok_inv {S A} b (m : M S A) s a s' :
  noexcept b m s = Ok a s' → m s = Ok a s'.
Proof. unfold noexcept. destruct (m s); try discriminate; [done|]. destruct b; discriminate. Qed.

Lemma on_heap_Ok {T A} (m : M (Heap T) A) v h a h' :
  m h = Ok a h' → on_heap m (mkState v h) = Ok a (mkState v h').
Proof. unfold on_heap. simpl. intros ->. reflexivity. Qed.

Lemma on_heap_Ok_inv {T A} (m : M (Heap T) A) st a st' :
  on_heap m st = Ok a st' → m (mem st) = Ok a (mem st') ∧ this st' = this st.
Proof.
  unfold on_heap. destruct (m (mem st)); try discriminate.
  intros [= <- <-]. done.
Qed.

Lemma on_heap_Throw {T A} (m : M (Heap T) A) v h h' :
  m h = Throw h' → on_heap m (mkState v h) = Throw (mkState v h').
Proof. unfold on_heap. simpl. intros ->. reflexivity. Qed.

Lemma on_heap_fails {T A} (m : M (Heap T) A) st :
  succeeds (m (mem st)) = false → succeeds (on_heap m st) = false.
Proof. unfold on_heap. destruct (m (mem st)); simpl; congruence. Qed.

Lemma noexcept_fails {S A} b (m : M S A) s :
  succeeds (m s) = false → succeeds (noexcept b m s) = false.
Proof. unfold noexcept. destruct (m s); simpl; try congruence. by destruct b. Qed.

Lemma bind_assoc {S A B C} (m : M S A) (k : A → M S B) (k' : B → M S C) s :
  bind (bind m k) k' s = bind m (λ a, bind (k a) k') s.
Proof. unfold bind. by destruct (m s). Qed.

(** One step of a computation whose first command is known to return. *)
Tactic Notation "step" "in" hyp(H) "by" tactic3(tac) :=
  rewrite ?bind_assoc in H; erewrite bind_Ok in H by tac; cbn [this mem] in H.
Tactic Notation "step" "by" tactic3(tac) :=
  rewrite ?bind_assoc; erewrite bind_Ok by tac; cbn [this mem].

(** The first command of a computation does not return. *)
Ltac first_fails := rewrite ?bind_assoc; apply bind_fails.

(** ** size_t and pointers *)

Lemma wrap_small x : 0 ≤ x < SIZE_MOD → wrap x = x.
Proof. intros. unfold wrap. apply Z.mod_small. done. Qed.

Lemma PTRDIFF_MAX_lt : 2 * PTRDIFF_MAX < SIZE_MOD.
Proof. reflexivity. Qed.

Lemma base_eqb_refl b : base_eqb b b = true.
Proof. destruct b; simpl; [apply Nat.eqb_refl|done]. Qed.

Lemma ptr_diff_add p n : ptr_diff (ptr_add p n) p = Some n.
Proof. unfold ptr_diff, ptr_add. simpl. rewrite base_eqb_refl. f_equal. lia. Qed.

Lemma ptr_eqb_eq p q : ptr_eqb p q = true ↔ p = q.
Proof.
  destruct p as [bp op], q as [bq oq]. unfold ptr_eqb. simpl.
  rewrite andb_true_iff, Z.eqb_eq. split.
  - intros [Hb ->]. f_equal.
    destruct bp, bq; simpl in Hb; try discriminate; [|done].
    apply Nat.eqb_eq in Hb. by subst.
  - intros [= -> ->]. by rewrite base_eqb_refl.
Qed.

(** ** Blocks of the free store *)

Section HeapFacts.

Context {T : Type}.
Implicit Types (h : Heap T) (blk : Block T).

Lemma get_block_lt h a blk : get_block h a = Some blk → (a < length h)%nat.
Proof.
  unfold get_block. destruct (h !! a) eqn:Hl; [|discriminate].
  intros _. eapply lookup_lt_Some. exact Hl.
Qed.

Lemma get_block_lookup h a blk : get_block h a = Some blk ↔ h !! a = Some (Some blk).
Proof.
  unfold get_block. destruct (h !! a) as [[?|]|]; split; intros H; congruence.
Qed.

Lemma get_block_set_eq h a blk : (a < length h)%nat → get_block (set_block a blk h) a = Some blk.
Proof. intros. unfold get_block, set_block. by rewrite list_lookup_insert_eq. Qed.

Lemma get_block_set_ne h a a' blk : a ≠ a' → get_block (set_block a blk h) a' = get_block h a'.
Proof. intros. unfold get_block, set_block. by rewrite list_lookup_insert_ne. Qed.

Lemma set_block_set h a blk1 blk2 : set_block a blk2 (set_block a blk1 h) = set_block a blk2 h.
Proof. unfold set_block. apply list_insert_insert_eq. Qed.

Lemma set_block_id h a blk : get_block h a = Some blk → set_block a blk h = h.
Proof. rewrite get_block_lookup. unfold set_block. apply list_insert_id. Qed.

Lemma set_block_comm h a a' blk blk' :
  a ≠ a' → set_block a blk (set_block a' blk' h) = set_block a' blk' (set_block a blk h).
Proof. intros. unfold set_block. by apply list_insert_insert_ne. Qed.

Lemma length_set_block h a blk : length (set_block a blk h) = length h.
Proof. apply length_insert. Qed.

Lemma get_block_app_l h k a blk : get_block h a = Some blk → get_block (h ++ k) a = Some blk.
Proof. rewrite !get_block_lookup. apply lookup_app_l_Some. Qed.

Lemma get_block_app_new h blk : get_block (h ++ [Some blk]) (length h) = Some blk.
Proof. rewrite get_block_lookup. by apply list_lookup_middle. Qed.

Lemma get_block_free_ne h a a' : a ≠ a' → get_block (<[a := None]> h) a' = get_block h a'.
Proof. intros. unfold get_block. by rewrite list_lookup_insert_ne. Qed.

Lemma get_block_free_eq h a : get_block (<[a := None]> h) a = None.
Proof.
  unfold get_block. destruct (decide (a < length h)%nat).
  - by rewrite list_lookup_insert_eq.
  - rewrite list_insert_ge by lia. rewrite lookup_ge_None_2 by lia. done.
Qed.

(** Primitive accesses through a pointer into a known block. *)

Lemma slot_at_block h p a (i : nat) blk :
  base p = Some a → off p = Z.of_nat i → get_block h a = Some blk →
  slot_at h p = blk !! i.
Proof.
  intros Hb Ho Hg. unfold slot_at. rewrite Hb, Hg, Ho.
  destruct (0 <=? Z.of_nat i) eqn:Hle; [|lia]. by rewrite Nat2Z.id.
Qed.

Lemma load_block h p a (i : nat) blk v :
  base p = Some a → off p = Z.of_nat i → get_block h a = Some blk →
  blk !! i = Some (Some v) → load p h = Ok v h.
Proof.
  intros Hb Ho Hg Hv. unfold load. by rewrite (slot_at_block h p a i blk), Hv.
Qed.

Lemma write_slot_block h p a (i : nat) blk s :
  base p = Some a → off p = Z.of_nat i → get_block h a = Some blk →
  (i < length blk)%nat →
  write_slot p s h = Ok tt (set_block a (<[i := s]> blk) h).
Proof.
  intros Hb Ho Hg Hi. unfold write_slot.
  rewrite (slot_at_block h p a i blk) by done. rewrite Hb.
  destruct (lookup_lt_is_Some_2 blk i Hi) as [x ->].
  by rewrite Hg, Ho, Nat2Z.id.
Qed.

Lemma construct_at_block h p a (i : nat) blk v :
  base p = Some a → off p = Z.of_nat i → get_block h a = Some blk →
  (i < length blk)%nat →
  construct_at p v h = Ok tt (set_block a (<[i := Some v]> blk) h).
Proof. apply write_slot_block. Qed.

Lemma destroy_at_block h p a (i : nat) blk v :
  base p = Some a → off p = Z.of_nat i → get_block h a = Some blk →
  blk !! i = Some (Some v) →
  destroy_at p h = Ok tt (set_block a (<[i := None]> blk) h).
Proof.
  intros Hb Ho Hg Hv. unfold destroy_at.
  rewrite (bind_Ok _ _ _ _ _ (load_block h p a i blk v Hb Ho Hg Hv)).
  apply write_slot_block; try done. by eapply lookup_lt_Some.
Qed.

Lemma store_block h p a (i : nat) blk v w :
  base p = Some a → off p = Z.of_nat i → get_block h a = Some blk →
  blk !! i = Some (Some v) →
  store p w h = Ok tt (set_block a (<[i := Some w]> blk) h).
Proof.
  intros Hb Ho Hg Hv. unfold store.
  rewrite (bind_Ok _ _ _ _ _ (load_block h p a i blk v Hb Ho Hg Hv)).
  apply write_slot_block; try done. by eapply lookup_lt_Some.
Qed.

End HeapFacts.

(** ** Lists: segments and first failures *)

Section ListFacts.

Context {A : Type}.
Implicit Types (l k pre post : list A).

Lemma list_inserts_middle pre olds post k :
  length olds = length k →
  list_inserts (length pre) k (pre ++ olds ++ post) = pre ++ k ++ post.
Proof.
  intros Hlen.
  replace (length pre) with (length pre + 0)%nat by lia.
  rewrite list_inserts_app_r. f_equal. by apply list_inserts_0_r.
Qed.

Lemma list_inserts_snoc l i k x :
  list_inserts i (k ++ [x]) l = <[(i + length k)%nat := x]> (list_inserts i k l).
Proof. rewrite list_inserts_app_l. simpl. f_equal. lia. Qed.

Lemma list_inserts_insert_first l i k x :
  <[i := x]> (list_inserts (S i) k l) = list_inserts i (x :: k) l.
Proof. reflexivity. Qed.

Lemma list_inserts_same l i k :
  (∀ j x, k !! j = Some x → l !! (i + j)%nat = Some x) →
  list_inserts i k l = l.
Proof.
  revert i. induction k as [|y k IH]; intros i Hk; simpl; [done|].
  rewrite IH.
  - apply list_insert_id. specialize (Hk 0%nat y). rewrite Nat.add_0_r in Hk. by apply Hk.
  - intros j x Hj. replace (S i + j)%nat with (i + S j)%nat by lia. by apply Hk.
Qed.

Lemma list_inserts_take_S {B} (g : B → A) l i (ys : list B) n y :
  ys !! n = Some y →
  <[(i + n)%nat := g y]> (list_inserts i (g <$> take n ys) l)
  = list_inserts i (g <$> take (S n) ys) l.
Proof.
  intros Hn. rewrite (take_S_r ys n y Hn), fmap_app. simpl.
  rewrite list_inserts_snoc, length_fmap, length_take_le; [done|].
  apply lookup_lt_Some in Hn. lia.
Qed.

(** The first element of a list on which a test fails. *)
Lemma first_failure (f : A → bool) l :
  forallb f l = false →
  ∃ l1 x l2, l = l1 ++ x :: l2 ∧ forallb f l1 = true ∧ f x = false.
Proof.
  induction l as [|y l IH]; simpl; [discriminate|].
  destruct (f y) eqn:Hy; simpl.
  - intros H. destruct (IH H) as (l1 & x & l2 & -> & H1 & Hx).
    exists (y :: l1), x, l2. simpl. by rewrite Hy, H1.
  - intros _. by exists [], y, l.
Qed.

Lemma forallb_lookup (f : A → bool) l i x :
  forallb f l = true → l !! i = Some x → f x = true.
Proof.
  intros H Hi. rewrite forallb_forall in H. apply H.
  apply list_elem_of_In. by eapply list_elem_of_lookup_2.
Qed.

(** No element of [l] makes the operation whose failures [throws] describes
    throw. *)
Definition none_throws (throws : A → bool) l : bool :=
  forallb (λ x, negb (throws x)) l.

Lemma none_throws_lookup throws l i x :
  none_throws throws l = true → l !! i = Some x → throws x = false.
Proof.
  intros H Hi. apply negb_true_iff.
  by apply (forallb_lookup (λ x, negb (throws x)) l i x).
Qed.

Lemma first_throw throws l :
  none_throws throws l = false →
  ∃ l1 x l2, l = l1 ++ x :: l2 ∧ none_throws throws l1 = true ∧ throws x = true.
Proof.
  intros H. destruct (first_failure _ _ H) as (l1 & x & l2 & ? & ? & Hx).
  apply negb_false_iff in Hx. by exists l1, x, l2.
Qed.

Lemma none_throws_app throws l1 l2 :
  none_throws throws (l1 ++ l2) = none_throws throws l1 && none_throws throws l2.
Proof. apply forallb_app. Qed.

End ListFacts.

(** ** The standard algorithms on blocks *)

Section Algorithms.

Context {T : Type} (E : Traits T).
Implicit Types (h : Heap T) (blk src dst : Block T) (xs : list T).

(** [std::destroy_n] over [n] live objects turns their slots into raw
    storage. *)
Lemma destroy_loop_block n : ∀ h p a i blk,
  base p = Some a → off p = Z.of_nat i → get_block h a = Some blk →
  (∀ k, (k < n)%nat → ∃ v, blk !! (i + k)%nat = Some (Some v)) →
  destroy_loop p n h = Ok tt (set_block a (list_inserts i (replicate n None) blk) h).
Proof.
  induction n as [|n IH]; intros h p a i blk Hb Ho Hg Hlive; simpl.
  - unfold ret. by rewrite set_block_id.
  - destruct (Hlive 0%nat) as [v Hv]; [lia|]. rewrite Nat.add_0_r in Hv.
    erewrite bind_Ok by (eapply destroy_at_block; eauto).
    rewrite (IH _ _ a (S i) (<[i := None]> blk)).
    + rewrite set_block_set. do 2 f_equal. simpl.
      by rewrite <- list_insert_inserts_lt by lia.
    + done.
    + simpl. lia.
    + apply get_block_set_eq. by eapply get_block_lt.
    + intros k Hk. destruct (Hlive (S k)) as [w Hw]; [lia|].
      exists w. rewrite list_lookup_insert_ne by lia.
      by replace (S i + k)%nat with (i + S k)%nat by lia.
Qed.

Lemma destroy_n_block h p a i blk (n : nat) :
  base p = Some a → off p = Z.of_nat i → get_block h a = Some blk →
  (∀ k, (k < n)%nat → ∃ v, blk !! (i + k)%nat = Some (Some v)) →
  destroy_n p (Z.of_nat n) h = Ok tt (set_block a (list_inserts i (replicate n None) blk) h).
Proof. intros. unfold destroy_n. rewrite Nat2Z.id. by apply destroy_loop_block. Qed.

(** The loop of the [uninitialized] algorithms along a known sequence of
    stores. *)
Lemma uninitialized_loop_Ok f d (H : nat → Heap T) n : ∀ done,
  (∀ k, (done ≤ k < done + n)%nat → f (Z.of_nat k) (H k) = Ok tt (H (S k))) →
  uninitialized_loop f d done n (H done) = Ok tt (H (done + n)%nat).
Proof.
  induction n as [|n IH]; intros done Hstep; simpl.
  - unfold ret. by rewrite Nat.add_0_r.
  - erewrite bind_Ok by (apply try_catch_Ok, Hstep; lia).
    rewrite IH; [by rewrite Nat.add_succ_r|].
    intros k Hk. apply Hstep. lia.
Qed.

Lemma uninitialized_loop_fails f d (H : nat → Heap T) n m : ∀ done,
  (done ≤ m < done + n)%nat →
  (∀ k, (done ≤ k < m)%nat → f (Z.of_nat k) (H k) = Ok tt (H (S k))) →
  succeeds (f (Z.of_nat m) (H m)) = false →
  succeeds (uninitialized_loop f d done n (H done)) = false.
Proof.
  induction n as [|n IH]; intros done Hm Hstep Hfail; simpl; [lia|].
  destruct (decide (done = m)) as [->|Hne].
  - by apply bind_fails, try_catch_fails.
  - erewrite bind_Ok by (apply try_catch_Ok, Hstep; lia).
    apply IH; [lia| |done]. intros k Hk. apply Hstep. lia.
Qed.

Lemma uninitialized_loop_Throw f d (H : nat → Heap T) n m hr : ∀ done,
  (done ≤ m < done + n)%nat →
  (∀ k, (done ≤ k < m)%nat → f (Z.of_nat k) (H k) = Ok tt (H (S k))) →
  f (Z.of_nat m) (H m) = Throw (H m) →
  destroy_loop d m (H m) = Ok tt hr →
  uninitialized_loop f d done n (H done) = Throw hr.
Proof.
  induction n as [|n IH]; intros done Hm Hstep Hthrow Hroll; simpl; [lia|].
  destruct (decide (done = m)) as [->|Hne].
  - unfold bind, try_catch_rethrow. by rewrite Hthrow, Hroll.
  - erewrite bind_Ok by (apply try_catch_Ok, Hstep; lia).
    apply IH; [lia| |done|done]. intros k Hk. apply Hstep. lia.
Qed.

End Algorithms.

(** Relocation of a run of live objects [xs], found from slot [i] of the
    block at [a], into the slots from [j] on of another block at [a']. *)

Section Relocation.

Context {T : Type} (E : Traits T).
Variables (h : Heap T) (first d_first : Ptr) (a a' i j : nat).
Variables (src dst : Block T) (xs : list T).
Hypothesis Hne : a ≠ a'.
Hypothesis Hfb : base first = Some a.
Hypothesis Hfo : off first = Z.of_nat i.
Hypothesis Hdb : base d_first = Some a'.
Hypothesis Hdo : off d_first = Z.of_nat j.
Hypothesis Hsrc : get_block h a = Some src.
Hypothesis Hdst : get_block h a' = Some dst.
Hypothesis Hxs : ∀ k x, xs !! k = Some x → src !! (i + k)%nat = Some (Some x).
Hypothesis Hroom : (j + length xs ≤ length dst)%nat.

Definition copied (k : nat) : Heap T :=
  set_block a' (list_inserts j (Some <$> take k xs) dst) h.

Definition moved (k : nat) : Heap T :=
  set_block a' (list_inserts j (Some <$> take k xs) dst)
    (set_block a (list_inserts i (Some ∘ moved_from E <$> take k xs) src) h).

Lemma copied_0 : copied 0 = h.
Proof. unfold copied. simpl. by apply set_block_id. Qed.

Lemma moved_0 : moved 0 = h.
Proof. unfold moved. simpl. rewrite (set_block_id h a) by done. by apply set_block_id. Qed.

Lemma copy_step k x :
  xs !! k = Some x → copy_throws E x = false →
  copy_construct_at E (ptr_add d_first (Z.of_nat k)) (ptr_add first (Z.of_nat k)) (copied k)
  = Ok tt (copied (S k)).
Proof.
  intros Hk Hx. unfold copy_construct_at.
  assert (a' < length h)%nat as Hlt by (by eapply get_block_lt).
  assert (k < length xs)%nat as Hklt by (by eapply lookup_lt_Some).
  erewrite bind_Ok; cycle 1.
  { eapply (load_block _ _ a (i + k)%nat src x); simpl; [done|lia| |by apply Hxs].
    unfold copied. by rewrite get_block_set_ne. }
  rewrite Hx.
  rewrite (construct_at_block _ _ a' (j + k)%nat
             (list_inserts j (Some <$> take k xs) dst)); simpl; [|done|lia| |].
  - unfold copied. rewrite set_block_set. do 2 f_equal.
    by apply list_inserts_take_S.
  - unfold copied. by apply get_block_set_eq.
  - rewrite length_inserts. lia.
Qed.

Lemma copy_step_throws k x :
  xs !! k = Some x → copy_throws E x = true →
  copy_construct_at E (ptr_add d_first (Z.of_nat k)) (ptr_add first (Z.of_nat k)) (copied k)
  = Throw (copied k).
Proof.
  intros Hk Hx. unfold copy_construct_at.
  erewrite bind_Ok; cycle 1.
  { eapply (load_block _ _ a (i + k)%nat src x); simpl; [done|lia| |by apply Hxs].
    unfold copied. by rewrite get_block_set_ne. }
  by rewrite Hx.
Qed.

Lemma moved_src k : get_block (moved k) a = Some (list_inserts i (Some ∘ moved_from E <$> take k xs) src).
Proof.
  unfold moved. rewrite get_block_set_ne by done.
  apply get_block_set_eq. by eapply get_block_lt.
Qed.

Lemma moved_src_lookup k x :
  xs !! k = Some x →
  list_inserts i (Some ∘ moved_from E <$> take k xs) src !! (i + k)%nat = Some (Some x).
Proof.
  intros Hk. rewrite list_lookup_inserts_ge; [by apply Hxs|].
  rewrite length_fmap, length_take. lia.
Qed.

Lemma move_step k x :
  xs !! k = Some x → move_throws E x = false →
  move_construct_at E (ptr_add d_first (Z.of_nat k)) (ptr_add first (Z.of_nat k)) (moved k)
  = Ok tt (moved (S k)).
Proof.
  intros Hk Hx. unfold move_construct_at.
  assert (a' < length h)%nat as Hlt' by (by eapply get_block_lt).
  assert (a < length h)%nat as Hlt by (by eapply get_block_lt).
  assert (k < length xs)%nat as Hklt by (by eapply lookup_lt_Some).
  erewrite bind_Ok; cycle 1.
  { eapply (load_block _ _ a (i + k)%nat _ x); simpl; [done|lia|apply moved_src|].
    by apply moved_src_lookup. }
  rewrite Hx.
  erewrite bind_Ok; cycle 1.
  { eapply (construct_at_block _ _ a' (j + k)%nat
              (list_inserts j (Some <$> take k xs) dst)); simpl; [done|lia| |].
    - unfold moved. apply get_block_set_eq. by rewrite length_set_block.
    - rewrite length_inserts. lia. }
  rewrite (store_block _ _ a (i + k)%nat
             (list_inserts i (Some ∘ moved_from E <$> take k xs) src) x);
    simpl; [|done|lia| |by apply moved_src_lookup].
  - unfold moved. rewrite !set_block_set.
    rewrite (set_block_comm _ a a') by done. rewrite set_block_set.
    pose proof (list_inserts_take_S (Some ∘ moved_from E) src i xs k x Hk) as Hs.
    unfold compose at 1 in Hs. rewrite Hs.
    by rewrite (list_inserts_take_S Some dst j xs k x) by done.
  - rewrite get_block_set_ne by done. unfold moved. rewrite get_block_set_ne by done.
    apply get_block_set_eq. done.
Qed.

Lemma move_step_fails k x :
  xs !! k = Some x → move_throws E x = true →
  succeeds (move_construct_at E (ptr_add d_first (Z.of_nat k)) (ptr_add first (Z.of_nat k))
              (moved k)) = false.
Proof.
  intros Hk Hx. unfold move_construct_at.
  erewrite bind_Ok; cycle 1.
  { eapply (load_block _ _ a (i + k)%nat _ x); simpl; [done|lia|apply moved_src|].
    by apply moved_src_lookup. }
  by rewrite Hx.
Qed.

(** [std::uninitialized_copy_n]: all copies succeed, and the destination
    holds the run. *)
Lemma uninitialized_copy_n_Ok :
  none_throws (copy_throws E) xs = true →
  uninitialized_copy_n E first (Z.of_nat (length xs)) d_first h
  = Ok tt (set_block a' (list_inserts j (Some <$> xs) dst) h).
Proof.
  intros Hall. unfold uninitialized_copy_n. rewrite Nat2Z.id.
  rewrite <- copied_0 at 1.
  rewrite (uninitialized_loop_Ok _ _ copied).
  - unfold copied. simpl. by rewrite firstn_all.
  - intros k Hk. destruct (lookup_lt_is_Some_2 xs k) as [x Hx]; [lia|].
    apply (copy_step k x Hx). by eapply none_throws_lookup.
Qed.

Lemma first_throw_at throws :
  none_throws throws xs = false →
  ∃ m x, xs !! m = Some x ∧ throws x = true ∧
         ∀ k y, (k < m)%nat → xs !! k = Some y → throws y = false.
Proof.
  intros Hall. destruct (first_throw _ _ Hall) as (l1 & x & l2 & Hsplit & Hl1 & Hx).
  exists (length l1), x. split; [|split; [done|]].
  - rewrite Hsplit. by apply list_lookup_middle.
  - intros k y Hk Hy. eapply (none_throws_lookup _ l1 k y); [done|].
    rewrite Hsplit in Hy. by rewrite lookup_app_l in Hy by lia.
Qed.

(** [std::uninitialized_copy_n] into raw storage: a copy throws, the objects
    constructed so far are destroyed, and the store is as it was. *)
Lemma uninitialized_copy_n_Throw :
  (∀ k, (k < length xs)%nat → dst !! (j + k)%nat = Some None) →
  none_throws (copy_throws E) xs = false →
  uninitialized_copy_n E first (Z.of_nat (length xs)) d_first h = Throw h.
Proof.
  intros Hraw Hall. unfold uninitialized_copy_n. rewrite Nat2Z.id.
  destruct (first_throw_at _ Hall) as (m & x & Hlook & Hx & Hbefore).
  assert (m < length xs)%nat as Hlt by (by eapply lookup_lt_Some).
  rewrite <- copied_0 at 1.
  apply (uninitialized_loop_Throw _ _ copied _ m); [lia| | |].
  - intros k Hk. destruct (lookup_lt_is_Some_2 xs k) as [y Hy]; [lia|].
    apply (copy_step k y Hy). apply (Hbefore k y); [lia|done].
  - by apply (copy_step_throws m x).
  - assert (a' < length h)%nat as Hlt' by (by eapply get_block_lt).
    rewrite (destroy_loop_block _ _ _ a' j (list_inserts j (Some <$> take m xs) dst)).
    + unfold copied. rewrite set_block_set. f_equal.
      rewrite <- (set_block_id h a' dst) at 2 by done. f_equal.
      apply list_eq. intros n.
      destruct (decide (n < j)%nat).
      { by rewrite !list_lookup_inserts_lt by lia. }
      destruct (decide (j + m ≤ n)%nat).
      { rewrite !list_lookup_inserts_ge; [done| |];
          rewrite ?length_replicate, ?length_fmap, ?length_take; lia. }
      rewrite list_lookup_inserts;
        rewrite ?length_replicate, ?length_inserts; [|lia|lia].
      rewrite lookup_replicate_2 by lia.
      replace n with (j + (n - j))%nat at 1 by lia. symmetry. apply Hraw. lia.
    + done.
    + done.
    + unfold copied. by apply get_block_set_eq.
    + intros k Hk. destruct (lookup_lt_is_Some_2 xs k) as [y Hy]; [lia|].
      exists y. rewrite list_lookup_inserts;
        rewrite ?length_fmap, ?length_take; [|lia|lia].
      replace (j + k - j)%nat with k by lia.
      rewrite list_lookup_fmap, lookup_take_lt by lia. by rewrite Hy.
Qed.

(** [std::uninitialized_move_n]: the destination holds the run, the source
    objects are moved-from. *)
Lemma uninitialized_move_n_Ok :
  none_throws (move_throws E) xs = true →
  uninitialized_move_n E first (Z.of_nat (length xs)) d_first h
  = Ok tt (set_block a' (list_inserts j (Some <$> xs) dst)
             (set_block a (list_inserts i (Some ∘ moved_from E <$> xs) src) h)).
Proof.
  intros Hall. unfold uninitialized_move_n. rewrite Nat2Z.id.
  rewrite <- moved_0 at 1.
  rewrite (uninitialized_loop_Ok _ _ moved).
  - unfold moved. simpl. by rewrite firstn_all.
  - intros k Hk. destruct (lookup_lt_is_Some_2 xs k) as [x Hx]; [lia|].
    apply (move_step k x Hx). by eapply none_throws_lookup.
Qed.

Lemma uninitialized_move_n_fails :
  none_throws (move_throws E) xs = false →
  succeeds (uninitialized_move_n E first (Z.of_nat (length xs)) d_first h) = false.
Proof.
  intros Hall. unfold uninitialized_move_n. rewrite Nat2Z.id.
  destruct (first_throw_at _ Hall) as (m & x & Hlook & Hx & Hbefore).
  assert (m < length xs)%nat as Hlt by (by eapply lookup_lt_Some).
  rewrite <- moved_0 at 1.
  apply (uninitialized_loop_fails _ _ moved _ m); [lia| |].
  - intros k Hk. destruct (lookup_lt_is_Some_2 xs k) as [y Hy]; [lia|].
    apply (move_step k y Hy). apply (Hbefore k y); [lia|done].
  - by apply (move_step_fails m x).
Qed.

Lemma uninitialized_copy_n_fails :
  none_throws (copy_throws E) xs = false →
  succeeds (uninitialized_copy_n E first (Z.of_nat (length xs)) d_first h) = false.
Proof.
  intros Hall. unfold uninitialized_copy_n. rewrite Nat2Z.id.
  destruct (first_throw_at _ Hall) as (m & x & Hlook & Hx & Hbefore).
  assert (m < length xs)%nat as Hlt by (by eapply lookup_lt_Some).
  rewrite <- copied_0 at 1.
  apply (uninitialized_loop_fails _ _ copied _ m); [lia| |].
  - intros k Hk. destruct (lookup_lt_is_Some_2 xs k) as [y Hy]; [lia|].
    apply (copy_step k y Hy). apply (Hbefore k y); [lia|done].
  - by rewrite (copy_step_throws m x).
Qed.

End Relocation.

(** Value-initialisation of a run of slots, and the shifts of a run of live
    objects by one slot inside its block. *)

Section InPlace.

Context {T : Type} (E : Traits T).
Implicit Types (h : Heap T) (blk pre post : Block T) (l xs : list T).

Lemma insert_at_middle {A} (l1 l2 : list A) x s :
  <[length l1 := s]> (l1 ++ x :: l2) = l1 ++ s :: l2.
Proof. rewrite insert_app_r_alt by lia. by rewrite Nat.sub_diag. Qed.

Lemma insert_after_middle {A} (l1 l2 : list A) x y s :
  <[S (length l1) := s]> (l1 ++ x :: y :: l2) = l1 ++ x :: s :: l2.
Proof.
  rewrite insert_app_r_alt by lia.
  by replace (S (length l1) - length l1)%nat with 1%nat by lia.
Qed.

Lemma lookup_after_middle {A} (l1 l2 : list A) x y :
  (l1 ++ x :: y :: l2) !! S (length l1) = Some y.
Proof.
  rewrite lookup_app_r by lia.
  by replace (S (length l1) - length l1)%nat with 1%nat by lia.
Qed.

Lemma uninitialized_value_construct_n_Ok h p a i blk (n : nat) v0 :
  base p = Some a → off p = Z.of_nat i → get_block h a = Some blk →
  (i + n ≤ length blk)%nat → value_init E = Some v0 →
  uninitialized_value_construct_n E p (Z.of_nat n) h
  = Ok tt (set_block a (list_inserts i (replicate n (Some v0)) blk) h).
Proof.
  intros Hb Ho Hg Hroom Hv. unfold uninitialized_value_construct_n. rewrite Nat2Z.id.
  pose (H := λ k : nat, set_block a (list_inserts i (replicate k (Some v0)) blk) h).
  assert (H 0%nat = h) as H0 by (by apply set_block_id).
  rewrite <- H0 at 1. rewrite (uninitialized_loop_Ok _ _ H); [done|].
  intros k Hk. unfold value_construct_at. rewrite Hv.
  rewrite (construct_at_block _ _ a (i + k)%nat (list_inserts i (replicate k (Some v0)) blk));
    simpl; [|done|lia| |].
  - unfold H. rewrite set_block_set. do 2 f_equal.
    rewrite replicate_S_end, list_inserts_snoc. by rewrite length_replicate.
  - unfold H. apply get_block_set_eq. by eapply get_block_lt.
  - rewrite length_inserts. lia.
Qed.

Lemma uninitialized_value_construct_n_Throw h p (n : nat) :
  value_init E = None → (0 < n)%nat →
  uninitialized_value_construct_n E p (Z.of_nat n) h = Throw h.
Proof.
  intros Hv Hn. unfold uninitialized_value_construct_n. rewrite Nat2Z.id.
  destruct n as [|n]; [lia|]. simpl.
  unfold bind, try_catch_rethrow, value_construct_at. by rewrite Hv.
Qed.

Lemma uninitialized_value_construct_n_0 h p :
  uninitialized_value_construct_n E p 0 h = Ok tt h.
Proof. reflexivity. Qed.

(** What the slot left behind by a shift holds: the moved-from state of the
    last object moved, or the old value when nothing moved. *)
Fixpoint residual_front (y : T) (l : list T) : T :=
  match l with
  | [] => y
  | z :: l' => residual_front (moved_from E z) l'
  end.

Definition residual_back (y : T) (l : list T) : T :=
  match l with
  | [] => y
  | w :: _ => moved_from E w
  end.

Lemma move_assign_at_adjacent h a pre post y z dst src :
  base dst = Some a → base src = Some a →
  get_block h a = Some (pre ++ Some y :: Some z :: post) →
  (off dst = Z.of_nat (length pre) ∧ off src = Z.of_nat (S (length pre)) →
   move_assign_throws E z = false →
   move_assign_at E dst src h
   = Ok tt (set_block a (pre ++ Some z :: Some (moved_from E z) :: post) h)) ∧
  (off dst = Z.of_nat (S (length pre)) ∧ off src = Z.of_nat (length pre) →
   move_assign_throws E y = false →
   move_assign_at E dst src h
   = Ok tt (set_block a (pre ++ Some (moved_from E y) :: Some y :: post) h)) ∧
  (off dst = Z.of_nat (length pre) ∧ off src = Z.of_nat (S (length pre)) →
   move_assign_throws E z = true → succeeds (move_assign_at E dst src h) = false) ∧
  (off dst = Z.of_nat (S (length pre)) ∧ off src = Z.of_nat (length pre) →
   move_assign_throws E y = true → succeeds (move_assign_at E dst src h) = false).
Proof.
  intros Hdb Hsb Hg.
  assert (a < length h)%nat as Hlt by (by eapply get_block_lt).
  assert (length (pre ++ Some z :: Some z :: post) = length (pre ++ Some y :: Some z :: post))
    as Hlen1 by (rewrite !length_app; done).
  repeat split; intros [Hdo Hso] Hthrow; unfold move_assign_at.
  - erewrite bind_Ok by (eapply load_block; eauto using lookup_after_middle).
    erewrite bind_Ok by (eapply load_block; eauto using list_lookup_middle).
    rewrite Hthrow.
    erewrite bind_Ok by (eapply store_block; eauto using list_lookup_middle).
    rewrite insert_at_middle.
    erewrite store_block; [|done|done|by apply get_block_set_eq|apply lookup_after_middle].
    by rewrite set_block_set, insert_after_middle.
  - erewrite bind_Ok by (eapply load_block; eauto using list_lookup_middle).
    erewrite bind_Ok by (eapply load_block; eauto using lookup_after_middle).
    rewrite Hthrow.
    erewrite bind_Ok by (eapply store_block; eauto using lookup_after_middle).
    rewrite insert_after_middle.
    erewrite store_block; [|done|done|by apply get_block_set_eq|by apply list_lookup_middle].
    by rewrite set_block_set, insert_at_middle.
  - erewrite bind_Ok by (eapply load_block; eauto using lookup_after_middle).
    erewrite bind_Ok by (eapply load_block; eauto using list_lookup_middle).
    by rewrite Hthrow.
  - erewrite bind_Ok by (eapply load_block; eauto using list_lookup_middle).
    erewrite bind_Ok by (eapply load_block; eauto using lookup_after_middle).
    by rewrite Hthrow.
Qed.

(** [std::move] of the run [l] one slot towards the front. *)
Lemma move_loop_shift a l : ∀ h pre post y first d_first,
  base first = Some a → off first = Z.of_nat (S (length pre)) →
  base d_first = Some a → off d_first = Z.of_nat (length pre) →
  get_block h a = Some (pre ++ Some y :: (Some <$> l) ++ post) →
  (none_throws (move_assign_throws E) l = true →
   move_loop E first d_first (length l) h
   = Ok tt (set_block a (pre ++ (Some <$> l) ++ Some (residual_front y l) :: post) h)) ∧
  (none_throws (move_assign_throws E) l = false →
   succeeds (move_loop E first d_first (length l) h) = false).
Proof.
  induction l as [|z l IH]; intros h pre post y first d_first Hfb Hfo Hdb Hdo Hg.
  - split; [|discriminate]. intros _. simpl. unfold ret. by rewrite set_block_id.
  - simpl in Hg.
    destruct (move_assign_at_adjacent h a pre ((Some <$> l) ++ post) y z d_first first
                Hdb Hfb Hg) as (Hok & _ & Hfail & _).
    unfold none_throws. simpl. fold (none_throws (move_assign_throws E) l).
    destruct (move_assign_throws E z) eqn:Hz; simpl.
    + split; [discriminate|]. intros _. by apply bind_fails, Hfail.
    + erewrite bind_Ok by (by apply Hok).
      destruct (IH (set_block a (pre ++ Some z :: Some (moved_from E z) :: (Some <$> l) ++ post) h)
                  (pre ++ [Some z]) post (moved_from E z) (ptr_add first 1) (ptr_add d_first 1))
        as [IHok IHfail].
      * done.
      * simpl. rewrite length_app. simpl. lia.
      * done.
      * simpl. rewrite length_app. simpl. lia.
      * rewrite <- app_assoc. simpl. apply get_block_set_eq. by eapply get_block_lt.
      * split; [|done]. intros Hl. rewrite IHok by done.
        rewrite set_block_set. by rewrite <- app_assoc.
Qed.

Lemma residual_back_snoc y l z :
  residual_back y (l ++ [z]) = residual_back (moved_from E z) l.
Proof. by destruct l. Qed.

(** [std::move_backward] of the run [l] one slot towards the back. *)
Lemma move_backward_loop_shift a l : ∀ h pre post y last d_last,
  base last = Some a → off last = Z.of_nat (length pre + length l) →
  base d_last = Some a → off d_last = Z.of_nat (S (length pre + length l)) →
  get_block h a = Some (pre ++ (Some <$> l) ++ Some y :: post) →
  (none_throws (move_assign_throws E) l = true →
   move_backward_loop E last d_last (length l) h
   = Ok tt (set_block a (pre ++ Some (residual_back y l) :: (Some <$> l) ++ post) h)) ∧
  (none_throws (move_assign_throws E) l = false →
   succeeds (move_backward_loop E last d_last (length l) h) = false).
Proof.
  induction l as [|z l IH] using rev_ind;
    intros h pre post y last d_last Hlb Hlo Hdb Hdo Hg.
  - split; [|discriminate]. intros _. simpl. unfold ret. by rewrite set_block_id.
  - rewrite fmap_app in Hg. simpl in Hg.
    rewrite <- app_assoc in Hg. simpl in Hg. rewrite app_assoc in Hg.
    rewrite length_app in Hlo, Hdo. simpl in Hlo, Hdo.
    destruct (move_assign_at_adjacent h a (pre ++ (Some <$> l)) post z y
                (ptr_add d_last (-1)) (ptr_add last (-1)) Hdb Hlb Hg)
      as (_ & Hok & _ & Hfail).
    assert (off (ptr_add d_last (-1)) = Z.of_nat (S (length (pre ++ (Some <$> l)))) ∧
            off (ptr_add last (-1)) = Z.of_nat (length (pre ++ (Some <$> l)))) as Hoffs.
    { simpl. rewrite length_app, length_fmap. lia. }
    rewrite none_throws_app. unfold none_throws at 2 4. simpl.
    rewrite length_app, Nat.add_1_r. simpl.
    destruct (move_assign_throws E z) eqn:Hz; simpl.
    + rewrite andb_false_r. split; [discriminate|]. intros _. by apply bind_fails, Hfail.
    + rewrite andb_true_r. erewrite bind_Ok by (by apply Hok).
      destruct (IH (set_block a ((pre ++ (Some <$> l)) ++ Some (moved_from E z) :: Some z :: post) h)
                  pre (Some z :: post) (moved_from E z)
                  (ptr_add last (-1)) (ptr_add d_last (-1)))
        as [IHok IHfail].
      * done.
      * simpl. lia.
      * done.
      * simpl. lia.
      * rewrite <- app_assoc. apply get_block_set_eq. by eapply get_block_lt.
      * split; [|done]. intros Hl. rewrite IHok by done.
        rewrite set_block_set, residual_back_snoc, fmap_app. simpl.
        by rewrite <- !app_assoc.
Qed.

End InPlace.

(** ** The container and the sequence it holds *)

Definition is_live {T} (s : option T) : bool :=
  match s with
  | Some _ => true
  | None => false
  end.

Definition is_raw {T} (s : option T) : bool := negb (is_live s).

(** The structural invariant: [0 ≤ size_ ≤ Capacity()], [buffer_] is null or
    the start of a block of [Capacity()] slots, those below [size_] hold live
    objects and the others are raw. *)
Definition invariant {T} (st : State T) : bool :=
  let v := this st in
  (0 <=? size_ v) && (size_ v <=? Capacity v) &&
  (off (buffer_ (data_ v)) =? 0) &&
  match base (buffer_ (data_ v)) with
  | None => Capacity v =? 0
  | Some a =>
      match get_block (mem st) a with
      | Some blk =>
          (Z.of_nat (length blk) =? Capacity v) &&
          forallb is_live (take (Z.to_nat (size_ v)) blk) &&
          forallb is_raw (drop (Z.to_nat (size_ v)) blk)
      | None => false
      end
  end.

(** The storage of an object is at most [PTRDIFF_MAX] bytes; the allocator
    grants no more, and an element occupies at least one byte. *)
Definition sane {T} (E : Traits T) : Prop :=
  0 < sizeof_T E ≤ PTRDIFF_MAX ∧
  ∀ bytes, can_alloc E bytes = true → 0 ≤ bytes ≤ PTRDIFF_MAX.

Definition well_formed {T} (E : Traits T) (st : State T) : Prop :=
  invariant st = true ∧ Capacity (this st) * sizeof_T E ≤ PTRDIFF_MAX.

Definition vec (buffer : Ptr) (capacity size : Z) : Vector :=
  mkVector (mkRawMemory buffer capacity) size.

Section Representation.

Context {T : Type} (E : Traits T).
Implicit Types (h : Heap T) (v : Vector) (xs ys : list T) (blk : Block T).

(** A block of [cap] slots holding [xs] in front. *)
Definition block_of xs (cap : nat) : Block T :=
  (Some <$> xs) ++ replicate (cap - length xs) None.

(** The container [v] holds the sequence [xs] in the store [h]. *)
Definition holds h v xs : Prop :=
  size_ v = Z.of_nat (length xs) ∧
  size_ v ≤ Capacity v ∧
  Capacity v * sizeof_T E ≤ PTRDIFF_MAX ∧
  off (buffer_ (data_ v)) = 0 ∧
  match base (buffer_ (data_ v)) with
  | None => Capacity v = 0
  | Some a => get_block h a = Some (block_of xs (Z.to_nat (Capacity v)))
  end.

Lemma length_block_of xs cap : (length xs ≤ cap)%nat → length (block_of xs cap) = cap.
Proof. intros. unfold block_of. rewrite length_app, length_fmap, length_replicate. lia. Qed.

Lemma block_of_live xs cap k x : xs !! k = Some x → block_of xs cap !! k = Some (Some x).
Proof.
  intros Hk. unfold block_of. apply lookup_app_l_Some.
  by rewrite list_lookup_fmap, Hk.
Qed.

Lemma block_of_raw xs cap k :
  (length xs ≤ k < cap)%nat → block_of xs cap !! k = Some None.
Proof.
  intros Hk. unfold block_of. rewrite lookup_app_r by (rewrite length_fmap; lia).
  apply lookup_replicate_2. rewrite length_fmap. lia.
Qed.

Lemma block_of_nil cap : block_of [] cap = replicate cap None.
Proof. unfold block_of. simpl. by rewrite Nat.sub_0_r. Qed.

Lemma list_inserts_raw xs cap :
  (length xs ≤ cap)%nat →
  list_inserts 0 (Some <$> xs) (replicate cap None) = block_of xs cap.
Proof.
  intros Hle. unfold block_of.
  replace cap with (length xs + (cap - length xs))%nat at 1 by lia.
  rewrite replicate_add. apply list_inserts_0_r.
  by rewrite length_fmap, length_replicate.
Qed.

Lemma block_of_app xs ys cap :
  (length xs + length ys ≤ cap)%nat →
  block_of (xs ++ ys) cap
  = (Some <$> xs) ++ (Some <$> ys) ++ replicate (cap - length xs - length ys) None.
Proof.
  intros. unfold block_of. rewrite fmap_app, <- app_assoc, length_app.
  do 3 f_equal. lia.
Qed.

(** A run inserted over raw slots at the end of the live prefix. *)
Lemma list_inserts_block_of xs ys cap :
  (length xs + length ys ≤ cap)%nat →
  list_inserts (length xs) (Some <$> ys) (block_of xs cap) = block_of (xs ++ ys) cap.
Proof.
  intros Hle. rewrite block_of_app by done. unfold block_of.
  assert (replicate (cap - length xs) (@None T)
          = replicate (length ys) None ++ replicate (cap - length xs - length ys) None) as ->.
  { rewrite <- replicate_add. f_equal. lia. }
  rewrite <- (length_fmap Some xs) at 1.
  apply list_inserts_middle. by rewrite length_replicate, length_fmap.
Qed.

(** Destroying the objects from index [n] on. *)
Lemma list_inserts_destroyed xs cap n :
  (n ≤ length xs)%nat → (length xs ≤ cap)%nat →
  list_inserts n (replicate (length xs - n) None) (block_of xs cap) = block_of (take n xs) cap.
Proof.
  intros Hn Hcap. apply list_eq. intros k.
  destruct (decide (k < n)%nat).
  - rewrite list_lookup_inserts_lt by done.
    destruct (lookup_lt_is_Some_2 xs k) as [x Hx]; [lia|].
    rewrite (block_of_live xs cap k x Hx). symmetry. apply block_of_live.
    by rewrite lookup_take_lt.
  - destruct (decide (k < cap)%nat).
    + rewrite (block_of_raw (take n xs)) by (rewrite length_take; lia).
      destruct (decide (k < length xs)%nat).
      * rewrite list_lookup_inserts by
          (rewrite ?length_replicate, ?length_block_of; lia).
        apply lookup_replicate_2. lia.
      * rewrite list_lookup_inserts_ge by (rewrite length_replicate; lia).
        apply block_of_raw. lia.
    + rewrite !lookup_ge_None_2; [done| |].
      * rewrite length_block_of; [lia|]. rewrite length_take. lia.
      * rewrite length_inserts, length_block_of; lia.
Qed.

Lemma read_range_block h a xs : ∀ pre post p,
  base p = Some a → off p = Z.of_nat (length pre) →
  get_block h a = Some (pre ++ (Some <$> xs) ++ post) →
  read_range h p (length xs) = Some xs.
Proof.
  induction xs as [|x xs IH]; intros pre post p Hb Ho Hg; simpl; [done|].
  rewrite fmap_cons in Hg. simpl in Hg.
  rewrite (slot_at_block h p a (length pre) _ Hb Ho Hg).
  rewrite list_lookup_middle by done.
  rewrite (IH (pre ++ [Some x]) post).
  - done.
  - done.
  - simpl. rewrite length_app. simpl. lia.
  - by rewrite <- app_assoc.
Qed.

Lemma holds_elements h v xs : holds h v xs → elements (mkState v h) = Some xs.
Proof.
  intros (Hsz & Hle & Hbytes & Hoff & Hblk). unfold elements. simpl.
  rewrite Hsz, Nat2Z.id.
  destruct (base (buffer_ (data_ v))) as [a|] eqn:Hb.
  - apply (read_range_block h a xs [] (replicate (Z.to_nat (Capacity v) - length xs) None));
      [done|exact Hoff|done].
  - assert (length xs = 0)%nat as Hnil by lia.
    destruct xs; [done|discriminate].
Qed.

Lemma forallb_live_block blk :
  forallb is_live blk = true → ∃ xs, blk = Some <$> xs.
Proof.
  induction blk as [|[x|] blk IH]; simpl; intros H.
  - by exists [].
  - destruct (IH H) as [xs ->]. by exists (x :: xs).
  - discriminate.
Qed.

Lemma forallb_raw_block blk :
  forallb is_raw blk = true → blk = replicate (length blk) None.
Proof.
  induction blk as [|[x|] blk IH]; simpl; intros H; [done|discriminate|].
  by rewrite <- IH.
Qed.

Lemma forallb_live_fmap xs : forallb is_live (Some <$> xs) = true.
Proof. by induction xs. Qed.

Lemma forallb_raw_replicate n : forallb (@is_raw T) (replicate n None) = true.
Proof. by induction n. Qed.

Lemma holds_well_formed h v xs : holds h v xs → well_formed E (mkState v h).
Proof.
  intros (Hsz & Hle & Hbytes & Hoff & Hblk). split; [|done].
  unfold invariant. simpl.
  rewrite (proj2 (Z.leb_le 0 _)) by lia. rewrite (proj2 (Z.leb_le _ _) Hle).
  rewrite Hoff. simpl.
  destruct (base (buffer_ (data_ v))) as [a|].
  - rewrite Hblk.
    assert (length xs ≤ Z.to_nat (Capacity v))%nat as Hlen by lia.
    rewrite length_block_of by done.
    rewrite (proj2 (Z.eqb_eq _ _)) by lia. simpl.
    rewrite Hsz, Nat2Z.id. unfold block_of.
    rewrite <- (length_fmap Some xs) at 1 3.
    rewrite take_app_length, drop_app_length.
    by rewrite forallb_live_fmap, forallb_raw_replicate.
  - by apply Z.eqb_eq.
Qed.

Lemma well_formed_holds st :
  well_formed E st → ∃ xs, holds (mem st) (this st) xs.
Proof.
  intros [Hinv Hbytes]. unfold invariant in Hinv.
  apply andb_true_iff in Hinv as [Hinv Hblk].
  apply andb_true_iff in Hinv as [Hinv Hoff].
  apply andb_true_iff in Hinv as [H0 Hle].
  apply Z.leb_le in H0, Hle. apply Z.eqb_eq in Hoff.
  destruct (base (buffer_ (data_ (this st)))) as [a|] eqn:Hb.
  - destruct (get_block (mem st) a) as [blk|] eqn:Hg; [|discriminate].
    apply andb_true_iff in Hblk as [Hblk Hraw].
    apply andb_true_iff in Hblk as [Hlen Hlive].
    apply Z.eqb_eq in Hlen.
    destruct (forallb_live_block _ Hlive) as [xs Hxs].
    apply forallb_raw_block in Hraw.
    assert (length xs = Z.to_nat (size_ (this st))) as Hlx.
    { rewrite <- (length_fmap Some xs), <- Hxs, length_take. lia. }
    exists xs. unfold holds. rewrite Hb, Hg.
    repeat split; try done; try lia.
    f_equal. rewrite <- (take_drop (Z.to_nat (size_ (this st))) blk).
    rewrite Hxs, Hraw. unfold block_of. do 2 f_equal.
    rewrite length_drop. lia.
  - apply Z.eqb_eq in Hblk. exists []. unfold holds. rewrite Hb.
    repeat split; simpl; try done; lia.
Qed.

End Representation.

(** ** Relocation into new storage *)

Section Growth.

Context {T : Type} (E : Traits T).
Hypothesis Hsane : sane E.
Implicit Types (h : Heap T) (v : Vector) (xs ys : list T) (blk : Block T).

(** Releasing the block a buffer pointer designates. *)
Definition free (p : Ptr) h : Heap T :=
  match base p with
  | Some a => <[a := None]> h
  | None => h
  end.

Lemma free_set_block_eq h a blk : <[a := None]> (set_block a blk h) = <[a := None]> h.
Proof. unfold set_block. apply list_insert_insert_eq. Qed.

Lemma free_set_block_ne h a a' blk :
  a ≠ a' → <[a := None]> (set_block a' blk h) = set_block a' blk (<[a := None]> h).
Proof. intros. unfold set_block. by apply list_insert_insert_ne. Qed.

Lemma set_block_new h s blk : set_block (length h) blk (h ++ [s]) = h ++ [Some blk].
Proof. unfold set_block. apply (insert_at_middle h [] s (Some blk)). Qed.

Lemma operator_delete_block h a blk :
  get_block h a = Some blk →
  operator_delete (mkPtr (Some a) 0) h = Ok tt (<[a := None]> h).
Proof. intros Hg. unfold operator_delete. simpl. by rewrite Hg. Qed.

Lemma sizeof_pos : 0 < sizeof_T E.
Proof. apply Hsane. Qed.

Lemma sizeof_fits : sizeof_T E < SIZE_MOD.
Proof. pose proof PTRDIFF_MAX_lt. destruct Hsane as [[? ?] _]. lia. Qed.

(** A capacity whose bytes are within [PTRDIFF_MAX] can be doubled in
    [size_t]. *)
Lemma capacity_bound cap :
  0 ≤ cap → cap * sizeof_T E ≤ PTRDIFF_MAX →
  cap ≤ PTRDIFF_MAX ∧ 2 * cap < SIZE_MOD ∧ 2 * cap * sizeof_T E < SIZE_MOD.
Proof. pose proof PTRDIFF_MAX_lt. pose proof sizeof_pos. intros. nia. Qed.

Lemma count_fits n : 0 ≤ n → n * sizeof_T E < SIZE_MOD → n < SIZE_MOD.
Proof. pose proof sizeof_pos. intros. nia. Qed.

Lemma RawMemory_sized_pos n h :
  0 < n → n * sizeof_T E < SIZE_MOD →
  RawMemory_sized E n h
  = if can_alloc E (n * sizeof_T E)
    then Ok (mkRawMemory (mkPtr (Some (length h)) 0) n)
            (h ++ [Some (replicate (Z.to_nat n) None)])
    else Throw h.
Proof.
  intros Hn Hfit. pose proof sizeof_pos as Hs.
  unfold RawMemory_sized, Allocate, bind.
  rewrite (proj2 (Z.eqb_neq n 0)) by lia. simpl.
  unfold operator_new. rewrite wrap_small by lia.
  destruct (can_alloc E (n * sizeof_T E)); [|done].
  by rewrite Z.div_mul by lia.
Qed.

Lemma RawMemory_sized_0 h : RawMemory_sized E 0 h = Ok (mkRawMemory nullptr 0) h.
Proof. reflexivity. Qed.

(** The relocation [FillNewData] and [InsertWithoutRelocation] perform. *)
Definition relocate (first : Ptr) (n : Z) (d_first : Ptr) : M (Heap T) unit :=
  if relocates_by_move E
  then uninitialized_move_n E first n d_first
  else uninitialized_copy_n E first n d_first.

Definition relocate_throws : T → bool :=
  if relocates_by_move E then move_throws E else copy_throws E.

(** What relocation leaves in the source. *)
Definition left_behind : T → T :=
  if relocates_by_move E then moved_from E else λ x, x.

Lemma FillNewData_relocate new_data pos st :
  FillNewData E new_data pos st
  = on_heap (relocate (begin (this st)) pos (GetAddress new_data)) st.
Proof.
  unfold FillNewData, relocate, bind, get_this.
  by destruct (relocates_by_move E).
Qed.

Lemma relocate_on_heap first n d_first :
  (if relocates_by_move E
   then on_heap (uninitialized_move_n E first n d_first)
   else on_heap (uninitialized_copy_n E first n d_first))
  = on_heap (relocate first n d_first).
Proof. unfold relocate. by destruct (relocates_by_move E). Qed.

Lemma relocate_0 first d_first h : relocate first 0 d_first h = Ok tt h.
Proof. unfold relocate. by destruct (relocates_by_move E). Qed.

Lemma relocate_block h first d_first a a' i j src dst xs :
  a ≠ a' → base first = Some a → off first = Z.of_nat i →
  base d_first = Some a' → off d_first = Z.of_nat j →
  get_block h a = Some src → get_block h a' = Some dst →
  (∀ k x, xs !! k = Some x → src !! (i + k)%nat = Some (Some x)) →
  (j + length xs ≤ length dst)%nat →
  (none_throws relocate_throws xs = true →
   relocate first (Z.of_nat (length xs)) d_first h
   = Ok tt (set_block a' (list_inserts j (Some <$> xs) dst)
              (set_block a (list_inserts i (Some ∘ left_behind <$> xs) src) h))) ∧
  (none_throws relocate_throws xs = false →
   succeeds (relocate first (Z.of_nat (length xs)) d_first h) = false).
Proof.
  intros Hne Hfb Hfo Hdb Hdo Hsrc Hdst Hxs Hroom.
  unfold relocate, relocate_throws, left_behind.
  destruct (relocates_by_move E); split; intros Hall.
  - by apply (uninitialized_move_n_Ok E h first d_first a a' i j src dst xs).
  - by apply (uninitialized_move_n_fails E h first d_first a a' i j src dst xs).
  - rewrite (uninitialized_copy_n_Ok E h first d_first a a' i j src dst xs) by done.
    rewrite (list_inserts_same src i (Some ∘ (λ x, x) <$> xs)).
    + by rewrite (set_block_id h a src).
    + intros k s Hk. rewrite list_lookup_fmap in Hk.
      destruct (xs !! k) as [x|] eqn:Hx; [|discriminate].
      simpl in Hk. injection Hk as <-. by apply Hxs.
  - by apply (uninitialized_copy_n_fails E h first d_first a a' i j src dst xs).
Qed.

End Growth.

(** ** The member functions *)

Section Methods.

Context {T : Type} (E : Traits T).
Hypothesis Hsane : sane E.
Implicit Types (h : Heap T) (v : Vector) (xs ys : list T) (blk : Block T).

(** The state after the container moved into new storage of [cap] slots,
    holding [xs]. *)
Definition reallocated h v xs (cap : Z) : State T :=
  mkState (vec (mkPtr (Some (length h)) 0) cap (Z.of_nat (length xs)))
          (free (buffer_ (data_ v)) (h ++ [Some (block_of xs (Z.to_nat cap))])).

(** The state after the container changed its sequence to [xs] in place. *)
Definition updated h v xs : State T :=
  mkState (vec (buffer_ (data_ v)) (Capacity v) (Z.of_nat (length xs)))
          (match base (buffer_ (data_ v)) with
           | Some a => set_block a (block_of xs (Z.to_nat (Capacity v))) h
           | None => h
           end).

Lemma holds_inv h v xs :
  holds E h v xs →
  ∃ b cap,
    v = vec (mkPtr b 0) cap (Z.of_nat (length xs)) ∧
    Z.of_nat (length xs) ≤ cap ∧
    cap * sizeof_T E ≤ PTRDIFF_MAX ∧
    match b with
    | None => cap = 0 ∧ xs = []
    | Some a => get_block h a = Some (block_of xs (Z.to_nat cap))
    end.
Proof.
  intros (Hsz & Hle & Hbytes & Hoff & Hblk).
  destruct v as [[[b o] cap] sz]. unfold Capacity in *. simpl in *. subst.
  exists b, cap. repeat split; try done.
  destruct b; [done|]. split; [done|].
  assert (length xs = 0)%nat as Hnil by lia. by destruct xs.
Qed.

Lemma holds_vec h b cap xs :
  Z.of_nat (length xs) ≤ cap → cap * sizeof_T E ≤ PTRDIFF_MAX →
  match b with
  | None => cap = 0
  | Some a => get_block h a = Some (block_of xs (Z.to_nat cap))
  end →
  holds E h (vec (mkPtr b 0) cap (Z.of_nat (length xs))) xs.
Proof. intros. by repeat split. Qed.

Lemma Reserve_noop n st : n ≤ Capacity (this st) → Reserve E n st = Ok tt st.
Proof.
  intros Hle. unfold Reserve, bind, get_this.
  by rewrite (proj2 (Z.leb_le _ _) Hle).
Qed.

Lemma Reserve_grow h v xs n :
  holds E h v xs → Capacity v < n → n * sizeof_T E < SIZE_MOD →
  (can_alloc E (n * sizeof_T E) && none_throws (relocate_throws E) xs = true →
   Reserve E n (mkState v h) = Ok tt (reallocated h v xs n)) ∧
  (can_alloc E (n * sizeof_T E) && none_throws (relocate_throws E) xs = false →
   succeeds (Reserve E n (mkState v h)) = false).
Proof.
  intros Hh Hlt Hfit.
  destruct (holds_inv h v xs Hh) as (b & cap & -> & Hle & Hbytes & Hblk).
  unfold Capacity in Hlt. simpl in Hlt.
  remember (Reserve E n (mkState (vec (mkPtr b 0) cap (Z.of_nat (length xs))) h)) as R eqn:HR.
  unfold Reserve in HR. step in HR by reflexivity.
  unfold Capacity in HR. simpl in HR.
  rewrite (proj2 (Z.leb_gt _ _) Hlt) in HR.
  pose proof (RawMemory_sized_pos E Hsane n h ltac:(lia) Hfit) as Halloc.
  destruct (can_alloc E (n * sizeof_T E)); simpl; cycle 1.
  { split; [discriminate|]. intros _. subst R.
    apply bind_fails, on_heap_fails. simpl. by rewrite Halloc. }
  step in HR by (by apply on_heap_Ok, Halloc).
  set (h1 := h ++ [Some (replicate (Z.to_nat n) None)]) in HR.
  unfold begin, GetAddress in HR. simpl in HR.
  destruct b as [a|].
  - assert (a < length h)%nat as Ha by (by eapply get_block_lt).
    destruct (relocate_block E h1 (mkPtr (Some a) 0) (mkPtr (Some (length h)) 0)
                a (length h) 0 0
                (block_of xs (Z.to_nat cap)) (replicate (Z.to_nat n) None) xs)
      as [Hok Hfail]; try done.
    { lia. }
    { by apply get_block_app_l. }
    { apply get_block_app_new. }
    { intros k x Hk. by apply block_of_live. }
    { rewrite length_replicate. lia. }
    destruct (none_throws (relocate_throws E) xs); split; try discriminate; intros _.
    + specialize (Hok eq_refl).
      step in HR by
        (apply try_catch_Ok; step by (rewrite FillNewData_relocate; by apply on_heap_Ok, Hok);
         apply on_heap_Ok;
         apply (destroy_n_block _ _ a 0 (list_inserts 0 (Some ∘ left_behind E <$> xs)
                  (block_of xs (Z.to_nat cap)))); [done|done| |];
         [ rewrite get_block_set_ne by lia; apply get_block_set_eq;
           unfold h1; rewrite length_app; lia
         | intros k Hk; destruct (lookup_lt_is_Some_2 xs k) as [x Hx]; [lia|];
           exists (left_behind E x); simpl;
           rewrite list_lookup_inserts by (rewrite ?length_fmap, ?length_block_of; lia);
           by rewrite Nat.sub_0_r, list_lookup_fmap, Hx ]).
      step in HR by reflexivity.
      unfold on_heap, RawMemory_destroy, Deallocate in HR. simpl in HR.
      erewrite operator_delete_block in HR; cycle 1.
      { apply get_block_set_eq. rewrite !length_set_block. unfold h1.
        rewrite length_app. lia. }
      subst R. unfold reallocated, free, vec. simpl. do 2 f_equal.
      rewrite free_set_block_eq, free_set_block_ne, free_set_block_eq by lia.
      rewrite <- free_set_block_ne by lia. unfold h1. rewrite set_block_new.
      by rewrite list_inserts_raw by lia.
    + subst R. apply bind_fails, try_catch_fails, bind_fails.
      rewrite FillNewData_relocate. apply on_heap_fails. simpl. by apply Hfail.
  - destruct Hblk as [-> ->]. simpl in *.
    split; [|discriminate]. intros _.
    step in HR by
      (apply try_catch_Ok; step by (rewrite FillNewData_relocate; apply on_heap_Ok, relocate_0);
       reflexivity).
    subst R. unfold reallocated, free. simpl. by rewrite block_of_nil.
Qed.

(** The results are states in which the container holds its new sequence. *)
Lemma holds_reallocated h v xs xs' cap :
  holds E h v xs → Z.of_nat (length xs') ≤ cap → cap * sizeof_T E ≤ PTRDIFF_MAX →
  holds E (mem (reallocated h v xs' cap)) (this (reallocated h v xs' cap)) xs'.
Proof.
  intros Hh Hle Hbytes. apply holds_vec; [done|done|].
  destruct (holds_inv h v xs Hh) as (b & c & -> & _ & _ & Hblk).
  destruct b as [a|]; unfold reallocated, free; simpl.
  - rewrite get_block_free_ne; [apply get_block_app_new|].
    apply get_block_lt in Hblk. lia.
  - apply get_block_app_new.
Qed.

Lemma holds_updated h v xs xs' :
  holds E h v xs → Z.of_nat (length xs') ≤ Capacity v →
  holds E (mem (updated h v xs')) (this (updated h v xs')) xs'.
Proof.
  intros Hh Hle.
  destruct (holds_inv h v xs Hh) as (b & c & -> & _ & Hbytes & Hblk).
  unfold Capacity in Hle. simpl in *. apply holds_vec; [done|done|].
  destruct b as [a|]; [|by destruct Hblk].
  apply get_block_set_eq. by eapply get_block_lt.
Qed.

Lemma updated_same h v xs : holds E h v xs → updated h v xs = mkState v h.
Proof.
  intros Hh. destruct (holds_inv h v xs Hh) as (b & c & -> & _ & _ & Hblk).
  unfold updated, Capacity. simpl. f_equal. destruct b as [a|]; [|done].
  by apply set_block_id.
Qed.

(** The values a growing [Resize] appends. *)
Definition fresh_values (k : nat) : list T :=
  match value_init E with
  | Some v0 => replicate k v0
  | None => []
  end.

Lemma Resize_shrink h v xs n :
  holds E h v xs → 0 ≤ n < size_ v →
  Resize E n (mkState v h) = Ok tt (updated h v (take (Z.to_nat n) xs)).
Proof.
  intros Hh Hn.
  destruct (holds_inv h v xs Hh) as (b & cap & -> & Hle & Hbytes & Hblk).
  simpl in Hn. destruct (capacity_bound E Hsane cap) as (Hc1 & Hc2 & _); [lia|done|].
  pose proof PTRDIFF_MAX_lt as HP.
  unfold Resize. step by reflexivity. simpl.
  rewrite (proj2 (Z.ltb_lt _ _)) by lia.
  rewrite wrap_small by lia.
  destruct b as [a|]; [|destruct Hblk as [_ ->]; simpl in Hn; lia].
  step by
    (apply on_heap_Ok;
     replace (Z.of_nat (length xs) - n) with (Z.of_nat (length xs - Z.to_nat n)) by lia;
     apply (destroy_n_block _ _ a (Z.to_nat n) (block_of xs (Z.to_nat cap)));
     [done|simpl; lia|done|];
     intros k Hk; destruct (lookup_lt_is_Some_2 xs (Z.to_nat n + k)) as [x Hx]; [lia|];
     exists x; by apply block_of_live).
  unfold set_size, updated, vec, Capacity. simpl.
  rewrite list_inserts_destroyed by lia.
  do 3 f_equal. rewrite length_take. lia.
Qed.

Lemma Resize_within h v xs n :
  holds E h v xs → size_ v ≤ n ≤ Capacity v →
  (is_Some (value_init E) ∨ n = size_ v →
   Resize E n (mkState v h)
   = Ok tt (updated h v (xs ++ fresh_values (Z.to_nat n - length xs)))) ∧
  (value_init E = None → size_ v < n →
   Resize E n (mkState v h) = Throw (mkState v h)).
Proof.
  intros Hh Hn.
  destruct (holds_inv h v xs Hh) as (b & cap & -> & Hle & Hbytes & Hblk).
  unfold Capacity in Hn. simpl in Hn.
  destruct (capacity_bound E Hsane cap) as (Hc1 & Hc2 & _); [lia|done|].
  pose proof PTRDIFF_MAX_lt as HP.
  remember (Resize E n _) as R eqn:HR.
  unfold Resize in HR. step in HR by reflexivity. unfold Capacity in HR. simpl in HR.
  rewrite (proj2 (Z.ltb_ge _ _)) in HR by lia.
  rewrite (proj2 (Z.ltb_ge _ _)) in HR by lia.
  step in HR by reflexivity. step in HR by reflexivity.
  unfold end_, GetAddress in HR. simpl in HR.
  rewrite wrap_small in HR by lia.
  replace (n - Z.of_nat (length xs)) with (Z.of_nat (Z.to_nat n - length xs)) in HR by lia.
  unfold fresh_values.
  destruct (decide (n = Z.of_nat (length xs))) as [->|Hne].
  - replace (Z.to_nat (Z.of_nat (length xs)) - length xs)%nat with 0%nat in * by lia.
    split; [|simpl; intros; lia]. intros _.
    step in HR by (apply on_heap_Ok, uninitialized_value_construct_n_0).
    subst R.
    assert (xs ++ match value_init E with Some v0 => replicate 0 v0 | None => [] end = xs)
      as -> by (destruct (value_init E); simpl; by rewrite app_nil_r).
    by rewrite (updated_same h _ xs Hh).
  - destruct (value_init E) as [v0|] eqn:Hv0; split.
    + intros _. destruct b as [a|]; [|destruct Hblk; lia].
      step in HR by
        (apply on_heap_Ok;
         apply (uninitialized_value_construct_n_Ok E _ _ a (length xs)
                  (block_of xs (Z.to_nat cap)) _ v0); [done|simpl; lia|done| |done];
         rewrite length_block_of by lia; lia).
      subst R. unfold set_size, updated, vec, Capacity. simpl.
      rewrite <- fmap_replicate, list_inserts_block_of by (rewrite length_replicate; lia).
      do 3 f_equal. rewrite length_app, length_replicate. lia.
    + discriminate.
    + simpl. intros [[? [=]]|?]; lia.
    + intros _ _. subst R. unfold bind.
      erewrite on_heap_Throw; [done|].
      apply uninitialized_value_construct_n_Throw; [done|lia].
Qed.

Lemma set_block_reallocated h b s blk :
  match b with Some a => (a < length h)%nat | None => True end →
  set_block (length h) blk (free (mkPtr b 0) (h ++ [s]))
  = free (mkPtr b 0) (h ++ [Some blk]).
Proof.
  intros Hb. unfold free. simpl. destruct b as [a|].
  - rewrite <- free_set_block_ne by lia. by rewrite set_block_new.
  - apply set_block_new.
Qed.

Lemma get_block_reallocated h b blk :
  match b with Some a => (a < length h)%nat | None => True end →
  get_block (free (mkPtr b 0) (h ++ [Some blk])) (length h) = Some blk.
Proof.
  intros Hb. unfold free. simpl. destruct b as [a|].
  - rewrite get_block_free_ne by lia. apply get_block_app_new.
  - apply get_block_app_new.
Qed.

Lemma holds_buffer_lt h b cap xs :
  holds E h (vec (mkPtr b 0) cap (Z.of_nat (length xs))) xs →
  match b with Some a => (a < length h)%nat | None => True end.
Proof.
  intros (_ & _ & _ & _ & Hblk). simpl in Hblk. destruct b; [|done].
  by eapply get_block_lt.
Qed.

Lemma Resize_grow h v xs n :
  holds E h v xs → Capacity v < n → n * sizeof_T E < SIZE_MOD →
  let cap' := Z.max (Capacity v * 2) n in
  let ok := is_live (value_init E) && can_alloc E (cap' * sizeof_T E)
            && none_throws (relocate_throws E) xs in
  (ok = true →
   Resize E n (mkState v h)
   = Ok tt (reallocated h v (xs ++ fresh_values (Z.to_nat n - length xs)) cap')) ∧
  (ok = false → succeeds (Resize E n (mkState v h)) = false).
Proof.
  intros Hh Hn Hfit cap' ok.
  destruct (holds_inv h v xs Hh) as (b & cap & Hv & Hle & Hbytes & Hblk).
  pose proof sizeof_pos E Hsane as Hs.
  assert (Capacity v = cap) as Hcap by (by rewrite Hv).
  rewrite Hcap in Hn. fold cap' in ok.
  destruct (capacity_bound E Hsane cap) as (Hc1 & Hc2 & Hc3); [lia|done|].
  assert (n < SIZE_MOD) as Hn' by (apply (count_fits E Hsane); lia).
  assert (cap' * sizeof_T E < SIZE_MOD) as Hfit' by (subst cap'; rewrite Hcap; nia).
  assert (Capacity v < cap') as Hgrow by lia.
  destruct (Reserve_grow h v xs cap' Hh Hgrow Hfit') as [Hres_ok Hres_fail].
  remember (Resize E n (mkState v h)) as R eqn:HR.
  unfold Resize in HR. step in HR by reflexivity.
  rewrite Hcap in HR.
  assert (size_ v = Z.of_nat (length xs)) as Hsz by (by rewrite Hv).
  rewrite Hsz in HR.
  rewrite (proj2 (Z.ltb_ge _ _)) in HR by lia.
  rewrite (proj2 (Z.ltb_lt _ _)) in HR by lia.
  rewrite wrap_small in HR by lia. rewrite <- Hcap in HR at 1. fold cap' in HR.
  subst ok.
  destruct (can_alloc E (cap' * sizeof_T E) && none_throws (relocate_throws E) xs) eqn:Hc.
  - specialize (Hres_ok eq_refl). clear Hres_fail.
    rewrite <- andb_assoc, Hc, andb_true_r.
    step in HR by apply Hres_ok.
    step in HR by reflexivity.
    unfold reallocated at 1, end_, GetAddress in HR. simpl in HR.
    rewrite wrap_small in HR by lia.
    replace (n - Z.of_nat (length xs)) with (Z.of_nat (Z.to_nat n - length xs)) in HR by lia.
    unfold fresh_values.
    pose proof (holds_buffer_lt h b cap xs) as Hb. rewrite Hv in *. specialize (Hb Hh).
    simpl in HR.
    destruct (value_init E) as [v0|] eqn:Hv0; simpl; split; try discriminate; intros _.
    + step in HR by
        (apply on_heap_Ok; simpl;
         apply (uninitialized_value_construct_n_Ok E _ _ (length h) (length xs)
                  (block_of xs (Z.to_nat cap')) _ v0); [done|simpl; lia| | |done];
         [by apply get_block_reallocated | rewrite length_block_of by lia; lia]).
      subst R. unfold set_size, reallocated, vec. simpl.
      rewrite set_block_reallocated by done.
      rewrite <- fmap_replicate, list_inserts_block_of by (rewrite length_replicate; lia).
      do 3 f_equal. rewrite length_app, length_replicate. lia.
    + subst R. apply bind_fails, on_heap_fails. simpl.
      rewrite uninitialized_value_construct_n_Throw; [done|done|lia].
  - rewrite <- andb_assoc, Hc, andb_false_r. split; [discriminate|]. intros _.
    subst R. by apply bind_fails, bind_fails, Hres_fail.
Qed.

Lemma PopBack_spec h v xs :
  holds E h v xs →
  (xs ≠ [] →
   PopBack (mkState v h) = Ok tt (updated h v (take (length xs - 1) xs))) ∧
  (xs = [] → PopBack (mkState v h) = Abort).
Proof.
  intros Hh.
  destruct (holds_inv h v xs Hh) as (b & cap & -> & Hle & Hbytes & Hblk).
  destruct (capacity_bound E Hsane cap) as (Hc1 & Hc2 & _); [lia|done|].
  pose proof PTRDIFF_MAX_lt as HP.
  split.
  - intros Hne. assert (0 < length xs)%nat as Hpos by (destruct xs; [done|simpl; lia]).
    unfold PopBack. apply noexcept_Ok. step by reflexivity. simpl.
    rewrite (proj2 (Z.eqb_neq _ _)) by lia. simpl.
    step by reflexivity.
    destruct b as [a|]; [|destruct Hblk as [_ ->]; simpl in Hpos; lia].
    destruct (lookup_lt_is_Some_2 xs (length xs - 1)) as [x Hx]; [lia|].
    step by
      (apply on_heap_Ok;
       apply (destroy_at_block _ _ a (length xs - 1) (block_of xs (Z.to_nat cap)) x);
       [done|simpl; lia|done|by apply block_of_live]).
    unfold set_size, updated, vec, Capacity. simpl.
    rewrite wrap_small by lia.
    pose proof (list_inserts_destroyed xs (Z.to_nat cap) (length xs - 1)) as Hd.
    replace (length xs - (length xs - 1))%nat with 1%nat in Hd by lia.
    simpl in Hd. rewrite Hd by lia.
    do 3 f_equal. rewrite length_take. lia.
  - intros ->. unfold PopBack, noexcept, bind, get_this, assert. by simpl.
Qed.

(** The sequence after the insertion of [x] before index [p]. *)
Definition insert_at (p : nat) (x : T) xs : list T := take p xs ++ x :: drop p xs.

Lemma length_insert_at p x xs : length (insert_at p x xs) = S (length xs).
Proof.
  unfold insert_at. rewrite length_app. simpl. rewrite length_take, length_drop. lia.
Qed.

Lemma emplace_block p x xs cap :
  (p ≤ length xs)%nat → (length xs < cap)%nat →
  list_inserts (S p) (Some <$> drop p xs)
    (list_inserts 0 (Some <$> take p xs) (<[p := Some x]> (replicate cap None)))
  = block_of (insert_at p x xs) cap.
Proof.
  intros Hp Hcap.
  assert (replicate cap (@None T)
          = replicate p None ++ None :: replicate (length xs - p) None
              ++ replicate (cap - S (length xs)) None) as ->.
  { replace cap with (p + S ((length xs - p) + (cap - S (length xs))))%nat at 1 by lia.
    by rewrite replicate_add, replicate_S, replicate_add. }
  rewrite insert_app_r_alt by (rewrite length_replicate; lia).
  rewrite length_replicate, Nat.sub_diag. simpl.
  rewrite list_inserts_0_r by (by rewrite length_fmap, length_take, length_replicate; lia).
  rewrite (cons_middle (Some x)), app_assoc.
  assert (S p = length ((Some <$> take p xs) ++ [Some x])) as ->.
  { rewrite length_app, length_fmap, length_take. simpl. lia. }
  rewrite list_inserts_middle by (by rewrite length_fmap, length_drop, length_replicate).
  unfold block_of, insert_at. rewrite length_app. simpl.
  rewrite length_take, length_drop, fmap_app, fmap_cons, <- !app_assoc. simpl.
  do 4 f_equal. lia.
Qed.

Lemma none_throws_take_drop (throws : T → bool) p xs :
  none_throws throws xs = none_throws throws (take p xs) && none_throws throws (drop p xs).
Proof. by rewrite <- none_throws_app, take_drop. Qed.

(** [Emplace] into a full container: new storage. *)
Lemma Emplace_realloc h v xs (p : nat) c :
  holds E h v xs → size_ v = Capacity v → (p ≤ length xs)%nat →
  let cap' := if size_ v =? 0 then 1 else size_ v * 2 in
  (∀ x, c = Some x →
   can_alloc E (cap' * sizeof_T E) && none_throws (relocate_throws E) xs = true →
   Emplace E (ptr_add (begin v) (Z.of_nat p)) c (mkState v h)
   = Ok (mkPtr (Some (length h)) (Z.of_nat p)) (reallocated h v (insert_at p x xs) cap')) ∧
  (is_live c && can_alloc E (cap' * sizeof_T E) && none_throws (relocate_throws E) xs = false →
   succeeds (Emplace E (ptr_add (begin v) (Z.of_nat p)) c (mkState v h)) = false).
Proof.
  intros Hh Hfull Hp cap'.
  destruct (holds_inv h v xs Hh) as (b & cap & -> & Hle & Hbytes & Hblk).
  unfold Capacity in Hfull. subst cap'.
  cbn [size_ data_ capacity_ vec begin GetAddress buffer_] in *.
  set (cap' := if Z.of_nat (length xs) =? 0 then 1 else Z.of_nat (length xs) * 2).
  pose proof (sizeof_pos E Hsane) as Hs. pose proof (sizeof_fits E Hsane) as Hs'.
  assert (cap = Z.of_nat (length xs)) as Hcapsz by lia.
  destruct (capacity_bound E Hsane cap) as (Hc1 & Hc2 & Hc3); [lia|done|].
  assert (cap' = if length xs is O then 1 else 2 * Z.of_nat (length xs)) as Hcap'.
  { subst cap'. destruct (length xs); [done|].
    rewrite (proj2 (Z.eqb_neq _ _)) by lia. lia. }
  assert (0 < cap' ∧ cap' * sizeof_T E < SIZE_MOD ∧ Z.of_nat (length xs) < cap') as (Hc0 & Hfit & Hroom).
  { rewrite Hcap'. destruct (length xs) eqn:Hl; [lia|]. nia. }
  pose proof (RawMemory_sized_pos E Hsane cap' h Hc0 Hfit) as Halloc.
  pose proof (holds_buffer_lt h b cap xs Hh) as Hb.
  remember (Emplace E _ c _) as R eqn:HR.
  unfold Emplace in HR. step in HR by reflexivity.
  unfold iterator_offset, begin, GetAddress in HR.
  cbn [size_ data_ capacity_ vec buffer_] in HR.
  rewrite ptr_diff_add in HR.
  rewrite wrap_small in HR by lia.
  step in HR by reflexivity.
  unfold Capacity in HR. cbn [size_ data_ capacity_ vec buffer_] in HR.
  rewrite <- Hfull, Z.eqb_refl in HR.
  unfold InsertWithoutRelocation in HR. step in HR by reflexivity.
  cbn [size_ data_ capacity_ vec buffer_] in HR.
  rewrite (wrap_small (_ * 2)) in HR by lia.
  fold cap' in HR.
  destruct (can_alloc E (cap' * sizeof_T E)); cycle 1.
  { split; [intros ? _; discriminate|]. intros _.
    subst R. first_fails. apply on_heap_fails. simpl. by rewrite Halloc. }
  step in HR by (by apply on_heap_Ok, Halloc).
  set (h1 := h ++ [Some (replicate (Z.to_nat cap') None)]) in HR.
  unfold GetAddress in HR. cbn [buffer_] in HR.
  destruct c as [x|]; cycle 1.
  { split; [discriminate|]. intros _. subst R.
    first_fails. by apply try_catch_fails. }
  cbn [is_live andb].
  assert (construct_at (ptr_add (mkPtr (Some (length h)) 0) (Z.of_nat p)) x h1
          = Ok tt (set_block (length h) (<[p := Some x]> (replicate (Z.to_nat cap') None)) h1))
    as Hnew.
  { apply construct_at_block; [done|simpl; lia|apply get_block_app_new|].
    rewrite length_replicate. lia. }
  set (h2 := set_block (length h) (<[p := Some x]> (replicate (Z.to_nat cap') None)) h1) in *.
  assert (length h1 = S (length h)) as Hlen1.
  { unfold h1. rewrite length_app. simpl. lia. }
  destruct b as [a|].
  - assert (get_block h2 a = Some (block_of xs (Z.to_nat cap))) as Hg2.
    { unfold h2. rewrite get_block_set_ne by lia. by apply get_block_app_l. }
    destruct (relocate_block E h2 (mkPtr (Some a) 0) (mkPtr (Some (length h)) 0)
                a (length h) 0 0 (block_of xs (Z.to_nat cap))
                (<[p := Some x]> (replicate (Z.to_nat cap') None)) (take p xs))
      as [Hok1 Hfail1]; try done.
    { lia. }
    { unfold h2. apply get_block_set_eq. lia. }
    { intros k y Hk. apply block_of_live. apply lookup_take_Some in Hk. apply Hk. }
    { rewrite length_insert, length_replicate, length_take. lia. }
    rewrite length_take_le in Hok1, Hfail1 by lia.
    rewrite (none_throws_take_drop _ p xs).
    destruct (none_throws (relocate_throws E) (take p xs)); cycle 1.
    { split; [intros ? _; discriminate|]. intros _. subst R.
      first_fails. apply try_catch_fails. step by reflexivity.
      step by (by apply on_heap_Ok, Hnew).
      first_fails. rewrite FillNewData_relocate. apply on_heap_fails. simpl.
      by apply Hfail1. }
    specialize (Hok1 eq_refl). clear Hfail1. simpl.
    set (S1 := list_inserts 0 (Some ∘ left_behind E <$> take p xs)
                 (block_of xs (Z.to_nat cap))) in *.
    set (D1 := list_inserts 0 (Some <$> take p xs)
                 (<[p := Some x]> (replicate (Z.to_nat cap') None))) in *.
    set (h3 := set_block (length h) D1 (set_block a S1 h2)) in *.
    destruct (relocate_block E h3 (ptr_add (mkPtr (Some a) 0) (Z.of_nat p))
                (ptr_add (ptr_add (mkPtr (Some (length h)) 0) (Z.of_nat p)) 1)
                a (length h) p (S p) S1 D1 (drop p xs))
      as [Hok2 Hfail2]; try done.
    { lia. }
    { simpl. lia. }
    { unfold h3. rewrite get_block_set_ne by lia. apply get_block_set_eq.
      unfold h2. rewrite length_set_block. lia. }
    { unfold h3. apply get_block_set_eq. unfold h2. rewrite !length_set_block. lia. }
    { intros k y Hk. unfold S1.
      rewrite list_lookup_inserts_ge by (rewrite length_fmap, length_take; lia).
      apply block_of_live. by rewrite lookup_drop in Hk. }
    { unfold D1. rewrite length_inserts, length_insert, length_replicate, length_drop. lia. }
    rewrite length_drop in Hok2, Hfail2.
    replace (Z.of_nat (length xs - p)) with (Z.of_nat (length xs) - Z.of_nat p)
      in Hok2, Hfail2 by lia.
    assert (wrap (Z.of_nat (length xs) - Z.of_nat p) = Z.of_nat (length xs) - Z.of_nat p)
      as Hwrap by (apply wrap_small; lia).
    destruct (none_throws (relocate_throws E) (drop p xs)); cycle 1.
    { split; [intros ? _; discriminate|]. intros _. subst R.
      first_fails. apply try_catch_fails. step by reflexivity.
      step by (by apply on_heap_Ok, Hnew).
      step by (rewrite FillNewData_relocate; by apply on_heap_Ok, Hok1).
      first_fails. rewrite Hwrap, relocate_on_heap.
      by apply on_heap_fails, Hfail2. }
    specialize (Hok2 eq_refl). clear Hfail2.
    split; [|discriminate]. intros y [= <-] _.
    set (S2 := list_inserts p (Some ∘ left_behind E <$> drop p xs) S1) in *.
    set (D2 := list_inserts (S p) (Some <$> drop p xs) D1) in *.
    set (h4 := set_block (length h) D2 (set_block a S2 h3)) in *.
    assert (destroy_n (mkPtr (Some a) 0) (Z.of_nat (length xs)) h4
            = Ok tt (set_block a (list_inserts 0 (replicate (length xs) None) S2) h4)) as Hdes.
    { apply (destroy_n_block _ _ a 0 S2); [done|done| |].
      - unfold h4. rewrite get_block_set_ne by lia. apply get_block_set_eq.
        unfold h3, h2. rewrite !length_set_block. lia.
      - intros k Hk. simpl. unfold S2, S1.
        destruct (lookup_lt_is_Some_2 xs k) as [z Hz]; [lia|].
        destruct (decide (k < p)%nat).
        + exists (left_behind E z).
          rewrite list_lookup_inserts_lt by lia.
          rewrite list_lookup_inserts by (rewrite ?length_fmap, ?length_take, ?length_block_of; lia).
          rewrite Nat.sub_0_r, list_lookup_fmap, lookup_take_lt by lia. by rewrite Hz.
        + exists (left_behind E z).
          rewrite list_lookup_inserts
            by (rewrite ?length_inserts, ?length_fmap, ?length_drop, ?length_block_of; lia).
          rewrite list_lookup_fmap, lookup_drop.
          replace (p + (k - p))%nat with k by lia. by rewrite Hz. }
    step in HR by
      (apply try_catch_Ok; step by reflexivity;
       step by (by apply on_heap_Ok, Hnew);
       step by (rewrite FillNewData_relocate; by apply on_heap_Ok, Hok1);
       rewrite Hwrap, relocate_on_heap;
       step by (by apply on_heap_Ok, Hok2);
       by apply on_heap_Ok, Hdes).
    step in HR by reflexivity.
    step in HR by
      (apply on_heap_Ok; apply (operator_delete_block _ a (list_inserts 0 (replicate (length xs) None) S2));
       apply get_block_set_eq; unfold h4, h3, h2; rewrite !length_set_block; lia).
    step in HR by reflexivity. step in HR by reflexivity.
    subst R. unfold ret, begin, GetAddress, set_size, reallocated, vec, free. simpl.
    rewrite wrap_small by lia. unfold bind, get_this. simpl.
    f_equal. f_equal; [by rewrite length_insert_at, Nat2Z.inj_succ|].
    unfold h4, h3, h2, h1.
    repeat (rewrite free_set_block_eq || rewrite free_set_block_ne by lia).
    rewrite !set_block_set. rewrite <- free_set_block_ne by lia.
    rewrite set_block_new. unfold D2, D1.
    by rewrite emplace_block by lia.
  - destruct Hblk as [-> ->]. simpl in *.
    assert (p = 0)%nat as -> by lia.
    split; [|discriminate]. intros y [= <-] _.
    step in HR by
      (apply try_catch_Ok; step by reflexivity;
       step by (by apply on_heap_Ok, Hnew);
       step by (rewrite FillNewData_relocate; apply on_heap_Ok, relocate_0);
       rewrite relocate_on_heap;
       step by (apply on_heap_Ok, relocate_0);
       reflexivity).
    step in HR by reflexivity. step in HR by reflexivity.
    step in HR by reflexivity. step in HR by reflexivity.
    subst R. unfold ret, begin, GetAddress, set_size, reallocated, vec, free. simpl.
    unfold bind, get_this. simpl. do 2 f_equal.
    unfold h2, h1. rewrite set_block_new, Hcap'. reflexivity.
Qed.

(** [std::uninitialized_move_n(end() - 1, 1, end())]: the last object moves
    into the raw slot behind it. *)
Lemma uninitialized_move_1_adjacent h a pre post z src dst :
  base src = Some a → off src = Z.of_nat (length pre) →
  base dst = Some a → off dst = Z.of_nat (S (length pre)) →
  get_block h a = Some (pre ++ Some z :: None :: post) →
  (move_throws E z = false →
   uninitialized_move_n E src 1 dst h
   = Ok tt (set_block a (pre ++ Some (moved_from E z) :: Some z :: post) h)) ∧
  (move_throws E z = true → succeeds (uninitialized_move_n E src 1 dst h) = false).
Proof.
  intros Hsb Hso Hdb Hdo Hg.
  assert (a < length h)%nat as Hlt by (by eapply get_block_lt).
  assert (load (ptr_add src (Z.of_nat 0)) h = Ok z h) as Hload.
  { apply (load_block h _ a (length pre) (pre ++ Some z :: None :: post) z);
      [done|simpl; lia|done|].
    by apply list_lookup_middle. }
  unfold uninitialized_move_n. simpl uninitialized_loop.
  split; intros Hz.
  - unfold move_construct_at. step by
      (apply try_catch_Ok; step by exact Hload; rewrite Hz;
       step by (apply (construct_at_block h _ a (S (length pre))
                        (pre ++ Some z :: None :: post)); [done|simpl; lia|done|];
                rewrite length_app; simpl; lia);
       apply (store_block _ _ a (length pre) (<[S (length pre) := Some z]>
                (pre ++ Some z :: None :: post)) z); [done|simpl; lia| |];
       [by apply get_block_set_eq
       |rewrite insert_after_middle; by apply list_lookup_middle]).
    unfold ret. rewrite set_block_set, insert_after_middle, insert_at_middle. done.
  - first_fails. apply try_catch_fails. unfold move_construct_at.
    step by exact Hload. by rewrite Hz.
Qed.

(** [Emplace] at [end()] of a container with spare capacity. *)
Lemma Emplace_at_end h v xs c :
  holds E h v xs → size_ v < Capacity v →
  (∀ x, c = Some x →
   Emplace E (end_ v) c (mkState v h)
   = Ok (end_ v) (updated h v (xs ++ [x]))) ∧
  (c = None → succeeds (Emplace E (end_ v) c (mkState v h)) = false).
Proof.
  intros Hh Hspare.
  destruct (holds_inv h v xs Hh) as (b & cap & -> & Hle & Hbytes & Hblk).
  unfold Capacity in Hspare. cbn [size_ data_ capacity_ vec] in Hspare.
  destruct (capacity_bound E Hsane cap) as (Hc1 & Hc2 & _); [lia|done|].
  destruct b as [a|]; [|destruct Hblk; lia].
  remember (Emplace E _ c _) as R eqn:HR.
  unfold Emplace in HR. step in HR by reflexivity.
  unfold iterator_offset, end_, begin, GetAddress in HR.
  cbn [size_ data_ capacity_ vec buffer_] in HR.
  rewrite ptr_diff_add, wrap_small in HR by lia.
  step in HR by reflexivity.
  unfold Capacity in HR. cbn [size_ data_ capacity_ vec buffer_] in HR.
  rewrite (proj2 (Z.eqb_neq _ _)) in HR by lia.
  unfold InsertWithRelocation in HR.
  destruct c as [x|]; split; try discriminate.
  - intros y [= <-].
    step in HR by
      (apply try_catch_Ok; step by reflexivity;
       unfold end_, GetAddress; cbn [size_ data_ capacity_ vec buffer_];
       rewrite (proj2 (ptr_eqb_eq _ _) eq_refl); cbn [negb]; cbv iota;
       step by reflexivity;
       apply on_heap_Ok;
       apply (construct_at_block h _ a (length xs) (block_of xs (Z.to_nat cap)));
       [done|simpl; lia|done|]; rewrite length_block_of by lia; lia).
    step in HR by reflexivity. step in HR by reflexivity. step in HR by reflexivity.
    subst R. unfold ret, set_size, updated, vec, end_, begin, GetAddress, Capacity. simpl.
    rewrite wrap_small by lia. do 2 f_equal.
    + f_equal. rewrite length_app. simpl. lia.
    + f_equal. by rewrite <- list_inserts_block_of by (simpl; lia).
  - intros _. subst R. first_fails. apply try_catch_fails.
    step by reflexivity.
    unfold end_, GetAddress; cbn [size_ data_ capacity_ vec buffer_].
    by rewrite (proj2 (ptr_eqb_eq _ _) eq_refl).
Qed.

(** [Emplace] before an element of a container with spare capacity: the last
    element [z] moves into the raw slot behind it, the run [l2] shifts by one,
    and the new element is move-assigned into the gap. *)
Lemma Emplace_middle h v l1 l2 z c :
  holds E h v (l1 ++ l2 ++ [z]) → size_ v < Capacity v →
  let ok x := negb (move_throws E z) && none_throws (move_assign_throws E) l2
              && negb (move_assign_throws E x) in
  (∀ x, c = Some x → ok x = true →
   Emplace E (ptr_add (begin v) (Z.of_nat (length l1))) c (mkState v h)
   = Ok (ptr_add (begin v) (Z.of_nat (length l1)))
        (updated h v (l1 ++ x :: l2 ++ [z]))) ∧
  (match c with Some x => ok x | None => false end = false →
   succeeds (Emplace E (ptr_add (begin v) (Z.of_nat (length l1))) c (mkState v h)) = false).
Proof.
  intros Hh Hspare ok.
  destruct (holds_inv h v _ Hh) as (b & cap & -> & Hle & Hbytes & Hblk).
  unfold Capacity in Hspare. cbn [size_ data_ capacity_ vec] in Hspare.
  destruct (capacity_bound E Hsane cap) as (Hc1 & Hc2 & _); [lia|done|].
  destruct b as [a|]; [|destruct Hblk; lia].
  assert (a < length h)%nat as Ha by (by eapply get_block_lt).
  set (xs := l1 ++ l2 ++ [z]) in *.
  assert (length xs = length l1 + length l2 + 1)%nat as Hlen.
  { unfold xs. rewrite !length_app. simpl. lia. }
  set (raws := replicate (Z.to_nat cap - length xs - 1) (@None T)).
  assert (block_of xs (Z.to_nat cap)
          = ((Some <$> l1) ++ (Some <$> l2)) ++ Some z :: None :: raws) as Hblock.
  { unfold block_of, xs. rewrite !fmap_app, <- !app_assoc. simpl. do 3 f_equal.
    fold xs.
    assert (Z.to_nat cap - length xs = S (Z.to_nat cap - length xs - 1))%nat as -> by lia.
    done. }
  rewrite Hblock in Hblk.
  set (pre0 := (Some <$> l1) ++ (Some <$> l2)) in *.
  assert (length pre0 = length l1 + length l2)%nat as Hpre0.
  { unfold pre0. by rewrite length_app, !length_fmap. }
  remember (Emplace E _ c _) as R eqn:HR.
  unfold Emplace in HR. step in HR by reflexivity.
  unfold iterator_offset, begin, GetAddress in HR.
  cbn [size_ data_ capacity_ vec buffer_] in HR.
  rewrite ptr_diff_add, wrap_small in HR by lia.
  step in HR by reflexivity.
  unfold Capacity in HR. cbn [size_ data_ capacity_ vec buffer_] in HR.
  rewrite (proj2 (Z.eqb_neq _ _)) in HR by lia.
  unfold InsertWithRelocation in HR.
  set (v := vec (mkPtr (Some a) 0) cap (Z.of_nat (length xs))) in *.
  assert (ptr_eqb (ptr_add (mkPtr (Some a) 0) (Z.of_nat (length l1))) (end_ v) = false) as Hneq.
  { apply not_true_is_false. intros Heq. apply ptr_eqb_eq in Heq.
    unfold end_, ptr_add in Heq. simpl in Heq. injection Heq. lia. }
  destruct (uninitialized_move_1_adjacent h a pre0 raws z (ptr_add (end_ v) (-1)) (end_ v))
    as [Hmv_ok Hmv_fail]; [done|simpl; lia|done|simpl; lia|done|].
  destruct c as [x|]; cycle 1.
  { split; [discriminate|]. intros _. subst R. first_fails. apply try_catch_fails.
    step by reflexivity. by rewrite Hneq. }
  subst ok. cbv beta.
  destruct (move_throws E z) eqn:Hz; cycle 1; cycle 1.
  { split; [intros ? _; discriminate|]. intros _. subst R. first_fails.
    apply try_catch_fails. step by reflexivity. rewrite Hneq. cbn [negb]. cbv iota.
    step by reflexivity. first_fails. by apply on_heap_fails, Hmv_fail. }
  specialize (Hmv_ok eq_refl). clear Hmv_fail.
  set (h1 := set_block a (pre0 ++ Some (moved_from E z) :: Some z :: raws) h) in *.
  destruct (move_backward_loop_shift E a l2 h1 (Some <$> l1) (Some z :: raws) (moved_from E z)
              (ptr_add (end_ v) (-1)) (end_ v)) as [Hsh_ok Hsh_fail].
  { done. }
  { simpl. rewrite length_fmap. lia. }
  { done. }
  { simpl. rewrite length_fmap. lia. }
  { unfold h1. rewrite get_block_set_eq by done. unfold pre0. by rewrite <- app_assoc. }
  assert (std_move_backward E (ptr_add (mkPtr (Some a) 0) (Z.of_nat (length l1)))
            (ptr_add (end_ v) (-1)) (end_ v)
          = move_backward_loop E (ptr_add (end_ v) (-1)) (end_ v) (length l2)) as Hstd.
  { unfold std_move_backward, ptr_diff. simpl. rewrite Nat.eqb_refl.
    rewrite (proj2 (Z.leb_le 0 _)) by lia. f_equal. lia. }
  cbn [negb]. rewrite andb_true_l.
  destruct (none_throws (move_assign_throws E) l2); cycle 1.
  { split; [intros ? _; discriminate|]. intros _. subst R. first_fails.
    apply try_catch_fails. step by reflexivity. rewrite Hneq. cbn [negb]. cbv iota.
    step by reflexivity. step by (by apply on_heap_Ok, Hmv_ok).
    unfold RawMemory_plus. change (capacity_ (data_ v)) with cap. rewrite (proj2 (Z.leb_le (Z.of_nat (length l1)) cap)) by lia.
    step by reflexivity. step by reflexivity. first_fails.
    change (buffer_ (data_ v)) with (mkPtr (Some a) 0). rewrite Hstd. by apply on_heap_fails, Hsh_fail. }
  specialize (Hsh_ok eq_refl). clear Hsh_fail.
  set (h2 := set_block a ((Some <$> l1) ++ Some (residual_back E (moved_from E z) l2)
                            :: (Some <$> l2) ++ Some z :: raws) h1) in *.
  assert (load (ptr_add (mkPtr (Some a) 0) (Z.of_nat (length l1))) h2
          = Ok (residual_back E (moved_from E z) l2) h2) as Hload.
  { apply (load_block h2 _ a (length l1)
             ((Some <$> l1) ++ Some (residual_back E (moved_from E z) l2)
                :: (Some <$> l2) ++ Some z :: raws)); [done|simpl; lia| |].
    - unfold h2. apply get_block_set_eq. unfold h1. by rewrite length_set_block.
    - apply list_lookup_middle. by rewrite length_fmap. }
  cbn [andb].
  destruct (move_assign_throws E x) eqn:Hx; cbn [negb].
  { split; [intros y [= <-] Hy; rewrite Hx in Hy; discriminate|].
    intros _. subst R. first_fails.
    apply try_catch_fails. step by reflexivity. rewrite Hneq. cbn [negb]. cbv iota.
    step by reflexivity. step by (by apply on_heap_Ok, Hmv_ok).
    unfold RawMemory_plus, RawMemory_at. change (capacity_ (data_ v)) with cap.
    rewrite (proj2 (Z.leb_le (Z.of_nat (length l1)) cap)) by lia.
    step by reflexivity. step by reflexivity.
    change (buffer_ (data_ v)) with (mkPtr (Some a) 0). rewrite Hstd. step by (by apply on_heap_Ok, Hsh_ok).
    rewrite (proj2 (Z.ltb_lt (Z.of_nat (length l1)) cap)) by lia.
    step by reflexivity. step by reflexivity. apply on_heap_fails. simpl.
    unfold move_assign_value. step by exact Hload. by rewrite Hx. }
  split; [|discriminate]. intros y [= <-] _.
  step in HR by
    (apply try_catch_Ok; step by reflexivity; rewrite Hneq; cbn [negb]; cbv iota;
     step by reflexivity; step by (by apply on_heap_Ok, Hmv_ok);
     unfold RawMemory_plus, RawMemory_at; change (capacity_ (data_ v)) with cap;
     rewrite (proj2 (Z.leb_le (Z.of_nat (length l1)) cap)) by lia;
     step by reflexivity; step by reflexivity;
     change (buffer_ (data_ v)) with (mkPtr (Some a) 0); rewrite Hstd; step by (by apply on_heap_Ok, Hsh_ok);
     rewrite (proj2 (Z.ltb_lt (Z.of_nat (length l1)) cap)) by lia;
     step by reflexivity; step by reflexivity;
     apply on_heap_Ok; unfold move_assign_value; step by exact Hload; rewrite Hx;
     apply (store_block h2 _ a (length l1)
              ((Some <$> l1) ++ Some (residual_back E (moved_from E z) l2)
                 :: (Some <$> l2) ++ Some z :: raws)
              (residual_back E (moved_from E z) l2));
     [done|simpl; lia| |];
     [unfold h2; apply get_block_set_eq; unfold h1; by rewrite length_set_block
     |apply list_lookup_middle; by rewrite length_fmap]).
  step in HR by reflexivity. step in HR by reflexivity. step in HR by reflexivity.
  subst R. unfold ret, set_size, updated, vec, v, end_, begin, GetAddress, Capacity. simpl.
  rewrite wrap_small by lia. do 2 f_equal.
  - f_equal. rewrite Hlen, !length_app. simpl. rewrite !length_app. simpl. lia.
  - unfold h2, h1. rewrite !set_block_set. f_equal.
    rewrite <- (length_fmap Some l1) at 1. rewrite insert_at_middle.
    unfold block_of. rewrite !fmap_app, fmap_cons, !fmap_app, <- !app_assoc. simpl.
    rewrite <- app_assoc. simpl. do 4 f_equal. unfold raws. f_equal.
    rewrite Hlen, !length_app. simpl. rewrite !length_app. simpl. lia.
Qed.

(** [Erase] of the element [y] at index [length l1]: the run [l2] behind it
    shifts by one, and the last slot is destroyed. *)
Lemma Erase_spec h v l1 y l2 :
  holds E h v (l1 ++ y :: l2) →
  (none_throws (move_assign_throws E) l2 = true →
   Erase E (ptr_add (cbegin v) (Z.of_nat (length l1))) (mkState v h)
   = Ok (ptr_add (begin v) (Z.of_nat (length l1))) (updated h v (l1 ++ l2))) ∧
  (none_throws (move_assign_throws E) l2 = false →
   succeeds (Erase E (ptr_add (cbegin v) (Z.of_nat (length l1))) (mkState v h)) = false).
Proof.
  intros Hh.
  destruct (holds_inv h v _ Hh) as (b & cap & -> & Hle & Hbytes & Hblk).
  destruct (capacity_bound E Hsane cap) as (Hc1 & Hc2 & _); [lia|done|].
  assert (length (l1 ++ y :: l2) = length l1 + length l2 + 1)%nat as Hlen.
  { rewrite length_app. simpl. lia. }
  destruct b as [a|]; [|destruct Hblk as [_ Hnil]; by destruct l1].
  assert (a < length h)%nat as Ha by (by eapply get_block_lt).
  set (xs := l1 ++ y :: l2) in *.
  set (v := vec (mkPtr (Some a) 0) cap (Z.of_nat (length xs))) in *.
  set (raws := replicate (Z.to_nat cap - length xs) (@None T)).
  assert (block_of xs (Z.to_nat cap) = (Some <$> l1) ++ Some y :: (Some <$> l2) ++ raws)
    as Hblock.
  { unfold block_of, xs. by rewrite fmap_app, fmap_cons, <- app_assoc. }
  rewrite Hblock in Hblk.
  destruct (move_loop_shift E a l2 h (Some <$> l1) raws y
              (ptr_add (ptr_add (begin v) (Z.of_nat (length l1))) 1)
              (ptr_add (begin v) (Z.of_nat (length l1)))) as [Hsh_ok Hsh_fail];
    [done|simpl; rewrite length_fmap; lia|done|simpl; rewrite length_fmap; lia|done|].
  assert (std_move E (ptr_add (ptr_add (begin v) (Z.of_nat (length l1))) 1) (end_ v)
            (ptr_add (begin v) (Z.of_nat (length l1)))
          = move_loop E (ptr_add (ptr_add (begin v) (Z.of_nat (length l1))) 1)
              (ptr_add (begin v) (Z.of_nat (length l1))) (length l2)) as Hstd.
  { unfold std_move, ptr_diff. simpl. rewrite Nat.eqb_refl.
    rewrite (proj2 (Z.leb_le 0 _)) by lia. f_equal. lia. }
  remember (Erase E _ _) as R eqn:HR.
  unfold Erase in HR.
  assert ((let* v0 := get_this
             in assert_in_range (ptr_add (cbegin v) (Z.of_nat (length l1))) (cbegin v0) (cend v0);;
                let* iterator_pos
                := iterator_offset (ptr_add (cbegin v) (Z.of_nat (length l1))) (cbegin v0)
                in on_heap
                     (std_move E (ptr_add (ptr_add (begin v0) iterator_pos) 1) (end_ v0)
                        (ptr_add (begin v0) iterator_pos));;
                   PopBack;;
                   let* v1 := get_this in ret (ptr_add (begin v1) iterator_pos))
              (mkState v h)
            = (on_heap (move_loop E (ptr_add (ptr_add (begin v) (Z.of_nat (length l1))) 1)
                          (ptr_add (begin v) (Z.of_nat (length l1))) (length l2));;
               PopBack;;
               let* v1 := get_this in ret (ptr_add (begin v1) (Z.of_nat (length l1))))
                (mkState v h)) as Hbody.
  { step by reflexivity.
    step by (unfold assert_in_range, cbegin, cend, ptr_diff, GetAddress; simpl;
             rewrite Nat.eqb_refl; unfold assert;
             rewrite (proj2 (Z.leb_le 0 _)) by lia;
             rewrite (proj2 (Z.ltb_lt _ 0)) by lia; reflexivity).
    step by (unfold iterator_offset, cbegin; rewrite ptr_diff_add, wrap_small by lia;
             reflexivity).
    by rewrite Hstd. }
  split; intros Hall.
  - specialize (Hsh_ok Hall). clear Hsh_fail.
    set (h1 := set_block a ((Some <$> l1) ++ (Some <$> l2)
                              ++ Some (residual_front E y l2) :: raws) h) in *.
    assert (holds E h1 v (l1 ++ l2 ++ [residual_front E y l2])) as Hh1.
    { assert (length (l1 ++ l2 ++ [residual_front E y l2]) = length xs) as Hl.
      { rewrite Hlen, !length_app. simpl. lia. }
      unfold v. rewrite <- Hl. apply holds_vec; [lia|done|].
      unfold h1. rewrite get_block_set_eq by done. f_equal.
      unfold block_of. rewrite Hl. fold raws.
      by rewrite !fmap_app, <- !app_assoc. }
    destruct (PopBack_spec h1 v _ Hh1) as [Hpop _].
    rewrite HR. apply noexcept_Ok. rewrite Hbody.
    step by (by apply on_heap_Ok, Hsh_ok).
    step by (apply Hpop; by destruct l1, l2).
    step by reflexivity.
    unfold ret. f_equal.
    assert (take (length (l1 ++ l2 ++ [residual_front E y l2]) - 1)
              (l1 ++ l2 ++ [residual_front E y l2]) = l1 ++ l2) as ->.
    { rewrite app_assoc. rewrite length_app. simpl.
      rewrite Nat.add_sub. by rewrite take_app_length. }
    unfold updated, v, vec, Capacity. simpl. f_equal.
    unfold h1. by rewrite set_block_set.
  - rewrite HR. apply noexcept_fails. rewrite Hbody.
    first_fails. by apply on_heap_fails, Hsh_fail.
Qed.

(** The copy constructor. *)
Lemma free_new h s : <[length h := None]> (h ++ [s]) = h ++ [None].
Proof. apply (insert_at_middle h [] s None). Qed.

Lemma Vector_copy_spec h other ys :
  holds E h other ys →
  (ys = [] → Vector_copy E other h = Ok Vector_default h) ∧
  (ys ≠ [] →
   Vector_copy E other h
   = if can_alloc E (Z.of_nat (length ys) * sizeof_T E)
     then if none_throws (copy_throws E) ys
          then Ok (vec (mkPtr (Some (length h)) 0) (Z.of_nat (length ys)) (Z.of_nat (length ys)))
                  (h ++ [Some (block_of ys (length ys))])
          else Throw (h ++ [None])
     else Throw h).
Proof.
  intros Hh.
  destruct (holds_inv h other ys Hh) as (b & cap & -> & Hle & Hbytes & Hblk).
  destruct (capacity_bound E Hsane cap) as (Hc1 & Hc2 & _); [lia|done|].
  pose proof (sizeof_pos E Hsane) as Hs. pose proof PTRDIFF_MAX_lt as HP.
  split.
  - intros ->. unfold Vector_copy. simpl.
    step by apply RawMemory_sized_0. by step by reflexivity.
  - intros Hne. assert (0 < length ys)%nat as Hpos by (destruct ys; [done|simpl; lia]).
    destruct b as [a|]; [|destruct Hblk as [_ ->]; simpl in Hpos; lia].
    assert (Z.of_nat (length ys) * sizeof_T E ≤ cap * sizeof_T E) as Hmono
      by (apply Z.mul_le_mono_nonneg_r; lia).
    assert (Z.of_nat (length ys) * sizeof_T E < SIZE_MOD) as Hfit by lia.
    pose proof (RawMemory_sized_pos E Hsane (Z.of_nat (length ys)) h ltac:(lia) Hfit)
      as Halloc.
    unfold Vector_copy. cbn [size_ vec].
    destruct (can_alloc E (Z.of_nat (length ys) * sizeof_T E)).
    + step by exact Halloc.
      set (h1 := h ++ [Some (replicate (Z.to_nat (Z.of_nat (length ys))) None)]).
      unfold begin, GetAddress. cbn [buffer_ data_ vec].
      assert (a < length h)%nat as Ha by (by eapply get_block_lt).
      destruct (none_throws (copy_throws E) ys) eqn:Hall.
      * step by
          (apply try_catch_Ok;
           apply (uninitialized_copy_n_Ok E h1 _ _ a (length h) 0 0
                    (block_of ys (Z.to_nat cap))
                    (replicate (Z.to_nat (Z.of_nat (length ys))) None) ys);
           [lia|done|done|done|done|by apply get_block_app_l|apply get_block_app_new
           |intros k x Hk; by apply block_of_live
           |rewrite length_replicate; lia|done]).
        unfold ret, vec. f_equal. unfold h1. rewrite set_block_new.
        by rewrite Nat2Z.id, list_inserts_raw.
      * unfold bind, try_catch_rethrow.
        rewrite (uninitialized_copy_n_Throw E h1 _ _ a (length h) 0 0
                   (block_of ys (Z.to_nat cap))
                   (replicate (Z.to_nat (Z.of_nat (length ys))) None) ys);
          [|lia|done|done|done|done|by apply get_block_app_l|apply get_block_app_new
           |intros k x Hk; by apply block_of_live
           |rewrite length_replicate; lia
           |intros k Hk; apply lookup_replicate_2; lia|done].
        unfold RawMemory_destroy, Deallocate. cbn [buffer_].
        erewrite operator_delete_block by apply get_block_app_new.
        unfold h1. by rewrite free_new.
    + unfold bind. by rewrite Halloc.
Qed.

(** The sized constructor. *)
Lemma Vector_sized_spec h n :
  0 ≤ n → n * sizeof_T E < SIZE_MOD →
  (n = 0 → Vector_sized E n h = Ok Vector_default h) ∧
  (0 < n →
   (can_alloc E (n * sizeof_T E) && is_live (value_init E) = true →
    Vector_sized E n h
    = Ok (vec (mkPtr (Some (length h)) 0) n n)
         (h ++ [Some (block_of (fresh_values (Z.to_nat n)) (Z.to_nat n))])) ∧
   (can_alloc E (n * sizeof_T E) && is_live (value_init E) = false →
    succeeds (Vector_sized E n h) = false)).
Proof.
  intros Hn Hfit. split.
  - intros ->. unfold Vector_sized.
    step by apply RawMemory_sized_0. by step by reflexivity.
  - intros Hpos.
    pose proof (RawMemory_sized_pos E Hsane _ h Hpos Hfit) as Halloc.
    unfold Vector_sized.
    destruct (can_alloc E (n * sizeof_T E)); cycle 1.
    { split; [discriminate|]. intros _. apply bind_fails. by rewrite Halloc. }
    set (h1 := h ++ [Some (replicate (Z.to_nat n) None)]) in *.
    unfold fresh_values.
    destruct (value_init E) as [v0|] eqn:Hv0; split; try discriminate; intros _.
    + step by exact Halloc.
      step by
        (apply try_catch_Ok; unfold GetAddress; cbn [buffer_];
         rewrite <- (Z2Nat.id n) at 1 by lia;
         apply (uninitialized_value_construct_n_Ok E h1 _ (length h) 0
                  (replicate (Z.to_nat n) None) _ v0);
         [done|done|apply get_block_app_new|rewrite length_replicate; lia|done]).
      unfold ret, vec. f_equal. unfold h1. rewrite set_block_new.
      rewrite <- fmap_replicate, list_inserts_raw by (by rewrite length_replicate).
      done.
    + step by exact Halloc. apply bind_fails, try_catch_fails.
      unfold GetAddress. cbn [buffer_].
      rewrite <- (Z2Nat.id n) by lia.
      rewrite uninitialized_value_construct_n_Throw; [done|done|lia].
Qed.

(** The element-wise assignment loop of the copy assignment, between the
    block of [rhs] at [a] and the block of the container at [a']. *)
Section AssignLoop.

Variables (h : Heap T) (v : Vector) (a a' : nat) (cap capr : Z).
Variables (src dst : Block T) (ys : list T).
Hypothesis Hne : a ≠ a'.
Hypothesis Hsrc : get_block h a = Some src.
Hypothesis Hdst : get_block h a' = Some dst.
Hypothesis Hys : ∀ k y, ys !! k = Some y → src !! k = Some (Some y).
Hypothesis Hlive : ∀ k, (k < length ys)%nat → ∃ w, dst !! k = Some (Some w).
Hypothesis Hcap : Z.of_nat (length ys) ≤ cap.
Hypothesis Hcapr : Z.of_nat (length ys) ≤ capr.
Hypothesis Hsmall : cap < SIZE_MOD.

Definition assigned (k : nat) : State T :=
  mkState v (set_block a' (list_inserts 0 (Some <$> take k ys) dst) h).

Lemma assigned_0 : assigned 0 = mkState v h.
Proof. unfold assigned. simpl. by rewrite set_block_id. Qed.

Lemma assign_loop_spec n : ∀ done,
  (done + n ≤ length ys)%nat →
  (none_throws (copy_assign_throws E) (take n (drop done ys)) = true →
   assign_loop E (mkRawMemory (mkPtr (Some a') 0) cap) (mkRawMemory (mkPtr (Some a) 0) capr)
     (Z.of_nat done) n (assigned done)
   = Ok (Z.of_nat (done + n)) (assigned (done + n))) ∧
  (none_throws (copy_assign_throws E) (take n (drop done ys)) = false →
   succeeds (assign_loop E (mkRawMemory (mkPtr (Some a') 0) cap)
               (mkRawMemory (mkPtr (Some a) 0) capr) (Z.of_nat done) n (assigned done))
   = false).
Proof.
  assert (a' < length h)%nat as Ha' by (by eapply get_block_lt).
  induction n as [|n IH]; intros done Hdone.
  - split; [|discriminate]. intros _. simpl. unfold ret. by rewrite Nat.add_0_r.
  - destruct (lookup_lt_is_Some_2 ys done) as [y Hy]; [lia|].
    destruct (Hlive done) as [w Hw]; [lia|].
    rewrite (drop_S ys y done Hy). simpl take.
    unfold none_throws. simpl forallb. fold (none_throws (copy_assign_throws E)).
    simpl assign_loop.
    assert (∀ K : Ptr → M (State T) Z,
              (let* src0 := RawMemory_at (mkRawMemory (mkPtr (Some a) 0) capr) (Z.of_nat done)
               in K src0) (assigned done)
              = K (mkPtr (Some a) (Z.of_nat done)) (assigned done)) as Hat1.
    { intros K. unfold RawMemory_at, bind, assert. cbn [capacity_ buffer_].
      by rewrite (proj2 (Z.ltb_lt _ _)) by lia. }
    assert (∀ K : Ptr → M (State T) Z,
              (let* dst0 := RawMemory_at (mkRawMemory (mkPtr (Some a') 0) cap) (Z.of_nat done)
               in K dst0) (assigned done)
              = K (mkPtr (Some a') (Z.of_nat done)) (assigned done)) as Hat2.
    { intros K. unfold RawMemory_at, bind, assert. cbn [capacity_ buffer_].
      by rewrite (proj2 (Z.ltb_lt _ _)) by lia. }
    rewrite Hat1, Hat2.
    assert (load (mkPtr (Some a) (Z.of_nat done)) (mem (assigned done))
            = Ok y (mem (assigned done))) as Hl1.
    { apply (load_block _ _ a done src y); [done|done| |by apply Hys].
      unfold assigned. cbn [mem]. by rewrite get_block_set_ne. }
    assert (load (mkPtr (Some a') (Z.of_nat done)) (mem (assigned done))
            = Ok w (mem (assigned done))) as Hl2.
    { apply (load_block _ _ a' done (list_inserts 0 (Some <$> take done ys) dst) w);
        [done|done| |].
      - unfold assigned. cbn [mem]. by apply get_block_set_eq.
      - rewrite list_lookup_inserts_ge; [done|]. rewrite length_fmap, length_take. lia. }
    destruct (copy_assign_throws E y) eqn:Hthrow; cbn [negb andb].
    + split; [discriminate|]. intros _. apply bind_fails, on_heap_fails.
      unfold copy_assign_at. step by exact Hl1. step by exact Hl2. by rewrite Hthrow.
    + assert (on_heap (copy_assign_at E (mkPtr (Some a') (Z.of_nat done))
                         (mkPtr (Some a) (Z.of_nat done))) (assigned done)
              = Ok tt (assigned (S done))) as Hstep.
      { unfold assigned in *. cbn [mem] in *. apply on_heap_Ok. unfold copy_assign_at.
        step by exact Hl1. step by exact Hl2. rewrite Hthrow.
        rewrite (store_block _ _ a' done (list_inserts 0 (Some <$> take done ys) dst) w);
          [|done|done| |].
        - rewrite set_block_set. do 2 f_equal.
          by rewrite <- (list_inserts_take_S Some dst 0 ys done y Hy).
        - by apply get_block_set_eq.
        - rewrite list_lookup_inserts_ge; [done|]. rewrite length_fmap, length_take. lia. }
      step by exact Hstep.
      rewrite wrap_small by lia.
      replace (Z.of_nat done + 1) with (Z.of_nat (S done)) by lia.
      replace (done + S n)%nat with (S done + n)%nat by lia.
      apply IH. lia.
Qed.

End AssignLoop.

Lemma assign_prefix_block xs ys (m cap : nat) :
  (m ≤ length xs)%nat → (m ≤ length ys)%nat → (length xs ≤ cap)%nat →
  list_inserts 0 (Some <$> take m ys) (block_of xs cap)
  = block_of (take m ys ++ drop m xs) cap.
Proof.
  intros Hx Hy Hcap. unfold block_of.
  rewrite <- (take_drop m xs) at 1. rewrite !fmap_app, <- !app_assoc.
  rewrite list_inserts_0_r by (rewrite !length_fmap, !length_take; lia).
  do 3 f_equal. rewrite !length_app, length_take, length_drop. lia.
Qed.

(** The copy assignment when [rhs] does not fit: copy and swap. *)
Lemma copy_assign_realloc h v rhs xs ys :
  holds E h v xs → holds E h rhs ys → Capacity v < size_ rhs →
  copy_assign_from E rhs (mkState v h)
  = if can_alloc E (Z.of_nat (length ys) * sizeof_T E)
    then if none_throws (copy_throws E) ys
         then Ok tt (reallocated h v ys (Z.of_nat (length ys)))
         else Throw (mkState v (h ++ [None]))
    else Throw (mkState v h).
Proof.
  intros Hh Hr Hlt.
  assert (size_ rhs = Z.of_nat (length ys)) as Hsz by apply Hr.
  destruct (holds_inv h v xs Hh) as (b & cap & -> & Hle & Hbytes & Hblk).
  unfold Capacity in Hlt. cbn [data_ capacity_ vec] in Hlt.
  assert (ys ≠ []) as Hne by (intros ->; simpl in *; lia).
  destruct (Vector_copy_spec h rhs ys Hr) as [_ Hcopy]. specialize (Hcopy Hne).
  unfold copy_assign_from. step by reflexivity.
  unfold Capacity. cbn [data_ capacity_ vec].
  rewrite (proj2 (Z.ltb_lt _ _) Hlt).
  destruct (can_alloc E (Z.of_nat (length ys) * sizeof_T E)); cycle 1.
  { unfold bind. by erewrite on_heap_Throw by exact Hcopy. }
  destruct (none_throws (copy_throws E) ys); cycle 1.
  { unfold bind. by erewrite on_heap_Throw by exact Hcopy. }
  step by (by apply on_heap_Ok, Hcopy).
  step by reflexivity.
  unfold Vector_destroy, begin, GetAddress, RawMemory_destroy, Deallocate.
  cbn [RawMemory_Swap data_ buffer_ size_ vec].
  unfold reallocated, free, vec. cbn [data_ buffer_ base].
  destruct b as [a|].
  - assert (a < length h)%nat as Ha by (by eapply get_block_lt).
    erewrite on_heap_Ok; cycle 1.
    { step by
        (apply (destroy_n_block _ _ a 0 (block_of xs (Z.to_nat cap)));
         [done|done|by apply get_block_app_l|];
         intros k Hk; destruct (lookup_lt_is_Some_2 xs k) as [x Hx]; [lia|];
         exists x; by apply block_of_live).
      apply (operator_delete_block _ a (list_inserts 0 (replicate (length xs) None)
                                          (block_of xs (Z.to_nat cap)))).
      apply get_block_set_eq. rewrite length_app. lia. }
    by rewrite free_set_block_eq, Nat2Z.id.
  - destruct Hblk as [_ ->]. erewrite on_heap_Ok by reflexivity.
    by rewrite Nat2Z.id.
Qed.

(** The copy assignment in place, both containers having storage. *)
Lemma copy_assign_in_place h v rhs xs ys a a' :
  holds E h v xs → holds E h rhs ys →
  base (buffer_ (data_ v)) = Some a' → base (buffer_ (data_ rhs)) = Some a → a ≠ a' →
  size_ rhs ≤ Capacity v →
  let ok :=
    none_throws (copy_assign_throws E) (take (min (length xs) (length ys)) ys) &&
    (if size_ rhs <? size_ v then true
     else (size_ v <? Capacity rhs) && (size_ v <? Capacity v) &&
          none_throws (copy_throws E) (drop (length xs) ys)) in
  (ok = true → copy_assign_from E rhs (mkState v h) = Ok tt (updated h v ys)) ∧
  (ok = false → succeeds (copy_assign_from E rhs (mkState v h)) = false).
Proof.
  intros Hh Hr Hb Hbr Hne Hfits ok.
  destruct (holds_inv h v xs Hh) as (b & cap & -> & Hle & Hbytes & Hblk).
  destruct (holds_inv h rhs ys Hr) as (br & capr & -> & Hler & Hbytesr & Hblkr).
  cbn [data_ buffer_ base vec] in Hb, Hbr. subst b br.
  unfold Capacity in *. cbn [data_ capacity_ size_ vec] in *.
  destruct (capacity_bound E Hsane cap) as (Hc1 & Hc2 & _); [lia|done|].
  pose proof PTRDIFF_MAX_lt as HP.
  set (m := min (length xs) (length ys)) in *.
  assert (length (take m ys) = m) as Hlm by (rewrite length_take; lia).
  destruct (assign_loop_spec h (vec (mkPtr (Some a') 0) cap (Z.of_nat (length xs)))
              a a' cap capr (block_of ys (Z.to_nat capr)) (block_of xs (Z.to_nat cap))
              (take m ys)) with (n := m) (done := 0%nat) as [Hloop_ok Hloop_fail];
    try done; try lia.
  { intros k y Hk. apply block_of_live. apply lookup_take_Some in Hk. apply Hk. }
  { intros k Hk. destruct (lookup_lt_is_Some_2 xs k) as [x Hx]; [lia|].
    exists x. by apply block_of_live. }
  rewrite drop_0, take_take, Nat.min_id in Hloop_ok, Hloop_fail.
  rewrite assigned_0 in Hloop_ok, Hloop_fail by done.
  unfold assigned in Hloop_ok. cbn [Nat.add] in Hloop_ok.
  rewrite take_take, Nat.min_id in Hloop_ok.
  remember (copy_assign_from E _ _) as R eqn:HR.
  unfold copy_assign_from in HR. step in HR by reflexivity.
  unfold Capacity in HR. cbn [data_ capacity_ size_ vec] in HR.
  rewrite (proj2 (Z.ltb_ge _ _)) in HR by lia.
  replace (Z.to_nat (Z.min (Z.of_nat (length xs)) (Z.of_nat (length ys)))) with m in HR by lia.
  subst ok.
  destruct (none_throws (copy_assign_throws E) (take m ys)); cycle 1.
  { split; [discriminate|]. intros _. subst R. first_fails. by apply Hloop_fail. }
  specialize (Hloop_ok eq_refl). clear Hloop_fail. cbn [andb].
  step in HR by exact Hloop_ok. simpl Nat.add in HR.
  assert (a' < length h)%nat as Ha' by (by eapply get_block_lt).
  set (B1 := list_inserts 0 (Some <$> take m ys) (block_of xs (Z.to_nat cap))) in *.
  set (h1 := set_block a' B1 h) in *.
  assert (B1 = block_of (take m ys ++ drop m xs) (Z.to_nat cap)) as HB1
    by (apply assign_prefix_block; lia).
  destruct (Z.ltb_spec (Z.of_nat (length ys)) (Z.of_nat (length xs))) as [Hshrink|Hgrow].
  - split; [|discriminate]. intros _.
    assert (m = length ys) as Hm by lia.
    unfold RawMemory_at in HR. cbn [capacity_ buffer_] in HR.
    rewrite (proj2 (Z.ltb_lt (Z.of_nat (length ys)) cap)) in HR by lia.
    step in HR by reflexivity. step in HR by reflexivity.
    rewrite wrap_small in HR by lia.
    replace (Z.of_nat (length xs) - Z.of_nat (length ys))
      with (Z.of_nat (length xs - length ys)) in HR by lia.
    step in HR by
      (apply on_heap_Ok;
       apply (destroy_n_block _ _ a' (length ys) B1); [done|simpl; lia| |];
       [by apply get_block_set_eq|];
       intros k Hk; rewrite HB1;
       destruct (lookup_lt_is_Some_2 xs (length ys + k)) as [x Hx]; [lia|];
       exists x; apply block_of_live;
       rewrite lookup_app_r by (rewrite length_take; lia);
       rewrite lookup_drop, length_take;
       by replace (m + (length ys + k - m `min` length ys))%nat
            with (length ys + k)%nat by lia).
    subst R. unfold set_size, updated, vec, Capacity. simpl. do 2 f_equal.
    unfold h1. rewrite set_block_set. f_equal. rewrite HB1, Hm.
    rewrite firstn_all.
    pose proof (list_inserts_destroyed (ys ++ drop (length ys) xs) (Z.to_nat cap) (length ys))
      as Hd.
    rewrite length_app, length_drop in Hd.
    replace (length ys + (length xs - length ys) - length ys)%nat
      with (length xs - length ys)%nat in Hd by lia.
    rewrite Hd by lia. by rewrite take_app_length.
  - assert (m = length xs) as Hm by lia.
    unfold RawMemory_at in HR. cbn [capacity_ buffer_] in HR.
    destruct (Z.ltb_spec (Z.of_nat (length xs)) capr) as [H1|H1]; cycle 1.
    { split; [discriminate|]. intros _. subst R. rewrite Hm.
      first_fails. unfold assert. by rewrite (proj2 (Z.ltb_ge _ _)) by lia. }
    destruct (Z.ltb_spec (Z.of_nat (length xs)) cap) as [H2|H2]; cycle 1.
    { split; [discriminate|]. intros _. subst R. rewrite Hm.
      step by (unfold assert; rewrite (proj2 (Z.ltb_lt _ _)) by lia; reflexivity).
      step by reflexivity.
      first_fails. unfold assert. by rewrite (proj2 (Z.ltb_ge _ _)) by lia. }
    cbn [andb].
    rewrite Hm in HR. rewrite (proj2 (Z.ltb_lt _ _) H1) in HR.
    rewrite (proj2 (Z.ltb_lt _ _) H2) in HR.
    step in HR by reflexivity. step in HR by reflexivity.
    step in HR by reflexivity. step in HR by reflexivity.
    rewrite wrap_small in HR by lia.
    replace (Z.of_nat (length ys) - Z.of_nat (length xs))
      with (Z.of_nat (length (drop (length xs) ys))) in HR by (rewrite length_drop; lia).
    assert (drop m xs = []) as Hdrop by (apply drop_ge; lia).
    rewrite Hdrop, app_nil_r in HB1.
    assert (get_block h1 a = Some (block_of ys (Z.to_nat capr))) as Hga
      by (unfold h1; by rewrite get_block_set_ne).
    assert (get_block h1 a' = Some B1) as Hga' by (by apply get_block_set_eq).
    destruct (none_throws (copy_throws E) (drop (length xs) ys)) eqn:Hall; split;
      try discriminate; intros _.
    + step in HR by
        (apply on_heap_Ok;
         apply (uninitialized_copy_n_Ok E h1 _ _ a a' (length xs) (length xs)
                  (block_of ys (Z.to_nat capr)) B1 (drop (length xs) ys));
         [done|done|simpl; lia|done|simpl; lia|done|done
         |intros k y Hk; apply block_of_live; by rewrite lookup_drop in Hk
         |rewrite HB1, length_block_of, length_drop by (rewrite length_take; lia); lia
         |done]).
      subst R. unfold set_size, updated, vec, Capacity. simpl. do 2 f_equal.
      unfold h1. rewrite set_block_set. f_equal. rewrite HB1.
      rewrite <- (take_drop m ys) at 3. rewrite <- Hm.
      rewrite <- Hlm at 1. apply list_inserts_block_of.
      rewrite length_take, length_drop. lia.
    + subst R. first_fails. apply on_heap_fails. cbn [mem].
      apply (uninitialized_copy_n_fails E h1 _ _ a a' (length xs) (length xs)
               (block_of ys (Z.to_nat capr)) B1 (drop (length xs) ys));
        [done|done|simpl; lia|done|simpl; lia|done|done
        |intros k y Hk; apply block_of_live; by rewrite lookup_drop in Hk
        |rewrite HB1, length_block_of, length_drop by (rewrite length_take; lia); lia
        |done].
Qed.

(** ** What a call that returns has done *)

Lemma decide_outcome {S A} (o : Outcome S A) (ok : bool) a0 s0 :
  (ok = true → o = Ok a0 s0) → (ok = false → succeeds o = false) →
  ∀ a s, o = Ok a s → ok = true ∧ a = a0 ∧ s = s0.
Proof.
  destruct ok; intros H1 H2 a s Ho.
  - rewrite H1 in Ho by done. injection Ho as <- <-. done.
  - rewrite Ho in H2. specialize (H2 eq_refl). discriminate.
Qed.

Lemma Reserve_inv h v xs n st' :
  holds E h v xs → 0 ≤ n → n * sizeof_T E < SIZE_MOD →
  Reserve E n (mkState v h) = Ok tt st' →
  (n ≤ Capacity v ∧ st' = mkState v h) ∨
  (Capacity v < n ∧ can_alloc E (n * sizeof_T E) = true ∧
   none_throws (relocate_throws E) xs = true ∧ st' = reallocated h v xs n).
Proof.
  intros Hh Hn Hfit HR.
  destruct (Z.le_gt_cases n (Capacity v)) as [Hle|Hgt].
  - left. split; [done|]. rewrite Reserve_noop in HR by done. by injection HR.
  - right. destruct (Reserve_grow h v xs n Hh Hgt Hfit) as [Hok Hfail].
    destruct (decide_outcome _ _ _ _ Hok Hfail _ _ HR) as (Hc & _ & ->).
    apply andb_true_iff in Hc as [? ?]. done.
Qed.

Lemma Resize_inv h v xs n st' :
  holds E h v xs → 0 ≤ n → n * sizeof_T E < SIZE_MOD →
  Resize E n (mkState v h) = Ok tt st' →
  (n < size_ v ∧ st' = updated h v (take (Z.to_nat n) xs)) ∨
  (size_ v ≤ n ≤ Capacity v ∧ (is_Some (value_init E) ∨ n = size_ v) ∧
   st' = updated h v (xs ++ fresh_values (Z.to_nat n - length xs))) ∨
  (Capacity v < n ∧ is_Some (value_init E) ∧
   can_alloc E (Z.max (Capacity v * 2) n * sizeof_T E) = true ∧
   none_throws (relocate_throws E) xs = true ∧
   st' = reallocated h v (xs ++ fresh_values (Z.to_nat n - length xs))
           (Z.max (Capacity v * 2) n)).
Proof.
  intros Hh Hn Hfit HR.
  assert (size_ v ≤ Capacity v) as Hle by apply Hh.
  destruct (Z.lt_ge_cases n (size_ v)) as [Hlt|Hge].
  - left. split; [done|]. rewrite Resize_shrink with (xs := xs) in HR by (done || lia).
    by injection HR.
  - right. destruct (Z.le_gt_cases n (Capacity v)) as [Hin|Hout].
    + left. split; [done|].
      destruct (Resize_within h v xs n Hh) as [Hok Hthrow]; [lia|].
      destruct (value_init E) as [v0|] eqn:Hv0.
      * split; [left; eauto|]. rewrite Hok in HR by eauto. by injection HR.
      * destruct (decide (n = size_ v)) as [->|Hne].
        -- split; [by right|]. rewrite Hok in HR by (by right). by injection HR.
        -- rewrite Hthrow in HR; [discriminate|done|lia].
    + right. destruct (Resize_grow h v xs n Hh Hout Hfit) as [Hok Hfail].
      destruct (decide_outcome _ _ _ _ Hok Hfail _ _ HR) as (Hc & _ & ->).
      apply andb_true_iff in Hc as [Hc ?]. apply andb_true_iff in Hc as [Hv ?].
      repeat split; try done. destruct (value_init E); [eauto|discriminate].
Qed.

Lemma PopBack_inv h v xs st' :
  holds E h v xs → PopBack (mkState v h) = Ok tt st' →
  xs ≠ [] ∧ st' = updated h v (take (length xs - 1) xs).
Proof.
  intros Hh HR. destruct (PopBack_spec h v xs Hh) as [Hok Habort].
  destruct xs as [|x xs].
  - by rewrite Habort in HR.
  - split; [done|]. rewrite Hok in HR by done. by injection HR.
Qed.

(** A sequence with an element in front of index [p] splits around its last
    element. *)
Lemma split_before_last xs (p : nat) :
  (p < length xs)%nat →
  ∃ l2 z, xs = take p xs ++ l2 ++ [z] ∧ drop p xs = l2 ++ [z].
Proof.
  intros Hp.
  destruct (drop p xs) as [|y l] eqn:Hd using rev_ind.
  - apply (f_equal length) in Hd. rewrite length_drop in Hd. simpl in Hd. lia.
  - clear IHl. exists l, y. split; [|done]. by rewrite <- Hd, take_drop.
Qed.

Lemma Emplace_inv h v xs (p : nat) c r st' :
  holds E h v xs → (p ≤ length xs)%nat →
  Emplace E (ptr_add (begin v) (Z.of_nat p)) c (mkState v h) = Ok r st' →
  ∃ x, c = Some x ∧
    ((size_ v = Capacity v ∧
      let cap' := if size_ v =? 0 then 1 else size_ v * 2 in
      can_alloc E (cap' * sizeof_T E) = true ∧
      none_throws (relocate_throws E) xs = true ∧
      r = mkPtr (Some (length h)) (Z.of_nat p) ∧
      st' = reallocated h v (insert_at p x xs) cap') ∨
     (size_ v < Capacity v ∧
      r = ptr_add (begin v) (Z.of_nat p) ∧
      st' = updated h v (insert_at p x xs))).
Proof.
  intros Hh Hp HR.
  assert (size_ v = Z.of_nat (length xs)) as Hsz by apply Hh.
  assert (size_ v ≤ Capacity v) as Hle by apply Hh.
  destruct (decide (size_ v = Capacity v)) as [Hfull|Hspare].
  - destruct (Emplace_realloc h v xs p c Hh Hfull Hp) as [Hok Hfail].
    destruct c as [x|]; cycle 1.
    { rewrite HR in Hfail. specialize (Hfail eq_refl). discriminate. }
    exists x. split; [done|]. left. split; [done|]. cbv zeta.
    cbn [is_live andb] in Hfail.
    destruct (can_alloc E _ && none_throws (relocate_throws E) xs) eqn:Hc.
    + rewrite (Hok x eq_refl eq_refl) in HR. injection HR as <- <-.
      apply andb_true_iff in Hc as [? ?]. done.
    + rewrite HR in Hfail. specialize (Hfail eq_refl). discriminate.
  - assert (size_ v < Capacity v) as Hlt by lia.
    destruct (decide (p = length xs)) as [->|Hmid].
    + assert (ptr_add (begin v) (Z.of_nat (length xs)) = end_ v) as Hend.
      { unfold end_, begin. by rewrite Hsz. }
      rewrite Hend in *.
      destruct (Emplace_at_end h v xs c Hh Hlt) as [Hok Hfail].
      destruct c as [x|]; cycle 1.
      { rewrite HR in Hfail. specialize (Hfail eq_refl). discriminate. }
      exists x. split; [done|]. right. split; [done|].
      rewrite (Hok x eq_refl) in HR. injection HR as <- <-.
      split; [done|]. unfold insert_at.
      by rewrite firstn_all, drop_all.
    + destruct (split_before_last xs p) as (l2 & z & Hsplit & Hdrop); [lia|].
      assert (length (take p xs) = p) as Hlp by (rewrite length_take; lia).
      rewrite Hsplit in Hh.
      destruct (Emplace_middle h v (take p xs) l2 z c Hh Hlt) as [Hok Hfail].
      rewrite Hlp in Hok, Hfail.
      destruct c as [x|]; cycle 1.
      { rewrite HR in Hfail. specialize (Hfail eq_refl). discriminate. }
      exists x. split; [done|]. right. split; [done|].
      destruct (negb (move_throws E z) && none_throws (move_assign_throws E) l2
                && negb (move_assign_throws E x)) eqn:Hc.
      * rewrite (Hok x eq_refl Hc) in HR. injection HR as <- <-.
        split; [done|]. unfold insert_at. by rewrite Hdrop.
      * rewrite HR in Hfail. specialize (Hfail eq_refl). discriminate.
Qed.

Lemma Erase_inv h v xs (p : nat) r st' :
  holds E h v xs → (p < length xs)%nat →
  Erase E (ptr_add (cbegin v) (Z.of_nat p)) (mkState v h) = Ok r st' →
  none_throws (move_assign_throws E) (drop (S p) xs) = true ∧
  r = ptr_add (begin v) (Z.of_nat p) ∧
  st' = updated h v (take p xs ++ drop (S p) xs).
Proof.
  intros Hh Hp HR.
  destruct (lookup_lt_is_Some_2 xs p Hp) as [y Hy].
  assert (xs = take p xs ++ y :: drop (S p) xs) as Hsplit
    by (by rewrite take_drop_middle).
  assert (length (take p xs) = p) as Hlp by (rewrite length_take; lia).
  rewrite Hsplit in Hh.
  destruct (Erase_spec h v (take p xs) y (drop (S p) xs) Hh) as [Hok Hfail].
  rewrite Hlp in Hok, Hfail.
  destruct (decide_outcome _ _ _ _ Hok Hfail _ _ HR) as (Hc & -> & ->). done.
Qed.

End Methods.

(** ** Summary of the two result shapes *)

Section Results.

Context {T : Type} (E : Traits T).
Hypothesis Hsane : sane E.
Implicit Types (h : Heap T) (v : Vector) (xs : list T) (st : State T).

Lemma well_formed_elements st xs :
  well_formed E st → elements st = Some xs → holds E (mem st) (this st) xs.
Proof.
  intros Hwf Hel. destruct (well_formed_holds E st Hwf) as [xs0 Hh].
  destruct st as [v h]. cbn [this mem] in *.
  pose proof (holds_elements E h v xs0 Hh) as Hel0.
  assert (xs = xs0) as -> by congruence. done.
Qed.

Lemma well_formed_has_elements st :
  well_formed E st → ∃ xs, elements st = Some xs.
Proof.
  intros Hwf. destruct (well_formed_holds E st Hwf) as [xs Hh].
  exists xs. destruct st as [v h]. by eapply holds_elements.
Qed.

Lemma granted_bound bytes : can_alloc E bytes = true → bytes ≤ PTRDIFF_MAX.
Proof. intros H. destruct Hsane as [_ Hgrant]. apply Hgrant in H. lia. Qed.

Lemma reallocated_facts h v xs xs' cap' :
  holds E h v xs → Z.of_nat (length xs') ≤ cap' → cap' * sizeof_T E ≤ PTRDIFF_MAX →
  Capacity (this (reallocated h v xs' cap')) = cap' ∧
  Size (this (reallocated h v xs' cap')) = Z.of_nat (length xs') ∧
  elements (reallocated h v xs' cap') = Some xs' ∧
  well_formed E (reallocated h v xs' cap').
Proof.
  intros Hh Hle Hbytes.
  pose proof (holds_reallocated E h v xs xs' cap' Hh Hle Hbytes) as Hh'.
  split; [done|]. split; [done|]. split.
  - by apply (holds_elements E _ _ _ Hh').
  - apply (holds_well_formed E _ _ _ Hh').
Qed.

Lemma updated_facts h v xs xs' :
  holds E h v xs → Z.of_nat (length xs') ≤ Capacity v →
  Capacity (this (updated h v xs')) = Capacity v ∧
  Size (this (updated h v xs')) = Z.of_nat (length xs') ∧
  elements (updated h v xs') = Some xs' ∧
  well_formed E (updated h v xs').
Proof.
  intros Hh Hle.
  pose proof (holds_updated E h v xs xs' Hh Hle) as Hh'.
  split; [done|]. split; [done|]. split.
  - by apply (holds_elements E _ _ _ Hh').
  - apply (holds_well_formed E _ _ _ Hh').
Qed.

End Results.

(** ** Element types used in the examples *)


Lemma int_traits_sane : sane int_traits.
Proof.
  split; [done|]. intros bytes H. simpl in H.
  apply andb_true_iff in H as [H1 H2]. apply Z.leb_le in H1, H2. done.
Qed.

Definition one_int : State Z :=
  mkState (vec (mkPtr (Some 0%nat) 0) 1 1) [Some [Some 5]].

Example one_int_reached :
  EmplaceBack int_traits (Some 5) empty_state = Ok (mkPtr (Some 0%nat) 0) one_int.
Proof. reflexivity. Qed.

Lemma one_int_well_formed : well_formed int_traits one_int.
Proof. split; [reflexivity|]. by vm_compute. Qed.

(** * The claims *)

(** ** C1: the concrete scenario *)

(** The observations after each call of: [EmplaceBack(1)], [EmplaceBack(2)],
    [EmplaceBack(3)], [Insert(begin() + 1, 9)], [Erase(begin())] on a
    default-constructed [Vector<int>]. *)
Definition scenario : M (State Z) (list (Z * Z * option (list Z))) :=
  EmplaceBack int_traits (Some 1);;
  let* s1 := get in
  EmplaceBack int_traits (Some 2);;
  let* s2 := get in
  EmplaceBack int_traits (Some 3);;
  let* s3 := get in
  let* v := get_this in
  Insert_move int_traits (ptr_add (begin v) 1) 9;;
  let* s4 := get in
  let* v := get_this in
  Erase int_traits (ptr_add (cbegin v) 0);;
  let* s5 := get in
  ret (map observe [s1; s2; s3; s4; s5]).

(** C1. From a default-constructed [Vector<int>], three [EmplaceBack] calls
    of 1, 2, 3 give sizes 1, 2, 3, capacities 1, 2, 4 and the sequence
    [1,2,3]; then [Insert] of 9 at position 1 gives [1,9,2,3] of size 4; then
    [Erase] at position 0 gives [9,2,3] of size 3. *)
Theorem scenario_observations :
  ∃ st, scenario empty_state
        = Ok [ (1, 1, Some [1]);
               (2, 2, Some [1; 2]);
               (3, 4, Some [1; 2; 3]);
               (4, 4, Some [1; 9; 2; 3]);
               (3, 4, Some [9; 2; 3]) ] st.
Proof. eexists. vm_compute. reflexivity. Qed.

(** ** C3: Reserve *)

(** The claim as it is written, for one container and one [n]; a call that
    ends in an exception is let pass. *)
Definition Reserve_claim {T} (E : Traits T) (n : Z) (st : State T) : Prop :=
  (n ≤ Capacity (this st) → Reserve E n st = Ok tt st) ∧
  (Capacity (this st) < n →
   (∃ st', Reserve E n st = Ok tt st' ∧
           Capacity (this st') = n ∧
           Size (this st') = Size (this st) ∧
           elements st' = elements st) ∨
   (∃ st', Reserve E n st = Throw st')).

(** [Reserve(2^62)] on a [Vector<int>] holding one element: [n * sizeof(T)]
    is [2^64], which is 0 in [size_t]; [operator new(0)] returns a block
    without room for an [int], and the relocation writes past it. *)
Lemma Reserve_overflow :
  well_formed int_traits one_int ∧
  Reserve int_traits (2 ^ 62) one_int = Undefined ∧
  ¬ Reserve_claim int_traits (2 ^ 62) one_int.
Proof.
  split; [apply one_int_well_formed|]. split; [by vm_compute|].
  intros [_ H]. destruct H as [(st' & HR & _)|(st' & HR)]; [by vm_compute| |];
    vm_compute in HR; discriminate.
Qed.

Definition Reserve_post {T} (E : Traits T) (st : State T) (xs : list T) (n : Z) : Prop :=
  (n ≤ Capacity (this st) → Reserve E n st = Ok tt st) ∧
  (Capacity (this st) < n →
   (∀ st', Reserve E n st = Ok tt st' →
           Capacity (this st') = n ∧
           Size (this st') = Size (this st) ∧
           elements st' = Some xs ∧
           well_formed E st') ∧
   (can_alloc E (n * sizeof_T E) = true →
    none_throws (relocate_throws E) xs = true →
    ∃ st', Reserve E n st = Ok tt st')).

(** [Reserve(10)] on an empty container, then [Reserve(5)]. *)
Definition Reserve_scenario : Prop :=
  ∃ st1, Reserve int_traits 10 empty_state = Ok tt st1 ∧
         observe st1 = (0, 10, Some []) ∧
         Reserve int_traits 5 st1 = Ok tt st1.

(** C3, amended. For every container holding [xs] and every [n] with
    [n * sizeof(T)] representable in [size_t]: [Reserve(n)] returns the
    container unchanged when [n ≤ Capacity()]; otherwise, whenever it returns,
    the capacity is exactly [n] and the size and the element sequence are
    unchanged, and it returns when the allocation is granted and no relocation
    throws. [Reserve(10)] on an empty container gives capacity 10 and size 0,
    and a following [Reserve(5)] changes nothing. *)
Theorem Reserve_correct {T} (E : Traits T) (st : State T) (xs : list T) (n : Z) :
  sane E → well_formed E st → elements st = Some xs →
  0 ≤ n → n * sizeof_T E < SIZE_MOD →
  Reserve_post E st xs n ∧ Reserve_scenario.
Proof.
  intros Hsane Hwf Hel Hn Hfit. split; [|eexists; by vm_compute].
  pose proof (well_formed_elements E st xs Hwf Hel) as Hh.
  destruct st as [v h]. cbn [this mem] in *. split.
  - intros Hle. by apply Reserve_noop.
  - intros Hlt. cbn [this mem] in Hlt.
    destruct (Reserve_grow E Hsane h v xs n Hh Hlt Hfit) as [Hok Hfail].
    split.
    + intros st' HR.
      destruct (Reserve_inv E Hsane h v xs n st' Hh Hn Hfit HR)
        as [[Hle _]|(_ & Hgrant & _ & ->)]; [lia|].
      assert (size_ v = Z.of_nat (length xs)) as Hsz by apply Hh.
      assert (size_ v ≤ Capacity v) as Hle by apply Hh.
      destruct (reallocated_facts E h v xs xs n Hh) as (? & ? & ? & ?);
        [lia|by apply (granted_bound E Hsane)|].
      cbn [this]. unfold Size in *. rewrite Hsz. done.
    + intros Hgrant Hall. eexists. apply Hok. by rewrite Hgrant, Hall.
Qed.

Lemma Reserve_correct_witness :
  sane int_traits ∧ well_formed int_traits one_int ∧ elements one_int = Some [5] ∧
  0 ≤ 3 ∧ 3 * sizeof_T int_traits < SIZE_MOD ∧
  Reserve_post int_traits one_int [5] 3 ∧ Reserve_scenario.
Proof.
  split; [apply int_traits_sane|]. split; [apply one_int_well_formed|].
  split; [reflexivity|]. split; [lia|]. split; [reflexivity|].
  apply (Reserve_correct int_traits one_int [5] 3);
    [apply int_traits_sane|apply one_int_well_formed|reflexivity|lia|reflexivity].
Defined.

(** ** C9: self-assignment *)

(** C9. Copy-assigning or move-assigning the object at an address to itself
    returns and leaves every object and the free store as they were; in
    particular the size, the capacity and the elements of the object do not
    change. *)
Theorem self_assignment {T} (E : Traits T) (w : World T) (a : nat) :
  copy_assign E a a w = Ok tt w ∧ move_assign a a w = Ok tt w.
Proof.
  unfold copy_assign, move_assign, noexcept. by rewrite Nat.eqb_refl.
Qed.

(** ** C4: Resize *)

Definition Resize_post {T} (E : Traits T) (st : State T) (xs : list T) (n : Z)
    (st' : State T) : Prop :=
  Size (this st') = n ∧
  well_formed E st' ∧
  ∃ xs', elements st' = Some xs' ∧
    (∀ i, (i < min (length xs) (Z.to_nat n))%nat → xs' !! i = xs !! i) ∧
    (n < Size (this st) →
     Capacity (this st') = Capacity (this st) ∧ xs' = take (Z.to_nat n) xs) ∧
    (Size (this st) < n →
     ∃ v0, value_init E = Some v0 ∧ xs' = xs ++ replicate (Z.to_nat n - length xs) v0) ∧
    (n ≤ Capacity (this st) → Capacity (this st') = Capacity (this st)) ∧
    (Capacity (this st) < n →
     Capacity (this st') = Z.max (2 * Capacity (this st)) n).

(** What makes [Resize(n)] return: [T()] does not throw if an element has to
    be constructed, and the allocation is granted and no relocation throws if
    the capacity has to grow. *)
Definition Resize_returns {T} (E : Traits T) (st : State T) (xs : list T) (n : Z) : Prop :=
  (n ≤ Size (this st) ∨ is_Some (value_init E)) ∧
  (Capacity (this st) < n →
   can_alloc E (Z.max (Capacity (this st) * 2) n * sizeof_T E) = true ∧
   none_throws (relocate_throws E) xs = true).

Lemma length_fresh_values {T} (E : Traits T) k :
  is_Some (value_init E) ∨ k = 0%nat → length (fresh_values E k) = k.
Proof.
  unfold fresh_values. intros [[v0 ->]| ->].
  - apply length_replicate.
  - by destruct (value_init E).
Qed.

(** C4. For every container holding [xs] and every valid [n] ([n * sizeof(T)]
    representable in [size_t]): whenever [Resize(n)] returns, the size is [n],
    the elements at the indices below [min(old size, n)] are unchanged, for
    [n < size] the sequence is cut to its first [n] elements and the capacity
    is unchanged, for [n > size] the new trailing elements are
    value-initialised, the capacity is unchanged if [n] fits and is
    [max(2 * old capacity, n)] otherwise; and [Resize(n)] returns unless a
    constructor, the allocation or a relocation fails. *)
Theorem Resize_correct {T} (E : Traits T) (st : State T) (xs : list T) (n : Z) :
  sane E → well_formed E st → elements st = Some xs →
  0 ≤ n → n * sizeof_T E < SIZE_MOD →
  (∀ st', Resize E n st = Ok tt st' → Resize_post E st xs n st') ∧
  (Resize_returns E st xs n → ∃ st', Resize E n st = Ok tt st').
Proof.
  intros Hsane Hwf Hel Hn Hfit.
  pose proof (well_formed_elements E st xs Hwf Hel) as Hh.
  destruct st as [v h]. cbn [this mem] in *.
  assert (size_ v = Z.of_nat (length xs)) as Hsz by apply Hh.
  assert (size_ v ≤ Capacity v) as Hle by apply Hh.
  split.
  - intros st' HR. unfold Resize_post, Size. cbn [this].
    destruct (Resize_inv E Hsane h v xs n st' Hh Hn Hfit HR)
      as [[Hlt ->]|[(Hin & Hv & ->)|(Hout & Hv & Hgrant & _ & ->)]].
    + destruct (updated_facts E h v xs (take (Z.to_nat n) xs) Hh) as (Hc & Hs & He & Hw).
      { rewrite length_take. lia. }
      unfold Size in Hs. rewrite Hs, Hc, length_take.
      split; [lia|]. split; [done|]. eexists. split; [done|].
      split; [intros i Hi; apply lookup_take_lt; lia|].
      split; [done|]. split; [lia|]. split; [done|]. lia.
    + assert (length (fresh_values E (Z.to_nat n - length xs)) = (Z.to_nat n - length xs)%nat)
        as Hlf by (apply length_fresh_values; destruct Hv; [by left|right; lia]).
      destruct (updated_facts E h v xs (xs ++ fresh_values E (Z.to_nat n - length xs)) Hh)
        as (Hc & Hs & He & Hw).
      { rewrite length_app, Hlf. lia. }
      unfold Size in Hs. rewrite Hs, Hc, length_app, Hlf.
      split; [lia|]. split; [done|]. eexists. split; [done|].
      split; [intros i Hi; apply lookup_app_l; lia|].
      split; [lia|]. split; [|split; [done|lia]].
      intros Hgt. destruct Hv as [[v0 Hv0]|?]; [|lia].
      exists v0. split; [done|]. unfold fresh_values. by rewrite Hv0.
    + assert (length (fresh_values E (Z.to_nat n - length xs)) = (Z.to_nat n - length xs)%nat)
        as Hlf by (apply length_fresh_values; by left).
      destruct (reallocated_facts E h v xs (xs ++ fresh_values E (Z.to_nat n - length xs))
                  (Z.max (Capacity v * 2) n) Hh) as (Hc & Hs & He & Hw).
      { rewrite length_app, Hlf. lia. }
      { by apply (granted_bound E Hsane). }
      unfold Size in Hs. rewrite Hs, Hc, length_app, Hlf.
      split; [lia|]. split; [done|]. eexists. split; [done|].
      split; [intros i Hi; apply lookup_app_l; lia|].
      split; [lia|]. split; [|split; [lia|intros _; lia]].
      intros Hgt. destruct Hv as [v0 Hv0].
      exists v0. split; [done|]. unfold fresh_values. by rewrite Hv0.
  - intros [Hctor Hgrow]. unfold Size in Hctor. cbn [this] in *.
    destruct (Z.lt_ge_cases n (size_ v)) as [Hlt|Hge].
    { eexists. apply (Resize_shrink E Hsane h v xs n Hh). lia. }
    destruct (Z.le_gt_cases n (Capacity v)) as [Hin|Hout].
    + destruct (Resize_within E Hsane h v xs n Hh) as [Hok _]; [lia|].
      eexists. apply Hok. destruct Hctor; [right; lia|by left].
    + destruct (Resize_grow E Hsane h v xs n Hh Hout Hfit) as [Hok _].
      destruct (Hgrow Hout) as [Hgrant Hall].
      eexists. apply Hok. rewrite Hgrant, Hall.
      destruct Hctor as [?|[v0 ->]]; [lia|done].
Qed.

Lemma Resize_correct_witness :
  sane int_traits ∧ well_formed int_traits one_int ∧ elements one_int = Some [5] ∧
  0 ≤ 3 ∧ 3 * sizeof_T int_traits < SIZE_MOD ∧
  (∀ st', Resize int_traits 3 one_int = Ok tt st' → Resize_post int_traits one_int [5] 3 st') ∧
  (Resize_returns int_traits one_int [5] 3 → ∃ st', Resize int_traits 3 one_int = Ok tt st').
Proof.
  split; [apply int_traits_sane|]. split; [apply one_int_well_formed|].
  split; [reflexivity|]. split; [lia|]. split; [reflexivity|].
  apply (Resize_correct int_traits one_int [5] 3);
    [apply int_traits_sane|apply one_int_well_formed|reflexivity|lia|reflexivity].
Defined.

Example Resize_grows :
  observe_after (Resize int_traits 3) one_int = Some (3, 3, Some [5; 0; 0]).
Proof. reflexivity. Qed.

Example Resize_shrinks :
  observe_after (Resize int_traits 3;; Resize int_traits 1) one_int = Some (1, 3, Some [5]).
Proof. reflexivity. Qed.

(** ** Element types none of whose operations throws *)

Definition nothrow {T} (E : Traits T) : Prop :=
  ∀ x, copy_throws E x = false ∧ move_throws E x = false ∧
       copy_assign_throws E x = false ∧ move_assign_throws E x = false.

Lemma none_throws_never {A} (throws : A → bool) (l : list A) :
  (∀ x, throws x = false) → none_throws throws l = true.
Proof.
  intros H. unfold none_throws. apply forallb_forall. intros x _. by rewrite H.
Qed.

Lemma nothrow_relocate {T} (E : Traits T) xs :
  nothrow E → none_throws (relocate_throws E) xs = true.
Proof.
  intros H. apply none_throws_never. intros x. unfold relocate_throws.
  destruct (relocates_by_move E); apply H.
Qed.

Lemma nothrow_move_assign {T} (E : Traits T) xs :
  nothrow E → none_throws (move_assign_throws E) xs = true.
Proof. intros H. apply none_throws_never. intros x. apply H. Qed.

Lemma int_traits_nothrow : nothrow int_traits.
Proof. by intros x. Qed.

Section RoundTrip.

Context {T : Type} (E : Traits T).
Hypothesis Hsane : sane E.
Implicit Types (h : Heap T) (v : Vector) (xs : list T) (st : State T).

Lemma insert_at_erase (p : nat) (x : T) xs :
  (p ≤ length xs)%nat →
  take p (insert_at p x xs) ++ drop (S p) (insert_at p x xs) = xs.
Proof.
  intros Hp. unfold insert_at.
  assert (length (take p xs) = p) as Hlp by (rewrite length_take; lia).
  rewrite take_app_length' by done.
  rewrite (cons_middle x), app_assoc.
  rewrite drop_app_length' by (rewrite length_app; simpl; lia).
  apply take_drop.
Qed.

Lemma insert_at_lookup (p : nat) (x : T) xs :
  (p ≤ length xs)%nat → insert_at p x xs !! p = Some x.
Proof.
  intros Hp. unfold insert_at. apply list_lookup_middle. rewrite length_take. lia.
Qed.

(** Reading the element at an index through [begin() + i]. *)
Lemma holds_load h v xs (i : nat) x :
  holds E h v xs → xs !! i = Some x →
  load (ptr_add (begin v) (Z.of_nat i)) h = Ok x h.
Proof.
  intros Hh Hi.
  destruct (holds_inv E h v xs Hh) as (b & cap & -> & Hle & Hbytes & Hblk).
  destruct b as [a|]; [|destruct Hblk as [_ ->]; discriminate].
  apply (load_block h _ a i (block_of xs (Z.to_nat cap)) x); [done|simpl; lia|done|].
  by apply block_of_live.
Qed.

(** The state after a returning [Emplace] at index [p]. *)
Lemma Emplace_holds h v xs (p : nat) c r st' :
  holds E h v xs → (p ≤ length xs)%nat →
  Emplace E (ptr_add (begin v) (Z.of_nat p)) c (mkState v h) = Ok r st' →
  ∃ x, c = Some x ∧
       holds E (mem st') (this st') (insert_at p x xs) ∧
       r = ptr_add (begin (this st')) (Z.of_nat p) ∧
       Capacity v ≤ Capacity (this st') ∧
       (size_ v < Capacity v → Capacity (this st') = Capacity v) ∧
       (size_ v = Capacity v →
        Capacity (this st') = if size_ v =? 0 then 1 else size_ v * 2).
Proof.
  intros Hh Hp HR.
  assert (size_ v = Z.of_nat (length xs)) as Hsz by apply Hh.
  assert (size_ v ≤ Capacity v) as Hle by apply Hh.
  destruct (Emplace_inv E Hsane h v xs p c r st' Hh Hp HR)
    as (x & -> & [(Hfull & Hgrant & _ & -> & ->)|(Hspare & -> & ->)]);
    exists x; (split; [done|]).
  - split.
    + apply (holds_reallocated E h v xs); [done| |by apply (granted_bound E Hsane)].
      rewrite length_insert_at. destruct (Z.eqb_spec (size_ v) 0); lia.
    + cbn [reallocated this vec Capacity data_ capacity_].
      split; [done|]. split; [|split; [lia|done]].
      destruct (Z.eqb_spec (size_ v) 0); lia.
  - split.
    + apply (holds_updated E h v xs); [done|]. rewrite length_insert_at. lia.
    + cbn [updated this vec Capacity data_ capacity_ begin GetAddress buffer_].
      split; [done|]. split; [lia|]. split; [done|lia].
Qed.

(** [Emplace] returns when the constructor does not throw, the allocation of
    a full container is granted, and no element operation throws. *)
Lemma Emplace_returns h v xs (p : nat) x :
  holds E h v xs → (p ≤ length xs)%nat → nothrow E →
  (size_ v = Capacity v →
   can_alloc E ((if size_ v =? 0 then 1 else size_ v * 2) * sizeof_T E) = true) →
  ∃ r st', Emplace E (ptr_add (begin v) (Z.of_nat p)) (Some x) (mkState v h) = Ok r st'.
Proof.
  intros Hh Hp Hnt Hgrant.
  assert (size_ v = Z.of_nat (length xs)) as Hsz by apply Hh.
  assert (size_ v ≤ Capacity v) as Hle by apply Hh.
  destruct (decide (size_ v = Capacity v)) as [Hfull|Hspare].
  - destruct (Emplace_realloc E Hsane h v xs p (Some x) Hh Hfull Hp) as [Hok _].
    do 2 eexists. apply (Hok x eq_refl).
    by rewrite (Hgrant Hfull), nothrow_relocate.
  - assert (size_ v < Capacity v) as Hlt by lia.
    destruct (decide (p = length xs)) as [->|Hmid].
    + destruct (Emplace_at_end E Hsane h v xs (Some x) Hh Hlt) as [Hok _].
      do 2 eexists. unfold end_, GetAddress in Hok. rewrite Hsz in Hok.
      apply (Hok x eq_refl).
    + destruct (split_before_last xs p) as (l2 & z & Hsplit & Hdrop); [lia|].
      assert (length (take p xs) = p) as Hlp by (rewrite length_take; lia).
      rewrite Hsplit in Hh.
      destruct (Emplace_middle E Hsane h v (take p xs) l2 z (Some x) Hh Hlt) as [Hok _].
      rewrite Hlp in Hok. do 2 eexists. apply (Hok x eq_refl).
      rewrite nothrow_move_assign by done.
      destruct (Hnt z) as (_ & -> & _). destruct (Hnt x) as (_ & _ & _ & ->). done.
Qed.

End RoundTrip.

(** ** C7: insertion then removal *)

Definition round_trip_post {T} (E : Traits T) (st : State T) (xs : list T)
    (st2 : State T) : Prop :=
  elements st2 = Some xs ∧
  Size (this st2) = Size (this st) ∧
  Capacity (this st) ≤ Capacity (this st2) ∧
  (Size (this st) < Capacity (this st) → Capacity (this st2) = Capacity (this st)) ∧
  well_formed E st2.

(** C7. For every container holding [xs], every position [p] in [0, size]
    and every constructor call [c]: whenever [Emplace(begin() + p, ...)]
    returns [it] and [Erase(it)] returns, the container holds [xs] again, with
    its old size, and with its old capacity if no reallocation was needed (a
    larger one otherwise); and both calls return when the constructor does not
    throw, no operation of the element type throws and the allocation is
    granted. [Insert(pos, value)] is [Emplace] with the copy or the move
    constructor call. *)
Theorem insert_erase_round_trip {T} (E : Traits T) (st : State T) (xs : list T) (p : nat) :
  sane E → well_formed E st → elements st = Some xs → (p ≤ length xs)%nat →
  (∀ c it st1 it' st2,
     Emplace E (ptr_add (begin (this st)) (Z.of_nat p)) c st = Ok it st1 →
     Erase E it st1 = Ok it' st2 →
     round_trip_post E st xs st2) ∧
  (∀ x, nothrow E →
     (Size (this st) = Capacity (this st) →
      can_alloc E ((if Size (this st) =? 0 then 1 else Size (this st) * 2) * sizeof_T E)
      = true) →
     ∃ it st1 it' st2,
       Insert_copy E (ptr_add (begin (this st)) (Z.of_nat p)) x st = Ok it st1 ∧
       Erase E it st1 = Ok it' st2).
Proof.
  intros Hsane Hwf Hel Hp.
  pose proof (well_formed_elements E st xs Hwf Hel) as Hh.
  destruct st as [v h]. cbn [this mem] in *.
  assert (size_ v = Z.of_nat (length xs)) as Hsz by apply Hh.
  assert (∀ c it st1 it' st2,
            Emplace E (ptr_add (begin v) (Z.of_nat p)) c (mkState v h) = Ok it st1 →
            Erase E it st1 = Ok it' st2 →
            round_trip_post E (mkState v h) xs st2) as Hpost.
  { intros c it st1 it' st2 HE HR.
    destruct (Emplace_holds E Hsane h v xs p c it st1 Hh Hp HE)
      as (x & -> & Hh1 & -> & Hcap & Hsame & _).
    destruct st1 as [v1 h1]. cbn [this mem] in *.
    destruct (Erase_inv E Hsane h1 v1 (insert_at p x xs) p it' st2 Hh1) as (_ & _ & ->).
    { rewrite length_insert_at. lia. }
    { exact HR. }
    rewrite insert_at_erase in * by done.
    destruct (updated_facts E h1 v1 (insert_at p x xs) xs Hh1) as (Hc & Hs & He & Hw).
    { assert (size_ v1 ≤ Capacity v1) as H1 by apply Hh1.
      assert (size_ v1 = Z.of_nat (length (insert_at p x xs))) as H2 by apply Hh1.
      rewrite length_insert_at in H2. lia. }
    unfold round_trip_post, Size in *. cbn [this]. rewrite Hs, Hc.
    split; [done|]. split; [lia|]. split; [done|]. split; done. }
  split.
  - exact Hpost.
  - intros x Hnt Hgrant. unfold Insert_copy.
    destruct (Hnt x) as (-> & _).
    destruct (Emplace_returns E Hsane h v xs p x Hh Hp Hnt Hgrant) as (it & st1 & HE).
    destruct (Emplace_holds E Hsane h v xs p (Some x) it st1 Hh Hp HE)
      as (y & [= <-] & Hh1 & Hit & _).
    destruct st1 as [v1 h1]. cbn [this mem] in *.
    assert (insert_at p x xs = take p xs ++ x :: drop p xs) as Hsplit by done.
    rewrite Hsplit in Hh1.
    destruct (Erase_spec E Hsane h1 v1 (take p xs) x (drop p xs) Hh1) as [Hok _].
    rewrite length_take_le in Hok by lia.
    exists it, (mkState v1 h1). do 2 eexists. split; [done|].
    rewrite Hit. apply Hok. by apply nothrow_move_assign.
Qed.

Definition three_ints : State Z :=
  mkState (vec (mkPtr (Some 2%nat) 0) 4 3) [None; None; Some [Some 1; Some 2; Some 3; None]].

Lemma three_ints_well_formed : well_formed int_traits three_ints.
Proof. split; [reflexivity|]. by vm_compute. Qed.

Lemma insert_erase_round_trip_witness :
  sane int_traits ∧ well_formed int_traits three_ints ∧
  elements three_ints = Some [1; 2; 3] ∧ (1 ≤ length [1; 2; 3])%nat ∧
  (∀ c it st1 it' st2,
     Emplace int_traits (ptr_add (begin (this three_ints)) (Z.of_nat 1)) c three_ints
     = Ok it st1 →
     Erase int_traits it st1 = Ok it' st2 →
     round_trip_post int_traits three_ints [1; 2; 3] st2) ∧
  (∀ x, nothrow int_traits →
     (Size (this three_ints) = Capacity (this three_ints) →
      can_alloc int_traits
        ((if Size (this three_ints) =? 0 then 1 else Size (this three_ints) * 2)
         * sizeof_T int_traits) = true) →
     ∃ it st1 it' st2,
       Insert_copy int_traits (ptr_add (begin (this three_ints)) (Z.of_nat 1)) x three_ints
       = Ok it st1 ∧
       Erase int_traits it st1 = Ok it' st2).
Proof.
  split; [apply int_traits_sane|]. split; [apply three_ints_well_formed|].
  split; [reflexivity|]. split; [simpl; lia|].
  apply (insert_erase_round_trip int_traits three_ints [1; 2; 3] 1);
    [apply int_traits_sane|apply three_ints_well_formed|reflexivity|simpl; lia].
Defined.

Example round_trip_in_place :
  observe_after (let* v := get_this in
                 let* it := Insert_copy int_traits (ptr_add (begin v) 1) 9 in
                 Erase int_traits it) three_ints
  = Some (observe three_ints).
Proof. reflexivity. Qed.

Example round_trip_reallocating :
  observe_after (let* v := get_this in
                 let* it := Insert_copy int_traits (ptr_add (begin v) 0) 9 in
                 Erase int_traits it) one_int
  = Some (1, 2, Some [5]).
Proof. reflexivity. Qed.

(** ** C10: the values returned by [Emplace], [EmplaceBack] and [Erase] *)

Section Erasure.

Context {T : Type} (E : Traits T).
Hypothesis Hsane : sane E.
Implicit Types (h : Heap T) (v : Vector) (xs : list T) (st : State T).

(** The state after a returning [Erase] at index [p]. *)
Lemma Erase_holds h v xs (p : nat) r st' :
  holds E h v xs → (p < length xs)%nat →
  Erase E (ptr_add (cbegin v) (Z.of_nat p)) (mkState v h) = Ok r st' →
  holds E (mem st') (this st') (take p xs ++ drop (S p) xs) ∧
  r = ptr_add (begin (this st')) (Z.of_nat p) ∧
  Capacity (this st') = Capacity v.
Proof.
  intros Hh Hp HR.
  assert (size_ v = Z.of_nat (length xs)) as Hsz by apply Hh.
  assert (size_ v ≤ Capacity v) as Hle by apply Hh.
  destruct (Erase_inv E Hsane h v xs p r st' Hh Hp HR) as (_ & -> & ->).
  split; [|done].
  apply (holds_updated E h v xs); [done|].
  rewrite length_app, length_take, length_drop. lia.
Qed.

Lemma erased_lookup xs (p : nat) :
  (take p xs ++ drop (S p) xs) !! p = xs !! S p.
Proof.
  destruct (decide (p < length xs)%nat) as [Hp|Hp].
  - rewrite lookup_app_r by (rewrite length_take; lia).
    rewrite length_take, lookup_drop. f_equal. lia.
  - rewrite (lookup_ge_None_2 xs (S p)) by lia.
    apply lookup_ge_None_2. rewrite length_app, length_take, length_drop. lia.
Qed.

End Erasure.

Definition Emplace_result {T} (xs : list T) (p : nat) (c : option T)
    (it : Ptr) (st1 : State T) : Prop :=
  ∃ x, c = Some x ∧
       it = ptr_add (begin (this st1)) (Z.of_nat p) ∧
       load it (mem st1) = Ok x (mem st1) ∧
       elements st1 = Some (insert_at p x xs).

Definition Erase_result {T} (xs : list T) (p : nat) (it : Ptr) (st1 : State T) : Prop :=
  it = ptr_add (begin (this st1)) (Z.of_nat p) ∧
  elements st1 = Some (take p xs ++ drop (S p) xs) ∧
  (∀ y, xs !! S p = Some y → load it (mem st1) = Ok y (mem st1)) ∧
  (S p = length xs → it = end_ (this st1)).

(** C10. In a container holding [xs]: [Emplace] at index [p <= size] (hence
    [Insert], which is [Emplace] with the copy or move constructor call), when
    it returns, returns [begin() + p] of the possibly reallocated storage,
    where the new element now lives; [EmplaceBack], when it returns, returns
    the address of the new last element; [Erase] at index [p < size], when it
    returns, returns [begin() + p], which addresses the element that followed
    the removed one, or is [end()] if the last element was removed.  And the
    calls do return with these values: [Emplace], [Insert] and [EmplaceBack]
    when no operation of the element type throws and the allocation a full
    container needs is granted, [Erase] when no move assignment of an element
    behind the position throws. *)
Theorem return_values {T} (E : Traits T) (st : State T) (xs : list T) :
  sane E → well_formed E st → elements st = Some xs →
  (∀ (p : nat) c it st1, (p ≤ length xs)%nat →
     Emplace E (ptr_add (begin (this st)) (Z.of_nat p)) c st = Ok it st1 →
     Emplace_result xs p c it st1) ∧
  (∀ (p : nat) value it st1, (p ≤ length xs)%nat →
     Insert_copy E (ptr_add (begin (this st)) (Z.of_nat p)) value st = Ok it st1 ∨
     Insert_move E (ptr_add (begin (this st)) (Z.of_nat p)) value st = Ok it st1 →
     Emplace_result xs p (Some value) it st1) ∧
  (∀ c r st1,
     EmplaceBack E c st = Ok r st1 →
     Emplace_result xs (length xs) c r st1 ∧
     r = ptr_add (begin (this st1)) (Size (this st1) - 1)) ∧
  (∀ (p : nat) it st1, (p < length xs)%nat →
     Erase E (ptr_add (cbegin (this st)) (Z.of_nat p)) st = Ok it st1 →
     Erase_result xs p it st1) ∧
  (nothrow E →
   (Size (this st) = Capacity (this st) →
    can_alloc E ((if Size (this st) =? 0 then 1 else Size (this st) * 2) * sizeof_T E)
    = true) →
   ∀ (p : nat) x, (p ≤ length xs)%nat →
     (∃ it st1, Emplace E (ptr_add (begin (this st)) (Z.of_nat p)) (Some x) st = Ok it st1 ∧
                Emplace_result xs p (Some x) it st1) ∧
     (∃ it st1, Insert_copy E (ptr_add (begin (this st)) (Z.of_nat p)) x st = Ok it st1 ∧
                Emplace_result xs p (Some x) it st1) ∧
     (∃ it st1, Insert_move E (ptr_add (begin (this st)) (Z.of_nat p)) x st = Ok it st1 ∧
                Emplace_result xs p (Some x) it st1) ∧
     (∃ r st1, EmplaceBack E (Some x) st = Ok r st1 ∧
               Emplace_result xs (length xs) (Some x) r st1 ∧
               r = ptr_add (begin (this st1)) (Size (this st1) - 1))) ∧
  (∀ (p : nat), (p < length xs)%nat →
     none_throws (move_assign_throws E) (drop (S p) xs) = true →
     ∃ it st1, Erase E (ptr_add (cbegin (this st)) (Z.of_nat p)) st = Ok it st1 ∧
               Erase_result xs p it st1).
Proof.
  intros Hsane Hwf Hel.
  pose proof (well_formed_elements E st xs Hwf Hel) as Hh.
  destruct st as [v h]. cbn [this mem] in *.
  assert (size_ v = Z.of_nat (length xs)) as Hsz by apply Hh.
  assert (∀ (p : nat) c it st1, (p ≤ length xs)%nat →
            Emplace E (ptr_add (begin v) (Z.of_nat p)) c (mkState v h) = Ok it st1 →
            Emplace_result xs p c it st1 ∧
            Size (this st1) = Z.of_nat (S (length xs))) as Hemplace.
  { intros p c it st1 Hp HE.
    destruct (Emplace_holds E Hsane h v xs p c it st1 Hh Hp HE) as (x & -> & Hh1 & -> & _).
    destruct st1 as [v1 h1]. cbn [this mem] in *.
    split.
    - exists x. split; [done|]. split; [done|]. split.
      + apply (holds_load E h1 v1 (insert_at p x xs)); [done|by apply insert_at_lookup].
      + by apply (holds_elements E).
    - unfold Size. destruct Hh1 as [-> _]. by rewrite length_insert_at. }
  assert (∀ c r st1, EmplaceBack E c (mkState v h) = Ok r st1 →
            Emplace_result xs (length xs) c r st1 ∧
            r = ptr_add (begin (this st1)) (Size (this st1) - 1)) as Hback.
  { intros c r st1 HE. unfold EmplaceBack, get_this in HE.
    rewrite bind_Ok with (a := v) (s' := mkState v h) in HE by done.
    unfold end_ in HE. rewrite Hsz in HE.
    destruct (Hemplace (length xs) c r st1 (le_n _) HE) as [Hres Hsize].
    split; [done|]. destruct Hres as (_ & _ & -> & _). rewrite Hsize.
    f_equal. lia. }
  assert (∀ (p : nat) it st1, (p < length xs)%nat →
            Erase E (ptr_add (cbegin v) (Z.of_nat p)) (mkState v h) = Ok it st1 →
            Erase_result xs p it st1) as Herase.
  { intros p it st1 Hp HR.
    destruct (Erase_holds E Hsane h v xs p it st1 Hh Hp HR) as (Hh1 & -> & _).
    destruct st1 as [v1 h1]. cbn [this mem] in *.
    split; [done|]. split; [by apply (holds_elements E)|]. split.
    + intros y Hy. apply (holds_load E h1 v1 (take p xs ++ drop (S p) xs)); [done|].
      by rewrite erased_lookup.
    + intros Hlast. unfold end_, begin. cbn [this]. destruct Hh1 as [-> _].
      rewrite length_app, length_take, length_drop. f_equal. lia. }
  split; [|split; [|split; [|split; [|split]]]].
  - intros p c it st1 Hp HE. by apply Hemplace.
  - intros p value it st1 Hp [HE|HE].
    + unfold Insert_copy in HE. destruct (copy_throws E value).
      * destruct (Hemplace p None it st1 Hp HE) as [(x & [=] & _) _].
      * by apply Hemplace.
    + unfold Insert_move in HE. destruct (move_throws E value).
      * destruct (Hemplace p None it st1 Hp HE) as [(x & [=] & _) _].
      * by apply Hemplace.
  - exact Hback.
  - exact Herase.
  - intros Hnt Hgrant p x Hp.
    destruct (Emplace_returns E Hsane h v xs p x Hh Hp Hnt Hgrant) as (it & st1 & HE).
    destruct (Emplace_returns E Hsane h v xs (length xs) x Hh (le_n _) Hnt Hgrant)
      as (r & st2 & HB).
    pose proof (proj1 (Hemplace p (Some x) it st1 Hp HE)) as Hres.
    unfold Insert_copy, Insert_move.
    destruct (Hnt x) as (-> & -> & _).
    split; [by exists it, st1|]. split; [by exists it, st1|]. split; [by exists it, st1|].
    assert (EmplaceBack E (Some x) (mkState v h) = Ok r st2) as HB'.
    { unfold EmplaceBack, get_this.
      rewrite bind_Ok with (a := v) (s' := mkState v h) by done.
      unfold end_. by rewrite Hsz. }
    exists r, st2. split; [done|]. by apply Hback.
  - intros p Hp Hall.
    destruct (lookup_lt_is_Some_2 xs p Hp) as [y Hy].
    assert (xs = take p xs ++ y :: drop (S p) xs) as Hsplit
      by (by rewrite <- (take_drop_middle xs p y Hy) at 1).
    pose proof Hh as Hh'. rewrite Hsplit in Hh'.
    destruct (Erase_spec E Hsane h v (take p xs) y (drop (S p) xs) Hh') as [Hok _].
    rewrite length_take_le in Hok by lia. specialize (Hok Hall).
    do 2 eexists. split; [exact Hok|]. by apply (Herase p).
Qed.

Lemma return_values_witness :
  sane int_traits ∧ well_formed int_traits three_ints ∧
  elements three_ints = Some [1; 2; 3] ∧ nothrow int_traits ∧
  (∃ it st1, Emplace int_traits (mkPtr (Some 2%nat) 1) (Some 9) three_ints = Ok it st1 ∧
             Emplace_result [1; 2; 3] 1 (Some 9) it st1) ∧
  (∃ it st1, Insert_copy int_traits (mkPtr (Some 2%nat) 1) 9 three_ints = Ok it st1 ∧
             Emplace_result [1; 2; 3] 1 (Some 9) it st1) ∧
  (∃ it st1, Insert_move int_traits (mkPtr (Some 2%nat) 1) 9 three_ints = Ok it st1 ∧
             Emplace_result [1; 2; 3] 1 (Some 9) it st1) ∧
  (∃ r st1, EmplaceBack int_traits (Some 9) three_ints = Ok r st1 ∧
            Emplace_result [1; 2; 3] 3 (Some 9) r st1 ∧
            r = ptr_add (begin (this st1)) (Size (this st1) - 1)) ∧
  (∃ it st1, Erase int_traits (mkPtr (Some 2%nat) 2) three_ints = Ok it st1 ∧
             Erase_result [1; 2; 3] 2 it st1).
Proof.
  split; [apply int_traits_sane|]. split; [apply three_ints_well_formed|].
  split; [reflexivity|]. split; [apply int_traits_nothrow|].
  destruct (return_values int_traits three_ints [1; 2; 3] int_traits_sane
              three_ints_well_formed eq_refl) as (_ & _ & _ & _ & Hreturn & Herase).
  destruct (Hreturn int_traits_nothrow ltac:(intros [=]) 1%nat 9 ltac:(simpl; lia))
    as (Hemplace & Hcopy & Hmove & Hback).
  split; [exact Hemplace|]. split; [exact Hcopy|]. split; [exact Hmove|].
  split; [exact Hback|].
  exact (Herase 2%nat ltac:(simpl; lia) eq_refl).
Defined.

Example EmplaceBack_returns_last :
  (let* r := EmplaceBack int_traits (Some 7) in on_heap (load r)) three_ints
  = Ok 7 (mkState (vec (mkPtr (Some 2%nat) 0) 4 4)
                  [None; None; Some [Some 1; Some 2; Some 3; Some 7]]).
Proof. reflexivity. Qed.

Example Emplace_returns_new_storage :
  (let* v := get_this in
   let* it := Emplace int_traits (ptr_add (begin v) 0) (Some 9) in
   let* v' := get_this in
   let* x := on_heap (load it) in
   ret (it, begin v', x)) one_int
  = Ok (mkPtr (Some 1%nat) 0, mkPtr (Some 1%nat) 0, 9)
       (mkState (vec (mkPtr (Some 1%nat) 0) 2 2) [None; Some [Some 9; Some 5]]).
Proof. reflexivity. Qed.

(** ** Relocation into a block that is too short *)

Section NoRoom.

Context {T : Type} (E : Traits T).
Variables (h : Heap T) (first d_first : Ptr) (a a' i j : nat).
Variables (src dst : Block T) (xs : list T).
Hypothesis Hne : a ≠ a'.
Hypothesis Hfb : base first = Some a.
Hypothesis Hfo : off first = Z.of_nat i.
Hypothesis Hdb : base d_first = Some a'.
Hypothesis Hdo : off d_first = Z.of_nat j.
Hypothesis Hsrc : get_block h a = Some src.
Hypothesis Hdst : get_block h a' = Some dst.
Hypothesis Hxs : ∀ k x, xs !! k = Some x → src !! (i + k)%nat = Some (Some x).
Hypothesis Hj : (j ≤ length dst)%nat.
Hypothesis Hshort : (length dst < j + length xs)%nat.

(** The number of objects for which there is room, and these objects. *)
Definition room : nat := (length dst - j)%nat.
Definition fitting : list T := take room xs.

Lemma length_fitting : length fitting = room.
Proof. unfold fitting, room. rewrite length_take. lia. Qed.

Lemma fitting_src k x : fitting !! k = Some x → src !! (i + k)%nat = Some (Some x).
Proof.
  unfold fitting. intros Hk. apply lookup_take_Some in Hk as [Hk _]. by apply Hxs.
Qed.

Lemma fitting_room : (j + length fitting ≤ length dst)%nat.
Proof. rewrite length_fitting. unfold room. lia. Qed.

Lemma construct_at_no_room (h' : Heap T) blk x :
  get_block h' a' = Some blk → length blk = length dst →
  construct_at (ptr_add d_first (Z.of_nat room)) x h' = Undefined.
Proof.
  intros Hg Hlen. unfold construct_at, write_slot, slot_at, ptr_add. simpl.
  rewrite Hdb, Hg, Hdo.
  destruct (0 <=? Z.of_nat j + Z.of_nat room); [|done].
  rewrite lookup_ge_None_2; [done|]. unfold room. lia.
Qed.

Lemma uninitialized_copy_n_no_room :
  succeeds (uninitialized_copy_n E first (Z.of_nat (length xs)) d_first h) = false.
Proof.
  unfold uninitialized_copy_n. rewrite Nat2Z.id.
  pose proof length_fitting as Hlen. pose proof fitting_room as Hroom.
  assert (room < length xs)%nat as Hlt by (unfold room; lia).
  rewrite <- (copied_0 h a' j dst fitting Hdst) at 1.
  destruct (none_throws (copy_throws E) fitting) eqn:Hall.
  - destruct (lookup_lt_is_Some_2 xs room) as [x Hx]; [lia|].
    apply (uninitialized_loop_fails _ _ (copied h a' j dst fitting) _ room); [lia| |].
    + intros k Hk. destruct (lookup_lt_is_Some_2 fitting k) as [y Hy]; [lia|].
      apply (copy_step E h first d_first a a' i j src dst fitting Hne Hfb Hfo Hdb Hdo Hsrc Hdst
               fitting_src fitting_room k y Hy).
      by eapply none_throws_lookup.
    + unfold copy_construct_at. erewrite bind_Ok; cycle 1.
      { eapply (load_block _ _ a (i + room)%nat src x); simpl; [done|lia| |by apply Hxs].
        unfold copied. by rewrite get_block_set_ne. }
      destruct (copy_throws E x); [done|].
      rewrite (construct_at_no_room _ (list_inserts j (Some <$> take room fitting) dst));
        [done| |by rewrite length_inserts].
      unfold copied. apply get_block_set_eq. by eapply get_block_lt.
  - destruct (first_throw _ _ Hall) as (l1 & x & l2 & Hsplit & Hl1 & Hx).
    assert (fitting !! length l1 = Some x) as Hlook
      by (rewrite Hsplit; by apply list_lookup_middle).
    assert (length l1 < length fitting)%nat as Hl by (by eapply lookup_lt_Some).
    apply (uninitialized_loop_fails _ _ (copied h a' j dst fitting) _ (length l1)); [lia| |].
    + intros k Hk. destruct (lookup_lt_is_Some_2 fitting k) as [y Hy]; [lia|].
      apply (copy_step E h first d_first a a' i j src dst fitting Hne Hfb Hfo Hdb Hdo Hsrc Hdst
               fitting_src fitting_room k y Hy).
      eapply (none_throws_lookup _ l1 k y); [done|].
      rewrite Hsplit in Hy. by rewrite lookup_app_l in Hy by lia.
    + by rewrite (copy_step_throws E h first d_first a a' i j src dst fitting Hne Hfb Hfo
                    Hsrc fitting_src fitting_room (length l1) x Hlook Hx).
Qed.

Lemma uninitialized_move_n_no_room :
  succeeds (uninitialized_move_n E first (Z.of_nat (length xs)) d_first h) = false.
Proof.
  unfold uninitialized_move_n. rewrite Nat2Z.id.
  pose proof length_fitting as Hlen. pose proof fitting_room as Hroom.
  assert (room < length xs)%nat as Hlt by (unfold room; lia).
  rewrite <- (moved_0 E h a a' i j src dst fitting Hsrc Hdst) at 1.
  destruct (none_throws (move_throws E) fitting) eqn:Hall.
  - destruct (lookup_lt_is_Some_2 xs room) as [x Hx]; [lia|].
    apply (uninitialized_loop_fails _ _ (moved E h a a' i j src dst fitting) _ room);
      [lia| |].
    + intros k Hk. destruct (lookup_lt_is_Some_2 fitting k) as [y Hy]; [lia|].
      apply (move_step E h first d_first a a' i j src dst fitting Hne Hfb Hfo Hdb Hdo Hsrc Hdst
               fitting_src fitting_room k y Hy).
      by eapply none_throws_lookup.
    + unfold move_construct_at. erewrite bind_Ok; cycle 1.
      { eapply (load_block _ _ a (i + room)%nat _ x); simpl; [done|lia| |].
        - by apply moved_src.
        - rewrite list_lookup_inserts_ge; [by apply Hxs|].
          rewrite length_fmap, length_take. lia. }
      destruct (move_throws E x); [done|].
      apply bind_fails.
      rewrite (construct_at_no_room _ (list_inserts j (Some <$> take room fitting) dst));
        [done| |by rewrite length_inserts].
      unfold moved. apply get_block_set_eq. rewrite length_set_block.
      by eapply get_block_lt.
  - destruct (first_throw _ _ Hall) as (l1 & x & l2 & Hsplit & Hl1 & Hx).
    assert (fitting !! length l1 = Some x) as Hlook
      by (rewrite Hsplit; by apply list_lookup_middle).
    assert (length l1 < length fitting)%nat as Hl by (by eapply lookup_lt_Some).
    apply (uninitialized_loop_fails _ _ (moved E h a a' i j src dst fitting) _ (length l1));
      [lia| |].
    + intros k Hk. destruct (lookup_lt_is_Some_2 fitting k) as [y Hy]; [lia|].
      apply (move_step E h first d_first a a' i j src dst fitting Hne Hfb Hfo Hdb Hdo Hsrc Hdst
               fitting_src fitting_room k y Hy).
      eapply (none_throws_lookup _ l1 k y); [done|].
      rewrite Hsplit in Hy. by rewrite lookup_app_l in Hy by lia.
    + apply (move_step_fails E h first d_first a a' i j src dst fitting Hne Hfb Hfo
               Hsrc fitting_src fitting_room (length l1) x Hlook Hx).
Qed.

Lemma relocate_no_room :
  succeeds (relocate E first (Z.of_nat (length xs)) d_first h) = false.
Proof.
  unfold relocate. destruct (relocates_by_move E).
  - apply uninitialized_move_n_no_room.
  - apply uninitialized_copy_n_no_room.
Qed.

End NoRoom.

(** ** [Reserve] for any request, also one whose byte count wraps *)

Section Wrapped.

Context {T : Type} (E : Traits T).
Hypothesis Hsane : sane E.
Implicit Types (h : Heap T) (v : Vector) (xs : list T).

(** The slots of the block that [Allocate(n)] obtains. *)
Definition slots (n : Z) : nat := Z.to_nat (wrap (n * sizeof_T E) / sizeof_T E).

(** The state after the container moved into new storage of [m] slots that
    it takes for [cap] slots. *)
Definition reallocated_slots h v xs (cap : Z) (m : nat) : State T :=
  mkState (vec (mkPtr (Some (length h)) 0) cap (Z.of_nat (length xs)))
          (free (buffer_ (data_ v)) (h ++ [Some (block_of xs m)])).

Lemma RawMemory_sized_wrapped n h :
  n ≠ 0 →
  RawMemory_sized E n h
  = if can_alloc E (wrap (n * sizeof_T E))
    then Ok (mkRawMemory (mkPtr (Some (length h)) 0) n)
            (h ++ [Some (replicate (slots n) None)])
    else Throw h.
Proof.
  intros Hn. unfold RawMemory_sized, Allocate, bind.
  rewrite (proj2 (Z.eqb_neq n 0)) by done. simpl.
  unfold operator_new. by destruct (can_alloc E (wrap (n * sizeof_T E))).
Qed.

Lemma Reserve_wrapped h v xs n :
  holds E h v xs → Capacity v < n →
  let ok := can_alloc E (wrap (n * sizeof_T E)) && (length xs <=? slots n)%nat
            && none_throws (relocate_throws E) xs in
  (ok = true → Reserve E n (mkState v h) = Ok tt (reallocated_slots h v xs n (slots n))) ∧
  (ok = false → succeeds (Reserve E n (mkState v h)) = false).
Proof.
  intros Hh Hlt ok. subst ok.
  destruct (holds_inv E h v xs Hh) as (b & cap & -> & Hle & Hbytes & Hblk).
  unfold Capacity in Hlt. simpl in Hlt.
  remember (Reserve E n (mkState (vec (mkPtr b 0) cap (Z.of_nat (length xs))) h)) as R eqn:HR.
  unfold Reserve in HR. step in HR by reflexivity.
  unfold Capacity in HR. simpl in HR.
  rewrite (proj2 (Z.leb_gt _ _) Hlt) in HR.
  pose proof (RawMemory_sized_wrapped n h ltac:(lia)) as Halloc.
  destruct (can_alloc E (wrap (n * sizeof_T E))); simpl; cycle 1.
  { split; [discriminate|]. intros _. subst R.
    apply bind_fails, on_heap_fails. simpl. by rewrite Halloc. }
  step in HR by (by apply on_heap_Ok, Halloc).
  set (h1 := h ++ [Some (replicate (slots n) None)]) in HR.
  unfold begin, GetAddress in HR. simpl in HR.
  destruct b as [a|].
  - assert (a < length h)%nat as Ha by (by eapply get_block_lt).
    assert (get_block h1 a = Some (block_of xs (Z.to_nat cap))) as Hsrc
      by (by apply get_block_app_l).
    assert (get_block h1 (length h) = Some (replicate (slots n) None)) as Hdst
      by apply get_block_app_new.
    assert (∀ k x, xs !! k = Some x →
                   block_of xs (Z.to_nat cap) !! (0 + k)%nat = Some (Some x)) as Hxs
      by (intros k x Hk; by apply block_of_live).
    destruct (Nat.leb_spec (length xs) (slots n)) as [Hroom|Hshort]; simpl; cycle 1.
    { split; [discriminate|]. intros _. subst R.
      apply bind_fails, try_catch_fails, bind_fails.
      rewrite FillNewData_relocate. apply on_heap_fails. simpl.
      apply (relocate_no_room E h1 (mkPtr (Some a) 0) (mkPtr (Some (length h)) 0)
               a (length h) 0 0 (block_of xs (Z.to_nat cap)) (replicate (slots n) None) xs);
        try done; try lia.
      rewrite length_replicate. lia. }
    destruct (relocate_block E h1 (mkPtr (Some a) 0) (mkPtr (Some (length h)) 0)
                a (length h) 0 0
                (block_of xs (Z.to_nat cap)) (replicate (slots n) None) xs)
      as [Hok Hfail]; try done.
    { lia. }
    { rewrite length_replicate. lia. }
    destruct (none_throws (relocate_throws E) xs); split; try discriminate; intros _.
    + specialize (Hok eq_refl).
      step in HR by
        (apply try_catch_Ok; step by (rewrite FillNewData_relocate; by apply on_heap_Ok, Hok);
         apply on_heap_Ok;
         apply (destroy_n_block _ _ a 0 (list_inserts 0 (Some ∘ left_behind E <$> xs)
                  (block_of xs (Z.to_nat cap)))); [done|done| |];
         [ rewrite get_block_set_ne by lia; apply get_block_set_eq;
           unfold h1; rewrite length_app; lia
         | intros k Hk; destruct (lookup_lt_is_Some_2 xs k) as [x Hx]; [lia|];
           exists (left_behind E x); simpl;
           rewrite list_lookup_inserts by (rewrite ?length_fmap, ?length_block_of; lia);
           by rewrite Nat.sub_0_r, list_lookup_fmap, Hx ]).
      step in HR by reflexivity.
      unfold on_heap, RawMemory_destroy, Deallocate in HR. simpl in HR.
      erewrite operator_delete_block in HR; cycle 1.
      { apply get_block_set_eq. rewrite !length_set_block. unfold h1.
        rewrite length_app. lia. }
      subst R. unfold reallocated_slots, free, vec. simpl. do 2 f_equal.
      rewrite free_set_block_eq, free_set_block_ne, free_set_block_eq by lia.
      rewrite <- free_set_block_ne by lia. unfold h1. rewrite set_block_new.
      by rewrite list_inserts_raw by lia.
    + subst R. apply bind_fails, try_catch_fails, bind_fails.
      rewrite FillNewData_relocate. apply on_heap_fails. simpl. by apply Hfail.
  - destruct Hblk as [-> ->]. simpl in *.
    split; [|discriminate]. intros _.
    step in HR by
      (apply try_catch_Ok; step by (rewrite FillNewData_relocate; apply on_heap_Ok, relocate_0);
       reflexivity).
    subst R. unfold reallocated_slots, free. simpl. by rewrite block_of_nil.
Qed.

End Wrapped.

(** ** C8: the two ways of relocating *)

(** The element type [E] with its relocation chosen: [by_move = true] makes
    [std::is_nothrow_move_constructible_v<T>] true, [by_move = false] makes it
    false; the type is copy constructible, so that both branches of the
    [if constexpr] exist. *)
Definition with_relocation {T} (E : Traits T) (by_move : bool) : Traits T :=
  {| sizeof_T := sizeof_T E;
     can_alloc := can_alloc E;
     value_init := value_init E;
     copy_throws := copy_throws E;
     move_throws := move_throws E;
     copy_assign_throws := copy_assign_throws E;
     move_assign_throws := move_assign_throws E;
     moved_from := moved_from E;
     is_nothrow_move_constructible := by_move;
     is_copy_constructible := true;
     is_nothrow_move_assignable := is_nothrow_move_assignable E |}.

Lemma relocates_by_move_with_relocation {T} (E : Traits T) b :
  relocates_by_move (with_relocation E b) = b.
Proof. unfold relocates_by_move. simpl. by destruct b. Qed.

Lemma with_relocation_id {T} (E : Traits T) :
  is_copy_constructible E = true →
  with_relocation E (is_nothrow_move_constructible E) = E.
Proof. destruct E. simpl. by intros ->. Qed.

Section Strategy.

Context {T : Type} (E : Traits T).
Hypothesis Hsane : sane E.
Implicit Types (h : Heap T) (v : Vector) (xs : list T) (b : bool).

Lemma sane_with_relocation b : sane (with_relocation E b).
Proof. exact Hsane. Qed.

Lemma holds_with_relocation b h v xs : holds E h v xs → holds (with_relocation E b) h v xs.
Proof. intros Hh. exact Hh. Qed.

Lemma nothrow_with_relocation b : nothrow E → nothrow (with_relocation E b).
Proof. intros Hnt. exact Hnt. Qed.

(** [Reserve] returns the same state either way. *)
Lemma Reserve_strategy b1 b2 h v xs n st1 st2 :
  holds E h v xs →
  Reserve (with_relocation E b1) n (mkState v h) = Ok tt st1 →
  Reserve (with_relocation E b2) n (mkState v h) = Ok tt st2 →
  st1 = st2.
Proof.
  intros Hh H1 H2.
  destruct (Z.le_gt_cases n (Capacity v)) as [Hle|Hgt].
  - rewrite Reserve_noop in H1, H2 by done. congruence.
  - destruct (Reserve_wrapped (with_relocation E b1) h v xs n
                (holds_with_relocation b1 h v xs Hh) Hgt) as [Hok1 Hfail1].
    destruct (Reserve_wrapped (with_relocation E b2) h v xs n
                (holds_with_relocation b2 h v xs Hh) Hgt) as [Hok2 Hfail2].
    destruct (decide_outcome _ _ _ _ Hok1 Hfail1 _ _ H1) as (_ & _ & ->).
    destruct (decide_outcome _ _ _ _ Hok2 Hfail2 _ _ H2) as (_ & _ & ->).
    reflexivity.
Qed.

(** When no element operation throws, [Reserve] returns either way or
    neither. *)
Lemma Reserve_transfer b1 b2 h v xs n st1 :
  holds E h v xs → nothrow E →
  Reserve (with_relocation E b1) n (mkState v h) = Ok tt st1 →
  Reserve (with_relocation E b2) n (mkState v h) = Ok tt st1.
Proof.
  intros Hh Hnt H1.
  destruct (Z.le_gt_cases n (Capacity v)) as [Hle|Hgt].
  - rewrite Reserve_noop in H1 by done. by rewrite Reserve_noop.
  - destruct (Reserve_wrapped (with_relocation E b1) h v xs n
                (holds_with_relocation b1 h v xs Hh) Hgt) as [Hok1 Hfail1].
    destruct (Reserve_wrapped (with_relocation E b2) h v xs n
                (holds_with_relocation b2 h v xs Hh) Hgt) as [Hok2 _].
    destruct (decide_outcome _ _ _ _ Hok1 Hfail1 _ _ H1) as (Hc & _ & ->).
    apply andb_true_iff in Hc as [Hc _].
    rewrite Hok2; [done|].
    rewrite (nothrow_relocate (with_relocation E b2)) by (by apply nothrow_with_relocation).
    by rewrite andb_true_r.
Qed.

Lemma Resize_with_relocation b n v h :
  Resize (with_relocation E b) n (mkState v h)
  = ((if n <? size_ v
      then on_heap (destroy_n (ptr_add (begin v) n) (wrap (size_ v - n)))
      else
        (if Capacity v <? n
         then Reserve (with_relocation E b) (Z.max (wrap (Capacity v * 2)) n)
         else ret tt);;
        let* v := get_this in
        on_heap (uninitialized_value_construct_n E (end_ v) (wrap (n - size_ v))));;
     set_size n) (mkState v h).
Proof. reflexivity. Qed.

(** [Resize] returns the same state either way, and, when no element
    operation throws, either way or neither. *)
Lemma Resize_strategy b1 b2 h v xs n st1 :
  holds E h v xs →
  Resize (with_relocation E b1) n (mkState v h) = Ok tt st1 →
  (∀ st2, Resize (with_relocation E b2) n (mkState v h) = Ok tt st2 → st1 = st2) ∧
  (nothrow E → Resize (with_relocation E b2) n (mkState v h) = Ok tt st1).
Proof.
  intros Hh H1. rewrite Resize_with_relocation in H1. rewrite !Resize_with_relocation.
  destruct (n <? size_ v); [split; [intros st2 H2; congruence|done]|].
  destruct (Capacity v <? n); [|split; [intros st2 H2; congruence|done]].
  rewrite !bind_assoc in H1. apply bind_Ok_inv in H1 as ([] & s1 & HR1 & Hrest1).
  split.
  - intros st2 H2.
    rewrite !bind_assoc in H2. apply bind_Ok_inv in H2 as ([] & s2 & HR2 & Hrest2).
    assert (s1 = s2) as <- by (by eapply Reserve_strategy).
    congruence.
  - intros Hnt. rewrite !bind_assoc.
    erewrite bind_Ok; [exact Hrest1|].
    by apply (Reserve_transfer b1 b2 h v xs).
Qed.

(** [Emplace] returns the same iterator and state either way, and, when no
    element operation throws, either way or neither. *)
Lemma Emplace_strategy b1 b2 h v xs (p : nat) c it1 st1 :
  holds E h v xs → (p ≤ length xs)%nat →
  Emplace (with_relocation E b1) (ptr_add (begin v) (Z.of_nat p)) c (mkState v h)
  = Ok it1 st1 →
  (∀ it2 st2,
     Emplace (with_relocation E b2) (ptr_add (begin v) (Z.of_nat p)) c (mkState v h)
     = Ok it2 st2 → it1 = it2 ∧ st1 = st2) ∧
  (nothrow E →
   Emplace (with_relocation E b2) (ptr_add (begin v) (Z.of_nat p)) c (mkState v h)
   = Ok it1 st1).
Proof.
  intros Hh Hp H1.
  assert (∀ it2 st2,
            Emplace (with_relocation E b2) (ptr_add (begin v) (Z.of_nat p)) c (mkState v h)
            = Ok it2 st2 → it1 = it2 ∧ st1 = st2) as Hsame.
  { intros it2 st2 H2.
    destruct (Emplace_inv (with_relocation E b1) (sane_with_relocation b1) h v xs p c it1 st1
                (holds_with_relocation b1 h v xs Hh) Hp H1)
      as (x1 & Hc1 & [(Hfull1 & _ & _ & -> & ->)|(Hspare1 & -> & ->)]);
    destruct (Emplace_inv (with_relocation E b2) (sane_with_relocation b2) h v xs p c it2 st2
                (holds_with_relocation b2 h v xs Hh) Hp H2)
      as (x2 & Hc2 & [(Hfull2 & _ & _ & -> & ->)|(Hspare2 & -> & ->)]);
    try lia; assert (x1 = x2) as -> by congruence; done. }
  split; [done|].
  intros Hnt.
  destruct (Emplace_inv (with_relocation E b1) (sane_with_relocation b1) h v xs p c it1 st1
              (holds_with_relocation b1 h v xs Hh) Hp H1) as (x & -> & Hcases).
  destruct (Emplace_returns (with_relocation E b2) (sane_with_relocation b2) h v xs p x
              (holds_with_relocation b2 h v xs Hh) Hp (nothrow_with_relocation b2 Hnt))
    as (it2 & st2 & H2).
  { intros Hfull. destruct Hcases as [(_ & Hgrant & _)|(Hspare & _)]; [exact Hgrant|lia]. }
  destruct (Hsame it2 st2 H2) as [-> ->]. exact H2.
Qed.

End Strategy.

Definition same_result {T A} (o1 o2 : Outcome (State T) A) : Prop :=
  ∀ r1 st1 r2 st2, o1 = Ok r1 st1 → o2 = Ok r2 st2 →
    r1 = r2 ∧ st1 = st2 ∧ observe st1 = observe st2.

Definition same_returns {T A} (o1 o2 : Outcome (State T) A) : Prop :=
  ∀ r st1, o1 = Ok r st1 ↔ o2 = Ok r st1.

(** C8. For every element type, every container and every argument, the
    growing operations ([Reserve], [Resize], [Emplace] and with it [Insert],
    [EmplaceBack] and [PushBack]) that return both when relocation moves and
    when it copies return the same value and leave the same container: same
    size, capacity and element sequence (and the same storage). When no
    operation of the element type throws, each returns under one strategy
    exactly when it returns under the other. *)
Theorem relocation_strategy_unobservable {T} (E : Traits T) (st : State T) :
  sane E → well_formed E st →
  let Em := with_relocation E true in
  let Ec := with_relocation E false in
  (relocates_by_move Em = true ∧ relocates_by_move Ec = false) ∧
  (∀ n, same_result (Reserve Em n st) (Reserve Ec n st)) ∧
  (∀ n, same_result (Resize Em n st) (Resize Ec n st)) ∧
  (∀ (p : nat) c, Z.of_nat p ≤ Size (this st) →
     same_result (Emplace Em (ptr_add (begin (this st)) (Z.of_nat p)) c st)
                 (Emplace Ec (ptr_add (begin (this st)) (Z.of_nat p)) c st)) ∧
  (∀ c, same_result (EmplaceBack Em c st) (EmplaceBack Ec c st)) ∧
  (nothrow E →
   (∀ n, same_returns (Reserve Em n st) (Reserve Ec n st)) ∧
   (∀ n, same_returns (Resize Em n st) (Resize Ec n st)) ∧
   (∀ (p : nat) c, Z.of_nat p ≤ Size (this st) →
      same_returns (Emplace Em (ptr_add (begin (this st)) (Z.of_nat p)) c st)
                   (Emplace Ec (ptr_add (begin (this st)) (Z.of_nat p)) c st))).
Proof.
  intros Hsane Hwf Em Ec.
  destruct (well_formed_holds E st Hwf) as [xs Hh].
  destruct st as [v h]. cbn [this mem] in *.
  assert (size_ v = Z.of_nat (length xs)) as Hsz by apply Hh.
  assert (∀ (p : nat) c,
            Z.of_nat p ≤ size_ v →
            same_result (Emplace Em (ptr_add (begin v) (Z.of_nat p)) c (mkState v h))
                        (Emplace Ec (ptr_add (begin v) (Z.of_nat p)) c (mkState v h)))
    as Hemplace.
  { intros p c Hp it1 st1 it2 st2 H1 H2.
    destruct (Emplace_strategy E Hsane true false h v xs p c it1 st1 Hh ltac:(lia) H1)
      as [Hsame _].
    destruct (Hsame it2 st2 H2) as [-> ->]. done. }
  split; [unfold Em, Ec; by rewrite !relocates_by_move_with_relocation|].
  split; [|split; [|split; [|split]]].
  - intros n [] st1 [] st2 H1 H2.
    by rewrite (Reserve_strategy E true false h v xs n st1 st2 Hh H1 H2).
  - intros n [] st1 [] st2 H1 H2.
    destruct (Resize_strategy E true false h v xs n st1 Hh H1) as [Hsame _].
    by rewrite (Hsame st2 H2).
  - exact Hemplace.
  - intros c it1 st1 it2 st2 H1 H2. unfold Size in *.
    apply (Hemplace (length xs) c ltac:(lia) it1 st1 it2 st2).
    + unfold end_ in H1. by rewrite <- Hsz.
    + unfold end_ in H2. by rewrite <- Hsz.
  - intros Hnt. split; [|split].
    + intros n [] st1. split; intros H1.
      * by apply (Reserve_transfer E true false h v xs).
      * by apply (Reserve_transfer E false true h v xs).
    + intros n [] st1. split; intros H1.
      * by apply (Resize_strategy E true false h v xs n st1 Hh H1).
      * by apply (Resize_strategy E false true h v xs n st1 Hh H1).
    + intros p c Hp it st1. unfold Size in Hp. split; intros H1.
      * by apply (Emplace_strategy E Hsane true false h v xs p c it st1 Hh ltac:(lia) H1).
      * by apply (Emplace_strategy E Hsane false true h v xs p c it st1 Hh ltac:(lia) H1).
Qed.

(** An element type whose moved-from objects are observably different from
    their source: moving from a handle leaves the null handle [0] behind. *)
Definition handle_traits : Traits Z :=
  {| sizeof_T := 8;
     can_alloc := λ bytes, (0 <=? bytes) && (bytes <=? PTRDIFF_MAX);
     value_init := Some 0;
     copy_throws := λ _, false;
     move_throws := λ _, false;
     copy_assign_throws := λ _, false;
     move_assign_throws := λ _, false;
     moved_from := λ _, 0;
     is_nothrow_move_constructible := true;
     is_copy_constructible := true;
     is_nothrow_move_assignable := true |}.

Lemma handle_traits_sane : sane handle_traits.
Proof.
  split; [by vm_compute|]. intros bytes H. simpl in H.
  apply andb_true_iff in H as [H1 H2]. lia.
Qed.

Lemma three_handles_well_formed : well_formed handle_traits three_ints.
Proof. split; [reflexivity|]. by vm_compute. Qed.

Lemma relocation_strategy_unobservable_witness :
  sane handle_traits ∧ well_formed handle_traits three_ints ∧
  same_result (Reserve (with_relocation handle_traits true) 8 three_ints)
              (Reserve (with_relocation handle_traits false) 8 three_ints) ∧
  same_result (Resize (with_relocation handle_traits true) 6 three_ints)
              (Resize (with_relocation handle_traits false) 6 three_ints).
Proof.
  split; [apply handle_traits_sane|]. split; [apply three_handles_well_formed|].
  destruct (relocation_strategy_unobservable handle_traits three_ints handle_traits_sane
              three_handles_well_formed) as (_ & HReserve & HResize & _).
  split; [apply HReserve|apply HResize].
Defined.

Example Reserve_either_way :
  Reserve (with_relocation handle_traits true) 8 three_ints
  = Reserve (with_relocation handle_traits false) 8 three_ints ∧
  observe_after (Reserve (with_relocation handle_traits true) 8) three_ints
  = Some (3, 8, Some [1; 2; 3]).
Proof. split; reflexivity. Qed.

Example Emplace_either_way :
  let full := mkState (vec (mkPtr (Some 0%nat) 0) 2 2) [Some [Some 1; Some 2]] in
  Emplace (with_relocation handle_traits true) (mkPtr (Some 0%nat) 1) (Some 9) full
  = Emplace (with_relocation handle_traits false) (mkPtr (Some 0%nat) 1) (Some 9) full ∧
  observe_after (Emplace (with_relocation handle_traits true) (mkPtr (Some 0%nat) 1) (Some 9);;
                 ret tt) full
  = Some (3, 4, Some [1; 9; 2]).
Proof. split; reflexivity. Qed.

(** ** C5: copy assignment *)

(** The first half of the claim: when the right-hand side does not fit, a
    failing assignment leaves the container as it was. *)
Lemma copy_assign_strong_guarantee {T} (E : Traits T) (st st' : State T) (rhs : Vector)
    (xs ys : list T) :
  sane E → holds E (mem st) (this st) xs → holds E (mem st) rhs ys →
  Capacity (this st) < size_ rhs →
  copy_assign_from E rhs st = Throw st' →
  this st' = this st ∧ elements st' = Some xs ∧ well_formed E st'.
Proof.
  intros Hsane Hh Hr Hlt HT. destruct st as [v h]. cbn [this mem] in *.
  rewrite (copy_assign_realloc E Hsane h v rhs xs ys Hh Hr Hlt) in HT.
  assert (holds E (h ++ [None]) v xs) as Hh'.
  { destruct Hh as (? & ? & ? & ? & Hblk). repeat (split; [done|]).
    destruct (base (buffer_ (data_ v))) as [a|]; [|done].
    by apply get_block_app_l. }
  destruct (can_alloc E _); [destruct (none_throws _ _); [discriminate|]|];
    injection HT as <-; cbn [this mem]; (split; [done|]).
  - split; [by apply (holds_elements E)|by apply (holds_well_formed E _ _ xs)].
  - split; [by apply (holds_elements E)|by apply (holds_well_formed E _ _ xs)].
Qed.

(** [Vector<int> a(n), b(n); a = b;] *)
Definition assign_equal_sizes (n : Z) : M (World Z) unit :=
  let* a := construct_sized int_traits n in
  let* b := construct_sized int_traits n in
  copy_assign int_traits a b.

(** [Vector<int> a, b; a = b;] *)
Definition assign_default_to_default : M (World Z) unit :=
  let* a := construct_default in
  let* b := construct_default in
  copy_assign int_traits a b.

(** C5. The in-place branch of the copy assignment does not reach
    [size_ = rhs.size_] when the two containers have the same size and one of
    them is full: [&rhs.data_[pos]] and [&data_[pos]] are then taken at
    [pos == capacity], and [assert(index < capacity_)] of
    [RawMemory::operator[]] ends the program.  So it is for two
    default-constructed containers and for two containers made by
    [Vector(2)]. *)
Theorem copy_assign_equal_sizes_aborts :
  assign_default_to_default (mkWorld [] []) = Abort ∧
  assign_equal_sizes 2 (mkWorld [] []) = Abort.
Proof. split; reflexivity. Qed.

(** With room to spare on both sides the same assignment goes through. *)
Example copy_assign_with_spare_capacity :
  (let* a := construct_sized int_traits 2 in
   let* b := construct_sized int_traits 2 in
   at_object a (Reserve int_traits 3);;
   at_object b (Reserve int_traits 3);;
   at_object b (PushBack_copy int_traits 7);;
   at_object b PopBack;;
   copy_assign int_traits a b;;
   let* v := object a in
   ret (size_ v, Capacity v)) (mkWorld [] [])
  = Ok (2, 3) (mkWorld [vec (mkPtr (Some 2%nat) 0) 3 2; vec (mkPtr (Some 3%nat) 0) 3 2]
                       [None; None; Some [Some 0; Some 0; None]; Some [Some 0; Some 0; None]]).
Proof. reflexivity. Qed.

(** ** C6: a failing insertion into spare capacity *)

(** An element type whose copy constructor throws for the value [13]. *)
Definition throwing_traits : Traits Z :=
  {| sizeof_T := 4;
     can_alloc := λ bytes, (0 <=? bytes) && (bytes <=? PTRDIFF_MAX);
     value_init := Some 0;
     copy_throws := λ x, x =? 13;
     move_throws := λ _, false;
     copy_assign_throws := λ _, false;
     move_assign_throws := λ _, false;
     moved_from := λ x, x;
     is_nothrow_move_constructible := true;
     is_copy_constructible := true;
     is_nothrow_move_assignable := true |}.

(** The container after [Reserve(1)] and a [PushBack(13)] that threw: it
    still has its buffer and capacity 1, and the block is gone. *)
Definition after_failed_PushBack : State Z :=
  mkState (vec (mkPtr (Some 0%nat) 0) 1 0) [None].

(** C6. The handler of [InsertWithRelocation] calls [operator delete(end())].
    In an empty container with capacity 1, [end()] is the buffer: a
    [PushBack] whose copy throws frees the whole block while the container
    keeps it, so the invariant is lost and the destructor frees the block a
    second time.  In a container with one element and capacity 2, [end()]
    points into the block, and [operator delete] is called on a pointer that
    [operator new] never returned. *)
Theorem failed_insertion_frees_storage :
  (Reserve throwing_traits 1;; PushBack_copy throwing_traits 13) empty_state
  = Throw after_failed_PushBack ∧
  invariant after_failed_PushBack = false ∧
  Vector_destroy (this after_failed_PushBack) (mem after_failed_PushBack) = Undefined ∧
  (Reserve throwing_traits 2;; PushBack_copy throwing_traits 5;;
   PushBack_copy throwing_traits 13) empty_state = Undefined.
Proof. repeat split; reflexivity. Qed.

(** ** C2: the invariant across the public interface, for the calls that return *)

(** The public operations, called on objects of a program.  Positions are
    given as indices from [begin()]. *)
Inductive Op (T : Type) : Type :=
| OpDefault
| OpSized (size : Z)
| OpCopy (other : nat)
| OpMove (other : nat)
| OpCopyAssign (this_ rhs : nat)
| OpMoveAssign (this_ rhs : nat)
| OpSwap (this_ other : nat)
| OpReserve (this_ : nat) (new_capacity : Z)
| OpResize (this_ : nat) (new_size : Z)
| OpPopBack (this_ : nat)
| OpEmplaceBack (this_ : nat) (c : option T)
| OpPushBackCopy (this_ : nat) (value : T)
| OpPushBackMove (this_ : nat) (value : T)
| OpEmplace (this_ : nat) (pos : nat) (c : option T)
| OpInsertCopy (this_ : nat) (pos : nat) (value : T)
| OpInsertMove (this_ : nat) (pos : nat) (value : T)
| OpErase (this_ : nat) (pos : nat).

Arguments OpDefault {T}.
Arguments OpSized {T} size.
Arguments OpCopy {T} other.
Arguments OpMove {T} other.
Arguments OpCopyAssign {T} this_ rhs.
Arguments OpMoveAssign {T} this_ rhs.
Arguments OpSwap {T} this_ other.
Arguments OpReserve {T} this_ new_capacity.
Arguments OpResize {T} this_ new_size.
Arguments OpPopBack {T} this_.
Arguments OpEmplaceBack {T} this_ c.
Arguments OpPushBackCopy {T} this_ value.
Arguments OpPushBackMove {T} this_ value.
Arguments OpEmplace {T} this_ pos c.
Arguments OpInsertCopy {T} this_ pos value.
Arguments OpInsertMove {T} this_ pos value.
Arguments OpErase {T} this_ pos.

Section Program.

Context {T : Type} (E : Traits T).

Definition at_index {A} (pos : nat) (m : Ptr → M (State T) A) : M (State T) unit :=
  let* v := get_this in
  m (ptr_add (begin v) (Z.of_nat pos));; ret tt.

Definition run_op (op : Op T) : M (World T) unit :=
  match op with
  | OpDefault => construct_default;; ret tt
  | OpSized size => construct_sized E size;; ret tt
  | OpCopy other => construct_copy E other;; ret tt
  | OpMove other => construct_move other;; ret tt
  | OpCopyAssign this_ rhs => copy_assign E this_ rhs
  | OpMoveAssign this_ rhs => move_assign this_ rhs
  | OpSwap this_ other => Swap_objects this_ other
  | OpReserve this_ n => at_object this_ (Reserve E n)
  | OpResize this_ n => at_object this_ (Resize E n)
  | OpPopBack this_ => at_object this_ PopBack
  | OpEmplaceBack this_ c => at_object this_ (EmplaceBack E c;; ret tt)
  | OpPushBackCopy this_ value => at_object this_ (PushBack_copy E value)
  | OpPushBackMove this_ value => at_object this_ (PushBack_move E value)
  | OpEmplace this_ pos c => at_object this_ (at_index pos (λ it, Emplace E it c))
  | OpInsertCopy this_ pos value =>
      at_object this_ (at_index pos (λ it, Insert_copy E it value))
  | OpInsertMove this_ pos value =>
      at_object this_ (at_index pos (λ it, Insert_move E it value))
  | OpErase this_ pos => at_object this_ (at_index pos (Erase E))
  end.

(** What the interface requires of its arguments: counts are [size_t]
    values, a position given to [Emplace] or [Insert] is in [begin(), end()],
    one given to [Erase] is in [begin(), end()). *)
Definition in_range (op : Op T) (w : World T) : Prop :=
  match op with
  | OpSized n | OpReserve _ n | OpResize _ n => 0 ≤ n < SIZE_MOD
  | OpEmplace this_ pos _ | OpInsertCopy this_ pos _ | OpInsertMove this_ pos _ =>
      ∀ v, objects w !! this_ = Some v → Z.of_nat pos ≤ Size v
  | OpErase this_ pos => ∀ v, objects w !! this_ = Some v → Z.of_nat pos < Size v
  | _ => True
  end.

(** The byte size of a requested count does not wrap in [size_t]. *)
Definition representable (op : Op T) : Prop :=
  match op with
  | OpSized n | OpReserve _ n | OpResize _ n => n * sizeof_T E < SIZE_MOD
  | _ => True
  end.

(** Every container satisfies the invariant. *)
Definition World_inv (w : World T) : Prop :=
  ∀ i v, objects w !! i = Some v → invariant (mkState v (heap w)) = true.

Definition owns (v : Vector) (a : nat) : Prop := base (buffer_ (data_ v)) = Some a.

(** Every container is well formed, and no two containers share a buffer. *)
Definition World_wf (w : World T) : Prop :=
  (∀ i v, objects w !! i = Some v → well_formed E (mkState v (heap w))) ∧
  (∀ i j vi vj a, objects w !! i = Some vi → objects w !! j = Some vj →
                  owns vi a → owns vj a → i = j).

Lemma World_wf_inv w : World_wf w → World_inv w.
Proof. intros [Hwf _] i v Hi. by apply (Hwf i v). Qed.

Lemma World_wf_empty : World_wf (mkWorld [] []).
Proof.
  split; [intros i v Hi|intros i j vi vj a Hi]; simpl in Hi; by rewrite lookup_nil in Hi.
Qed.

End Program.

(** The claim as it is written: every operation, whether it returns or
    throws, leaves every container within the invariant. *)
Definition invariant_claim {T} (E : Traits T) : Prop :=
  ∀ op w w', World_wf E w → in_range op w →
             run_op E op w = Ok tt w' ∨ run_op E op w = Throw w' → World_inv w'.

(** [Vector<int> v; v.Reserve(1 << 62);] *)
Definition one_default : World Z := mkWorld [Vector_default] [].

Lemma one_default_wf : World_wf int_traits one_default.
Proof.
  split.
  - intros [|i] v Hi; [|by destruct i]. injection Hi as <-. split; [reflexivity|].
    by vm_compute.
  - intros [|i] j vi vj a Hi; [|by destruct i]. injection Hi as <-. discriminate.
Qed.

(** An empty container with room for one element, as [Reserve(1)] leaves
    it. *)
Definition one_reserved : World Z := mkWorld [vec (mkPtr (Some 0%nat) 0) 1 0] [Some [None]].

Lemma one_reserved_wf : World_wf throwing_traits one_reserved.
Proof.
  split.
  - intros [|i] v Hi; [|by destruct i]. injection Hi as <-. split; [reflexivity|].
    by vm_compute.
  - intros [|i] [|j] vi vj a Hi Hj; [done|by destruct j|by destruct i|by destruct i].
Qed.

(** Two calls after which the invariant is lost.  [Reserve(2^62)] on an
    empty [Vector<int>] returns: [2^62 * 4] is [0] in [size_t], the block has
    no slot, and the capacity is [2^62].  [PushBack(13)] into a container with
    a free slot, for an element type whose copy of [13] throws, leaves by the
    exception after its handler has freed the block the container keeps. *)
Lemma invariant_not_preserved :
  (World_wf int_traits one_default ∧
   in_range (OpReserve 0 (2 ^ 62)) one_default ∧
   ∃ w', run_op int_traits (OpReserve 0 (2 ^ 62)) one_default = Ok tt w' ∧ ¬ World_inv w') ∧
  (World_wf throwing_traits one_reserved ∧
   in_range (OpPushBackCopy 0 13) one_reserved ∧
   representable throwing_traits (OpPushBackCopy 0 13) ∧
   ∃ w', run_op throwing_traits (OpPushBackCopy 0 13) one_reserved = Throw w' ∧
         ¬ World_inv w') ∧
  ¬ invariant_claim int_traits ∧ ¬ invariant_claim throwing_traits.
Proof.
  assert (run_op int_traits (OpReserve 0 (2 ^ 62)) one_default
          = Ok tt (mkWorld [vec (mkPtr (Some 0%nat) 0) (2 ^ 62) 0] [Some []])) as Hrun
    by reflexivity.
  assert (¬ World_inv (mkWorld [vec (mkPtr (Some 0%nat) 0) (2 ^ 62) 0] [Some []] : World Z))
    as Hlost.
  { intros Hinv. specialize (Hinv 0%nat _ eq_refl). vm_compute in Hinv. discriminate. }
  assert (in_range (OpReserve 0 (2 ^ 62)) one_default) as Hin
    by (simpl; unfold SIZE_MOD; lia).
  assert (run_op throwing_traits (OpPushBackCopy 0 13) one_reserved
          = Throw (mkWorld [vec (mkPtr (Some 0%nat) 0) 1 0] [None])) as Hrun'
    by reflexivity.
  assert (¬ World_inv (mkWorld [vec (mkPtr (Some 0%nat) 0) 1 0] [None] : World Z)) as Hlost'.
  { intros Hinv. specialize (Hinv 0%nat _ eq_refl). vm_compute in Hinv. discriminate. }
  split; [|split; [|split]].
  - split; [apply one_default_wf|]. split; [done|]. by eexists.
  - split; [apply one_reserved_wf|]. split; [done|]. split; [done|]. by eexists.
  - intros Hclaim. apply Hlost.
    apply (Hclaim (OpReserve 0 (2 ^ 62)) one_default _ one_default_wf Hin). by left.
  - intros Hclaim. apply Hlost'.
    apply (Hclaim (OpPushBackCopy 0 13) one_reserved _ one_reserved_wf I). by right.
Qed.

(** The capacity so obtained is used: the next [PushBack] writes outside the
    block. *)
Example Reserve_then_PushBack :
  (Reserve int_traits (2 ^ 62);; PushBack_copy int_traits 1) empty_state = Undefined.
Proof. reflexivity. Qed.

Section Preservation.

Context {T : Type} (E : Traits T).
Hypothesis Hsane : sane E.
Implicit Types (h : Heap T) (v : Vector) (xs : list T) (st : State T) (w : World T).

(** What a member function does to its container and to the free store: it
    rewrites the container's block, or it moves the container to a new
    block and frees the old one. *)
Definition step_shape h v st' : Prop :=
  (∃ xs', Z.of_nat (length xs') ≤ Capacity v ∧ st' = updated h v xs') ∨
  (∃ xs' cap', Z.of_nat (length xs') ≤ cap' ∧ cap' * sizeof_T E ≤ PTRDIFF_MAX ∧
               st' = reallocated h v xs' cap').

Lemma holds_owned h v xs a : holds E h v xs → owns v a → (a < length h)%nat.
Proof.
  intros (_ & _ & _ & _ & Hblk) Ha. unfold owns in Ha. rewrite Ha in Hblk.
  by eapply get_block_lt.
Qed.

Lemma holds_frame h h' v xs :
  holds E h v xs → (∀ a, owns v a → get_block h' a = get_block h a) → holds E h' v xs.
Proof.
  intros (? & ? & ? & ? & Hblk) Hf. repeat (split; [done|]).
  destruct (base (buffer_ (data_ v))) as [a|] eqn:Hb; [|done].
  by rewrite Hf.
Qed.

Lemma get_block_app_lt h k a : (a < length h)%nat → get_block (h ++ k) a = get_block h a.
Proof. intros Ha. unfold get_block. by rewrite lookup_app_l. Qed.

Lemma step_shape_frame h v st' a :
  step_shape h v st' → (a < length h)%nat → ¬ owns v a →
  get_block (mem st') a = get_block h a.
Proof.
  unfold owns. intros [(xs' & _ & ->)|(xs' & cap' & _ & _ & ->)] Ha Hno.
  - unfold updated. cbn [mem]. destruct (base (buffer_ (data_ v))) as [a0|]; [|done].
    apply get_block_set_ne. congruence.
  - unfold reallocated, free. cbn [mem]. destruct (base (buffer_ (data_ v))) as [a0|].
    + rewrite get_block_free_ne by congruence. by apply get_block_app_lt.
    + by apply get_block_app_lt.
Qed.

Lemma step_shape_owns h v st' a :
  step_shape h v st' → owns (this st') a → owns v a ∨ a = length h.
Proof.
  unfold owns. intros [(xs' & _ & ->)|(xs' & cap' & _ & _ & ->)] Ha.
  - left. exact Ha.
  - right. simpl in Ha. congruence.
Qed.

Lemma step_shape_holds h v xs st' :
  holds E h v xs → step_shape h v st' → ∃ xs', holds E (mem st') (this st') xs'.
Proof.
  intros Hh [(xs' & Hle & ->)|(xs' & cap' & Hle & Hbytes & ->)]; exists xs'.
  - by apply (holds_updated E h v xs).
  - by apply (holds_reallocated E h v xs).
Qed.

(** A step of one container keeps the program well formed. *)
Lemma World_wf_step w i v st' :
  World_wf E w → objects w !! i = Some v → step_shape (heap w) v st' →
  World_wf E (mkWorld (<[i := this st']> (objects w)) (mem st')).
Proof.
  intros [Hwf Hown] Hi Hshape.
  destruct (well_formed_holds E _ (Hwf i v Hi)) as [xs Hh]. cbn [this mem] in Hh.
  assert (i < length (objects w))%nat as Hlt by (by eapply lookup_lt_Some).
  assert (∀ k vk a, k ≠ i → objects w !! k = Some vk → owns vk a →
                    (a < length (heap w))%nat ∧ ¬ owns v a) as Hother.
  { intros k vk a Hne Hk Ha.
    destruct (well_formed_holds E _ (Hwf k vk Hk)) as [xsk Hhk]. cbn [this mem] in Hhk.
    split; [by eapply holds_owned|].
    intros Hva. apply Hne. by apply (Hown k i vk v a). }
  split; cbn [objects heap].
  - intros k vk Hk. destruct (decide (k = i)) as [->|Hne].
    + rewrite list_lookup_insert_eq in Hk by done. injection Hk as <-.
      destruct (step_shape_holds _ _ _ _ Hh Hshape) as [xs' Hh'].
      destruct st' as [v' h']. by apply (holds_well_formed E h' v' xs').
    + rewrite list_lookup_insert_ne in Hk by done.
      destruct (well_formed_holds E _ (Hwf k vk Hk)) as [xsk Hhk]. cbn [this mem] in Hhk.
      apply (holds_well_formed E _ _ xsk). apply (holds_frame (heap w)); [done|].
      intros a Ha. destruct (Hother k vk a Hne Hk Ha) as [? ?].
      by apply (step_shape_frame (heap w) v).
  - intros k j vk vj a Hk Hj Hak Haj.
    destruct (decide (k = i)) as [->|Hki]; destruct (decide (j = i)) as [->|Hji]; [done| | |].
    + rewrite list_lookup_insert_eq in Hk by done. injection Hk as <-.
      rewrite list_lookup_insert_ne in Hj by done.
      destruct (Hother j vj a Hji Hj Haj) as [Ha Hno].
      destruct (step_shape_owns _ _ _ _ Hshape Hak) as [?| ->]; [done|lia].
    + rewrite list_lookup_insert_eq in Hj by done. injection Hj as <-.
      rewrite list_lookup_insert_ne in Hk by done.
      destruct (Hother k vk a Hki Hk Hak) as [Ha Hno].
      destruct (step_shape_owns _ _ _ _ Hshape Haj) as [?| ->]; [done|lia].
    + rewrite list_lookup_insert_ne in Hk, Hj by done. by apply (Hown k j vk vj a).
Qed.

Lemma at_object_Ok_inv {A} (a : nat) (m : M (State T) A) w r w' :
  at_object a m w = Ok r w' →
  ∃ v st', objects w !! a = Some v ∧ m (mkState v (heap w)) = Ok r st' ∧
           w' = mkWorld (<[a := this st']> (objects w)) (mem st').
Proof.
  unfold at_object. destruct (objects w !! a) as [v|]; [|discriminate].
  destruct (m (mkState v (heap w))) as [r0 st0| | |] eqn:Hm; try discriminate.
  intros [= <- <-]. by exists v, st0.
Qed.

(** The member functions of one container. *)

Lemma Reserve_shape h v xs n st' :
  holds E h v xs → 0 ≤ n → n * sizeof_T E < SIZE_MOD →
  Reserve E n (mkState v h) = Ok tt st' → step_shape h v st'.
Proof.
  intros Hh Hn Hfit HR.
  assert (size_ v = Z.of_nat (length xs)) as Hsz by apply Hh.
  assert (size_ v ≤ Capacity v) as Hle by apply Hh.
  destruct (Reserve_inv E Hsane h v xs n st' Hh Hn Hfit HR)
    as [[_ ->]|(Hlt & Hgrant & _ & ->)].
  - left. exists xs. split; [lia|]. by rewrite (updated_same E h v xs).
  - right. exists xs, n. split; [lia|]. split; [|done].
    by apply (granted_bound E Hsane).
Qed.

Lemma Resize_shape h v xs n st' :
  holds E h v xs → 0 ≤ n → n * sizeof_T E < SIZE_MOD →
  Resize E n (mkState v h) = Ok tt st' → step_shape h v st'.
Proof.
  intros Hh Hn Hfit HR.
  assert (size_ v = Z.of_nat (length xs)) as Hsz by apply Hh.
  assert (size_ v ≤ Capacity v) as Hle by apply Hh.
  destruct (Resize_inv E Hsane h v xs n st' Hh Hn Hfit HR)
    as [[Hlt ->]|[(Hin & Hinit & ->)|(Hlt & Hinit & Hgrant & _ & ->)]].
  - left. eexists. split; [|done]. rewrite length_take. lia.
  - left. eexists. split; [|done].
    rewrite length_app, length_fresh_values; [lia|].
    destruct Hinit as [?| ->]; [by left|right; lia].
  - right. do 2 eexists. split; [|split; [|done]].
    + rewrite length_app, length_fresh_values by (by left). lia.
    + by apply (granted_bound E Hsane).
Qed.

Lemma PopBack_shape h v xs st' :
  holds E h v xs → PopBack (mkState v h) = Ok tt st' → step_shape h v st'.
Proof.
  intros Hh HR.
  assert (size_ v = Z.of_nat (length xs)) as Hsz by apply Hh.
  assert (size_ v ≤ Capacity v) as Hle by apply Hh.
  destruct (PopBack_inv E Hsane h v xs st' Hh HR) as [_ ->].
  left. eexists. split; [|done]. rewrite length_take. lia.
Qed.

Lemma Emplace_shape h v xs (p : nat) c r st' :
  holds E h v xs → (p ≤ length xs)%nat →
  Emplace E (ptr_add (begin v) (Z.of_nat p)) c (mkState v h) = Ok r st' →
  step_shape h v st'.
Proof.
  intros Hh Hp HR.
  assert (size_ v = Z.of_nat (length xs)) as Hsz by apply Hh.
  assert (size_ v ≤ Capacity v) as Hle by apply Hh.
  destruct (Emplace_inv E Hsane h v xs p c r st' Hh Hp HR)
    as (x & _ & [(Hfull & Hgrant & _ & _ & ->)|(Hspare & _ & ->)]).
  - right. do 2 eexists. split; [|split; [|done]].
    + rewrite length_insert_at. destruct (Z.eqb_spec (size_ v) 0); lia.
    + by apply (granted_bound E Hsane).
  - left. eexists. split; [|done]. rewrite length_insert_at. lia.
Qed.

Lemma Erase_shape h v xs (p : nat) r st' :
  holds E h v xs → (p < length xs)%nat →
  Erase E (ptr_add (cbegin v) (Z.of_nat p)) (mkState v h) = Ok r st' →
  step_shape h v st'.
Proof.
  intros Hh Hp HR.
  assert (size_ v = Z.of_nat (length xs)) as Hsz by apply Hh.
  assert (size_ v ≤ Capacity v) as Hle by apply Hh.
  destruct (Erase_inv E Hsane h v xs p r st' Hh Hp HR) as (_ & _ & ->).
  left. eexists. split; [|done]. rewrite length_app, length_take, length_drop. lia.
Qed.

(** The copy assignment where one of the two containers has no buffer. *)

Lemma copy_assign_into_null h v rhs xs ys :
  holds E h v xs → holds E h rhs ys → base (buffer_ (data_ v)) = None →
  size_ rhs ≤ Capacity v →
  succeeds (copy_assign_from E rhs (mkState v h)) = false.
Proof.
  intros Hh Hr Hb Hfits.
  destruct (holds_inv E h v xs Hh) as (b & cap & -> & Hle & Hbytes & Hblk).
  destruct (holds_inv E h rhs ys Hr) as (br & capr & -> & Hler & Hbytesr & Hblkr).
  cbn [data_ buffer_ base vec] in Hb. subst b. destruct Hblk as [-> ->].
  unfold Capacity in Hfits. cbn [data_ capacity_ size_ vec length] in *.
  assert (ys = []) as -> by (destruct ys; [done|simpl in *; lia]).
  unfold copy_assign_from. step by reflexivity.
  unfold Capacity. cbn [data_ capacity_ size_ vec length]. simpl.
  step by reflexivity.
  unfold RawMemory_at. cbn [capacity_].
  destruct (0 <? capr).
  - step by reflexivity. step by reflexivity. by first_fails.
  - by first_fails.
Qed.

Lemma copy_assign_from_null h v rhs xs ys :
  holds E h v xs → holds E h rhs ys → base (buffer_ (data_ rhs)) = None →
  (xs ≠ [] → copy_assign_from E rhs (mkState v h) = Ok tt (updated h v [])) ∧
  (xs = [] → succeeds (copy_assign_from E rhs (mkState v h)) = false).
Proof.
  intros Hh Hr Hb.
  destruct (holds_inv E h v xs Hh) as (b & cap & -> & Hle & Hbytes & Hblk).
  destruct (holds_inv E h rhs ys Hr) as (br & capr & -> & Hler & Hbytesr & Hblkr).
  cbn [data_ buffer_ base vec] in Hb. subst br. destruct Hblkr as [-> ->].
  destruct (capacity_bound E Hsane cap) as (Hc1 & Hc2 & _); [lia|done|].
  pose proof PTRDIFF_MAX_lt as HP.
  remember (copy_assign_from E _ _) as R eqn:HR.
  unfold copy_assign_from in HR. step in HR by reflexivity.
  unfold Capacity in HR. cbn [data_ capacity_ size_ vec length] in HR.
  rewrite (proj2 (Z.ltb_ge _ _)) in HR by (simpl; lia).
  replace (Z.to_nat (Z.min (Z.of_nat (length xs)) (Z.of_nat 0))) with 0%nat in HR by lia.
  step in HR by reflexivity.
  split.
  - intros Hne.
    assert (0 < length xs)%nat as Hpos by (destruct xs; [done|simpl; lia]).
    rewrite (proj2 (Z.ltb_lt (Z.of_nat 0) (Z.of_nat (length xs)))) in HR by lia.
    destruct b as [a|]; [|destruct Hblk as [_ ->]; simpl in Hpos; lia].
    unfold RawMemory_at in HR. cbn [capacity_ buffer_] in HR.
    rewrite (proj2 (Z.ltb_lt (Z.of_nat 0) cap)) in HR by lia.
    step in HR by reflexivity. step in HR by reflexivity.
    rewrite wrap_small in HR by lia.
    replace (Z.of_nat (length xs) - Z.of_nat 0) with (Z.of_nat (length xs)) in HR by lia.
    step in HR by
      (apply on_heap_Ok;
       apply (destroy_n_block _ _ a 0 (block_of xs (Z.to_nat cap))); [done|done|done|];
       intros k Hk; destruct (lookup_lt_is_Some_2 xs k) as [x Hx]; [lia|];
       exists x; by apply block_of_live).
    subst R. unfold set_size, updated, vec, Capacity. simpl. do 2 f_equal.
    pose proof (list_inserts_destroyed xs (Z.to_nat cap) 0) as Hd.
    rewrite Nat.sub_0_r, take_0 in Hd. rewrite Hd by lia. done.
  - intros ->. by subst R.
Qed.

(** The copy assignment from another container. *)
Lemma copy_assign_from_shape h v rhs xs ys st' :
  holds E h v xs → holds E h rhs ys → (∀ a, owns v a → ¬ owns rhs a) →
  copy_assign_from E rhs (mkState v h) = Ok tt st' → step_shape h v st'.
Proof.
  intros Hh Hr Hsep HR.
  assert (size_ rhs = Z.of_nat (length ys)) as Hszr by apply Hr.
  destruct (Z.lt_ge_cases (Capacity v) (size_ rhs)) as [Hlt|Hfits].
  - rewrite (copy_assign_realloc E Hsane h v rhs xs ys Hh Hr Hlt) in HR.
    destruct (can_alloc E _) eqn:Hgrant; [|discriminate].
    destruct (none_throws _ _); [|discriminate]. injection HR as <-.
    right. exists ys, (Z.of_nat (length ys)). split; [lia|]. split; [|done].
    by apply (granted_bound E Hsane).
  - destruct (base (buffer_ (data_ v))) as [a'|] eqn:Hb; cycle 1.
    { pose proof (copy_assign_into_null h v rhs xs ys Hh Hr Hb ltac:(lia)) as Hfail.
      rewrite HR in Hfail. discriminate. }
    destruct (base (buffer_ (data_ rhs))) as [a|] eqn:Hbr; cycle 1.
    { destruct (copy_assign_from_null h v rhs xs ys Hh Hr Hbr) as [Hok Hfail].
      destruct xs as [|x xs].
      - rewrite HR in Hfail. specialize (Hfail eq_refl). discriminate.
      - rewrite Hok in HR by done. injection HR as <-.
        left. exists []. split; [|done]. simpl.
        assert (size_ v ≤ Capacity v) by apply Hh.
        assert (size_ v = Z.of_nat (length (x :: xs))) by apply Hh. lia. }
    assert (a ≠ a') as Hne.
    { intros ->. by apply (Hsep a'). }
    destruct (copy_assign_in_place E Hsane h v rhs xs ys a a' Hh Hr Hb Hbr Hne ltac:(lia))
      as [Hok Hfail].
    destruct (decide_outcome _ _ _ _ Hok Hfail _ _ HR) as (_ & _ & ->).
    left. exists ys. split; [lia|done].
Qed.

Lemma EmplaceBack_shape h v xs c r st' :
  holds E h v xs → EmplaceBack E c (mkState v h) = Ok r st' → step_shape h v st'.
Proof.
  intros Hh HR.
  assert (size_ v = Z.of_nat (length xs)) as Hsz by apply Hh.
  unfold EmplaceBack in HR. step in HR by reflexivity.
  unfold end_ in HR. rewrite Hsz in HR.
  by apply (Emplace_shape h v xs (length xs) c r st' Hh).
Qed.

Lemma PushBack_shape h v xs c st' :
  holds E h v xs → (EmplaceBack E c;; ret tt) (mkState v h) = Ok tt st' →
  step_shape h v st'.
Proof.
  intros Hh HR. apply bind_Ok_inv in HR as (r & st1 & HE & Hret).
  injection Hret as <-. by apply (EmplaceBack_shape h v xs c r).
Qed.

Lemma at_index_Emplace_shape h v xs (p : nat) c st' :
  holds E h v xs → Z.of_nat p ≤ Size v →
  at_index p (λ it, Emplace E it c) (mkState v h) = Ok tt st' → step_shape h v st'.
Proof.
  intros Hh Hp HR.
  assert (size_ v = Z.of_nat (length xs)) as Hsz by apply Hh.
  unfold at_index in HR. step in HR by reflexivity.
  apply bind_Ok_inv in HR as (r & st1 & HE & Hret). injection Hret as <-.
  apply (Emplace_shape h v xs p c r st1 Hh); [unfold Size in Hp; lia|done].
Qed.

Lemma at_index_Erase_shape h v xs (p : nat) st' :
  holds E h v xs → Z.of_nat p < Size v →
  at_index p (Erase E) (mkState v h) = Ok tt st' → step_shape h v st'.
Proof.
  intros Hh Hp HR.
  assert (size_ v = Z.of_nat (length xs)) as Hsz by apply Hh.
  unfold at_index in HR. step in HR by reflexivity.
  apply bind_Ok_inv in HR as (r & st1 & HE & Hret). injection Hret as <-.
  apply (Erase_shape h v xs p r st1 Hh); [unfold Size in Hp; lia|done].
Qed.

(** New objects and exchanged objects. *)

Lemma holds_default h : holds E h Vector_default [].
Proof.
  unfold holds, Capacity. simpl. repeat split; done.
Qed.

Lemma owns_default a : ¬ owns Vector_default a.
Proof. discriminate. Qed.

Lemma World_wf_new w v' k xs' :
  World_wf E w → holds E (heap w ++ k) v' xs' →
  (∀ a, owns v' a → (length (heap w) ≤ a)%nat) →
  World_wf E (mkWorld (objects w ++ [v']) (heap w ++ k)).
Proof.
  intros [Hwf Hown] Hh' Hfresh.
  assert (∀ i v a, objects w !! i = Some v → owns v a → (a < length (heap w))%nat) as Hold.
  { intros i v a Hi Ha.
    destruct (well_formed_holds E _ (Hwf i v Hi)) as [xs Hh]. by eapply holds_owned. }
  split; cbn [objects heap].
  - intros i v Hi. apply lookup_app_Some in Hi as [Hi|[_ Hi]].
    + destruct (well_formed_holds E _ (Hwf i v Hi)) as [xs Hh]. cbn [this mem] in Hh.
      apply (holds_well_formed E _ _ xs). apply (holds_frame (heap w)); [done|].
      intros a Ha. apply get_block_app_lt. by apply (Hold i v).
    + apply list_lookup_singleton_Some in Hi as [_ <-].
      by apply (holds_well_formed E _ _ xs').
  - intros i j vi vj a Hi Hj Hai Haj.
    apply lookup_app_Some in Hi as [Hi|[Hli Hi]];
      apply lookup_app_Some in Hj as [Hj|[Hlj Hj]].
    + by apply (Hown i j vi vj a).
    + apply list_lookup_singleton_Some in Hj as [_ <-].
      pose proof (Hold i vi a Hi Hai). pose proof (Hfresh a Haj). lia.
    + apply list_lookup_singleton_Some in Hi as [_ <-].
      pose proof (Hold j vj a Hj Haj). pose proof (Hfresh a Hai). lia.
    + apply list_lookup_singleton_Some in Hi as [Hi _].
      apply list_lookup_singleton_Some in Hj as [Hj _]. lia.
Qed.

Lemma World_wf_rearranged w objs' (src : nat → nat) :
  World_wf E w →
  (∀ k v', objs' !! k = Some v' → v' = Vector_default ∨ objects w !! src k = Some v') →
  (∀ k j v1 v2, objs' !! k = Some v1 → objs' !! j = Some v2 →
                v1 ≠ Vector_default → v2 ≠ Vector_default → src k = src j → k = j) →
  World_wf E (mkWorld objs' (heap w)).
Proof.
  intros [Hwf Hown] Hsrc Hinj. split; cbn [objects heap].
  - intros k v' Hk. destruct (Hsrc k v' Hk) as [->|Hold].
    + apply (holds_well_formed E _ _ []), holds_default.
    + by apply (Hwf (src k)).
  - intros k j v1 v2 a Hk Hj H1 H2.
    assert (v1 ≠ Vector_default) as Hn1 by (intros ->; by apply (owns_default a)).
    assert (v2 ≠ Vector_default) as Hn2 by (intros ->; by apply (owns_default a)).
    destruct (Hsrc k v1 Hk) as [?|Hk0]; [done|].
    destruct (Hsrc j v2 Hj) as [?|Hj0]; [done|].
    apply (Hinj k j v1 v2); try done.
    by apply (Hown (src k) (src j) v1 v2 a).
Qed.

Lemma World_wf_default w :
  World_wf E w → World_wf E (mkWorld (objects w ++ [Vector_default]) (heap w)).
Proof.
  intros Hwf.
  pose proof (World_wf_new w Vector_default [] [] Hwf (holds_default _)) as Hnew.
  rewrite app_nil_r in Hnew. apply Hnew. intros a Ha. by destruct (owns_default a).
Qed.

Lemma World_wf_fresh w xs' cap :
  World_wf E w → Z.of_nat (length xs') ≤ cap → cap * sizeof_T E ≤ PTRDIFF_MAX →
  World_wf E (mkWorld (objects w ++ [vec (mkPtr (Some (length (heap w))) 0) cap
                                      (Z.of_nat (length xs'))])
                      (heap w ++ [Some (block_of xs' (Z.to_nat cap))])).
Proof.
  intros Hwf Hle Hbytes. apply (World_wf_new w _ _ xs' Hwf).
  - apply (holds_vec E); [done|done|]. apply get_block_app_new.
  - intros a [= <-]. done.
Qed.

Lemma on_free_store_Ok_inv {A} (m : M (Heap T) A) w r w' :
  on_free_store m w = Ok r w' → ∃ h', m (heap w) = Ok r h' ∧ w' = mkWorld (objects w) h'.
Proof.
  unfold on_free_store. destruct (m (heap w)) as [r0 h0| | |]; try discriminate.
  intros [= <- <-]. by exists h0.
Qed.

Lemma object_Ok_inv (a : nat) w o w' :
  object a w = Ok o w' → objects w !! a = Some o ∧ w' = w.
Proof.
  unfold object. destruct (objects w !! a) as [v|]; [|discriminate].
  by intros [= <- <-].
Qed.

Lemma construct_sized_wf w n a w' :
  World_wf E w → 0 ≤ n → n * sizeof_T E < SIZE_MOD →
  construct_sized E n w = Ok a w' → World_wf E w'.
Proof.
  intros Hwf Hn Hfit HR. unfold construct_sized in HR.
  apply bind_Ok_inv in HR as (v & w1 & Hv & Hnew).
  apply on_free_store_Ok_inv in Hv as (h' & Hv & ->).
  injection Hnew as _ <-. cbn [objects heap].
  destruct (Vector_sized_spec E Hsane (heap w) n Hn Hfit) as [Hzero Hpos].
  destruct (decide (n = 0)) as [->|Hne].
  - rewrite Hzero in Hv by done. injection Hv as <- <-. by apply World_wf_default.
  - destruct Hpos as [Hok Hfail]; [lia|].
    destruct (decide_outcome _ _ _ _ Hok Hfail _ _ Hv) as (Hc & -> & ->).
    apply andb_true_iff in Hc as [Hgrant Hinit].
    assert (length (fresh_values E (Z.to_nat n)) = Z.to_nat n) as Hlen.
    { apply length_fresh_values. left. by destruct (value_init E). }
    pose proof (World_wf_fresh w (fresh_values E (Z.to_nat n)) n Hwf) as Hnew.
    rewrite Hlen, Z2Nat.id in Hnew by done. apply Hnew; [lia|].
    by apply (granted_bound E Hsane).
Qed.

Lemma construct_copy_wf w other a w' :
  World_wf E w → construct_copy E other w = Ok a w' → World_wf E w'.
Proof.
  intros Hwf HR. unfold construct_copy in HR.
  apply bind_Ok_inv in HR as (o & w0 & Ho & HR). apply object_Ok_inv in Ho as [Ho ->].
  apply bind_Ok_inv in HR as (v & w1 & Hv & Hnew).
  apply on_free_store_Ok_inv in Hv as (h' & Hv & ->).
  injection Hnew as _ <-. cbn [objects heap].
  destruct (well_formed_holds E _ (proj1 Hwf other o Ho)) as [ys Hh]. cbn [this mem] in Hh.
  destruct (Vector_copy_spec E Hsane (heap w) o ys Hh) as [Hnil Hcons].
  destruct ys as [|y ys].
  - rewrite Hnil in Hv by done. injection Hv as <- <-. by apply World_wf_default.
  - rewrite Hcons in Hv by done.
    destruct (can_alloc E _) eqn:Hgrant; [|discriminate].
    destruct (none_throws _ _); [|discriminate]. injection Hv as <- <-.
    pose proof (World_wf_fresh w (y :: ys) (Z.of_nat (length (y :: ys))) Hwf) as Hnew.
    rewrite Nat2Z.id in Hnew. apply Hnew; [lia|].
    by apply (granted_bound E Hsane).
Qed.

Lemma construct_move_wf w other a w' :
  World_wf E w → construct_move other w = Ok a w' → World_wf E w'.
Proof.
  intros Hwf HR. unfold construct_move in HR.
  apply bind_Ok_inv in HR as (o & w0 & Ho & HR). apply object_Ok_inv in Ho as [Ho ->].
  destruct o as [[b cap] sz]. injection HR as _ <-.
  assert (other < length (objects w))%nat as Hlt by (by eapply lookup_lt_Some).
  apply (World_wf_rearranged w _
           (λ k, if decide (k = length (objects w)) then other else k) Hwf).
  - intros k v' Hk. apply lookup_app_Some in Hk as [Hk|[Hlen Hk]].
    + apply list_lookup_insert_Some in Hk as [(<- & <- & _)|[Hne Hk]]; [by left|].
      right. apply lookup_lt_Some in Hk as Hklt.
      destruct (decide (k = length (objects w))); [lia|done].
    + apply list_lookup_singleton_Some in Hk as [Hk <-].
      rewrite length_insert in Hk, Hlen. right.
      destruct (decide (k = length (objects w))); [done|lia].
  - intros k j v1 v2 Hk Hj Hn1 Hn2 Hsrc.
    apply lookup_app_Some in Hk as [Hk|[Hlk Hk]];
      apply lookup_app_Some in Hj as [Hj|[Hlj Hj]].
    + apply lookup_lt_Some in Hk as Hklt. apply lookup_lt_Some in Hj as Hjlt.
      rewrite length_insert in Hklt, Hjlt.
      destruct (decide (k = _)), (decide (j = _)); lia.
    + apply lookup_lt_Some in Hk as Hklt. rewrite length_insert in Hklt.
      apply list_lookup_singleton_Some in Hj as [Hj _]. rewrite length_insert in Hj, Hlj.
      destruct (decide (k = _)); [lia|]. destruct (decide (j = _)); [|lia]. subst k.
      apply list_lookup_insert_Some in Hk as [(_ & <- & _)|[? _]]; done.
    + apply lookup_lt_Some in Hj as Hjlt. rewrite length_insert in Hjlt.
      apply list_lookup_singleton_Some in Hk as [Hk _]. rewrite length_insert in Hk, Hlk.
      destruct (decide (j = _)); [lia|]. destruct (decide (k = _)); [|lia]. subst j.
      apply list_lookup_insert_Some in Hj as [(_ & <- & _)|[? _]]; done.
    + apply list_lookup_singleton_Some in Hk as [Hk _].
      apply list_lookup_singleton_Some in Hj as [Hj _]. lia.
Qed.

Lemma Swap_objects_wf w this_ other w' :
  World_wf E w → Swap_objects this_ other w = Ok tt w' → World_wf E w'.
Proof.
  intros Hwf HR. unfold Swap_objects in HR.
  apply bind_Ok_inv in HR as (o & w0 & Ho & HR). apply object_Ok_inv in Ho as [Ho ->].
  apply bind_Ok_inv in HR as (o' & w1 & Hswap & HR).
  apply at_object_Ok_inv in Hswap as (v & st' & Hv & Hswap & ->).
  destruct o as [od os], v as [vd vs]. injection Hswap as <- <-.
  injection HR as <-. cbn [objects heap this mem data_ size_].
  apply (World_wf_rearranged w _
           (λ k, if decide (k = other) then this_
                 else if decide (k = this_) then other else k) Hwf).
  - intros k v' Hk. right.
    apply list_lookup_insert_Some in Hk as [(<- & <- & _)|[Hne Hk]].
    + by rewrite decide_True.
    + rewrite decide_False by done.
      apply list_lookup_insert_Some in Hk as [(<- & <- & _)|[Hne' Hk]].
      * by rewrite decide_True.
      * by rewrite decide_False.
  - intros k j v1 v2 _ _ _ _ Hsrc.
    destruct (decide (k = other)), (decide (k = this_)),
      (decide (j = other)), (decide (j = this_)); congruence.
Qed.

Lemma copy_assign_wf w this_ rhs w' :
  World_wf E w → copy_assign E this_ rhs w = Ok tt w' → World_wf E w'.
Proof.
  intros Hwf HR. unfold copy_assign in HR.
  destruct (Nat.eqb_spec this_ rhs) as [->|Hne]; cbn [negb] in HR.
  { by injection HR as <-. }
  apply bind_Ok_inv in HR as (r & w0 & Hr & HR). apply object_Ok_inv in Hr as [Hr ->].
  apply at_object_Ok_inv in HR as (v & st' & Hv & HR & ->).
  destruct (well_formed_holds E _ (proj1 Hwf this_ v Hv)) as [xs Hh].
  destruct (well_formed_holds E _ (proj1 Hwf rhs r Hr)) as [ys Hhr].
  cbn [this mem] in Hh, Hhr.
  apply (World_wf_step w this_ v st' Hwf Hv).
  apply (copy_assign_from_shape (heap w) v r xs ys st' Hh Hhr); [|done].
  intros a Ha Har. apply Hne. by apply (proj2 Hwf this_ rhs v r a).
Qed.

Lemma move_assign_wf w this_ rhs w' :
  World_wf E w → move_assign this_ rhs w = Ok tt w' → World_wf E w'.
Proof.
  intros Hwf HR. unfold move_assign in HR. apply noexcept_Ok_inv in HR.
  destruct (negb (this_ =? rhs)%nat).
  - by apply (Swap_objects_wf w this_ rhs).
  - by injection HR as <-.
Qed.

(** A member function whose step has one of the two shapes. *)
Lemma at_object_wf (m : M (State T) unit) w this_ w' :
  World_wf E w →
  (∀ v xs st', objects w !! this_ = Some v → holds E (heap w) v xs →
               m (mkState v (heap w)) = Ok tt st' → step_shape (heap w) v st') →
  at_object this_ m w = Ok tt w' → World_wf E w'.
Proof.
  intros Hwf Hshape HR.
  apply at_object_Ok_inv in HR as (v & st' & Hv & HR & ->).
  destruct (well_formed_holds E _ (proj1 Hwf this_ v Hv)) as [xs Hh]. cbn [this mem] in Hh.
  apply (World_wf_step w this_ v st' Hwf Hv). by apply (Hshape v xs).
Qed.

(** Every operation keeps the program well formed. *)
Lemma run_op_wf op w w' :
  World_wf E w → in_range op w → representable E op →
  run_op E op w = Ok tt w' → World_wf E w'.
Proof.
  intros Hwf Hin Hrep HR.
  destruct op as [|n|other|other|this_ rhs|this_ rhs|this_ other|this_ n|this_ n|this_
                 |this_ c|this_ x|this_ x|this_ p c|this_ p x|this_ p x|this_ p];
    cbn [run_op in_range representable] in *.
  - apply bind_Ok_inv in HR as (a & w1 & HR & Hret). injection Hret as <-.
    injection HR as _ <-. by apply World_wf_default.
  - apply bind_Ok_inv in HR as (a & w1 & HR & Hret). injection Hret as <-.
    apply (construct_sized_wf w n a w1 Hwf); [lia|done|done].
  - apply bind_Ok_inv in HR as (a & w1 & HR & Hret). injection Hret as <-.
    by apply (construct_copy_wf w other a).
  - apply bind_Ok_inv in HR as (a & w1 & HR & Hret). injection Hret as <-.
    by apply (construct_move_wf w other a).
  - by apply (copy_assign_wf w this_ rhs).
  - by apply (move_assign_wf w this_ rhs).
  - by apply (Swap_objects_wf w this_ other).
  - eapply (at_object_wf _ w this_ w' Hwf); [|exact HR].
    intros v xs st' _ Hh Hm. apply (Reserve_shape _ v xs n); [done|lia|done|done].
  - eapply (at_object_wf _ w this_ w' Hwf); [|exact HR].
    intros v xs st' _ Hh Hm. apply (Resize_shape _ v xs n); [done|lia|done|done].
  - eapply (at_object_wf _ w this_ w' Hwf); [|exact HR].
    intros v xs st' _ Hh Hm. by apply (PopBack_shape _ v xs).
  - eapply (at_object_wf _ w this_ w' Hwf); [|exact HR].
    intros v xs st' _ Hh Hm. by apply (PushBack_shape _ v xs c).
  - eapply (at_object_wf _ w this_ w' Hwf); [|exact HR].
    intros v xs st' _ Hh Hm. by apply (PushBack_shape _ v xs _ st' Hh Hm).
  - eapply (at_object_wf _ w this_ w' Hwf); [|exact HR].
    intros v xs st' _ Hh Hm. by apply (PushBack_shape _ v xs _ st' Hh Hm).
  - eapply (at_object_wf _ w this_ w' Hwf); [|exact HR].
    intros v xs st' Hv Hh Hm. apply (at_index_Emplace_shape _ v xs p c); [done| |done].
    by apply Hin.
  - eapply (at_object_wf _ w this_ w' Hwf); [|exact HR].
    intros v xs st' Hv Hh Hm.
    apply (at_index_Emplace_shape _ v xs p _ st' Hh (Hin v Hv) Hm).
  - eapply (at_object_wf _ w this_ w' Hwf); [|exact HR].
    intros v xs st' Hv Hh Hm.
    apply (at_index_Emplace_shape _ v xs p _ st' Hh (Hin v Hv) Hm).
  - eapply (at_object_wf _ w this_ w' Hwf); [|exact HR].
    intros v xs st' Hv Hh Hm. apply (at_index_Erase_shape _ v xs p); [done| |done].
    by apply Hin.
Qed.

End Preservation.

(** The programs: the operations are called with arguments in range and
    return. *)
Inductive reachable {T} (E : Traits T) : World T → Prop :=
| reachable_start : reachable E (mkWorld [] [])
| reachable_step op w w' :
    reachable E w → in_range op w → representable E op →
    run_op E op w = Ok tt w' → reachable E w'.

Lemma reachable_wf {T} (E : Traits T) w : sane E → reachable E w → World_wf E w.
Proof.
  intros Hsane Hreach. induction Hreach as [|op w w' _ IH Hin Hrep Hrun].
  - apply World_wf_empty.
  - by apply (run_op_wf E Hsane op w w').
Qed.

(** [Vector<int> v; v.Reserve(10);] *)
Definition after_Reserve_10 : World Z :=
  mkWorld [vec (mkPtr (Some 0%nat) 0) 10 0] [Some (replicate 10 None)].

(** * Further properties of the member functions *)

(** ** PopBack, PushBack and operator[] *)

Lemma insert_at_end {T} (x : T) xs : insert_at (length xs) x xs = xs ++ [x].
Proof. unfold insert_at. by rewrite firstn_all, drop_all. Qed.

(** X1. [PopBack] on an empty container stops at [assert(size_)]; on a
    container holding [xs] it returns, removes the last element and nothing
    else, and keeps the capacity and the buffer. *)
Theorem PopBack_correct {T} (E : Traits T) (st : State T) (xs : list T) :
  sane E → well_formed E st → elements st = Some xs →
  (xs = [] → PopBack st = Abort) ∧
  (xs ≠ [] →
   ∃ st', PopBack st = Ok tt st' ∧
          elements st' = Some (take (length xs - 1) xs) ∧
          Size (this st') = Size (this st) - 1 ∧
          Capacity (this st') = Capacity (this st) ∧
          begin (this st') = begin (this st) ∧
          well_formed E st').
Proof.
  intros Hsane Hwf Hel.
  pose proof (well_formed_elements E st xs Hwf Hel) as Hh.
  destruct st as [v h]. cbn [this mem] in *.
  assert (size_ v = Z.of_nat (length xs)) as Hsz by apply Hh.
  assert (size_ v ≤ Capacity v) as Hle by apply Hh.
  destruct (PopBack_spec E Hsane h v xs Hh) as [Hok Habort].
  split; [done|]. intros Hne.
  assert (0 < length xs)%nat as Hpos by (destruct xs; [done|simpl; lia]).
  exists (updated h v (take (length xs - 1) xs)). split; [by apply Hok|].
  destruct (updated_facts E h v xs (take (length xs - 1) xs) Hh) as (Hc & Hs & He & Hw).
  { rewrite length_take. lia. }
  split; [done|]. split; [|split; [done|split; [done|done]]].
  rewrite Hs, length_take. unfold Size. lia.
Qed.

Lemma PopBack_correct_witness :
  sane int_traits ∧ well_formed int_traits three_ints ∧
  elements three_ints = Some [1; 2; 3] ∧
  ∃ st', PopBack three_ints = Ok tt st' ∧ elements st' = Some [1; 2].
Proof.
  split; [apply int_traits_sane|]. split; [apply three_ints_well_formed|].
  split; [reflexivity|].
  destruct (PopBack_correct int_traits three_ints [1; 2; 3] int_traits_sane
              three_ints_well_formed eq_refl) as [_ Hpop].
  destruct (Hpop ltac:(discriminate)) as (st' & Hrun & Hel & _).
  by exists st'.
Defined.

(** X2. [operator[](index)] of a container holding [xs] returns the address
    [begin() + index] of the element [xs[index]] when [index < size], and
    stops at [assert(index < size_)] otherwise, also for an index within the
    capacity. *)
Theorem Vector_at_correct {T} (E : Traits T) (st : State T) (xs : list T) (index : Z) :
  sane E → well_formed E st → elements st = Some xs → 0 ≤ index →
  (index < Size (this st) →
   ∃ x, xs !! Z.to_nat index = Some x ∧
        Vector_at index st = Ok (ptr_add (begin (this st)) index) st ∧
        load (ptr_add (begin (this st)) index) (mem st) = Ok x (mem st)) ∧
  (Size (this st) ≤ index → Vector_at index st = Abort).
Proof.
  intros Hsane Hwf Hel Hi.
  pose proof (well_formed_elements E st xs Hwf Hel) as Hh.
  destruct st as [v h]. cbn [this mem] in *. unfold Size.
  assert (size_ v = Z.of_nat (length xs)) as Hsz by apply Hh.
  assert (size_ v ≤ Capacity v) as Hle by apply Hh.
  unfold Capacity in Hle. split.
  - intros Hlt.
    destruct (lookup_lt_is_Some_2 xs (Z.to_nat index)) as [x Hx]; [lia|].
    exists x. split; [done|]. split.
    + unfold Vector_at, bind, get_this, RawMemory_at, assert, ret. cbn [this].
      rewrite (proj2 (Z.ltb_lt index (size_ v))) by done.
      by rewrite (proj2 (Z.ltb_lt index (capacity_ (data_ v)))) by lia.
    + pose proof (holds_load E h v xs (Z.to_nat index) x Hh Hx) as Hload.
      by rewrite Z2Nat.id in Hload by done.
  - intros Hge. unfold Vector_at, bind, get_this, assert. cbn [this].
    by rewrite (proj2 (Z.ltb_ge index (size_ v))) by done.
Qed.

Lemma Vector_at_correct_witness :
  sane int_traits ∧ well_formed int_traits three_ints ∧
  elements three_ints = Some [1; 2; 3] ∧
  load (ptr_add (begin (this three_ints)) 2) (mem three_ints) = Ok 3 (mem three_ints) ∧
  Vector_at 3 three_ints = Abort.
Proof.
  split; [apply int_traits_sane|]. split; [apply three_ints_well_formed|].
  split; [reflexivity|].
  split.
  - destruct (Vector_at_correct int_traits three_ints [1; 2; 3] 2 int_traits_sane
                three_ints_well_formed eq_refl ltac:(lia)) as [Hin _].
    destruct (Hin ltac:(by vm_compute)) as (x & Hx & _ & Hload).
    injection Hx as <-. exact Hload.
  - destruct (Vector_at_correct int_traits three_ints [1; 2; 3] 3 int_traits_sane
                three_ints_well_formed eq_refl ltac:(lia)) as [_ Hout].
    apply Hout. by vm_compute.
Defined.

Section Appending.

Context {T : Type} (E : Traits T).
Hypothesis Hsane : sane E.
Implicit Types (h : Heap T) (v : Vector) (xs : list T) (st : State T).

(** The capacity after an insertion: unchanged when there is a free slot, 1
    for a container of capacity 0, twice the size otherwise. *)
Definition grown (v : Vector) : Z :=
  if Size v <? Capacity v then Capacity v
  else if Size v =? 0 then 1 else Size v * 2.

Lemma EmplaceBack_holds h v xs c r st' :
  holds E h v xs → EmplaceBack E c (mkState v h) = Ok r st' →
  ∃ x, c = Some x ∧ holds E (mem st') (this st') (xs ++ [x]) ∧
       Capacity (this st') = grown v.
Proof.
  intros Hh HR.
  assert (size_ v = Z.of_nat (length xs)) as Hsz by apply Hh.
  assert (size_ v ≤ Capacity v) as Hle by apply Hh.
  unfold EmplaceBack in HR. step in HR by reflexivity.
  unfold end_ in HR. rewrite Hsz in HR.
  destruct (Emplace_holds E Hsane h v xs (length xs) c r st' Hh (le_n _) HR)
    as (x & -> & Hh' & _ & _ & Hspare & Hfull).
  exists x. split; [done|]. rewrite insert_at_end in Hh'. split; [done|].
  unfold grown, Size. destruct (Z.ltb_spec (size_ v) (Capacity v)).
  - by apply Hspare.
  - apply Hfull. lia.
Qed.

Lemma EmplaceBack_returns h v xs x :
  holds E h v xs → nothrow E →
  (size_ v = Capacity v → can_alloc E (grown v * sizeof_T E) = true) →
  ∃ r st', EmplaceBack E (Some x) (mkState v h) = Ok r st'.
Proof.
  intros Hh Hnt Hgrant.
  assert (size_ v = Z.of_nat (length xs)) as Hsz by apply Hh.
  destruct (Emplace_returns E Hsane h v xs (length xs) x Hh (le_n _) Hnt) as (r & st' & HR).
  { intros Hfull. specialize (Hgrant Hfull). unfold grown, Size in Hgrant.
    by rewrite (proj2 (Z.ltb_ge _ _)) in Hgrant by lia. }
  exists r, st'. unfold EmplaceBack. step by reflexivity.
  unfold end_. by rewrite Hsz.
Qed.

End Appending.

(** X3. [PushBack(value)] that returns appends [value] to the sequence and
    adds one to the size; the capacity stays when there was a free slot and
    otherwise becomes 1 for a container without storage and twice the size
    for a full one.  It returns when no operation of the element type throws
    and the allocation, if one is needed, is granted. *)
Theorem PushBack_appends {T} (E : Traits T) (st : State T) (xs : list T) (value : T) :
  sane E → well_formed E st → elements st = Some xs →
  (∀ st', PushBack_copy E value st = Ok tt st' ∨ PushBack_move E value st = Ok tt st' →
     elements st' = Some (xs ++ [value]) ∧
     Size (this st') = Size (this st) + 1 ∧
     Capacity (this st') = grown (this st) ∧
     well_formed E st') ∧
  (nothrow E →
   (Size (this st) = Capacity (this st) →
    can_alloc E (grown (this st) * sizeof_T E) = true) →
   ∃ st', PushBack_copy E value st = Ok tt st' ∧ PushBack_move E value st = Ok tt st').
Proof.
  intros Hsane Hwf Hel.
  pose proof (well_formed_elements E st xs Hwf Hel) as Hh.
  destruct st as [v h]. cbn [this mem] in *.
  assert (size_ v = Z.of_nat (length xs)) as Hsz by apply Hh.
  split.
  - assert (∀ c st', (EmplaceBack E c;; ret tt) (mkState v h) = Ok tt st' →
                     c = Some value ∨ c = None →
                     elements st' = Some (xs ++ [value]) ∧
                     Size (this st') = Size v + 1 ∧
                     Capacity (this st') = grown v ∧
                     well_formed E st') as Hpush.
    { intros c st' HR Hc. apply bind_Ok_inv in HR as (r & st1 & HE & Hret).
      injection Hret as <-.
      destruct (EmplaceBack_holds E Hsane h v xs c r st1 Hh HE) as (x & -> & Hh' & Hcap).
      destruct Hc as [[= ->]|?]; [|done].
      destruct st1 as [v1 h1]. cbn [this mem] in *.
      split; [by apply (holds_elements E)|].
      split; [|split; [done|by apply (holds_well_formed E h1 v1 (xs ++ [value]))]].
      unfold Size. destruct Hh' as [-> _]. rewrite length_app. simpl. lia. }
    intros st' [HR|HR].
    + unfold PushBack_copy in HR. apply (Hpush _ st' HR).
      destruct (copy_throws E value); auto.
    + unfold PushBack_move in HR. apply (Hpush _ st' HR).
      destruct (move_throws E value); auto.
  - intros Hnt Hgrant.
    destruct (EmplaceBack_returns E Hsane h v xs value Hh Hnt Hgrant) as (r & st' & HR).
    exists st'. unfold PushBack_copy, PushBack_move.
    destruct (Hnt value) as (-> & -> & _).
    split; by step by exact HR.
Qed.

Lemma PushBack_appends_witness :
  sane int_traits ∧ well_formed int_traits one_int ∧ elements one_int = Some [5] ∧
  ∃ st', PushBack_copy int_traits 7 one_int = Ok tt st' ∧
         elements st' = Some [5; 7] ∧ Capacity (this st') = 2.
Proof.
  split; [apply int_traits_sane|]. split; [apply one_int_well_formed|].
  split; [reflexivity|].
  destruct (PushBack_appends int_traits one_int [5] 7 int_traits_sane
              one_int_well_formed eq_refl) as [Hpost Hret].
  destruct (Hret int_traits_nothrow ltac:(by vm_compute)) as (st' & HR & _).
  exists st'. split; [done|].
  destruct (Hpost st' (or_introl HR)) as (Hel & _ & Hcap & _). by split.
Defined.

(** X4. [PopBack] undoes [PushBack]: after a [PushBack] that returned,
    [PopBack] returns, and the container holds the sequence and has the size
    it had before; the capacity is the one the [PushBack] left. *)
Theorem PushBack_PopBack {T} (E : Traits T) (st st1 : State T) (xs : list T) (value : T) :
  sane E → well_formed E st → elements st = Some xs →
  PushBack_copy E value st = Ok tt st1 →
  ∃ st2, PopBack st1 = Ok tt st2 ∧
         elements st2 = Some xs ∧
         Size (this st2) = Size (this st) ∧
         Capacity (this st2) = grown (this st) ∧
         well_formed E st2.
Proof.
  intros Hsane Hwf Hel HR.
  pose proof (well_formed_elements E st xs Hwf Hel) as Hh.
  destruct st as [v h]. cbn [this mem] in *.
  assert (size_ v = Z.of_nat (length xs)) as Hsz by apply Hh.
  unfold PushBack_copy in HR. apply bind_Ok_inv in HR as (r & st' & HE & Hret).
  injection Hret as <-.
  destruct (EmplaceBack_holds E Hsane h v xs _ r st' Hh HE) as (x & _ & Hh' & Hcap).
  destruct st' as [v1 h1]. cbn [this mem] in *.
  assert (size_ v1 ≤ Capacity v1) as Hle1 by apply Hh'.
  assert (size_ v1 = Z.of_nat (length (xs ++ [x]))) as Hsz1 by apply Hh'.
  rewrite length_app in Hsz1. simpl in Hsz1.
  destruct (PopBack_spec E Hsane h1 v1 (xs ++ [x]) Hh') as [Hok _].
  assert (take (length (xs ++ [x]) - 1) (xs ++ [x]) = xs) as Htake.
  { rewrite length_app. simpl. rewrite Nat.add_sub. by rewrite take_app_length. }
  rewrite Htake in Hok.
  exists (updated h1 v1 xs). split; [apply Hok; by destruct xs|].
  destruct (updated_facts E h1 v1 (xs ++ [x]) xs Hh') as (Hc & Hs & He & Hw); [lia|].
  split; [done|]. split; [unfold Size in *; lia|]. split; [congruence|done].
Qed.

Lemma PushBack_PopBack_witness :
  sane int_traits ∧ well_formed int_traits one_int ∧ elements one_int = Some [5] ∧
  ∃ st1 st2, PushBack_copy int_traits 7 one_int = Ok tt st1 ∧
             PopBack st1 = Ok tt st2 ∧ elements st2 = Some [5] ∧ Capacity (this st2) = 2.
Proof.
  split; [apply int_traits_sane|]. split; [apply one_int_well_formed|].
  split; [reflexivity|].
  eexists.
  destruct (PushBack_PopBack int_traits one_int _ [5] 7 int_traits_sane
              one_int_well_formed eq_refl eq_refl) as (st2 & Hpop & Hel & _ & Hcap & _).
  exists st2. split; [reflexivity|]. split; [exact Hpop|]. by split.
Defined.

(** X5. Erasing the last element is [PopBack]: in a container that is not
    empty, [Erase(end() - 1)] returns, whatever the assignments of the
    element type throw, leaves the state that [PopBack] leaves, and returns the new
    [end()]. *)
Theorem Erase_last_is_PopBack {T} (E : Traits T) (st : State T) (xs : list T) :
  sane E → well_formed E st → elements st = Some xs → xs ≠ [] →
  ∃ st', PopBack st = Ok tt st' ∧
         Erase E (ptr_add (cend (this st)) (-1)) st = Ok (end_ (this st')) st'.
Proof.
  intros Hsane Hwf Hel Hne.
  pose proof (well_formed_elements E st xs Hwf Hel) as Hh.
  destruct st as [v h]. cbn [this mem] in *.
  assert (size_ v = Z.of_nat (length xs)) as Hsz by apply Hh.
  assert (size_ v ≤ Capacity v) as Hle by apply Hh.
  destruct (PopBack_spec E Hsane h v xs Hh) as [Hpop _].
  destruct (exists_last Hne) as (l1 & y & ->).
  rewrite length_app in *. simpl in *.
  assert (take (length l1 + 1 - 1) (l1 ++ [y]) = l1) as Htake.
  { rewrite Nat.add_sub. by rewrite take_app_length. }
  rewrite Htake in Hpop.
  exists (updated h v l1). split; [apply Hpop; by destruct l1|].
  destruct (Erase_spec E Hsane h v l1 y [] Hh) as [Herase _].
  rewrite app_nil_r in Herase.
  assert (ptr_add (cend v) (-1) = ptr_add (cbegin v) (Z.of_nat (length l1))) as ->.
  { unfold cend, cbegin, ptr_add. simpl. f_equal. lia. }
  rewrite Herase by done. by f_equal.
Qed.

Lemma Erase_last_is_PopBack_witness :
  sane int_traits ∧ well_formed int_traits three_ints ∧
  elements three_ints = Some [1; 2; 3] ∧
  ∃ st', PopBack three_ints = Ok tt st' ∧
         Erase int_traits (ptr_add (cend (this three_ints)) (-1)) three_ints
         = Ok (end_ (this st')) st'.
Proof.
  split; [apply int_traits_sane|]. split; [apply three_ints_well_formed|].
  split; [reflexivity|].
  apply (Erase_last_is_PopBack int_traits three_ints [1; 2; 3] int_traits_sane
           three_ints_well_formed eq_refl).
  discriminate.
Defined.

(** ** Constructors and the destructor *)

Section Lifetime.

Context {T : Type} (E : Traits T).
Hypothesis Hsane : sane E.
Implicit Types (h : Heap T) (v : Vector) (xs ys : list T).

Lemma get_block_app_freed h a : get_block (h ++ [None]) a = get_block h a.
Proof.
  destruct (decide (a < length h)%nat) as [Hlt|Hge]; [by apply get_block_app_lt|].
  unfold get_block. rewrite (lookup_ge_None_2 h a) by lia.
  destruct (decide (a = length h)) as [->|Hne].
  - by rewrite list_lookup_middle.
  - rewrite lookup_ge_None_2; [done|]. rewrite length_app. simpl. lia.
Qed.

(** [Vector(size)] for [size > 0] when it does not return. *)
Lemma Vector_sized_throws h n :
  0 < n → n * sizeof_T E < SIZE_MOD →
  (can_alloc E (n * sizeof_T E) = false → Vector_sized E n h = Throw h) ∧
  (can_alloc E (n * sizeof_T E) = true → value_init E = None →
   Vector_sized E n h = Throw (h ++ [None])).
Proof.
  intros Hn Hfit.
  pose proof (RawMemory_sized_pos E Hsane n h Hn Hfit) as Halloc.
  split.
  - intros Hc. rewrite Hc in Halloc. unfold Vector_sized, bind. by rewrite Halloc.
  - intros Hc Hv. rewrite Hc in Halloc. unfold Vector_sized.
    step by exact Halloc.
    unfold bind, try_catch_rethrow. cbn [GetAddress buffer_].
    replace n with (Z.of_nat (Z.to_nat n)) at 1 by lia.
    rewrite uninitialized_value_construct_n_Throw by (done || lia).
    unfold RawMemory_destroy, Deallocate. cbn [buffer_].
    rewrite (operator_delete_block _ _ (replicate (Z.to_nat n) None))
      by apply get_block_app_new.
    by rewrite free_new.
Qed.

(** The destructor on the container's own storage. *)
Lemma Vector_destroy_holds h v xs :
  holds E h v xs → Vector_destroy v h = Ok tt (free (buffer_ (data_ v)) h).
Proof.
  intros Hh.
  destruct (holds_inv E h v xs Hh) as (b & cap & -> & Hle & Hbytes & Hblk).
  unfold Vector_destroy, free, begin, GetAddress. cbn [vec data_ buffer_ size_ base].
  destruct b as [a|].
  - rewrite bind_Ok with (a := tt)
      (s' := set_block a (list_inserts 0 (replicate (length xs) None)
                            (block_of xs (Z.to_nat cap))) h).
    + unfold RawMemory_destroy, Deallocate. cbn [buffer_].
      rewrite (operator_delete_block _ a (list_inserts 0 (replicate (length xs) None)
                                            (block_of xs (Z.to_nat cap)))).
      * by rewrite free_set_block_eq.
      * apply get_block_set_eq. by eapply get_block_lt.
    + apply (destroy_n_block h _ a 0 (block_of xs (Z.to_nat cap))); [done|done|done|].
      intros k Hk. destruct (lookup_lt_is_Some_2 xs k) as [x Hx]; [lia|].
      exists x. by apply block_of_live.
  - destruct Hblk as [_ ->]. reflexivity.
Qed.

End Lifetime.

(** The free stores [h] and [h'] have the same live blocks. *)
Definition same_blocks {T} (h h' : Heap T) : Prop := ∀ a, get_block h' a = get_block h a.

(** X6. [Vector(size)] for a count whose byte size is representable either
    returns a container of size and capacity [size] whose elements are all
    [T()] (for [size = 0] the container without storage, and nothing is
    allocated), or throws and leaves the free store with the live blocks it
    had: the block obtained is released when [T()] throws.  It returns when
    the allocation is granted and [T()] does not throw. *)
Theorem Vector_sized_correct {T} (E : Traits T) (h : Heap T) (size : Z) :
  sane E → 0 ≤ size → size * sizeof_T E < SIZE_MOD →
  (∀ v h', Vector_sized E size h = Ok v h' →
     Size v = size ∧ Capacity v = size ∧
     elements (mkState v h') = Some (fresh_values E (Z.to_nat size)) ∧
     length (fresh_values E (Z.to_nat size)) = Z.to_nat size ∧
     well_formed E (mkState v h') ∧
     (size = 0 → v = Vector_default ∧ h' = h)) ∧
  ((∃ v h', Vector_sized E size h = Ok v h') ∨
   (∃ h', Vector_sized E size h = Throw h' ∧ same_blocks h h')) ∧
  (size = 0 ∨ (can_alloc E (size * sizeof_T E) = true ∧ is_Some (value_init E)) →
   ∃ v h', Vector_sized E size h = Ok v h').
Proof.
  intros Hsane Hn Hfit.
  destruct (Vector_sized_spec E Hsane h size Hn Hfit) as [Hzero Hpos].
  destruct (decide (size = 0)) as [->|Hne].
  { rewrite Hzero by done. split; [|split; [left|]; by eauto].
    intros v h' [= <- <-].
    assert (fresh_values E (Z.to_nat 0) = []) as ->
      by (unfold fresh_values; by destruct (value_init E)).
    split; [done|]. split; [done|]. split; [done|]. split; [done|].
    split; [|done]. apply (holds_well_formed E h Vector_default []), holds_default. }
  destruct Hpos as [Hok Hfail]; [lia|].
  destruct (Vector_sized_throws E Hsane h size ltac:(lia) Hfit) as [Hnoalloc Hnoinit].
  destruct (can_alloc E (size * sizeof_T E)) eqn:Hgrant; cycle 1.
  { rewrite Hnoalloc by done. split; [discriminate|]. split.
    - right. by exists h.
    - intros [?|[? _]]; [lia|discriminate]. }
  destruct (value_init E) as [v0|] eqn:Hv0; cycle 1.
  { rewrite Hnoinit by done. split; [discriminate|]. split.
    - right. exists (h ++ [None]). split; [done|]. intros a. apply get_block_app_freed.
    - intros [?|[_ [? ?]]]; [lia|discriminate]. }
  rewrite Hok by done.
  assert (length (fresh_values E (Z.to_nat size)) = Z.to_nat size) as Hlen.
  { apply length_fresh_values. left. by rewrite Hv0. }
  split; [|split; [left|]; by eauto].
  intros v h' [= <- <-].
  assert (holds E (h ++ [Some (block_of (fresh_values E (Z.to_nat size)) (Z.to_nat size))])
            (vec (mkPtr (Some (length h)) 0) size size)
            (fresh_values E (Z.to_nat size))) as Hh.
  { pose proof (holds_vec E (h ++ [Some (block_of (fresh_values E (Z.to_nat size))
                                           (Z.to_nat size))])
                  (Some (length h)) size (fresh_values E (Z.to_nat size))) as Hv.
    rewrite Hlen, Z2Nat.id in Hv by done. apply Hv; [lia| |apply get_block_app_new].
    by apply (granted_bound E Hsane). }
  split; [done|]. split; [done|]. split; [by apply (holds_elements E)|].
  split; [done|]. split; [by apply (holds_well_formed E _ _ _ Hh)|]. lia.
Qed.

Lemma Vector_sized_correct_witness :
  sane int_traits ∧ 0 ≤ 3 ∧ 3 * sizeof_T int_traits < SIZE_MOD ∧
  ∃ v h', Vector_sized int_traits 3 [] = Ok v h' ∧
          elements (mkState v h') = Some [0; 0; 0] ∧ Capacity v = 3.
Proof.
  split; [apply int_traits_sane|]. split; [lia|]. split; [reflexivity|].
  destruct (Vector_sized_correct int_traits [] 3 int_traits_sane ltac:(lia) eq_refl)
    as (Hpost & _ & Hret).
  destruct Hret as (v & h' & HR); [right; split; [reflexivity|by eexists]|].
  exists v, h'. split; [done|].
  destruct (Hpost v h' HR) as (_ & Hcap & Hel & _). by split.
Defined.

(** X7. The copy constructor, when it returns, gives a container with the
    elements of [other], with size and capacity equal to the size of [other]
    (not to its capacity), in a buffer of its own; [other] is unchanged.
    When the allocation fails or a copy throws, [other] is unchanged and the
    free store has the live blocks it had.  It returns when the allocation
    is granted and no copy throws. *)
Theorem Vector_copy_correct {T} (E : Traits T) (h : Heap T) (other : Vector) (ys : list T) :
  sane E → well_formed E (mkState other h) → elements (mkState other h) = Some ys →
  (∀ v h', Vector_copy E other h = Ok v h' →
     elements (mkState v h') = Some ys ∧
     Size v = Size other ∧ Capacity v = Size other ∧
     well_formed E (mkState v h') ∧
     (∀ a, owns v a → ¬ owns other a) ∧
     elements (mkState other h') = Some ys ∧ well_formed E (mkState other h')) ∧
  (∀ h', Vector_copy E other h = Throw h' →
     same_blocks h h' ∧
     elements (mkState other h') = Some ys ∧ well_formed E (mkState other h')) ∧
  (can_alloc E (Size other * sizeof_T E) = true →
   none_throws (copy_throws E) ys = true →
   ∃ v h', Vector_copy E other h = Ok v h').
Proof.
  intros Hsane Hwf Hel.
  pose proof (well_formed_elements E _ ys Hwf Hel) as Hh. cbn [this mem] in Hh.
  assert (size_ other = Z.of_nat (length ys)) as Hsz by apply Hh.
  assert (size_ other ≤ Capacity other) as Hle by apply Hh.
  assert (Capacity other * sizeof_T E ≤ PTRDIFF_MAX) as Hbytes by apply Hh.
  assert (∀ k, holds E (h ++ k) other ys) as Hframe.
  { intros k. apply (holds_frame E h); [done|]. intros a Ha.
    apply get_block_app_lt. by apply (holds_owned E h other ys). }
  destruct (Vector_copy_spec E Hsane h other ys Hh) as [Hnil Hcons].
  unfold Size. rewrite Hsz.
  destruct ys as [|y ys].
  { rewrite Hnil by done. split; [|split; [discriminate|by eauto]].
    intros v h' [= <- <-]. pose proof (holds_default E h) as Hd.
    split; [by apply (holds_elements E)|]. repeat split; try done.
    by apply (holds_well_formed E h _ []). }
  rewrite Hcons by done.
  destruct (can_alloc E _) eqn:Hgrant; cycle 1.
  { split; [discriminate|]. split; [|discriminate].
    intros h' [= <-]. by split. }
  destruct (none_throws (copy_throws E) (y :: ys)) eqn:Hall; cycle 1.
  { split; [discriminate|]. split; [|discriminate].
    intros h' [= <-]. split; [intros a; apply get_block_app_freed|].
    split; [by apply (holds_elements E)|by apply (holds_well_formed E _ _ (y :: ys))]. }
  split; [|split; [discriminate|by eauto]].
  intros v h' [= <- <-].
  assert (holds E (h ++ [Some (block_of (y :: ys) (length (y :: ys)))])
            (vec (mkPtr (Some (length h)) 0) (Z.of_nat (length (y :: ys)))
               (Z.of_nat (length (y :: ys)))) (y :: ys)) as Hnew.
  { apply (holds_vec E); [lia|by apply (granted_bound E Hsane)|].
    rewrite Nat2Z.id. apply get_block_app_new. }
  split; [by apply (holds_elements E)|]. split; [done|]. split; [done|].
  split; [by apply (holds_well_formed E _ _ (y :: ys))|].
  split.
  - intros a [= <-] Ha. pose proof (holds_owned E h other (y :: ys) _ Hh Ha). lia.
  - split; [by apply (holds_elements E)|by apply (holds_well_formed E _ _ (y :: ys))].
Qed.

Lemma Vector_copy_correct_witness :
  sane int_traits ∧ well_formed int_traits three_ints ∧
  elements three_ints = Some [1; 2; 3] ∧
  ∃ v h', Vector_copy int_traits (this three_ints) (mem three_ints) = Ok v h' ∧
          elements (mkState v h') = Some [1; 2; 3] ∧ Capacity v = 3 ∧
          Capacity (this three_ints) = 4.
Proof.
  split; [apply int_traits_sane|]. split; [apply three_ints_well_formed|].
  split; [reflexivity|].
  destruct (Vector_copy_correct int_traits (mem three_ints) (this three_ints) [1; 2; 3]
              int_traits_sane three_ints_well_formed eq_refl) as (Hpost & _ & Hret).
  destruct (Hret eq_refl eq_refl) as (v & h' & HR).
  exists v, h'. split; [done|].
  destruct (Hpost v h' HR) as (Hel & _ & Hcap & _). by repeat split.
Defined.

(** X8. The destructor of a container returns; it leaves the block of the
    container freed and every other block as it was.  Running it a second
    time on a container that had a buffer is undefined: the block is read or
    freed again. *)
Theorem Vector_destroy_correct {T} (E : Traits T) (h : Heap T) (v : Vector) (xs : list T) :
  well_formed E (mkState v h) → elements (mkState v h) = Some xs →
  ∃ h', Vector_destroy v h = Ok tt h' ∧
        length h' = length h ∧
        (∀ a, owns v a → is_Some (get_block h a) ∧ get_block h' a = None) ∧
        (∀ a, ¬ owns v a → get_block h' a = get_block h a) ∧
        (∀ a, owns v a → Vector_destroy v h' = Undefined).
Proof.
  intros Hwf Hel.
  pose proof (well_formed_elements E _ xs Hwf Hel) as Hh. cbn [this mem] in Hh.
  exists (free (buffer_ (data_ v)) h). split; [by apply (Vector_destroy_holds E h v xs)|].
  destruct (holds_inv E h v xs Hh) as (b & cap & -> & Hle & Hbytes & Hblk).
  unfold owns, free. cbn [vec data_ buffer_ base].
  destruct b as [a0|]; [|by repeat split].
  split; [by rewrite length_insert|]. split; [|split].
  - intros a [= <-]. split; [by eexists|apply get_block_free_eq].
  - intros a Hne. apply get_block_free_ne. congruence.
  - intros a [= <-]. unfold Vector_destroy, destroy_n, begin, GetAddress.
    cbn [vec data_ buffer_ size_]. rewrite Nat2Z.id.
    destruct xs as [|x xs]; simpl.
    + unfold bind, ret, RawMemory_destroy, Deallocate, operator_delete. simpl.
      by rewrite get_block_free_eq.
    + unfold bind, destroy_at, bind, load, slot_at. simpl.
      by rewrite get_block_free_eq.
Qed.

Lemma Vector_destroy_correct_witness :
  well_formed int_traits three_ints ∧ elements three_ints = Some [1; 2; 3] ∧
  Vector_destroy (this three_ints) (mem three_ints) = Ok tt [None; None; None] ∧
  Vector_destroy (this three_ints) ([None; None; None] : Heap Z) = Undefined.
Proof.
  split; [apply three_ints_well_formed|]. split; [reflexivity|].
  destruct (Vector_destroy_correct int_traits (mem three_ints) (this three_ints) [1; 2; 3]
              three_ints_well_formed eq_refl) as (h' & HR & _ & _ & _ & Htwice).
  assert (h' = [None; None; None]) as -> by (vm_compute in HR; by injection HR).
  split; [exact HR|]. by apply (Htwice 2%nat).
Defined.

(** ** Move construction, Swap and move assignment *)

Section Exchange.

Context {T : Type}.
Implicit Types (w : World T) (v : Vector).

Lemma mkVector_eta v : mkVector (data_ v) (size_ v) = v.
Proof. by destruct v. Qed.

Lemma Swap_objects_exchanges w a b va vb :
  objects w !! a = Some va → objects w !! b = Some vb →
  Swap_objects a b w = Ok tt (mkWorld (<[b := va]> (<[a := vb]> (objects w))) (heap w)).
Proof.
  intros Ha Hb. unfold Swap_objects, bind, object, at_object, Swap, set_object.
  rewrite Hb, Ha. cbn [RawMemory_Swap this mem objects heap].
  by rewrite !mkVector_eta.
Qed.

Lemma exchanged_lookup (objs : list Vector) a b va vb :
  objs !! a = Some va → objs !! b = Some vb →
  <[b := va]> (<[a := vb]> objs) !! b = Some va ∧
  (a ≠ b → <[b := va]> (<[a := vb]> objs) !! a = Some vb) ∧
  (∀ j, j ≠ a → j ≠ b → <[b := va]> (<[a := vb]> objs) !! j = objs !! j).
Proof.
  intros Ha Hb.
  assert (a < length objs)%nat by (by eapply lookup_lt_Some).
  assert (b < length objs)%nat by (by eapply lookup_lt_Some).
  split; [|split].
  - apply list_lookup_insert_eq. by rewrite length_insert.
  - intros Hne. rewrite list_lookup_insert_ne by done. by apply list_lookup_insert_eq.
  - intros j Hja Hjb. by rewrite !list_lookup_insert_ne by done.
Qed.

Lemma exchanged_twice (objs : list Vector) a b va vb :
  objs !! a = Some va → objs !! b = Some vb →
  <[b := vb]> (<[a := va]> (<[b := va]> (<[a := vb]> objs))) = objs.
Proof.
  intros Ha Hb.
  assert (a < length objs)%nat by (by eapply lookup_lt_Some).
  assert (b < length objs)%nat by (by eapply lookup_lt_Some).
  apply list_eq. intros j.
  destruct (decide (j = b)) as [->|Hjb].
  - rewrite list_lookup_insert_eq by (by rewrite !length_insert). done.
  - rewrite list_lookup_insert_ne by done.
    destruct (decide (j = a)) as [->|Hja].
    + rewrite list_lookup_insert_eq by (by rewrite !length_insert). done.
    + by rewrite !list_lookup_insert_ne by done.
Qed.

End Exchange.

(** X9. [a.Swap(b)] for two containers returns, allocates and frees nothing,
    and exchanges them: [a] has the buffer, size and capacity that [b] had
    and [b] those that [a] had, every other container is as it was; a second
    [a.Swap(b)] restores the program as it was. *)
Theorem Swap_exchanges {T} (w : World T) (a b : nat) (va vb : Vector) :
  objects w !! a = Some va → objects w !! b = Some vb → a ≠ b →
  ∃ w', Swap_objects a b w = Ok tt w' ∧
        heap w' = heap w ∧
        objects w' !! a = Some vb ∧ objects w' !! b = Some va ∧
        (∀ j, j ≠ a → j ≠ b → objects w' !! j = objects w !! j) ∧
        Swap_objects a b w' = Ok tt w.
Proof.
  intros Ha Hb Hne.
  destruct (exchanged_lookup (objects w) a b va vb Ha Hb) as (Hb' & Ha' & Hrest).
  eexists. split; [by apply Swap_objects_exchanges|]. cbn [objects heap].
  split; [done|]. split; [by apply Ha'|]. split; [done|]. split; [done|].
  rewrite (Swap_objects_exchanges _ a b vb va) by (cbn [objects]; auto).
  cbn [objects heap]. rewrite exchanged_twice by done. by destruct w.
Qed.

Definition two_containers : World Z :=
  mkWorld [vec (mkPtr (Some 0%nat) 0) 1 1; vec (mkPtr (Some 2%nat) 0) 4 3]
          [Some [Some 5]; None; Some [Some 1; Some 2; Some 3; None]].

Lemma Swap_exchanges_witness :
  ∃ w', Swap_objects 0 1 two_containers = Ok tt w' ∧
        elements (mkState (vec (mkPtr (Some 2%nat) 0) 4 3) (heap w')) = Some [1; 2; 3] ∧
        objects w' !! 0%nat = Some (vec (mkPtr (Some 2%nat) 0) 4 3) ∧
        objects w' !! 1%nat = Some (vec (mkPtr (Some 0%nat) 0) 1 1).
Proof.
  destruct (Swap_exchanges two_containers 0 1 _ _ eq_refl eq_refl ltac:(lia))
    as (w' & HR & Hheap & Ha & Hb & _).
  exists w'. rewrite Hheap. by repeat split.
Defined.

(** X10. The move assignment from another container returns and exchanges
    the two containers: the target has what [rhs] had, and [rhs] is left
    with the elements, size and capacity the target had, not empty; no
    element is destroyed and nothing is allocated or freed. *)
Theorem move_assign_exchanges {T} (w : World T) (this_ rhs : nat) (v r : Vector) :
  objects w !! this_ = Some v → objects w !! rhs = Some r → this_ ≠ rhs →
  ∃ w', move_assign this_ rhs w = Ok tt w' ∧
        heap w' = heap w ∧
        objects w' !! this_ = Some r ∧ objects w' !! rhs = Some v ∧
        (∀ j, j ≠ this_ → j ≠ rhs → objects w' !! j = objects w !! j).
Proof.
  intros Hv Hr Hne.
  destruct (exchanged_lookup (objects w) this_ rhs v r Hv Hr) as (Hr' & Hv' & Hrest).
  eexists. split.
  - unfold move_assign. apply noexcept_Ok.
    rewrite (proj2 (Nat.eqb_neq this_ rhs)) by done. cbn [negb].
    by apply Swap_objects_exchanges.
  - cbn [objects heap]. split; [done|]. split; [by apply Hv'|]. by split.
Qed.

Lemma move_assign_exchanges_witness :
  ∃ w', move_assign 0 1 two_containers = Ok tt w' ∧
        objects w' !! 1%nat = Some (vec (mkPtr (Some 0%nat) 0) 1 1) ∧
        elements (mkState (vec (mkPtr (Some 0%nat) 0) 1 1) (heap w')) = Some [5].
Proof.
  destruct (move_assign_exchanges two_containers 0 1 _ _ eq_refl eq_refl ltac:(lia))
    as (w' & HR & Hheap & _ & Hb & _).
  exists w'. rewrite Hheap. by repeat split.
Defined.

(** X11. The move constructor returns, allocates nothing and moves no
    element: the new container takes the buffer, size and capacity of
    [other], and [other] is left as a default-constructed container (size 0,
    capacity 0, no buffer); the other containers are as they were and the
    program stays well formed. *)
Theorem construct_move_correct {T} (E : Traits T) (w : World T) (other : nat) (o : Vector) :
  World_wf E w → objects w !! other = Some o →
  ∃ w', construct_move other w = Ok (length (objects w)) w' ∧
        heap w' = heap w ∧
        objects w' !! length (objects w) = Some o ∧
        objects w' !! other = Some Vector_default ∧
        (∀ j, j ≠ other → (j < length (objects w))%nat →
              objects w' !! j = objects w !! j) ∧
        World_wf E w'.
Proof.
  intros Hwf Ho.
  assert (other < length (objects w))%nat as Hlt by (by eapply lookup_lt_Some).
  assert (construct_move other w
          = Ok (length (objects w))
               (mkWorld (<[other := Vector_default]> (objects w) ++ [o]) (heap w))) as HR.
  { unfold construct_move, bind, object. rewrite Ho. destruct o as [[b c] s].
    unfold Vector_move, RawMemory_move, set_object, new_object.
    cbn [data_ size_ buffer_ capacity_ objects heap]. by rewrite length_insert. }
  eexists. split; [exact HR|]. cbn [objects heap].
  split; [done|]. split; [|split; [|split]].
  - rewrite lookup_app_r by (by rewrite length_insert).
    by rewrite length_insert, Nat.sub_diag.
  - rewrite lookup_app_l by (by rewrite length_insert).
    by apply list_lookup_insert_eq.
  - intros j Hne Hj. rewrite lookup_app_l by (by rewrite length_insert).
    by apply list_lookup_insert_ne.
  - by apply (construct_move_wf E w other _ _ Hwf HR).
Qed.

Lemma two_containers_wf : World_wf int_traits two_containers.
Proof.
  split.
  - intros [|[|i]] v Hi; try (by destruct i); injection Hi as <-;
      (split; [reflexivity|by vm_compute]).
  - intros [|[|i]] [|[|j]] vi vj a Hi Hj; try (by destruct i); try (by destruct j);
      injection Hi as <-; injection Hj as <-; intros [= <-]; try done; discriminate.
Qed.

Lemma construct_move_correct_witness :
  World_wf int_traits two_containers ∧
  ∃ w', construct_move 1 two_containers = Ok 2%nat w' ∧
        objects w' !! 2%nat = Some (vec (mkPtr (Some 2%nat) 0) 4 3) ∧
        objects w' !! 1%nat = Some Vector_default.
Proof.
  split; [apply two_containers_wf|].
  destruct (construct_move_correct int_traits two_containers 1 _ two_containers_wf eq_refl)
    as (w' & HR & _ & Hnew & Hold & _).
  by exists w'.
Defined.

(** ** What a throwing call leaves behind *)

Lemma bind_Throw {S A B} (m : M S A) (k : A → M S B) s s' :
  m s = Throw s' → bind m k s = Throw s'.
Proof. unfold bind. by intros ->. Qed.

Lemma bind_Throw_inv {S A B} (m : M S A) (k : A → M S B) s s' :
  bind m k s = Throw s' →
  m s = Throw s' ∨ ∃ a s1, m s = Ok a s1 ∧ k a s1 = Throw s'.
Proof.
  unfold bind. destruct (m s) as [a s1|s1| |]; try discriminate.
  - right. by exists a, s1.
  - intros [= ->]. by left.
Qed.

Section Guarantees.

Context {T : Type} (E : Traits T).
Hypothesis Hsane : sane E.
Implicit Types (h : Heap T) (v : Vector) (xs : list T) (st : State T).

(** Relocation cannot change the elements it reads: it copies them, or it
    moves them and moving does not throw. *)
Definition relocation_is_safe : Prop :=
  relocates_by_move E = false ∨ ∀ x, move_throws E x = false.

Lemma Reserve_alloc_fails h v xs n :
  holds E h v xs → Capacity v < n → n * sizeof_T E < SIZE_MOD →
  can_alloc E (n * sizeof_T E) = false →
  Reserve E n (mkState v h) = Throw (mkState v h).
Proof.
  intros Hh Hlt Hfit Hc.
  assert (0 ≤ Capacity v) as Hcap.
  { assert (size_ v ≤ Capacity v) by apply Hh.
    assert (size_ v = Z.of_nat (length xs)) by apply Hh. lia. }
  pose proof (RawMemory_sized_pos E Hsane n h ltac:(lia) Hfit) as Halloc.
  rewrite Hc in Halloc.
  unfold Reserve. step by reflexivity.
  rewrite (proj2 (Z.leb_gt _ _) Hlt).
  apply bind_Throw. by apply on_heap_Throw.
Qed.

Lemma Reserve_copy_throws h v xs n :
  holds E h v xs → Capacity v < n → n * sizeof_T E < SIZE_MOD →
  can_alloc E (n * sizeof_T E) = true → relocates_by_move E = false →
  none_throws (copy_throws E) xs = false →
  Reserve E n (mkState v h) = Throw (mkState v (h ++ [None])).
Proof.
  intros Hh Hlt Hfit Hc Hcopy Hall.
  destruct (holds_inv E h v xs Hh) as (b & cap & -> & Hle & Hbytes & Hblk).
  unfold Capacity in Hlt. cbn [vec data_ capacity_] in Hlt.
  pose proof (RawMemory_sized_pos E Hsane n h ltac:(lia) Hfit) as Halloc.
  rewrite Hc in Halloc.
  destruct b as [a|]; cycle 1.
  { destruct Hblk as [_ ->]. discriminate. }
  assert (a < length h)%nat as Ha by (by eapply get_block_lt).
  set (h1 := h ++ [Some (replicate (Z.to_nat n) None)]).
  assert (uninitialized_copy_n E (mkPtr (Some a) 0) (Z.of_nat (length xs))
            (mkPtr (Some (length h)) 0) h1 = Throw h1) as Hthrow.
  { apply (uninitialized_copy_n_Throw E h1 _ _ a (length h) 0 0
             (block_of xs (Z.to_nat cap)) (replicate (Z.to_nat n) None) xs);
      try done.
    - lia.
    - by apply get_block_app_l.
    - apply get_block_app_new.
    - intros k x Hk. by apply block_of_live.
    - rewrite length_replicate. lia.
    - intros k Hk. apply lookup_replicate_2. lia. }
  unfold Reserve. step by reflexivity.
  unfold Capacity. cbn [vec data_ capacity_ size_].
  rewrite (proj2 (Z.leb_gt _ _) Hlt).
  step by (by apply on_heap_Ok, Halloc).
  apply bind_Throw. unfold try_catch_rethrow.
  rewrite (bind_Throw _ _ _ (mkState (vec (mkPtr (Some a) 0) cap (Z.of_nat (length xs))) h1)).
  - unfold on_heap, RawMemory_destroy, Deallocate. cbn [mem this buffer_].
    rewrite (operator_delete_block h1 (length h) (replicate (Z.to_nat n) None))
      by apply get_block_app_new.
    unfold h1. by rewrite free_new.
  - rewrite FillNewData_relocate. apply on_heap_Throw. cbn [this mem].
    unfold relocate. rewrite Hcopy. exact Hthrow.
Qed.

(** [Reserve] that throws, for a request that needs new storage. *)
Lemma Reserve_throws h v xs n st' :
  holds E h v xs → 0 ≤ n → n * sizeof_T E < SIZE_MOD → relocation_is_safe →
  Reserve E n (mkState v h) = Throw st' →
  st' = mkState v h ∨ st' = mkState v (h ++ [None]).
Proof.
  intros Hh Hn Hfit Hsafe HR.
  destruct (Z.le_gt_cases n (Capacity v)) as [Hle|Hgt].
  { rewrite Reserve_noop in HR by done. discriminate. }
  destruct (can_alloc E (n * sizeof_T E)) eqn:Hc; cycle 1.
  { rewrite (Reserve_alloc_fails h v xs n) in HR by done. left. by injection HR. }
  destruct (none_throws (relocate_throws E) xs) eqn:Hall.
  { destruct (Reserve_grow E Hsane h v xs n Hh Hgt Hfit) as [Hok _].
    rewrite Hok in HR by (by rewrite Hc, Hall). discriminate. }
  destruct Hsafe as [Hcopy|Hmove].
  - unfold relocate_throws in Hall. rewrite Hcopy in Hall.
    rewrite (Reserve_copy_throws h v xs n) in HR by done. right. by injection HR.
  - unfold relocate_throws in Hall. destruct (relocates_by_move E) eqn:Hb.
    + by rewrite none_throws_never in Hall.
    + rewrite (Reserve_copy_throws h v xs n) in HR by done. right. by injection HR.
Qed.

Lemma holds_app_freed h v xs : holds E h v xs → holds E (h ++ [None]) v xs.
Proof.
  intros Hh. apply (holds_frame E h); [done|]. intros a _. apply get_block_app_freed.
Qed.

End Guarantees.

(** X12. [Reserve] has the strong exception guarantee when relocation copies
    the elements, or moves them with a move constructor that does not throw:
    if the allocation fails or a copy throws part way, the container has the
    buffer, size, capacity and elements it had, and the free store has the
    live blocks it had (the new block is released, the copies made so far
    are destroyed). *)
Theorem Reserve_strong_guarantee {T} (E : Traits T) (st st' : State T) (xs : list T)
    (n : Z) :
  sane E → well_formed E st → elements st = Some xs →
  0 ≤ n → n * sizeof_T E < SIZE_MOD → relocation_is_safe E →
  Reserve E n st = Throw st' →
  this st' = this st ∧ elements st' = Some xs ∧ well_formed E st' ∧
  same_blocks (mem st) (mem st').
Proof.
  intros Hsane Hwf Hel Hn Hfit Hsafe HR.
  pose proof (well_formed_elements E st xs Hwf Hel) as Hh.
  destruct st as [v h]. cbn [this mem] in *.
  destruct (Reserve_throws E Hsane h v xs n st' Hh Hn Hfit Hsafe HR) as [-> | ->];
    cbn [this mem].
  - split; [done|]. split; [done|]. split; [done|]. by intros a.
  - pose proof (holds_app_freed E h v xs Hh) as Hh'.
    split; [done|]. split; [by apply (holds_elements E)|].
    split; [by apply (holds_well_formed E _ _ xs)|].
    intros a. apply get_block_app_freed.
Qed.

(** [throwing_traits] with relocation by copy. *)
Definition copying_traits : Traits Z := with_relocation throwing_traits false.

Lemma copying_traits_sane : sane copying_traits.
Proof.
  split; [by vm_compute|]. intros bytes H. simpl in H.
  apply andb_true_iff in H as [H1 H2]. lia.
Qed.

Definition five_thirteen : State Z :=
  mkState (vec (mkPtr (Some 0%nat) 0) 2 2) [Some [Some 5; Some 13]].

Lemma five_thirteen_well_formed : well_formed copying_traits five_thirteen.
Proof. split; [reflexivity|]. by vm_compute. Qed.

Lemma Reserve_strong_guarantee_witness :
  sane copying_traits ∧ well_formed copying_traits five_thirteen ∧
  elements five_thirteen = Some [5; 13] ∧
  0 ≤ 4 ∧ 4 * sizeof_T copying_traits < SIZE_MOD ∧ relocation_is_safe copying_traits ∧
  ∃ st', Reserve copying_traits 4 five_thirteen = Throw st' ∧
         this st' = this five_thirteen ∧ elements st' = Some [5; 13].
Proof.
  assert (relocation_is_safe copying_traits) as Hsafe by (by left).
  split; [apply copying_traits_sane|]. split; [apply five_thirteen_well_formed|].
  split; [reflexivity|]. split; [lia|]. split; [reflexivity|]. split; [exact Hsafe|].
  eexists.
  destruct (Reserve_strong_guarantee copying_traits five_thirteen _ [5; 13] 4
              copying_traits_sane five_thirteen_well_formed eq_refl ltac:(lia) eq_refl
              Hsafe eq_refl) as (Hthis & Hel & _).
  split; [reflexivity|]. by split.
Defined.

Section ResizeGuarantee.

Context {T : Type} (E : Traits T).
Hypothesis Hsane : sane E.
Implicit Types (h : Heap T) (v : Vector) (xs : list T) (st : State T).

Lemma Resize_growing v h n :
  size_ v ≤ n → Capacity v < n →
  Resize E n (mkState v h)
  = (Reserve E (Z.max (wrap (Capacity v * 2)) n);;
     (let* v := get_this in
      on_heap (uninitialized_value_construct_n E (end_ v) (wrap (n - size_ v))));;
     set_size n) (mkState v h).
Proof.
  intros Hge Hgt. unfold Resize. step by reflexivity.
  rewrite (proj2 (Z.ltb_ge n (size_ v))) by done.
  rewrite (proj2 (Z.ltb_lt (Capacity v) n)) by done.
  by rewrite !bind_assoc.
Qed.

(** [Resize] that throws: the container is as it was, or it has moved to
    the larger storage with its elements. *)
Lemma Resize_throws h v xs n st' :
  holds E h v xs → 0 ≤ n → n * sizeof_T E < SIZE_MOD → relocation_is_safe E →
  Resize E n (mkState v h) = Throw st' →
  st' = mkState v h ∨ st' = mkState v (h ++ [None]) ∨
  (Capacity v < n ∧
   st' = reallocated h v xs (Z.max (Capacity v * 2) n) ∧
   Z.max (Capacity v * 2) n * sizeof_T E ≤ PTRDIFF_MAX).
Proof.
  intros Hh Hn Hfit Hsafe HR.
  assert (size_ v = Z.of_nat (length xs)) as Hsz by apply Hh.
  assert (size_ v ≤ Capacity v) as Hle by apply Hh.
  assert (Capacity v * sizeof_T E ≤ PTRDIFF_MAX) as Hbytes by apply Hh.
  destruct (capacity_bound E Hsane (Capacity v)) as (Hc1 & Hc2 & Hc3); [lia|done|].
  destruct (Z.lt_ge_cases n (size_ v)) as [Hlt|Hge].
  { rewrite (Resize_shrink E Hsane h v xs n Hh) in HR by lia. discriminate. }
  destruct (Z.le_gt_cases n (Capacity v)) as [Hin|Hout].
  { destruct (Resize_within E Hsane h v xs n Hh ltac:(lia)) as [Hok Hthrow].
    destruct (value_init E) as [v0|] eqn:Hv0.
    - rewrite Hok in HR by (left; by eexists). discriminate.
    - destruct (decide (n = size_ v)) as [Heq|Hne].
      + rewrite Hok in HR by (by right). discriminate.
      + rewrite Hthrow in HR by (done || lia). left. by injection HR. }
  set (n' := Z.max (Capacity v * 2) n).
  assert (n' * sizeof_T E < SIZE_MOD) as Hfit'.
  { unfold n'. destruct (Z.max_spec (Capacity v * 2) n) as [[_ ->]|[_ ->]]; lia. }
  rewrite Resize_growing in HR by lia.
  rewrite (wrap_small (Capacity v * 2)) in HR by lia. fold n' in HR.
  apply bind_Throw_inv in HR as [HR|([] & s1 & HR & Hrest)].
  { destruct (Reserve_throws E Hsane h v xs n' st' Hh ltac:(lia) Hfit' Hsafe HR)
      as [-> | ->]; auto. }
  destruct (Reserve_inv E Hsane h v xs n' s1 Hh ltac:(lia) Hfit' HR)
    as [[Hle' _]|(_ & Hgrant & Hall & ->)]; [lia|].
  right. right. split; [done|]. split; [|by apply (granted_bound E Hsane)].
  apply bind_Throw_inv in Hrest as [Hrest|(r & s2 & _ & Hset)]; [|discriminate].
  destruct (value_init E) as [v0|] eqn:Hv0.
  - exfalso. destruct (Resize_grow E Hsane h v xs n Hh Hout Hfit) as [Hok _].
    fold n' in Hok. rewrite Hv0, Hgrant, Hall in Hok. specialize (Hok eq_refl).
    rewrite Resize_growing in Hok by lia.
    rewrite (wrap_small (Capacity v * 2)) in Hok by lia. fold n' in Hok.
    rewrite bind_Ok with (a := tt) (s' := reallocated h v xs n') in Hok by exact HR.
    by rewrite (bind_Throw _ _ _ _ Hrest) in Hok.
  - pose proof (count_fits E Hsane n Hn Hfit) as Hcount.
    unfold bind, get_this, on_heap in Hrest.
    cbn [this mem reallocated size_ vec] in Hrest.
    replace (wrap (n - Z.of_nat (length xs)))
      with (Z.of_nat (Z.to_nat (n - Z.of_nat (length xs)))) in Hrest
      by (rewrite wrap_small; lia).
    rewrite uninitialized_value_construct_n_Throw in Hrest by (done || lia).
    by injection Hrest as <-.
Qed.

End ResizeGuarantee.

(** X13. [Resize] that throws (the allocation fails, a copy throws during
    relocation, or [T()] throws) leaves the container with the elements and
    the size it had, when relocation copies or its moves do not throw: the
    objects value-constructed so far are destroyed.  When the new size fits
    the capacity the whole state is as it was; otherwise the capacity may
    have grown. *)
Theorem Resize_exception_guarantee {T} (E : Traits T) (st st' : State T) (xs : list T)
    (n : Z) :
  sane E → well_formed E st → elements st = Some xs →
  0 ≤ n → n * sizeof_T E < SIZE_MOD → relocation_is_safe E →
  Resize E n st = Throw st' →
  elements st' = Some xs ∧
  Size (this st') = Size (this st) ∧
  Capacity (this st) ≤ Capacity (this st') ∧
  well_formed E st' ∧
  (n ≤ Capacity (this st) → st' = st).
Proof.
  intros Hsane Hwf Hel Hn Hfit Hsafe HR.
  pose proof (well_formed_elements E st xs Hwf Hel) as Hh.
  destruct st as [v h]. cbn [this mem] in *.
  assert (size_ v = Z.of_nat (length xs)) as Hsz by apply Hh.
  assert (size_ v ≤ Capacity v) as Hle by apply Hh.
  destruct (Resize_throws E Hsane h v xs n st' Hh Hn Hfit Hsafe HR)
    as [-> | [-> | (Hout & -> & Hbytes)]]; cbn [this mem].
  - split; [done|]. split; [done|]. split; [lia|]. by split.
  - pose proof (holds_app_freed E h v xs Hh) as Hh'.
    split; [by apply (holds_elements E)|]. split; [done|]. split; [lia|].
    split; [by apply (holds_well_formed E _ _ xs)|].
    intros Hin. exfalso.
    destruct (Z.lt_ge_cases n (size_ v)) as [Hlt|Hge].
    + rewrite (Resize_shrink E Hsane h v xs n Hh) in HR by lia. discriminate.
    + destruct (Resize_within E Hsane h v xs n Hh ltac:(lia)) as [Hok Hthrow].
      destruct (value_init E) as [v0|] eqn:Hv0.
      * rewrite Hok in HR by (left; by eexists). discriminate.
      * destruct (decide (n = size_ v)) as [Heq|Hne].
        -- rewrite Hok in HR by (by right). discriminate.
        -- rewrite Hthrow in HR by (done || lia). injection HR as Habs.
           apply (f_equal length) in Habs. rewrite length_app in Habs. simpl in Habs. lia.
  - destruct (reallocated_facts E h v xs xs (Z.max (Capacity v * 2) n) Hh)
      as (Hc & Hs & He & Hw); [lia|done|].
    split; [done|]. split; [unfold Size in *; lia|]. split; [lia|]. split; [done|lia].
Qed.

(** An element type without a default constructor that returns: [T()]
    throws. *)
Definition no_default_traits : Traits Z :=
  {| sizeof_T := 4;
     can_alloc := λ bytes, (0 <=? bytes) && (bytes <=? PTRDIFF_MAX);
     value_init := None;
     copy_throws := λ _, false;
     move_throws := λ _, false;
     copy_assign_throws := λ _, false;
     move_assign_throws := λ _, false;
     moved_from := λ x, x;
     is_nothrow_move_constructible := true;
     is_copy_constructible := true;
     is_nothrow_move_assignable := true |}.

Lemma no_default_traits_sane : sane no_default_traits.
Proof.
  split; [by vm_compute|]. intros bytes H. simpl in H.
  apply andb_true_iff in H as [H1 H2]. lia.
Qed.

Lemma Resize_exception_guarantee_witness :
  sane no_default_traits ∧ well_formed no_default_traits one_int ∧
  elements one_int = Some [5] ∧ 0 ≤ 3 ∧ 3 * sizeof_T no_default_traits < SIZE_MOD ∧
  relocation_is_safe no_default_traits ∧
  ∃ st', Resize no_default_traits 3 one_int = Throw st' ∧
         elements st' = Some [5] ∧ Size (this st') = 1 ∧ Capacity (this st') = 3.
Proof.
  assert (well_formed no_default_traits one_int) as Hwf
    by (split; [reflexivity|by vm_compute]).
  assert (relocation_is_safe no_default_traits) as Hsafe by (by right).
  split; [apply no_default_traits_sane|]. split; [exact Hwf|].
  split; [reflexivity|]. split; [lia|]. split; [reflexivity|]. split; [exact Hsafe|].
  eexists.
  destruct (Resize_exception_guarantee no_default_traits one_int _ [5] 3
              no_default_traits_sane Hwf eq_refl ltac:(lia) eq_refl Hsafe eq_refl)
    as (Hel & Hs & _).
  split; [reflexivity|]. split; [exact Hel|]. split; [exact Hs|reflexivity].
Defined.

(** ** The copy assignment when it returns, and when it throws *)

Section CopyAssignment.

Context {T : Type} (E : Traits T).
Hypothesis Hsane : sane E.
Implicit Types (h : Heap T) (v rhs : Vector) (xs ys : list T) (st : State T).

Lemma copy_assign_from_inv h v rhs xs ys st' :
  holds E h v xs → holds E h rhs ys → (∀ a, owns v a → ¬ owns rhs a) →
  copy_assign_from E rhs (mkState v h) = Ok tt st' →
  (Capacity v < size_ rhs ∧ st' = reallocated h v ys (Z.of_nat (length ys)) ∧
   Z.of_nat (length ys) * sizeof_T E ≤ PTRDIFF_MAX) ∨
  (size_ rhs ≤ Capacity v ∧ st' = updated h v ys).
Proof.
  intros Hh Hr Hsep HR.
  assert (size_ rhs = Z.of_nat (length ys)) as Hszr by apply Hr.
  destruct (Z.lt_ge_cases (Capacity v) (size_ rhs)) as [Hlt|Hfits].
  - rewrite (copy_assign_realloc E Hsane h v rhs xs ys Hh Hr Hlt) in HR.
    destruct (can_alloc E _) eqn:Hgrant; [|discriminate].
    destruct (none_throws _ _); [|discriminate]. injection HR as <-.
    left. split; [done|]. split; [done|]. by apply (granted_bound E Hsane).
  - right. split; [lia|].
    destruct (base (buffer_ (data_ v))) as [a'|] eqn:Hb; cycle 1.
    { pose proof (copy_assign_into_null E h v rhs xs ys Hh Hr Hb ltac:(lia)) as Hfail.
      rewrite HR in Hfail. discriminate. }
    destruct (base (buffer_ (data_ rhs))) as [a|] eqn:Hbr; cycle 1.
    { destruct (copy_assign_from_null E Hsane h v rhs xs ys Hh Hr Hbr) as [Hok Hfail].
      assert (ys = []) as ->.
      { destruct (holds_inv E h rhs ys Hr) as (br & capr & -> & _ & _ & Hblk).
        cbn [vec data_ buffer_ base] in Hbr. subst br. apply Hblk. }
      destruct xs as [|x xs].
      - rewrite HR in Hfail. specialize (Hfail eq_refl). discriminate.
      - rewrite Hok in HR by done. by injection HR. }
    assert (a ≠ a') as Hne.
    { intros ->. by apply (Hsep a'). }
    destruct (copy_assign_in_place E Hsane h v rhs xs ys a a' Hh Hr Hb Hbr Hne ltac:(lia))
      as [Hok Hfail].
    by destruct (decide_outcome _ _ _ _ Hok Hfail _ _ HR) as (_ & _ & ->).
Qed.

End CopyAssignment.

(** The target of an assignment and its source, in one free store. *)
Definition assignable {T} (E : Traits T) (st : State T) (rhs : Vector) : Prop :=
  well_formed E st ∧ well_formed E (mkState rhs (mem st)) ∧
  ∀ a, owns (this st) a → ¬ owns rhs a.

(** X14. The copy assignment from another container, when it returns, gives
    the target the elements and the size of [rhs]; the capacity is kept when
    [rhs] fits and becomes the size of [rhs] otherwise; [rhs] is
    unchanged. *)
Theorem copy_assign_copies {T} (E : Traits T) (st st' : State T) (rhs : Vector)
    (xs ys : list T) :
  sane E → assignable E st rhs →
  elements st = Some xs → elements (mkState rhs (mem st)) = Some ys →
  copy_assign_from E rhs st = Ok tt st' →
  elements st' = Some ys ∧
  Size (this st') = Size rhs ∧
  Capacity (this st') = Z.max (Capacity (this st)) (Size rhs) ∧
  well_formed E st' ∧
  elements (mkState rhs (mem st')) = Some ys ∧
  well_formed E (mkState rhs (mem st')).
Proof.
  intros Hsane (Hwf & Hwfr & Hsep) Hel Helr HR.
  pose proof (well_formed_elements E st xs Hwf Hel) as Hh.
  pose proof (well_formed_elements E _ ys Hwfr Helr) as Hr.
  destruct st as [v h]. cbn [this mem] in *.
  assert (size_ rhs = Z.of_nat (length ys)) as Hszr by apply Hr.
  assert (size_ v = Z.of_nat (length xs)) as Hsz by apply Hh.
  assert (size_ v ≤ Capacity v) as Hle by apply Hh.
  assert (step_shape E h v st' → holds E (mem st') rhs ys) as Hframe.
  { intros Hshape. apply (holds_frame E h); [done|]. intros a Ha.
    apply (step_shape_frame E h v); [done|by apply (holds_owned E h rhs ys)|].
    intros Hva. by apply (Hsep a). }
  unfold Size.
  destruct (copy_assign_from_inv E Hsane h v rhs xs ys st' Hh Hr Hsep HR)
    as [(Hlt & -> & Hbytes)|(Hfits & ->)].
  - destruct (reallocated_facts E h v xs ys (Z.of_nat (length ys)) Hh) as (Hc & Hs & He & Hw);
      [lia|done|].
    assert (holds E (mem (reallocated h v ys (Z.of_nat (length ys)))) rhs ys) as Hr'.
    { apply Hframe. right. exists ys, (Z.of_nat (length ys)). by repeat split; try lia. }
    split; [done|]. split; [unfold Size in Hs; lia|]. split; [lia|]. split; [done|].
    split; [by apply (holds_elements E)|by apply (holds_well_formed E _ _ ys)].
  - destruct (updated_facts E h v xs ys Hh) as (Hc & Hs & He & Hw); [lia|].
    assert (holds E (mem (updated h v ys)) rhs ys) as Hr'.
    { apply Hframe. left. exists ys. split; [lia|done]. }
    split; [done|]. split; [unfold Size in Hs; lia|]. split; [lia|]. split; [done|].
    split; [by apply (holds_elements E)|by apply (holds_well_formed E _ _ ys)].
Qed.

Lemma copy_assign_copies_witness :
  let st := mkState (vec (mkPtr (Some 2%nat) 0) 4 3) (heap two_containers) in
  let rhs := vec (mkPtr (Some 0%nat) 0) 1 1 in
  sane int_traits ∧ assignable int_traits st rhs ∧
  elements st = Some [1; 2; 3] ∧ elements (mkState rhs (mem st)) = Some [5] ∧
  ∃ st', copy_assign_from int_traits rhs st = Ok tt st' ∧
         elements st' = Some [5] ∧ Capacity (this st') = 4.
Proof.
  intros st rhs.
  assert (assignable int_traits st rhs) as Hok.
  { split; [split; [reflexivity|by vm_compute]|].
    split; [split; [reflexivity|by vm_compute]|]. by intros a [= <-]. }
  split; [apply int_traits_sane|]. split; [exact Hok|].
  split; [reflexivity|]. split; [reflexivity|].
  eexists.
  destruct (copy_assign_copies int_traits st _ rhs [1; 2; 3] [5] int_traits_sane Hok
              eq_refl eq_refl eq_refl) as (Hel & _ & Hcap & _).
  split; [reflexivity|]. by split.
Defined.

(** X15. The copy assignment from a container that does not fit the
    capacity has the strong exception guarantee: when the allocation fails
    or a copy throws, the target has the buffer, size, capacity and elements
    it had, [rhs] is unchanged, and the free store has the live blocks it
    had. *)
Theorem copy_assign_rollback {T} (E : Traits T) (st st' : State T) (rhs : Vector)
    (xs ys : list T) :
  sane E → well_formed E st → well_formed E (mkState rhs (mem st)) →
  elements st = Some xs → elements (mkState rhs (mem st)) = Some ys →
  Capacity (this st) < Size rhs →
  copy_assign_from E rhs st = Throw st' →
  this st' = this st ∧ elements st' = Some xs ∧ well_formed E st' ∧
  elements (mkState rhs (mem st')) = Some ys ∧
  well_formed E (mkState rhs (mem st')) ∧
  same_blocks (mem st) (mem st').
Proof.
  intros Hsane Hwf Hwfr Hel Helr Hlt HR.
  pose proof (well_formed_elements E st xs Hwf Hel) as Hh.
  pose proof (well_formed_elements E _ ys Hwfr Helr) as Hr.
  destruct st as [v h]. cbn [this mem] in *.
  rewrite (copy_assign_realloc E Hsane h v rhs xs ys Hh Hr Hlt) in HR.
  pose proof (holds_app_freed E h v xs Hh) as Hh'.
  pose proof (holds_app_freed E h rhs ys Hr) as Hr'.
  destruct (can_alloc E _); [destruct (none_throws _ _); [discriminate|]|];
    injection HR as <-; cbn [this mem]; (split; [done|]).
  - split; [by apply (holds_elements E)|]. split; [by apply (holds_well_formed E _ _ xs)|].
    split; [by apply (holds_elements E)|]. split; [by apply (holds_well_formed E _ _ ys)|].
    intros a. apply get_block_app_freed.
  - split; [done|]. split; [done|]. split; [done|]. split; [done|]. by intros a.
Qed.

Lemma throwing_traits_sane : sane throwing_traits.
Proof.
  split; [by vm_compute|]. intros bytes H. simpl in H.
  apply andb_true_iff in H as [H1 H2]. lia.
Qed.

Lemma copy_assign_rollback_witness :
  let st := mkState Vector_default [Some [Some 5; Some 13]] in
  let rhs := vec (mkPtr (Some 0%nat) 0) 2 2 in
  sane throwing_traits ∧ well_formed throwing_traits st ∧
  well_formed throwing_traits (mkState rhs (mem st)) ∧
  elements st = Some [] ∧ elements (mkState rhs (mem st)) = Some [5; 13] ∧
  Capacity (this st) < Size rhs ∧
  ∃ st', copy_assign_from throwing_traits rhs st = Throw st' ∧
         this st' = this st ∧ elements (mkState rhs (mem st')) = Some [5; 13].
Proof.
  intros st rhs.
  assert (well_formed throwing_traits st) as Hwf by (split; [reflexivity|by vm_compute]).
  assert (well_formed throwing_traits (mkState rhs (mem st))) as Hwfr
    by (split; [reflexivity|by vm_compute]).
  split; [apply throwing_traits_sane|]. split; [exact Hwf|]. split; [exact Hwfr|].
  split; [reflexivity|]. split; [reflexivity|]. split; [by vm_compute|].
  eexists.
  destruct (copy_assign_rollback throwing_traits st _ rhs [] [5; 13] throwing_traits_sane
              Hwf Hwfr eq_refl eq_refl ltac:(by vm_compute) eq_refl)
    as (Hthis & _ & _ & Helr & _).
  split; [reflexivity|]. by split.
Defined.

(** ** What an operation does to the program *)

(** The objects an operation may change. *)
Definition writes {T} (op : Op T) : list nat :=
  match op with
  | OpDefault | OpSized _ | OpCopy _ => []
  | OpMove other => [other]
  | OpCopyAssign this_ _ => [this_]
  | OpMoveAssign this_ rhs => [this_; rhs]
  | OpSwap this_ other => [this_; other]
  | OpReserve this_ _ | OpResize this_ _ | OpPopBack this_
  | OpEmplaceBack this_ _ | OpPushBackCopy this_ _ | OpPushBackMove this_ _
  | OpEmplace this_ _ _ | OpInsertCopy this_ _ _ | OpInsertMove this_ _ _
  | OpErase this_ _ => [this_]
  end.

(** The ways in which a returning operation that may change the objects
    [ws] takes a program [w] to the next: nothing changes; one container
    rewrites or replaces its block; a container without storage or with a
    new block is added; a new container takes the storage of another; two
    containers are exchanged. *)
Inductive effect {T} (E : Traits T) (ws : list nat) (w : World T) : World T → Prop :=
| effect_none : effect E ws w w
| effect_member i v st' :
    i ∈ ws → objects w !! i = Some v → step_shape E (heap w) v st' →
    effect E ws w (mkWorld (<[i := this st']> (objects w)) (mem st'))
| effect_default :
    effect E ws w (mkWorld (objects w ++ [Vector_default]) (heap w))
| effect_fresh xs' cap :
    Z.of_nat (length xs') ≤ cap → cap * sizeof_T E ≤ PTRDIFF_MAX →
    effect E ws w
      (mkWorld (objects w ++ [vec (mkPtr (Some (length (heap w))) 0) cap
                                (Z.of_nat (length xs'))])
               (heap w ++ [Some (block_of xs' (Z.to_nat cap))]))
| effect_move other o :
    other ∈ ws → objects w !! other = Some o →
    effect E ws w (mkWorld (<[other := Vector_default]> (objects w) ++ [o]) (heap w))
| effect_swap a b va vb :
    a ∈ ws → b ∈ ws → objects w !! a = Some va → objects w !! b = Some vb →
    effect E ws w (mkWorld (<[b := va]> (<[a := vb]> (objects w))) (heap w)).

Ltac in_list := rewrite ?elem_of_cons; auto.

Section Effects.

Context {T : Type} (E : Traits T).
Hypothesis Hsane : sane E.
Implicit Types (h : Heap T) (v : Vector) (xs : list T) (w : World T) (ws : list nat).

Lemma at_object_effect (m : M (State T) unit) w this_ w' ws :
  World_wf E w → this_ ∈ ws →
  (∀ v xs st', objects w !! this_ = Some v → holds E (heap w) v xs →
               m (mkState v (heap w)) = Ok tt st' → step_shape E (heap w) v st') →
  at_object this_ m w = Ok tt w' → effect E ws w w'.
Proof.
  intros Hwf Hin Hshape HR.
  apply at_object_Ok_inv in HR as (v & st' & Hv & HR & ->).
  destruct (well_formed_holds E _ (proj1 Hwf this_ v Hv)) as [xs Hh]. cbn [this mem] in Hh.
  apply (effect_member E ws w this_ v st'); [done|done|]. by apply (Hshape v xs).
Qed.

Lemma construct_sized_effect w n a w' ws :
  0 ≤ n → n * sizeof_T E < SIZE_MOD →
  construct_sized E n w = Ok a w' → effect E ws w w'.
Proof.
  intros Hn Hfit HR. unfold construct_sized in HR.
  apply bind_Ok_inv in HR as (v & w1 & Hv & Hnew).
  apply on_free_store_Ok_inv in Hv as (h' & Hv & ->).
  injection Hnew as _ <-. cbn [objects heap].
  destruct (Vector_sized_spec E Hsane (heap w) n Hn Hfit) as [Hzero Hpos].
  destruct (decide (n = 0)) as [->|Hne].
  - rewrite Hzero in Hv by done. injection Hv as <- <-. apply effect_default.
  - destruct Hpos as [Hok Hfail]; [lia|].
    destruct (decide_outcome _ _ _ _ Hok Hfail _ _ Hv) as (Hc & -> & ->).
    apply andb_true_iff in Hc as [Hgrant Hinit].
    assert (length (fresh_values E (Z.to_nat n)) = Z.to_nat n) as Hlen.
    { apply length_fresh_values. left. by destruct (value_init E). }
    pose proof (effect_fresh E ws w (fresh_values E (Z.to_nat n)) n) as Hnew.
    rewrite Hlen, Z2Nat.id in Hnew by done. apply Hnew; [lia|].
    by apply (granted_bound E Hsane).
Qed.

Lemma construct_copy_effect w other a w' ws :
  World_wf E w → construct_copy E other w = Ok a w' → effect E ws w w'.
Proof.
  intros Hwf HR. unfold construct_copy in HR.
  apply bind_Ok_inv in HR as (o & w0 & Ho & HR). apply object_Ok_inv in Ho as [Ho ->].
  apply bind_Ok_inv in HR as (v & w1 & Hv & Hnew).
  apply on_free_store_Ok_inv in Hv as (h' & Hv & ->).
  injection Hnew as _ <-. cbn [objects heap].
  destruct (well_formed_holds E _ (proj1 Hwf other o Ho)) as [ys Hh]. cbn [this mem] in Hh.
  destruct (Vector_copy_spec E Hsane (heap w) o ys Hh) as [Hnil Hcons].
  destruct ys as [|y ys].
  - rewrite Hnil in Hv by done. injection Hv as <- <-. apply effect_default.
  - rewrite Hcons in Hv by done.
    destruct (can_alloc E _) eqn:Hgrant; [|discriminate].
    destruct (none_throws _ _); [|discriminate]. injection Hv as <- <-.
    pose proof (effect_fresh E ws w (y :: ys) (Z.of_nat (length (y :: ys)))) as Hnew.
    rewrite Nat2Z.id in Hnew. apply Hnew; [lia|].
    by apply (granted_bound E Hsane).
Qed.

Lemma construct_move_effect w other a w' ws :
  other ∈ ws → construct_move other w = Ok a w' → effect E ws w w'.
Proof.
  intros Hin HR. unfold construct_move in HR.
  apply bind_Ok_inv in HR as (o & w0 & Ho & HR). apply object_Ok_inv in Ho as [Ho ->].
  pose proof (effect_move E ws w other o Hin Ho) as Heff.
  destruct o as [[b cap] sz]. by injection HR as _ <-.
Qed.

Lemma Swap_objects_effect w a b w' ws :
  a ∈ ws → b ∈ ws → Swap_objects a b w = Ok tt w' → effect E ws w w'.
Proof.
  intros Ha Hb HR.
  assert (∃ vb, objects w !! b = Some vb) as [vb Hvb].
  { unfold Swap_objects, bind, object in HR.
    destruct (objects w !! b); [by eexists|discriminate]. }
  assert (∃ va, objects w !! a = Some va) as [va Hva].
  { unfold Swap_objects, bind, object, at_object in HR. rewrite Hvb in HR.
    destruct (objects w !! a); [by eexists|discriminate]. }
  rewrite (Swap_objects_exchanges w a b va vb Hva Hvb) in HR. injection HR as <-.
  by apply effect_swap.
Qed.

Lemma copy_assign_effect w this_ rhs w' ws :
  World_wf E w → this_ ∈ ws → copy_assign E this_ rhs w = Ok tt w' → effect E ws w w'.
Proof.
  intros Hwf Hin HR. unfold copy_assign in HR.
  destruct (Nat.eqb_spec this_ rhs) as [->|Hne]; cbn [negb] in HR.
  { injection HR as <-. apply effect_none. }
  apply bind_Ok_inv in HR as (r & w0 & Hr & HR). apply object_Ok_inv in Hr as [Hr ->].
  apply (at_object_effect (copy_assign_from E r) w this_ w' ws Hwf Hin); [|done].
  intros v xs st' Hv Hh Hm.
  destruct (well_formed_holds E _ (proj1 Hwf rhs r Hr)) as [ys Hhr]. cbn [this mem] in Hhr.
  apply (copy_assign_from_shape E Hsane (heap w) v r xs ys st' Hh Hhr); [|done].
  intros a Ha Har. apply Hne. by apply (proj2 Hwf this_ rhs v r a).
Qed.

Lemma move_assign_effect w this_ rhs w' ws :
  this_ ∈ ws → rhs ∈ ws → move_assign this_ rhs w = Ok tt w' → effect E ws w w'.
Proof.
  intros Ha Hb HR. unfold move_assign in HR. apply noexcept_Ok_inv in HR.
  destruct (negb (this_ =? rhs)%nat).
  - by apply (Swap_objects_effect w this_ rhs).
  - injection HR as <-. apply effect_none.
Qed.

Lemma run_op_effect op w w' :
  World_wf E w → in_range op w → representable E op →
  run_op E op w = Ok tt w' → effect E (writes op) w w'.
Proof.
  intros Hwf Hin Hrep HR.
  destruct op as [|n|other|other|this_ rhs|this_ rhs|this_ other|this_ n|this_ n|this_
                 |this_ c|this_ x|this_ x|this_ p c|this_ p x|this_ p x|this_ p];
    cbn [run_op in_range representable writes] in *.
  - apply bind_Ok_inv in HR as (a & w1 & HR & Hret). injection Hret as <-.
    injection HR as _ <-. apply effect_default.
  - apply bind_Ok_inv in HR as (a & w1 & HR & Hret). injection Hret as <-.
    apply (construct_sized_effect w n a w1); [lia|done|done].
  - apply bind_Ok_inv in HR as (a & w1 & HR & Hret). injection Hret as <-.
    by apply (construct_copy_effect w other a).
  - apply bind_Ok_inv in HR as (a & w1 & HR & Hret). injection Hret as <-.
    apply (construct_move_effect w other a); [in_list|done].
  - apply (copy_assign_effect w this_ rhs); [done|in_list|done].
  - apply (move_assign_effect w this_ rhs); [in_list|in_list|done].
  - apply (Swap_objects_effect w this_ other); [in_list|in_list|done].
  - eapply (at_object_effect _ w this_ w' _ Hwf); [in_list| |exact HR].
    intros v xs st' _ Hh Hm. apply (Reserve_shape E Hsane _ v xs n); [done|lia|done|done].
  - eapply (at_object_effect _ w this_ w' _ Hwf); [in_list| |exact HR].
    intros v xs st' _ Hh Hm. apply (Resize_shape E Hsane _ v xs n); [done|lia|done|done].
  - eapply (at_object_effect _ w this_ w' _ Hwf); [in_list| |exact HR].
    intros v xs st' _ Hh Hm. by apply (PopBack_shape E Hsane _ v xs).
  - eapply (at_object_effect _ w this_ w' _ Hwf); [in_list| |exact HR].
    intros v xs st' _ Hh Hm. by apply (PushBack_shape E Hsane _ v xs c).
  - eapply (at_object_effect _ w this_ w' _ Hwf); [in_list| |exact HR].
    intros v xs st' _ Hh Hm. by apply (PushBack_shape E Hsane _ v xs _ st' Hh Hm).
  - eapply (at_object_effect _ w this_ w' _ Hwf); [in_list| |exact HR].
    intros v xs st' _ Hh Hm. by apply (PushBack_shape E Hsane _ v xs _ st' Hh Hm).
  - eapply (at_object_effect _ w this_ w' _ Hwf); [in_list| |exact HR].
    intros v xs st' Hv Hh Hm.
    apply (at_index_Emplace_shape E Hsane _ v xs p _ st' Hh (Hin v Hv) Hm).
  - eapply (at_object_effect _ w this_ w' _ Hwf); [in_list| |exact HR].
    intros v xs st' Hv Hh Hm.
    apply (at_index_Emplace_shape E Hsane _ v xs p _ st' Hh (Hin v Hv) Hm).
  - eapply (at_object_effect _ w this_ w' _ Hwf); [in_list| |exact HR].
    intros v xs st' Hv Hh Hm.
    apply (at_index_Emplace_shape E Hsane _ v xs p _ st' Hh (Hin v Hv) Hm).
  - eapply (at_object_effect _ w this_ w' _ Hwf); [in_list| |exact HR].
    intros v xs st' Hv Hh Hm.
    apply (at_index_Erase_shape E Hsane _ v xs p st' Hh (Hin v Hv) Hm).
Qed.

End Effects.

(** Every live block of the free store is the buffer of a container. *)
Definition accounted {T} (w : World T) : Prop :=
  ∀ a blk, get_block (heap w) a = Some blk → ∃ i v, objects w !! i = Some v ∧ owns v a.

Section Consequences.

Context {T : Type} (E : Traits T).
Implicit Types (h : Heap T) (v : Vector) (xs : list T) (w : World T) (ws : list nat).

Lemma effect_frame ws w w' j vj :
  World_wf E w → effect E ws w w' → j ∉ ws → objects w !! j = Some vj →
  objects w' !! j = Some vj ∧
  ∀ xs, holds E (heap w) vj xs → holds E (heap w') vj xs.
Proof.
  intros [Hwf Hown] Heff Hj Hvj.
  assert (j < length (objects w))%nat as Hlt by (by eapply lookup_lt_Some).
  destruct Heff as [|i v st' Hi Hv Hshape| |xs' cap Hle Hbytes|other o Hin Ho
                    |a b va vb Ha Hb Hva Hvb]; cbn [objects heap].
  - done.
  - assert (j ≠ i) as Hne by (intros ->; done).
    split; [by rewrite list_lookup_insert_ne|].
    intros xs Hh. apply (holds_frame E (heap w)); [done|]. intros a0 Ha0.
    apply (step_shape_frame E (heap w) v); [done|by apply (holds_owned E _ vj xs)|].
    intros Hva. apply Hne. by apply (Hown j i vj v a0).
  - split; [by apply lookup_app_l_Some|done].
  - split; [by apply lookup_app_l_Some|].
    intros xs Hh. apply (holds_frame E (heap w)); [done|]. intros a0 Ha0.
    apply get_block_app_lt. by apply (holds_owned E _ vj xs).
  - assert (j ≠ other) as Hne by (intros ->; done).
    split; [|done]. apply lookup_app_l_Some. by rewrite list_lookup_insert_ne.
  - assert (j ≠ a) as Hna by (intros ->; done).
    assert (j ≠ b) as Hnb by (intros ->; done).
    split; [|done]. by rewrite !list_lookup_insert_ne.
Qed.

Lemma effect_accounted ws w w' : accounted w → effect E ws w w' → accounted w'.
Proof.
  intros Hacc Heff.
  destruct Heff as [|i v st' Hi Hv Hshape| |xs' cap Hle Hbytes|other o Hin Ho
                    |a b va vb Ha Hb Hva Hvb]; intros a0 blk Hblk; cbn [objects heap] in *.
  - by apply (Hacc a0 blk).
  - assert (i < length (objects w))%nat as Hlt by (by eapply lookup_lt_Some).
    assert (owns (this st') a0 ∨ (¬ owns v a0 ∧ is_Some (get_block (heap w) a0))) as Hcase.
    { unfold owns.
      destruct Hshape as [(xs' & _ & ->)|(xs' & cap' & _ & _ & ->)];
        cbn [updated reallocated this mem vec data_ buffer_ base] in *; unfold free in *.
      - destruct (base (buffer_ (data_ v))) as [a1|] eqn:Hb.
        + destruct (decide (a0 = a1)) as [->|Hne]; [by left|right].
          rewrite get_block_set_ne in Hblk by done. split; [congruence|by eexists].
        + right. split; [discriminate|by eexists].
      - destruct (decide (a0 = length (heap w))) as [->|Hne]; [by left|right].
        assert (get_block (heap w ++ [Some (block_of xs' (Z.to_nat cap'))]) a0 = Some blk
                ∧ base (buffer_ (data_ v)) ≠ Some a0) as [Hblk' Hno].
        { destruct (base (buffer_ (data_ v))) as [a1|]; [|done].
          destruct (decide (a0 = a1)) as [->|Hne1].
          - by rewrite get_block_free_eq in Hblk.
          - rewrite get_block_free_ne in Hblk by done. split; [done|congruence]. }
        split; [done|].
        apply get_block_lt in Hblk' as Hlen. rewrite length_app in Hlen. simpl in Hlen.
        rewrite get_block_app_lt in Hblk' by lia. by eexists. }
    destruct Hcase as [Hnew|[Hno [blk0 Hold]]].
    + exists i, (this st'). split; [by apply list_lookup_insert_eq|done].
    + destruct (Hacc a0 blk0 Hold) as (k & vk & Hk & Hvk).
      exists k, vk. split; [|done]. rewrite list_lookup_insert_ne; [done|].
      intros ->. congruence.
  - destruct (Hacc a0 blk Hblk) as (k & vk & Hk & Hvk).
    exists k, vk. split; [by apply lookup_app_l_Some|done].
  - destruct (decide (a0 = length (heap w))) as [->|Hne].
    + eexists (length (objects w)), _. split; [by apply list_lookup_middle|done].
    + apply get_block_lt in Hblk as Hlen. rewrite length_app in Hlen. simpl in Hlen.
      rewrite get_block_app_lt in Hblk by lia.
      destruct (Hacc a0 blk Hblk) as (k & vk & Hk & Hvk).
      exists k, vk. split; [by apply lookup_app_l_Some|done].
  - destruct (Hacc a0 blk Hblk) as (k & vk & Hk & Hvk).
    destruct (decide (k = other)) as [->|Hne].
    + exists (length (objects w)), o. split; [|congruence].
      rewrite <- (length_insert (objects w) other Vector_default).
      by apply list_lookup_middle.
    + exists k, vk. split; [|done]. apply lookup_app_l_Some.
      by rewrite list_lookup_insert_ne.
  - destruct (Hacc a0 blk Hblk) as (k & vk & Hk & Hvk).
    destruct (exchanged_lookup (objects w) a b va vb Hva Hvb) as (Hb' & Ha' & Hrest).
    destruct (decide (k = a)) as [->|Hka].
    + exists b, va. split; [done|congruence].
    + destruct (decide (k = b)) as [->|Hkb].
      * exists a, vb. split; [apply Ha'; congruence|congruence].
      * exists k, vk. split; [|done]. by rewrite Hrest.
Qed.

End Consequences.

(** X16. An operation leaves alone the containers it is not called on or
    given to modify: they keep their buffer, size, capacity and elements.
    In particular the copy constructor and the copy assignment do not change
    their source, and no change of a copy reaches the original. *)
Theorem other_containers_untouched {T} (E : Traits T) (op : Op T) (w w' : World T)
    (j : nat) (vj : Vector) :
  sane E → World_wf E w → in_range op w → representable E op →
  run_op E op w = Ok tt w' →
  j ∉ writes op → objects w !! j = Some vj →
  objects w' !! j = Some vj ∧
  elements (mkState vj (heap w')) = elements (mkState vj (heap w)) ∧
  well_formed E (mkState vj (heap w')).
Proof.
  intros Hsane Hwf Hin Hrep HR Hj Hvj.
  pose proof (run_op_effect E Hsane op w w' Hwf Hin Hrep HR) as Heff.
  destruct (effect_frame E (writes op) w w' j vj Hwf Heff Hj Hvj) as [Hsame Hframe].
  destruct (well_formed_holds E _ (proj1 Hwf j vj Hvj)) as [xs Hh]. cbn [this mem] in Hh.
  pose proof (Hframe xs Hh) as Hh'.
  split; [done|]. split.
  - by rewrite (holds_elements E _ _ xs Hh), (holds_elements E _ _ xs Hh').
  - by apply (holds_well_formed E _ _ xs).
Qed.

Lemma other_containers_untouched_witness :
  sane int_traits ∧ World_wf int_traits two_containers ∧
  ∃ w', run_op int_traits (OpCopyAssign 0 1) two_containers = Ok tt w' ∧
        objects w' !! 1%nat = Some (vec (mkPtr (Some 2%nat) 0) 4 3) ∧
        elements (mkState (vec (mkPtr (Some 2%nat) 0) 4 3) (heap w')) = Some [1; 2; 3] ∧
        elements (mkState (vec (mkPtr (Some 3%nat) 0) 3 3) (heap w')) = Some [1; 2; 3].
Proof.
  split; [apply int_traits_sane|]. split; [apply two_containers_wf|].
  eexists.
  destruct (other_containers_untouched int_traits (OpCopyAssign 0 1) two_containers _ 1
              (vec (mkPtr (Some 2%nat) 0) 4 3) int_traits_sane two_containers_wf I I eq_refl)
    as (Hobj & Hel & _); [|reflexivity|].
  { simpl. rewrite list_elem_of_singleton. lia. }
  split; [reflexivity|]. split; [exact Hobj|]. split; [by rewrite Hel|reflexivity].
Defined.

(** X17. No storage is leaked by operations that return: in every program
    made of such operations, every live block of the free store is the
    buffer of a container. *)
Theorem no_block_is_leaked {T} (E : Traits T) (w : World T) :
  sane E → reachable E w → accounted w.
Proof.
  intros Hsane Hreach. induction Hreach as [|op w w' Hreach IH Hin Hrep Hrun].
  - intros a blk Hblk. by destruct a.
  - apply (effect_accounted E (writes op) w w' IH).
    apply (run_op_effect E Hsane op w w'); [by apply reachable_wf|done|done|done].
Qed.

Lemma no_block_is_leaked_witness :
  sane int_traits ∧ reachable int_traits after_Reserve_10 ∧ accounted after_Reserve_10.
Proof.
  assert (reachable int_traits after_Reserve_10) as Hreach.
  { apply (reachable_step int_traits (OpReserve 0 10) one_default).
    - apply (reachable_step int_traits OpDefault (mkWorld [] []) one_default);
        [apply reachable_start|done|done|reflexivity].
    - simpl. unfold SIZE_MOD. lia.
    - simpl. unfold SIZE_MOD. lia.
    - reflexivity. }
  split; [apply int_traits_sane|]. split; [exact Hreach|].
  by apply (no_block_is_leaked int_traits after_Reserve_10 int_traits_sane).
Defined.

(** ** Growth *)

(** [PushBack] of the elements of a list, in order. *)
Fixpoint push_all {T} (E : Traits T) (l : list T) : M (State T) unit :=
  match l with
  | [] => ret tt
  | x :: l => PushBack_copy E x;; push_all E l
  end.

(** The capacity that repeated doubling from 1 gives for a size: none for
    size 0, otherwise the power of two in [size, 2 * size). *)
Definition doubled (size capacity : Z) : Prop :=
  (size = 0 ∧ capacity = 0) ∨
  ∃ k : nat, capacity = 2 ^ Z.of_nat k ∧ size ≤ capacity < 2 * size.

Lemma doubled_grown v :
  0 ≤ Size v → doubled (Size v) (Capacity v) → doubled (Size v + 1) (grown v).
Proof.
  intros Hpos [[Hs Hc]|(k & Hc & Hle)]; right; unfold grown.
  - exists 0%nat. rewrite Hs, Hc. simpl. lia.
  - destruct (Z.ltb_spec (Size v) (Capacity v)).
    + exists k. lia.
    + destruct (Z.eqb_spec (Size v) 0); [lia|].
      exists (S k). rewrite Nat2Z.inj_succ, Z.pow_succ_r by lia. lia.
Qed.

Lemma push_all_holds {T} (E : Traits T) (l : list T) : ∀ h v xs st',
  sane E → holds E h v xs → doubled (Size v) (Capacity v) →
  push_all E l (mkState v h) = Ok tt st' →
  holds E (mem st') (this st') (xs ++ l) ∧
  doubled (Size (this st')) (Capacity (this st')).
Proof.
  induction l as [|x l IH]; intros h v xs st' Hsane Hh Hd HR.
  - injection HR as <-. by rewrite app_nil_r.
  - cbn [push_all] in HR. apply bind_Ok_inv in HR as ([] & st1 & Hpush & HR).
    unfold PushBack_copy in Hpush. apply bind_Ok_inv in Hpush as (r & st0 & HE & Hret).
    injection Hret as <-.
    destruct (EmplaceBack_holds E Hsane h v xs _ r st0 Hh HE) as (x0 & Hc & Hh0 & Hcap).
    assert (x0 = x) as -> by (destruct (copy_throws E x); congruence).
    destruct st0 as [v0 h0]. cbn [this mem] in *.
    assert (size_ v = Z.of_nat (length xs)) as Hsz by apply Hh.
    assert (size_ v0 = Z.of_nat (length (xs ++ [x]))) as Hsz0 by apply Hh0.
    rewrite length_app in Hsz0. simpl in Hsz0.
    destruct (IH h0 v0 (xs ++ [x]) st' Hsane Hh0) as [Hh' Hd']; [|done|].
    + unfold Size. rewrite Hcap.
      replace (size_ v0) with (Size v + 1) by (unfold Size; lia).
      apply doubled_grown; [unfold Size; lia|done].
    + by rewrite <- app_assoc in Hh'.
Qed.

(** X18. After any number of [PushBack] calls on a default-constructed
    container the elements are the values pushed, in order, and the capacity
    is the power of two that is at least the size and less than twice the
    size (0 for no call): the capacity goes 0, 1, 2, 4, 8, ... *)
Theorem PushBack_doubles {T} (E : Traits T) (l : list T) (st' : State T) :
  sane E → push_all E l empty_state = Ok tt st' →
  elements st' = Some l ∧
  Size (this st') = Z.of_nat (length l) ∧
  doubled (Size (this st')) (Capacity (this st')) ∧
  well_formed E st'.
Proof.
  intros Hsane HR.
  destruct (push_all_holds E l [] Vector_default [] st' Hsane (holds_default E [])) as [Hh Hd];
    [by left|done|].
  simpl in Hh. destruct st' as [v' h']. cbn [this mem] in *.
  split; [by apply (holds_elements E)|]. split; [apply Hh|].
  split; [done|by apply (holds_well_formed E _ _ l)].
Qed.

Definition five_pushed : State Z :=
  mkState (vec (mkPtr (Some 3%nat) 0) 8 5)
          [None; None; None;
           Some [Some 1; Some 2; Some 3; Some 4; Some 5; None; None; None]].

Lemma PushBack_doubles_witness :
  sane int_traits ∧
  push_all int_traits [1; 2; 3; 4; 5] empty_state = Ok tt five_pushed ∧
  elements five_pushed = Some [1; 2; 3; 4; 5] ∧
  doubled (Size (this five_pushed)) (Capacity (this five_pushed)).
Proof.
  assert (push_all int_traits [1; 2; 3; 4; 5] empty_state = Ok tt five_pushed) as HR
    by (vm_compute; reflexivity).
  split; [apply int_traits_sane|]. split; [exact HR|].
  destruct (PushBack_doubles int_traits [1; 2; 3; 4; 5] five_pushed int_traits_sane HR)
    as (Hel & _ & Hd & _).
  by split.
Defined.

(** ** References and iterators that stay valid *)

(** The container kept its buffer and capacity, and its first [k] elements
    are where they were. *)
Definition keeps_references {T} (st st' : State T) (xs : list T) (k : nat) : Prop :=
  begin (this st') = begin (this st) ∧
  Capacity (this st') = Capacity (this st) ∧
  ∀ i x, (i < k)%nat → xs !! i = Some x →
         load (ptr_add (begin (this st)) (Z.of_nat i)) (mem st') = Ok x (mem st').

Lemma updated_keeps_references {T} (E : Traits T) h v (xs xs' : list T) (k : nat) :
  holds E h v xs → Z.of_nat (length xs') ≤ Capacity v →
  (∀ i, (i < k)%nat → xs' !! i = xs !! i) →
  keeps_references (mkState v h) (updated h v xs') xs k.
Proof.
  intros Hh Hle Hsame.
  pose proof (holds_updated E h v xs xs' Hh Hle) as Hh'.
  split; [done|]. split; [done|].
  intros i x Hi Hx. apply (holds_load E _ _ xs' i x Hh'). by rewrite Hsame.
Qed.

(** X19. Operations that stay within the capacity never move the elements:
    an insertion into a container with a free slot, [PopBack], [Erase], and
    [Resize] to at most the capacity keep the buffer and the capacity, and
    every element before the position changed (before the new size, for
    [Resize] and [PopBack]) stays at its address with its value; [Reserve]
    of at most the capacity changes nothing at all. *)
Theorem references_stay_valid {T} (E : Traits T) (st : State T) (xs : list T) :
  sane E → well_formed E st → elements st = Some xs →
  (∀ (p : nat) c it st', (p ≤ length xs)%nat → Size (this st) < Capacity (this st) →
     Emplace E (ptr_add (begin (this st)) (Z.of_nat p)) c st = Ok it st' →
     keeps_references st st' xs p ∧ it = ptr_add (begin (this st)) (Z.of_nat p)) ∧
  (∀ st', PopBack st = Ok tt st' → keeps_references st st' xs (length xs - 1)) ∧
  (∀ (p : nat) it st', (p < length xs)%nat →
     Erase E (ptr_add (cbegin (this st)) (Z.of_nat p)) st = Ok it st' →
     keeps_references st st' xs p) ∧
  (∀ n st', 0 ≤ n ≤ Capacity (this st) → Resize E n st = Ok tt st' →
     keeps_references st st' xs (min (length xs) (Z.to_nat n))) ∧
  (∀ n st', 0 ≤ n ≤ Capacity (this st) → Reserve E n st = Ok tt st' → st' = st).
Proof.
  intros Hsane Hwf Hel.
  pose proof (well_formed_elements E st xs Hwf Hel) as Hh.
  destruct st as [v h]. cbn [this mem] in *. unfold Size.
  assert (size_ v = Z.of_nat (length xs)) as Hsz by apply Hh.
  assert (size_ v ≤ Capacity v) as Hle by apply Hh.
  assert (Capacity v * sizeof_T E ≤ PTRDIFF_MAX) as Hbytes by apply Hh.
  assert (∀ n, 0 ≤ n ≤ Capacity v → n * sizeof_T E < SIZE_MOD) as Hfits.
  { intros n Hn. pose proof PTRDIFF_MAX_lt. pose proof (sizeof_pos E Hsane).
    assert (n * sizeof_T E ≤ Capacity v * sizeof_T E)
      by (apply Z.mul_le_mono_nonneg_r; lia).
    lia. }
  split; [|split; [|split; [|split]]].
  - intros p c it st' Hp Hspare HR.
    destruct (Emplace_inv E Hsane h v xs p c it st' Hh Hp HR)
      as (x & _ & [(Hfull & _)|(_ & -> & ->)]); [lia|].
    split; [|done].
    apply (updated_keeps_references E); [done|rewrite length_insert_at; lia|].
    intros i Hi. unfold insert_at. rewrite lookup_app_l by (rewrite length_take; lia).
    by apply lookup_take_lt.
  - intros st' HR. destruct (PopBack_inv E Hsane h v xs st' Hh HR) as [_ ->].
    apply (updated_keeps_references E); [done|rewrite length_take; lia|].
    intros i Hi. by apply lookup_take_lt.
  - intros p it st' Hp HR.
    destruct (Erase_inv E Hsane h v xs p it st' Hh Hp HR) as (_ & _ & ->).
    apply (updated_keeps_references E);
      [done|rewrite length_app, length_take, length_drop; lia|].
    intros i Hi. rewrite lookup_app_l by (rewrite length_take; lia).
    by apply lookup_take_lt.
  - intros n st' Hn HR.
    destruct (Resize_inv E Hsane h v xs n st' Hh ltac:(lia) (Hfits n Hn) HR)
      as [[Hlt ->]|[(Hin & Hinit & ->)|(Hout & _)]]; [| |lia].
    + apply (updated_keeps_references E); [done|rewrite length_take; lia|].
      intros i Hi. apply lookup_take_lt. lia.
    + apply (updated_keeps_references E); [done| |].
      * rewrite length_app, length_fresh_values; [lia|].
        destruct Hinit as [?| ->]; [by left|right; lia].
      * intros i Hi. apply lookup_app_l. lia.
  - intros n st' Hn HR. rewrite Reserve_noop in HR by (cbn [this]; lia).
    by injection HR.
Qed.

Lemma references_stay_valid_witness :
  sane int_traits ∧ well_formed int_traits three_ints ∧
  elements three_ints = Some [1; 2; 3] ∧
  ∃ it st', Emplace int_traits (ptr_add (begin (this three_ints)) (Z.of_nat 2)) (Some 9)
              three_ints = Ok it st' ∧
            keeps_references three_ints st' [1; 2; 3] 2.
Proof.
  split; [apply int_traits_sane|]. split; [apply three_ints_well_formed|].
  split; [reflexivity|]. do 2 eexists.
  destruct (references_stay_valid int_traits three_ints [1; 2; 3] int_traits_sane
              three_ints_well_formed eq_refl) as (Hemplace & _).
  split; [reflexivity|].
  refine (proj1 (Hemplace 2%nat (Some 9) _ _ _ _ eq_refl)); [simpl; lia|by vm_compute].
Defined.

(** ** A throwing insertion into a full container *)

Lemma try_catch_Throw {S A} (m : M S A) (handler : M S unit) s s1 s2 :
  m s = Throw s1 → handler s1 = Ok tt s2 → try_catch_rethrow m handler s = Throw s2.
Proof. unfold try_catch_rethrow. by intros -> ->. Qed.

Section FullInsertion.

Context {T : Type} (E : Traits T).
Hypothesis Hsane : sane E.
Implicit Types (h : Heap T) (v : Vector) (xs : list T) (st : State T).

Lemma Emplace_full_throws h v xs (p : nat) c :
  holds E h v xs → size_ v = Capacity v → (p ≤ length xs)%nat →
  let cap' := if size_ v =? 0 then 1 else size_ v * 2 in
  (can_alloc E (cap' * sizeof_T E) = false →
   Emplace E (ptr_add (begin v) (Z.of_nat p)) c (mkState v h) = Throw (mkState v h)) ∧
  (can_alloc E (cap' * sizeof_T E) = true →
   c = None ∨ (relocates_by_move E = false ∧ none_throws (copy_throws E) xs = false) →
   Emplace E (ptr_add (begin v) (Z.of_nat p)) c (mkState v h)
   = Throw (mkState v (h ++ [None]))).
Proof.
  intros Hh Hfull Hp cap'.
  destruct (holds_inv E h v xs Hh) as (b & cap & -> & Hle & Hbytes & Hblk).
  unfold Capacity in Hfull. subst cap'.
  cbn [size_ data_ capacity_ vec begin GetAddress buffer_] in *.
  set (cap' := if Z.of_nat (length xs) =? 0 then 1 else Z.of_nat (length xs) * 2).
  pose proof (sizeof_pos E Hsane) as Hs. pose proof (sizeof_fits E Hsane) as Hs'.
  subst cap.
  destruct (capacity_bound E Hsane (Z.of_nat (length xs))) as (Hc1 & Hc2 & Hc3); [lia|done|].
  assert (cap' = if length xs is O then 1 else 2 * Z.of_nat (length xs)) as Hcap'.
  { subst cap'. destruct (length xs); [done|].
    rewrite (proj2 (Z.eqb_neq _ _)) by lia. lia. }
  assert (0 < cap' ∧ cap' * sizeof_T E < SIZE_MOD ∧ Z.of_nat (length xs) < cap')
    as (Hc0 & Hfit & Hroom).
  { rewrite Hcap'. destruct (length xs) eqn:Hl; [lia|]. nia. }
  pose proof (RawMemory_sized_pos E Hsane cap' h Hc0 Hfit) as Halloc.
  pose proof (holds_buffer_lt E h b _ xs Hh) as Hb.
  remember (Emplace E _ c _) as R eqn:HR.
  unfold Emplace in HR. step in HR by reflexivity.
  unfold iterator_offset, begin, GetAddress in HR.
  cbn [size_ data_ capacity_ vec buffer_] in HR.
  rewrite ptr_diff_add in HR.
  rewrite wrap_small in HR by lia.
  step in HR by reflexivity.
  unfold Capacity in HR. cbn [size_ data_ capacity_ vec buffer_] in HR.
  rewrite Z.eqb_refl in HR.
  unfold InsertWithoutRelocation in HR. step in HR by reflexivity.
  cbn [size_ data_ capacity_ vec buffer_] in HR.
  rewrite (wrap_small (_ * 2)) in HR by lia.
  fold cap' in HR. rewrite ?bind_assoc in HR.
  destruct (can_alloc E (cap' * sizeof_T E)); cycle 1.
  { split; [|discriminate]. intros _. subst R.
    apply bind_Throw, on_heap_Throw. exact Halloc. }
  split; [discriminate|]. intros _ Hwhy.
  step in HR by (by apply on_heap_Ok, Halloc).
  set (h1 := h ++ [Some (replicate (Z.to_nat cap') None)]) in HR.
  unfold GetAddress in HR. cbn [buffer_] in HR.
  assert (length h1 = S (length h)) as Hlen1.
  { unfold h1. rewrite length_app. simpl. lia. }
  set (v0 := vec (mkPtr b 0) (Z.of_nat (length xs)) (Z.of_nat (length xs))) in *.
  assert (∀ h' blk, get_block h' (length h) = Some blk →
                    <[length h := None]> h' = h ++ [None] →
                    on_heap (RawMemory_destroy (mkRawMemory (mkPtr (Some (length h)) 0) cap'))
                      (mkState v0 h') = Ok tt (mkState v0 (h ++ [None]))) as Hrelease.
  { intros h' blk Hg Hfree. apply on_heap_Ok. unfold RawMemory_destroy, Deallocate.
    cbn [buffer_]. by rewrite (operator_delete_block h' (length h) blk Hg), Hfree. }
  subst R. rewrite ?bind_assoc. apply bind_Throw.
  destruct c as [x|]; cycle 1.
  { apply (try_catch_Throw _ _ _ (mkState v0 h1)); [reflexivity|].
    apply (Hrelease h1 (replicate (Z.to_nat cap') None)); [apply get_block_app_new|].
    apply free_new. }
  destruct Hwhy as [?|[Hcopy Hall]]; [done|].
  destruct b as [a|]; cycle 1.
  { destruct Hblk as [_ ->]. discriminate. }
  assert (construct_at (ptr_add (mkPtr (Some (length h)) 0) (Z.of_nat p)) x h1
          = Ok tt (set_block (length h) (<[p := Some x]> (replicate (Z.to_nat cap') None)) h1))
    as Hnew.
  { apply construct_at_block; [done|simpl; lia|apply get_block_app_new|].
    rewrite length_replicate. lia. }
  set (D0 := <[p := Some x]> (replicate (Z.to_nat cap') None)) in *.
  set (h2 := set_block (length h) D0 h1) in *.
  assert (get_block h2 a = Some (block_of xs (Z.to_nat (Z.of_nat (length xs))))) as Hg2.
  { unfold h2. rewrite get_block_set_ne by lia. by apply get_block_app_l. }
  assert (get_block h2 (length h) = Some D0) as Hd2.
  { unfold h2. apply get_block_set_eq. lia. }
  assert (<[length h := None]> h2 = h ++ [None]) as Hfree2.
  { unfold h2, h1. rewrite free_set_block_eq. apply free_new. }
  assert (length D0 = Z.to_nat cap') as HlenD0
    by (unfold D0; by rewrite length_insert, length_replicate).
  rewrite (none_throws_take_drop _ p xs) in Hall.
  assert (length (take p xs) = p) as Hlp by (rewrite length_take; lia).
  destruct (none_throws (copy_throws E) (take p xs)) eqn:Hall1; cycle 1.
  { apply (try_catch_Throw _ _ _ (mkState v0 h2)); [|by apply (Hrelease h2 D0)].
    step by reflexivity. step by (by apply on_heap_Ok, Hnew).
    rewrite ?bind_assoc. apply bind_Throw.
    rewrite FillNewData_relocate. apply on_heap_Throw. cbn [this mem].
    unfold relocate. rewrite Hcopy. unfold begin, GetAddress. cbn [v0 vec data_ buffer_].
    rewrite <- Hlp at 1.
    apply (uninitialized_copy_n_Throw E h2 _ _ a (length h) 0 0
             (block_of xs (Z.to_nat (Z.of_nat (length xs)))) D0 (take p xs)); try done.
    - lia.
    - intros k y Hk. apply block_of_live. apply lookup_take_Some in Hk. apply Hk.
    - lia.
    - intros k Hk. unfold D0. rewrite list_lookup_insert_ne by lia.
      apply lookup_replicate_2. lia. }
  cbn [andb] in Hall.
  set (D1 := list_inserts 0 (Some <$> take p xs) D0) in *.
  set (h3 := set_block (length h) D1 h2) in *.
  assert (uninitialized_copy_n E (mkPtr (Some a) 0) (Z.of_nat p) (mkPtr (Some (length h)) 0) h2
          = Ok tt h3) as Hok1.
  { rewrite <- Hlp at 1.
    apply (uninitialized_copy_n_Ok E h2 _ _ a (length h) 0 0
             (block_of xs (Z.to_nat (Z.of_nat (length xs)))) D0 (take p xs)); try done.
    - lia.
    - intros k y Hk. apply block_of_live. apply lookup_take_Some in Hk. apply Hk.
    - lia. }
  assert (length D1 = Z.to_nat cap') as HlenD1 by (unfold D1; by rewrite length_inserts).
  apply (try_catch_Throw _ _ _ (mkState v0 h3)).
  - step by reflexivity. step by (by apply on_heap_Ok, Hnew).
    step by (rewrite FillNewData_relocate; apply on_heap_Ok; cbn [this mem];
             unfold relocate; rewrite Hcopy; exact Hok1).
    rewrite ?bind_assoc. apply bind_Throw. rewrite Hcopy. apply on_heap_Throw.
    unfold begin, GetAddress. cbn [v0 vec data_ buffer_ size_].
    rewrite wrap_small by lia.
    replace (Z.of_nat (length xs) - Z.of_nat p) with (Z.of_nat (length (drop p xs)))
      by (rewrite length_drop; lia).
    apply (uninitialized_copy_n_Throw E h3 _ _ a (length h) p (S p)
             (block_of xs (Z.to_nat (Z.of_nat (length xs)))) D1 (drop p xs)); try done.
    + lia.
    + simpl. lia.
    + unfold h3. by rewrite get_block_set_ne by lia.
    + unfold h3. apply get_block_set_eq. unfold h2. rewrite length_set_block. lia.
    + intros k y Hk. apply block_of_live. by rewrite lookup_drop in Hk.
    + rewrite length_drop. lia.
    + intros k Hk. rewrite length_drop in Hk. unfold D1.
      rewrite list_lookup_inserts_ge by (rewrite length_fmap; lia).
      unfold D0. rewrite list_lookup_insert_ne by lia.
      apply lookup_replicate_2. lia.
  - apply (Hrelease h3 D1).
    + unfold h3. apply get_block_set_eq. unfold h2. rewrite length_set_block. lia.
    + unfold h3. by rewrite free_set_block_eq.
Qed.

End FullInsertion.

(** X20. An insertion into a full container ([Emplace], [Insert],
    [EmplaceBack], [PushBack] when [size == capacity]) has the strong
    exception guarantee when relocation copies the elements or moves them
    with a move constructor that does not throw: if the allocation fails,
    the constructor of the new element throws or a copy throws part way, the
    container has the buffer, size, capacity and elements it had, and the
    free store has the live blocks it had. *)
Theorem full_insertion_strong_guarantee {T} (E : Traits T) (st : State T) (xs : list T) :
  sane E → well_formed E st → elements st = Some xs →
  Size (this st) = Capacity (this st) → relocation_is_safe E →
  let unchanged st' :=
    this st' = this st ∧ elements st' = Some xs ∧ well_formed E st' ∧
    same_blocks (mem st) (mem st') in
  (∀ (p : nat) c st', (p ≤ length xs)%nat →
     Emplace E (ptr_add (begin (this st)) (Z.of_nat p)) c st = Throw st' → unchanged st') ∧
  (∀ value st', PushBack_copy E value st = Throw st' → unchanged st').
Proof.
  intros Hsane Hwf Hel Hfull Hsafe unchanged.
  pose proof (well_formed_elements E st xs Hwf Hel) as Hh.
  destruct st as [v h]. cbn [this mem] in *. unfold Size in Hfull.
  assert (size_ v = Z.of_nat (length xs)) as Hsz by apply Hh.
  assert (unchanged (mkState v h)) as Hsame.
  { split; [done|]. split; [done|]. split; [done|]. by intros a. }
  assert (unchanged (mkState v (h ++ [None]))) as Hfreed.
  { pose proof (holds_app_freed E h v xs Hh) as Hh'.
    split; [done|]. split; [by apply (holds_elements E)|].
    split; [by apply (holds_well_formed E _ _ xs)|]. intros a. apply get_block_app_freed. }
  assert (∀ (p : nat) c st', (p ≤ length xs)%nat →
            Emplace E (ptr_add (begin v) (Z.of_nat p)) c (mkState v h) = Throw st' →
            unchanged st') as Hemplace.
  { intros p c st' Hp HR.
    destruct (Emplace_full_throws E Hsane h v xs p c Hh Hfull Hp) as [Hnoalloc Hthrow].
    destruct (Emplace_realloc E Hsane h v xs p c Hh Hfull Hp) as [Hok _].
    cbn zeta in Hnoalloc, Hthrow, Hok.
    destruct (can_alloc E _) eqn:Hgrant; cycle 1.
    { rewrite Hnoalloc in HR by done. by injection HR as <-. }
    destruct c as [x|]; cycle 1.
    { rewrite Hthrow in HR by auto. by injection HR as <-. }
    destruct (none_throws (relocate_throws E) xs) eqn:Hall.
    { rewrite (Hok x eq_refl) in HR by done. discriminate. }
    unfold relocate_throws in Hall.
    destruct (relocates_by_move E) eqn:Hb.
    - destruct Hsafe as [?|Hmove]; [congruence|].
      rewrite (none_throws_never _ xs Hmove) in Hall. discriminate.
    - rewrite Hthrow in HR by auto. by injection HR as <-. }
  split; [exact Hemplace|].
  intros value st' HR. unfold PushBack_copy in HR.
  apply bind_Throw_inv in HR as [HR|(r & s1 & _ & Hret)]; [|discriminate].
  unfold EmplaceBack in HR. step in HR by reflexivity.
  unfold end_ in HR. rewrite Hsz in HR.
  exact (Hemplace (length xs) _ st' (le_n _) HR).
Qed.

Lemma full_insertion_strong_guarantee_witness :
  sane copying_traits ∧ well_formed copying_traits five_thirteen ∧
  elements five_thirteen = Some [5; 13] ∧
  Size (this five_thirteen) = Capacity (this five_thirteen) ∧
  relocation_is_safe copying_traits ∧
  ∃ st', PushBack_copy copying_traits 7 five_thirteen = Throw st' ∧
         this st' = this five_thirteen ∧ elements st' = Some [5; 13].
Proof.
  assert (relocation_is_safe copying_traits) as Hsafe by (by left).
  split; [apply copying_traits_sane|]. split; [apply five_thirteen_well_formed|].
  split; [reflexivity|]. split; [reflexivity|]. split; [exact Hsafe|].
  destruct (full_insertion_strong_guarantee copying_traits five_thirteen [5; 13]
              copying_traits_sane five_thirteen_well_formed eq_refl eq_refl Hsafe)
    as [_ Hpush].
  exists (mkState (this five_thirteen) (mem five_thirteen ++ [None])).
  assert (PushBack_copy copying_traits 7 five_thirteen
          = Throw (mkState (this five_thirteen) (mem five_thirteen ++ [None]))) as HR
    by (vm_compute; reflexivity).
  split; [exact HR|].
  destruct (Hpush 7 _ HR) as (Hthis & Hel & _). by split.
Defined.

(** ** Lifetimes and reserved capacity *)

(** X21. Construction and destruction are balanced: after [Vector(size)] or
    the copy constructor has returned, the destructor of the new container
    returns and leaves the free store with the live blocks it had before the
    construction; for a copy, the container copied from still has its
    elements. *)
Theorem construct_destroy_balanced {T} (E : Traits T) (h : Heap T) :
  sane E →
  (∀ size v h', 0 ≤ size → size * sizeof_T E < SIZE_MOD →
     Vector_sized E size h = Ok v h' →
     ∃ h'', Vector_destroy v h' = Ok tt h'' ∧ same_blocks h h'') ∧
  (∀ other ys v h',
     well_formed E (mkState other h) → elements (mkState other h) = Some ys →
     Vector_copy E other h = Ok v h' →
     ∃ h'', Vector_destroy v h' = Ok tt h'' ∧ same_blocks h h'' ∧
            elements (mkState other h'') = Some ys).
Proof.
  intros Hsane.
  assert (∀ xs cap, Z.of_nat (length xs) ≤ cap → cap * sizeof_T E ≤ PTRDIFF_MAX →
            Vector_destroy (vec (mkPtr (Some (length h)) 0) cap (Z.of_nat (length xs)))
              (h ++ [Some (block_of xs (Z.to_nat cap))]) = Ok tt (h ++ [None])) as Hfresh.
  { intros xs cap Hle Hbytes.
    rewrite (Vector_destroy_holds E _ _ xs).
    - unfold free. cbn [vec data_ buffer_ base]. by rewrite free_new.
    - apply (holds_vec E); [done|done|apply get_block_app_new]. }
  split.
  - intros size v h' Hn Hfit HR.
    destruct (Vector_sized_spec E Hsane h size Hn Hfit) as [Hzero Hpos].
    destruct (decide (size = 0)) as [->|Hne].
    { rewrite Hzero in HR by done. injection HR as <- <-. by exists h. }
    destruct Hpos as [Hok Hfail]; [lia|].
    destruct (decide_outcome _ _ _ _ Hok Hfail _ _ HR) as (Hc & -> & ->).
    apply andb_true_iff in Hc as [Hgrant Hinit].
    assert (length (fresh_values E (Z.to_nat size)) = Z.to_nat size) as Hlen.
    { apply length_fresh_values. left. by destruct (value_init E). }
    exists (h ++ [None]). split; [|intros a; apply get_block_app_freed].
    pose proof (Hfresh (fresh_values E (Z.to_nat size)) size) as Hd.
    rewrite Hlen, Z2Nat.id in Hd by done. apply Hd; [lia|].
    by apply (granted_bound E Hsane).
  - intros other ys v h' Hwf Hel HR.
    pose proof (well_formed_elements E _ ys Hwf Hel) as Hh. cbn [this mem] in Hh.
    destruct (Vector_copy_spec E Hsane h other ys Hh) as [Hnil Hcons].
    destruct ys as [|y ys].
    { rewrite Hnil in HR by done. injection HR as <- <-. by exists h. }
    rewrite Hcons in HR by done.
    destruct (can_alloc E _) eqn:Hgrant; [|discriminate].
    destruct (none_throws _ _); [|discriminate]. injection HR as <- <-.
    exists (h ++ [None]). split; [|split].
    + pose proof (Hfresh (y :: ys) (Z.of_nat (length (y :: ys)))) as Hd.
      rewrite Nat2Z.id in Hd. apply Hd; [lia|]. by apply (granted_bound E Hsane).
    + intros a. apply get_block_app_freed.
    + apply (holds_elements E). by apply holds_app_freed.
Qed.

Lemma construct_destroy_balanced_witness :
  sane int_traits ∧
  ∃ v h' h'', Vector_copy int_traits (this three_ints) (mem three_ints) = Ok v h' ∧
              Vector_destroy v h' = Ok tt h'' ∧
              same_blocks (mem three_ints) h'' ∧
              elements (mkState (this three_ints) h'') = Some [1; 2; 3].
Proof.
  split; [apply int_traits_sane|].
  destruct (construct_destroy_balanced int_traits (mem three_ints) int_traits_sane)
    as [_ Hcopy].
  do 2 eexists.
  destruct (Hcopy (this three_ints) [1; 2; 3] _ _ three_ints_well_formed eq_refl eq_refl)
    as (h'' & Hd & Hsame & Hel).
  exists h''. split; [reflexivity|]. by split.
Defined.

Section Reserved.

Context {T : Type} (E : Traits T).
Hypothesis Hsane : sane E.

Lemma push_all_reserved (l : list T) : ∀ h v xs,
  holds E h v xs → size_ v + Z.of_nat (length l) ≤ Capacity v →
  none_throws (copy_throws E) l = true →
  push_all E l (mkState v h) = Ok tt (updated h v (xs ++ l)).
Proof.
  induction l as [|x l IH]; intros h v xs Hh Hroom Hall.
  - rewrite app_nil_r. by rewrite (updated_same E h v xs).
  - simpl in Hroom, Hall. apply andb_true_iff in Hall as [Hx Hall].
    apply negb_true_iff in Hx.
    assert (size_ v = Z.of_nat (length xs)) as Hsz by apply Hh.
    destruct (Emplace_at_end E Hsane h v xs (Some x) Hh ltac:(lia)) as [Hok _].
    assert (Z.of_nat (length (xs ++ [x])) ≤ Capacity v) as Hle
      by (rewrite length_app; simpl; lia).
    pose proof (holds_updated E h v xs (xs ++ [x]) Hh Hle) as Hh1.
    cbn [push_all]. unfold PushBack_copy, EmplaceBack. rewrite Hx.
    step by reflexivity. step by (by apply Hok). step by reflexivity.
    change (updated h v (xs ++ [x]))
      with (mkState (this (updated h v (xs ++ [x]))) (mem (updated h v (xs ++ [x])))).
    rewrite (IH _ _ (xs ++ [x]) Hh1); [| |done].
    + unfold updated. cbn [this mem vec data_ buffer_ capacity_ Capacity].
      rewrite <- app_assoc. simpl. f_equal.
      destruct (base (buffer_ (data_ v))); [|done]. by rewrite set_block_set.
    + unfold updated, Capacity in *. cbn [this vec size_ data_ capacity_].
      rewrite length_app. simpl. lia.
Qed.

End Reserved.

(** X22. With capacity in reserve [PushBack] cannot fail for want of
    memory and moves nothing: when the values pushed fit the capacity and
    their copies do not throw, every [PushBack] returns, the elements are the
    old ones followed by the values pushed, and the buffer, the capacity and
    the addresses of the old elements are unchanged, whatever the allocator
    would answer. *)
Theorem reserved_PushBack {T} (E : Traits T) (st : State T) (xs l : list T) :
  sane E → well_formed E st → elements st = Some xs →
  Size (this st) + Z.of_nat (length l) ≤ Capacity (this st) →
  none_throws (copy_throws E) l = true →
  ∃ st', push_all E l st = Ok tt st' ∧
         elements st' = Some (xs ++ l) ∧
         keeps_references st st' xs (length xs) ∧
         well_formed E st'.
Proof.
  intros Hsane Hwf Hel Hroom Hall.
  pose proof (well_formed_elements E st xs Hwf Hel) as Hh.
  destruct st as [v h]. cbn [this mem] in *. unfold Size in Hroom.
  assert (size_ v = Z.of_nat (length xs)) as Hsz by apply Hh.
  exists (updated h v (xs ++ l)).
  split; [by apply (push_all_reserved E Hsane l h v xs)|].
  destruct (updated_facts E h v xs (xs ++ l) Hh) as (_ & _ & He & Hw).
  { rewrite length_app. lia. }
  split; [done|]. split; [|done].
  apply (updated_keeps_references E); [done|rewrite length_app; lia|].
  intros i Hi. by apply lookup_app_l.
Qed.

Definition reserved_8 : State Z :=
  mkState (vec (mkPtr (Some 0%nat) 0) 8 1) [Some (Some 5 :: replicate 7 None)].

Lemma reserved_PushBack_witness :
  sane int_traits ∧ well_formed int_traits reserved_8 ∧ elements reserved_8 = Some [5] ∧
  ∃ st', push_all int_traits [1; 2; 3] reserved_8 = Ok tt st' ∧
         elements st' = Some [5; 1; 2; 3] ∧
         begin (this st') = begin (this reserved_8).
Proof.
  assert (well_formed int_traits reserved_8) as Hwf by (split; [reflexivity|by vm_compute]).
  split; [apply int_traits_sane|]. split; [exact Hwf|]. split; [reflexivity|].
  destruct (reserved_PushBack int_traits reserved_8 [5] [1; 2; 3] int_traits_sane Hwf
              eq_refl ltac:(by vm_compute) eq_refl) as (st' & HR & Hel & (Hb & _) & _).
  by exists st'.
Defined.

(** * C2: the invariant on every exit, by return or by exception *)

(** ** Relocation that throws part way *)

Section RelocationThrows.

Context {T : Type} (E : Traits T).
Variables (h : Heap T) (first d_first : Ptr) (a a' i j : nat).
Variables (src dst : Block T) (xs : list T).
Hypothesis Hne : a ≠ a'.
Hypothesis Hfb : base first = Some a.
Hypothesis Hfo : off first = Z.of_nat i.
Hypothesis Hdb : base d_first = Some a'.
Hypothesis Hdo : off d_first = Z.of_nat j.
Hypothesis Hsrc : get_block h a = Some src.
Hypothesis Hdst : get_block h a' = Some dst.
Hypothesis Hxs : ∀ k x, xs !! k = Some x → src !! (i + k)%nat = Some (Some x).
Hypothesis Hroom : (j + length xs ≤ length dst)%nat.
Hypothesis Hraw : ∀ k, (k < length xs)%nat → dst !! (j + k)%nat = Some None.

Local Abbreviation moved_to := (moved E h a a' i j src dst xs).

Lemma move_step_throws k x :
  xs !! k = Some x → move_throws E x = true →
  move_construct_at E (ptr_add d_first (Z.of_nat k)) (ptr_add first (Z.of_nat k)) (moved_to k)
  = Throw (moved_to k).
Proof.
  intros Hk Hx. unfold move_construct_at.
  erewrite bind_Ok; cycle 1.
  { eapply (load_block _ _ a (i + k)%nat _ x); simpl; [done|lia| |].
    - by apply moved_src.
    - by apply (moved_src_lookup E a a' i j src dst xs). }
  by rewrite Hx.
Qed.

(** [std::uninitialized_move_n] into raw storage: a move throws, the objects
    constructed so far are destroyed, and the objects moved from so far stay
    as the moves left them. *)
Lemma uninitialized_move_n_Throw :
  none_throws (move_throws E) xs = false →
  ∃ m, (m < length xs)%nat ∧
       uninitialized_move_n E first (Z.of_nat (length xs)) d_first h
       = Throw (set_block a (list_inserts i (Some ∘ moved_from E <$> take m xs) src) h).
Proof.
  intros Hall. unfold uninitialized_move_n. rewrite Nat2Z.id.
  destruct (first_throw_at a a' i j dst xs Hne Hroom _ Hall) as (m & x & Hlook & Hx & Hbefore).
  assert (m < length xs)%nat as Hlt by (by eapply lookup_lt_Some).
  assert (a' < length h)%nat as Hlt' by (by eapply get_block_lt).
  assert (a < length h)%nat as Hlta by (by eapply get_block_lt).
  exists m. split; [done|].
  assert (moved_to 0 = h) as H0 by (by apply moved_0).
  rewrite <- H0 at 1.
  apply (uninitialized_loop_Throw _ _ moved_to _ m); [lia| | |].
  - intros k Hk. destruct (lookup_lt_is_Some_2 xs k) as [y Hy]; [lia|].
    apply (move_step E h first d_first a a' i j src dst xs Hne Hfb Hfo Hdb Hdo Hsrc Hdst
             Hxs Hroom k y Hy).
    apply (Hbefore k y); [lia|done].
  - by apply (move_step_throws m x).
  - rewrite (destroy_loop_block _ _ _ a' j (list_inserts j (Some <$> take m xs) dst)).
    + unfold moved. rewrite set_block_set.
      set (S := list_inserts i (Some ∘ moved_from E <$> take m xs) src).
      rewrite <- (set_block_id (set_block a S h) a' dst) at 2
        by (by rewrite get_block_set_ne).
      do 2 f_equal. apply list_eq. intros n.
      destruct (decide (n < j)%nat).
      { by rewrite !list_lookup_inserts_lt by lia. }
      destruct (decide (j + m ≤ n)%nat).
      { rewrite !list_lookup_inserts_ge; [done| |];
          rewrite ?length_replicate, ?length_fmap, ?length_take; lia. }
      rewrite list_lookup_inserts;
        rewrite ?length_replicate, ?length_inserts; [|lia|lia].
      rewrite lookup_replicate_2 by lia.
      replace n with (j + (n - j))%nat at 1 by lia. symmetry. apply Hraw. lia.
    + done.
    + done.
    + unfold moved. apply get_block_set_eq. by rewrite length_set_block.
    + intros k Hk. destruct (lookup_lt_is_Some_2 xs k) as [y Hy]; [lia|].
      exists y. rewrite list_lookup_inserts;
        rewrite ?length_fmap, ?length_take; [|lia|lia].
      replace (j + k - j)%nat with k by lia.
      rewrite list_lookup_fmap, lookup_take_lt by lia. by rewrite Hy.
Qed.

(** Relocation that throws: the source block has the objects relocation
    left behind in front of the one whose construction threw, and the store
    is otherwise as it was. *)
Lemma relocate_Throw :
  none_throws (relocate_throws E) xs = false →
  ∃ m, (m < length xs)%nat ∧
       relocate E first (Z.of_nat (length xs)) d_first h
       = Throw (set_block a (list_inserts i (Some ∘ left_behind E <$> take m xs) src) h).
Proof.
  unfold relocate, relocate_throws, left_behind.
  destruct (relocates_by_move E); intros Hall.
  - by apply uninitialized_move_n_Throw.
  - destruct (first_throw_at a a' i j dst xs Hne Hroom _ Hall) as (m & x & Hlook & _).
    exists m. split; [by eapply lookup_lt_Some|].
    rewrite (uninitialized_copy_n_Throw E h first d_first a a' i j src dst xs) by done.
    f_equal. rewrite (list_inserts_same src i); [by rewrite set_block_id|].
    intros k s Hk. rewrite list_lookup_fmap in Hk.
    destruct (take m xs !! k) as [y|] eqn:Hy; [|discriminate].
    simpl in Hk. injection Hk as <-. apply Hxs.
    apply lookup_take_Some in Hy. apply Hy.
Qed.

End RelocationThrows.

(** ** What the member functions leave when they throw *)

Section Thrown.

Context {T : Type} (E : Traits T).
Hypothesis Hsane : sane E.
Implicit Types (h : Heap T) (v : Vector) (xs ys : list T) (st : State T).

Lemma block_of_insert xs cap (i : nat) x :
  (i < length xs)%nat → <[i := Some x]> (block_of xs cap) = block_of (<[i := x]> xs) cap.
Proof.
  intros Hi. unfold block_of.
  rewrite insert_app_l by (by rewrite length_fmap).
  by rewrite list_fmap_insert, length_insert.
Qed.

(** Live objects overwritten by other live objects. *)
Lemma block_of_inserts (l : list T) : ∀ (i : nat) xs cap,
  (i + length l ≤ length xs)%nat →
  list_inserts i (Some <$> l) (block_of xs cap) = block_of (list_inserts i l xs) cap.
Proof.
  induction l as [|x l IH]; intros i xs cap Hle; [done|].
  simpl in *. rewrite IH by lia. apply block_of_insert. rewrite length_inserts. lia.
Qed.

Lemma set_block_app h k a blk :
  (a < length h)%nat → set_block a blk (h ++ k) = set_block a blk h ++ k.
Proof. intros Ha. unfold set_block. by apply insert_app_l. Qed.

(** Relocation of a run [seg] of the elements [ys] of a container that
    throws: the container's block holds as many elements as before. *)
Lemma relocate_thrown h first d_first a a' (i j : nat) cap ys dst seg :
  a ≠ a' → base first = Some a → off first = Z.of_nat i →
  base d_first = Some a' → off d_first = Z.of_nat j →
  get_block h a = Some (block_of ys cap) → get_block h a' = Some dst →
  (∀ k x, seg !! k = Some x → ys !! (i + k)%nat = Some x) →
  (j + length seg ≤ length dst)%nat →
  (∀ k, (k < length seg)%nat → dst !! (j + k)%nat = Some None) →
  none_throws (relocate_throws E) seg = false →
  ∃ ys', length ys' = length ys ∧
         relocate E first (Z.of_nat (length seg)) d_first h
         = Throw (set_block a (block_of ys' cap) h).
Proof.
  intros Hne Hfb Hfo Hdb Hdo Hsrc Hdst Hseg Hroom Hraw Hall.
  destruct (relocate_Throw E h first d_first a a' i j (block_of ys cap) dst seg)
    as (m & Hm & HR); try done.
  { intros k x Hk. apply block_of_live. by apply Hseg. }
  exists (list_inserts i (left_behind E <$> take m seg) ys).
  split; [by rewrite length_inserts|].
  rewrite HR. do 2 f_equal. rewrite list_fmap_compose. apply block_of_inserts.
  rewrite length_fmap, length_take_le by lia.
  destruct (lookup_lt_is_Some_2 seg m Hm) as [x Hx].
  apply Hseg in Hx. apply lookup_lt_Some in Hx. lia.
Qed.

(** What a call that throws leaves of the container holding [xs]: the object
    as it was, as many elements in its block, and possibly a block that was
    obtained and released. *)
Definition thrown h v xs (st' : State T) : Prop :=
  ∃ xs' (l : Heap T), length xs' = length xs ∧ (l = [] ∨ l = [None]) ∧
                      st' = mkState v (mem (updated h v xs') ++ l).

Lemma thrown_same h v xs : holds E h v xs → thrown h v xs (mkState v h).
Proof.
  intros Hh. exists xs, []. split; [done|]. split; [by left|].
  by rewrite (updated_same E h v xs), app_nil_r.
Qed.

Lemma thrown_freed h v xs : holds E h v xs → thrown h v xs (mkState v (h ++ [None])).
Proof.
  intros Hh. exists xs, [None]. split; [done|]. split; [by right|].
  by rewrite (updated_same E h v xs).
Qed.

Lemma Reserve_relocation_throws h v xs n :
  holds E h v xs → Capacity v < n → n * sizeof_T E < SIZE_MOD →
  can_alloc E (n * sizeof_T E) = true →
  none_throws (relocate_throws E) xs = false →
  ∃ xs', length xs' = length xs ∧
         Reserve E n (mkState v h) = Throw (mkState v (mem (updated h v xs') ++ [None])).
Proof.
  intros Hh Hlt Hfit Hc Hall.
  destruct (holds_inv E h v xs Hh) as (b & cap & -> & Hle & Hbytes & Hblk).
  unfold Capacity in Hlt. cbn [vec data_ capacity_] in Hlt.
  pose proof (RawMemory_sized_pos E Hsane n h ltac:(lia) Hfit) as Halloc.
  rewrite Hc in Halloc.
  destruct b as [a|]; cycle 1.
  { destruct Hblk as [_ ->]. discriminate. }
  assert (a < length h)%nat as Ha by (by eapply get_block_lt).
  set (h1 := h ++ [Some (replicate (Z.to_nat n) None)]).
  destruct (relocate_thrown h1 (mkPtr (Some a) 0) (mkPtr (Some (length h)) 0) a (length h)
              0 0 (Z.to_nat cap) xs (replicate (Z.to_nat n) None) xs)
    as (xs' & Hlen & Hthrow); try done.
  { lia. }
  { by apply get_block_app_l. }
  { apply get_block_app_new. }
  { rewrite length_replicate. lia. }
  { intros k Hk. apply lookup_replicate_2. lia. }
  exists xs'. split; [done|].
  unfold Reserve. step by reflexivity.
  unfold Capacity. cbn [vec data_ capacity_ size_].
  rewrite (proj2 (Z.leb_gt _ _) Hlt).
  step by (by apply on_heap_Ok, Halloc).
  apply bind_Throw.
  apply (try_catch_Throw _ _ _
           (mkState (vec (mkPtr (Some a) 0) cap (Z.of_nat (length xs)))
                    (set_block a (block_of xs' (Z.to_nat cap)) h1))).
  - apply bind_Throw. rewrite FillNewData_relocate. apply on_heap_Throw. cbn [this mem].
    exact Hthrow.
  - unfold on_heap, RawMemory_destroy, Deallocate. cbn [mem this buffer_].
    rewrite (operator_delete_block _ (length h) (replicate (Z.to_nat n) None)); cycle 1.
    { rewrite get_block_set_ne by lia. apply get_block_app_new. }
    do 2 f_equal. unfold updated, Capacity. cbn [mem vec data_ buffer_ base capacity_].
    rewrite free_set_block_ne by lia. unfold h1. rewrite free_new.
    by apply set_block_app.
Qed.

(** [Reserve] that throws. *)
Lemma Reserve_thrown h v xs n st' :
  holds E h v xs → 0 ≤ n → n * sizeof_T E < SIZE_MOD →
  Reserve E n (mkState v h) = Throw st' → thrown h v xs st'.
Proof.
  intros Hh Hn Hfit HR.
  destruct (Z.le_gt_cases n (Capacity v)) as [Hle|Hgt].
  { rewrite Reserve_noop in HR by done. discriminate. }
  destruct (can_alloc E (n * sizeof_T E)) eqn:Hc; cycle 1.
  { rewrite (Reserve_alloc_fails E Hsane h v xs n) in HR by done. injection HR as <-.
    by apply thrown_same. }
  destruct (none_throws (relocate_throws E) xs) eqn:Hall.
  { destruct (Reserve_grow E Hsane h v xs n Hh Hgt Hfit) as [Hok _].
    rewrite Hok in HR by (by rewrite Hc, Hall). discriminate. }
  destruct (Reserve_relocation_throws h v xs n Hh Hgt Hfit Hc Hall) as (xs' & Hlen & Hthrow).
  rewrite Hthrow in HR. injection HR as <-.
  exists xs', [None]. split; [done|]. split; [by right|done].
Qed.

(** [Resize] that throws: the container is as a throwing [Reserve] left it,
    or it has moved to the larger storage with its elements. *)
Lemma Resize_thrown h v xs n st' :
  holds E h v xs → 0 ≤ n → n * sizeof_T E < SIZE_MOD →
  Resize E n (mkState v h) = Throw st' →
  thrown h v xs st' ∨ step_shape E h v st'.
Proof.
  intros Hh Hn Hfit HR.
  assert (size_ v = Z.of_nat (length xs)) as Hsz by apply Hh.
  assert (size_ v ≤ Capacity v) as Hle by apply Hh.
  assert (Capacity v * sizeof_T E ≤ PTRDIFF_MAX) as Hbytes by apply Hh.
  destruct (capacity_bound E Hsane (Capacity v)) as (Hc1 & Hc2 & Hc3); [lia|done|].
  destruct (Z.lt_ge_cases n (size_ v)) as [Hlt|Hge].
  { rewrite (Resize_shrink E Hsane h v xs n Hh) in HR by lia. discriminate. }
  destruct (Z.le_gt_cases n (Capacity v)) as [Hin|Hout].
  { destruct (Resize_within E Hsane h v xs n Hh ltac:(lia)) as [Hok Hthrow].
    destruct (value_init E) as [v0|] eqn:Hv0.
    - rewrite Hok in HR by (left; by eexists). discriminate.
    - destruct (decide (n = size_ v)) as [Heq|Hne].
      + rewrite Hok in HR by (by right). discriminate.
      + rewrite Hthrow in HR by (done || lia). injection HR as <-. left.
        by apply thrown_same. }
  set (n' := Z.max (Capacity v * 2) n).
  assert (n' * sizeof_T E < SIZE_MOD) as Hfit'.
  { unfold n'. destruct (Z.max_spec (Capacity v * 2) n) as [[_ ->]|[_ ->]]; lia. }
  rewrite Resize_growing in HR by lia.
  rewrite (wrap_small (Capacity v * 2)) in HR by lia. fold n' in HR.
  apply bind_Throw_inv in HR as [HR|([] & s1 & HR & Hrest)].
  { left. by apply (Reserve_thrown h v xs n'); [|lia| |]. }
  destruct (Reserve_inv E Hsane h v xs n' s1 Hh ltac:(lia) Hfit' HR)
    as [[Hle' _]|(_ & Hgrant & Hall & ->)]; [lia|].
  right. right. exists xs, n'.
  split; [lia|]. split; [by apply (granted_bound E Hsane)|].
  apply bind_Throw_inv in Hrest as [Hrest|(r & s2 & _ & Hset)]; [|discriminate].
  destruct (value_init E) as [v0|] eqn:Hv0.
  - exfalso. destruct (Resize_grow E Hsane h v xs n Hh Hout Hfit) as [Hok _].
    fold n' in Hok. rewrite Hv0, Hgrant, Hall in Hok. specialize (Hok eq_refl).
    rewrite Resize_growing in Hok by lia.
    rewrite (wrap_small (Capacity v * 2)) in Hok by lia. fold n' in Hok.
    rewrite bind_Ok with (a := tt) (s' := reallocated h v xs n') in Hok by exact HR.
    by rewrite (bind_Throw _ _ _ _ Hrest) in Hok.
  - pose proof (count_fits E Hsane n Hn Hfit) as Hcount.
    unfold bind, get_this, on_heap in Hrest.
    cbn [this mem reallocated size_ vec] in Hrest.
    replace (wrap (n - Z.of_nat (length xs)))
      with (Z.of_nat (Z.to_nat (n - Z.of_nat (length xs)))) in Hrest
      by (rewrite wrap_small; lia).
    rewrite uninitialized_value_construct_n_Throw in Hrest by (done || lia).
    by injection Hrest as <-.
Qed.

(** [Emplace] into a full container when relocation throws. *)
Lemma Emplace_relocation_throws h v xs (p : nat) x :
  holds E h v xs → size_ v = Capacity v → (p ≤ length xs)%nat →
  can_alloc E ((if size_ v =? 0 then 1 else size_ v * 2) * sizeof_T E) = true →
  none_throws (relocate_throws E) xs = false →
  ∃ xs', length xs' = length xs ∧
         Emplace E (ptr_add (begin v) (Z.of_nat p)) (Some x) (mkState v h)
         = Throw (mkState v (mem (updated h v xs') ++ [None])).
Proof.
  intros Hh Hfull Hp Hc Hall.
  destruct (holds_inv E h v xs Hh) as (b & cap & -> & Hle & Hbytes & Hblk).
  unfold Capacity in Hfull.
  cbn [size_ data_ capacity_ vec begin GetAddress buffer_] in *.
  set (cap' := if Z.of_nat (length xs) =? 0 then 1 else Z.of_nat (length xs) * 2) in *.
  pose proof (sizeof_pos E Hsane) as Hs. pose proof (sizeof_fits E Hsane) as Hs'.
  subst cap.
  destruct (capacity_bound E Hsane (Z.of_nat (length xs))) as (Hc1 & Hc2 & Hc3); [lia|done|].
  assert (cap' = if length xs is O then 1 else 2 * Z.of_nat (length xs)) as Hcap'.
  { subst cap'. destruct (length xs); [done|].
    rewrite (proj2 (Z.eqb_neq _ _)) by lia. lia. }
  assert (0 < cap' ∧ cap' * sizeof_T E < SIZE_MOD ∧ Z.of_nat (length xs) < cap')
    as (Hc0 & Hfit & Hroom).
  { rewrite Hcap'. destruct (length xs) eqn:Hl; [lia|]. nia. }
  pose proof (RawMemory_sized_pos E Hsane cap' h Hc0 Hfit) as Halloc.
  rewrite Hc in Halloc.
  destruct b as [a|]; cycle 1.
  { destruct Hblk as [_ ->]. discriminate. }
  assert (a < length h)%nat as Ha by (by eapply get_block_lt).
  set (capn := Z.to_nat (Z.of_nat (length xs))) in *.
  set (h1 := h ++ [Some (replicate (Z.to_nat cap') None)]).
  assert (length h1 = S (length h)) as Hlen1.
  { unfold h1. rewrite length_app. simpl. lia. }
  assert (construct_at (ptr_add (mkPtr (Some (length h)) 0) (Z.of_nat p)) x h1
          = Ok tt (set_block (length h) (<[p := Some x]> (replicate (Z.to_nat cap') None)) h1))
    as Hnew.
  { apply construct_at_block; [done|simpl; lia|apply get_block_app_new|].
    rewrite length_replicate. lia. }
  set (D0 := <[p := Some x]> (replicate (Z.to_nat cap') None)) in *.
  set (h2 := set_block (length h) D0 h1) in *.
  assert (get_block h2 a = Some (block_of xs capn)) as Hg2.
  { unfold h2. rewrite get_block_set_ne by lia. by apply get_block_app_l. }
  assert (get_block h2 (length h) = Some D0) as Hd2.
  { unfold h2. apply get_block_set_eq. lia. }
  assert (length D0 = Z.to_nat cap') as HlenD0
    by (unfold D0; by rewrite length_insert, length_replicate).
  assert (length (take p xs) = p) as Hlp by (rewrite length_take; lia).
  remember (Emplace E _ _ _) as R eqn:HR.
  unfold Emplace in HR. step in HR by reflexivity.
  unfold iterator_offset, begin, GetAddress in HR.
  cbn [size_ data_ capacity_ vec buffer_] in HR.
  rewrite ptr_diff_add in HR.
  rewrite wrap_small in HR by lia.
  step in HR by reflexivity.
  unfold Capacity in HR. cbn [size_ data_ capacity_ vec buffer_] in HR.
  rewrite Z.eqb_refl in HR.
  unfold InsertWithoutRelocation in HR. step in HR by reflexivity.
  cbn [size_ data_ capacity_ vec buffer_] in HR.
  rewrite (wrap_small (_ * 2)) in HR by lia.
  fold cap' in HR. rewrite ?bind_assoc in HR.
  step in HR by (by apply on_heap_Ok, Halloc).
  fold h1 in HR. unfold GetAddress in HR. cbn [buffer_] in HR.
  set (v0 := vec (mkPtr (Some a) 0) (Z.of_nat (length xs)) (Z.of_nat (length xs))) in *.
  assert (∀ h' blk B, get_block h' (length h) = Some blk →
            <[length h := None]> h' = set_block a B (h ++ [None]) →
            on_heap (RawMemory_destroy (mkRawMemory (mkPtr (Some (length h)) 0) cap'))
              (mkState v0 h') = Ok tt (mkState v0 (set_block a B h ++ [None]))) as Hrelease.
  { intros h' blk B Hg Hfree. apply on_heap_Ok. unfold RawMemory_destroy, Deallocate.
    cbn [buffer_]. rewrite (operator_delete_block h' (length h) blk Hg), Hfree.
    by rewrite set_block_app. }
  assert (∀ xs' (R' : Outcome (State T) Ptr), length xs' = length xs →
            R' = Throw (mkState v0 (set_block a (block_of xs' capn) h ++ [None])) →
            ∃ xs', length xs' = length xs ∧
                   R' = Throw (mkState v0 (mem (updated h v0 xs') ++ [None]))) as Hdone.
  { intros xs' R' Hlen ->. by exists xs'. }
  rewrite (none_throws_take_drop _ p xs) in Hall.
  destruct (none_throws (relocate_throws E) (take p xs)) eqn:Hall1; cycle 1.
  { destruct (relocate_thrown h2 (mkPtr (Some a) 0) (mkPtr (Some (length h)) 0) a (length h)
                0 0 capn xs D0 (take p xs)) as (xs' & Hlen & Hthrow); try done.
    { lia. }
    { intros k y Hk. apply lookup_take_Some in Hk. apply Hk. }
    { lia. }
    { intros k Hk. unfold D0. rewrite list_lookup_insert_ne by lia.
      apply lookup_replicate_2. lia. }
    rewrite Hlp in Hthrow.
    apply (Hdone xs' R Hlen). subst R. rewrite ?bind_assoc. apply bind_Throw.
    apply (try_catch_Throw _ _ _ (mkState v0 (set_block a (block_of xs' capn) h2))).
    - step by reflexivity. step by (by apply on_heap_Ok, Hnew).
      rewrite ?bind_assoc. apply bind_Throw.
      rewrite FillNewData_relocate. apply on_heap_Throw. exact Hthrow.
    - apply (Hrelease _ D0); [by rewrite get_block_set_ne by lia|].
      rewrite free_set_block_ne by lia. unfold h2, h1.
      by rewrite free_set_block_eq, free_new. }
  cbn [andb] in Hall.
  destruct (relocate_block E h2 (mkPtr (Some a) 0) (mkPtr (Some (length h)) 0)
              a (length h) 0 0 (block_of xs capn) D0 (take p xs)) as [Hok1 _]; try done.
  { lia. }
  { intros k y Hk. apply block_of_live. apply lookup_take_Some in Hk. apply Hk. }
  { lia. }
  rewrite Hlp in Hok1. specialize (Hok1 Hall1).
  set (xs1 := list_inserts 0 (left_behind E <$> take p xs) xs).
  assert (length xs1 = length xs) as Hlen1' by (unfold xs1; by rewrite length_inserts).
  assert (list_inserts 0 (Some ∘ left_behind E <$> take p xs) (block_of xs capn)
          = block_of xs1 capn) as HS1.
  { rewrite list_fmap_compose. apply block_of_inserts. rewrite length_fmap. lia. }
  rewrite HS1 in Hok1.
  set (D1 := list_inserts 0 (Some <$> take p xs) D0) in *.
  set (h3 := set_block (length h) D1 (set_block a (block_of xs1 capn) h2)) in *.
  assert (length D1 = Z.to_nat cap') as HlenD1 by (unfold D1; by rewrite length_inserts).
  destruct (relocate_thrown h3 (ptr_add (mkPtr (Some a) 0) (Z.of_nat p))
              (ptr_add (ptr_add (mkPtr (Some (length h)) 0) (Z.of_nat p)) 1)
              a (length h) p (S p) capn xs1 D1 (drop p xs)) as (xs' & Hlen & Hthrow);
    try done.
  { lia. }
  { simpl. lia. }
  { unfold h3. rewrite get_block_set_ne by lia. apply get_block_set_eq.
    unfold h2. rewrite length_set_block. lia. }
  { unfold h3. apply get_block_set_eq. unfold h2. rewrite !length_set_block. lia. }
  { intros k y Hk. unfold xs1.
    rewrite list_lookup_inserts_ge by (rewrite length_fmap; lia).
    by rewrite lookup_drop in Hk. }
  { rewrite length_drop. lia. }
  { intros k Hk. rewrite length_drop in Hk. unfold D1.
    rewrite list_lookup_inserts_ge by (rewrite length_fmap; lia).
    unfold D0. rewrite list_lookup_insert_ne by lia.
    apply lookup_replicate_2. lia. }
  rewrite length_drop in Hthrow.
  replace (Z.of_nat (length xs - p)) with (Z.of_nat (length xs) - Z.of_nat p) in Hthrow by lia.
  apply (Hdone xs' R); [lia|]. subst R. rewrite ?bind_assoc. apply bind_Throw.
  apply (try_catch_Throw _ _ _ (mkState v0 (set_block a (block_of xs' capn) h3))).
  - step by reflexivity. step by (by apply on_heap_Ok, Hnew).
    step by (rewrite FillNewData_relocate; by apply on_heap_Ok, Hok1).
    rewrite ?bind_assoc. apply bind_Throw.
    cbn [v0 vec size_]. rewrite wrap_small by lia. rewrite relocate_on_heap.
    apply on_heap_Throw. exact Hthrow.
  - apply (Hrelease _ D1).
    + rewrite get_block_set_ne by lia. unfold h3. apply get_block_set_eq.
      unfold h2. rewrite !length_set_block. lia.
    + unfold h3, h2, h1.
      repeat (rewrite free_set_block_eq || rewrite free_set_block_ne by lia).
      by rewrite free_new, !set_block_set.
Qed.

(** [Emplace] into a full container that throws. *)
Lemma Emplace_full_thrown h v xs (p : nat) c st' :
  holds E h v xs → size_ v = Capacity v → (p ≤ length xs)%nat →
  Emplace E (ptr_add (begin v) (Z.of_nat p)) c (mkState v h) = Throw st' →
  thrown h v xs st'.
Proof.
  intros Hh Hfull Hp HR.
  destruct (Emplace_full_throws E Hsane h v xs p c Hh Hfull Hp) as [Hnone Hsome].
  destruct (can_alloc E _) eqn:Hc; cycle 1.
  { rewrite Hnone in HR by done. injection HR as <-. by apply thrown_same. }
  destruct c as [x|]; cycle 1.
  { rewrite Hsome in HR by (done || by left). injection HR as <-. by apply thrown_freed. }
  destruct (none_throws (relocate_throws E) xs) eqn:Hall.
  { destruct (Emplace_realloc E Hsane h v xs p (Some x) Hh Hfull Hp) as [Hok _].
    rewrite (Hok x eq_refl) in HR by (by rewrite Hc, Hall). discriminate. }
  destruct (Emplace_relocation_throws h v xs p x Hh Hfull Hp Hc Hall)
    as (xs' & Hlen & Hthrow).
  rewrite Hthrow in HR. injection HR as <-.
  exists xs', [None]. split; [done|]. split; [by right|done].
Qed.

(** [std::move] of the run [l] one slot towards the front, when a move
    assignment throws: the objects in front of it have moved, and the run
    and the slot before it still hold as many live objects. *)
Lemma move_loop_Throw a l : ∀ h (pre post : Block T) y first d_first,
  base first = Some a → off first = Z.of_nat (S (length pre)) →
  base d_first = Some a → off d_first = Z.of_nat (length pre) →
  get_block h a = Some (pre ++ Some y :: (Some <$> l) ++ post) →
  none_throws (move_assign_throws E) l = false →
  ∃ l', length l' = S (length l) ∧
        move_loop E first d_first (length l) h
        = Throw (set_block a (pre ++ (Some <$> l') ++ post) h).
Proof.
  induction l as [|z l IH]; intros h pre post y first d_first Hfb Hfo Hdb Hdo Hg Hall;
    [discriminate|].
  simpl in Hg.
  destruct (move_assign_at_adjacent E h a pre ((Some <$> l) ++ post) y z d_first first
              Hdb Hfb Hg) as (Hok & _).
  unfold none_throws in Hall. simpl in Hall. fold (none_throws (move_assign_throws E) l) in Hall.
  destruct (move_assign_throws E z) eqn:Hz; simpl in Hall.
  - exists (y :: z :: l). split; [done|]. simpl. apply bind_Throw.
    rewrite set_block_id by done.
    unfold move_assign_at.
    erewrite bind_Ok by (eapply load_block; eauto using lookup_after_middle).
    erewrite bind_Ok by (eapply load_block; eauto using list_lookup_middle).
    by rewrite Hz.
  - destruct (IH (set_block a (pre ++ Some z :: Some (moved_from E z) :: (Some <$> l) ++ post) h)
                (pre ++ [Some z]) post (moved_from E z) (ptr_add first 1) (ptr_add d_first 1))
      as (l' & Hlen & HR).
    + done.
    + simpl. rewrite length_app. simpl. lia.
    + done.
    + simpl. rewrite length_app. simpl. lia.
    + rewrite <- app_assoc. simpl. apply get_block_set_eq. by eapply get_block_lt.
    + done.
    + exists (z :: l'). split; [simpl; lia|]. simpl.
      erewrite bind_Ok by (by apply Hok).
      rewrite HR, set_block_set. by rewrite <- app_assoc.
Qed.

(** [Erase] of the element [y] at index [length l1] that throws. *)
Lemma Erase_thrown h v l1 y l2 st' :
  holds E h v (l1 ++ y :: l2) →
  Erase E (ptr_add (cbegin v) (Z.of_nat (length l1))) (mkState v h) = Throw st' →
  thrown h v (l1 ++ y :: l2) st'.
Proof.
  intros Hh HR.
  destruct (Erase_spec E Hsane h v l1 y l2 Hh) as [Hspec _].
  destruct (none_throws (move_assign_throws E) l2) eqn:Hall.
  { rewrite Hspec in HR by done. discriminate. }
  clear Hspec.
  destruct (holds_inv E h v _ Hh) as (b & cap & -> & Hle & Hbytes & Hblk).
  destruct (capacity_bound E Hsane cap) as (Hc1 & Hc2 & _); [lia|done|].
  assert (length (l1 ++ y :: l2) = length l1 + length l2 + 1)%nat as Hlen.
  { rewrite length_app. simpl. lia. }
  destruct b as [a|]; [|destruct Hblk as [_ Hnil]; by destruct l1].
  assert (a < length h)%nat as Ha by (by eapply get_block_lt).
  set (xs := l1 ++ y :: l2) in *.
  set (v := vec (mkPtr (Some a) 0) cap (Z.of_nat (length xs))) in *.
  set (raws := replicate (Z.to_nat cap - length xs) (@None T)).
  assert (block_of xs (Z.to_nat cap) = (Some <$> l1) ++ Some y :: (Some <$> l2) ++ raws)
    as Hblock.
  { unfold block_of, xs. by rewrite fmap_app, fmap_cons, <- app_assoc. }
  rewrite Hblock in Hblk.
  destruct (move_loop_Throw a l2 h (Some <$> l1) raws y
              (ptr_add (ptr_add (begin v) (Z.of_nat (length l1))) 1)
              (ptr_add (begin v) (Z.of_nat (length l1)))) as (l' & Hlen' & Hshift);
    [done|simpl; rewrite length_fmap; lia|done|simpl; rewrite length_fmap; lia|done|done|].
  assert (std_move E (ptr_add (ptr_add (begin v) (Z.of_nat (length l1))) 1) (end_ v)
            (ptr_add (begin v) (Z.of_nat (length l1)))
          = move_loop E (ptr_add (ptr_add (begin v) (Z.of_nat (length l1))) 1)
              (ptr_add (begin v) (Z.of_nat (length l1))) (length l2)) as Hstd.
  { unfold std_move, ptr_diff. simpl. rewrite Nat.eqb_refl.
    rewrite (proj2 (Z.leb_le 0 _)) by lia. f_equal. lia. }
  exists (l1 ++ l'), [].
  assert (length (l1 ++ l') = length xs) as Hl by (rewrite length_app; lia).
  split; [done|]. split; [by left|]. rewrite app_nil_r.
  unfold Erase, noexcept in HR.
  erewrite bind_Ok in HR by reflexivity.
  erewrite bind_Ok in HR
    by (unfold assert_in_range, cbegin, cend, ptr_diff, GetAddress; simpl;
        rewrite Nat.eqb_refl; unfold assert;
        rewrite (proj2 (Z.leb_le 0 _)) by lia;
        rewrite (proj2 (Z.ltb_lt _ 0)) by lia; reflexivity).
  erewrite bind_Ok in HR
    by (unfold iterator_offset, cbegin; rewrite ptr_diff_add, wrap_small by lia;
        reflexivity).
  cbn [this mem] in HR. rewrite Hstd in HR.
  erewrite bind_Throw in HR by (by apply on_heap_Throw, Hshift).
  destruct (is_nothrow_move_assignable E); [discriminate|]. injection HR as <-.
  f_equal. unfold updated, v, Capacity. cbn [mem vec data_ buffer_ base capacity_].
  f_equal. unfold block_of. rewrite Hl. fold raws. by rewrite fmap_app, <- app_assoc.
Qed.

End Thrown.

(** ** The copy assignment that throws *)

Section AssignThrows.

Context {T : Type} (E : Traits T).
Variables (h : Heap T) (v : Vector) (a a' : nat) (cap capr : Z).
Variables (src dst : Block T) (ys : list T).
Hypothesis Hne : a ≠ a'.
Hypothesis Hsrc : get_block h a = Some src.
Hypothesis Hdst : get_block h a' = Some dst.
Hypothesis Hys : ∀ k y, ys !! k = Some y → src !! k = Some (Some y).
Hypothesis Hlive : ∀ k, (k < length ys)%nat → ∃ w, dst !! k = Some (Some w).
Hypothesis Hcap : Z.of_nat (length ys) ≤ cap.
Hypothesis Hcapr : Z.of_nat (length ys) ≤ capr.
Hypothesis Hsmall : cap < SIZE_MOD.

Local Abbreviation assigned_to := (assigned h v a' dst ys).

(** The loop of the copy assignment, when an assignment throws: the
    elements in front of it are assigned. *)
Lemma assign_loop_Throw n : ∀ done st',
  (done + n ≤ length ys)%nat →
  assign_loop E (mkRawMemory (mkPtr (Some a') 0) cap) (mkRawMemory (mkPtr (Some a) 0) capr)
    (Z.of_nat done) n (assigned_to done) = Throw st' →
  ∃ m, (m ≤ length ys)%nat ∧ st' = assigned_to m.
Proof.
  assert (a' < length h)%nat as Ha' by (by eapply get_block_lt).
  induction n as [|n IH]; intros done st' Hdone HR; [discriminate|].
  destruct (lookup_lt_is_Some_2 ys done) as [y Hy]; [lia|].
  destruct (Hlive done) as [w Hw]; [lia|].
  simpl assign_loop in HR.
  assert (∀ K : Ptr → M (State T) Z,
            (let* src0 := RawMemory_at (mkRawMemory (mkPtr (Some a) 0) capr) (Z.of_nat done)
             in K src0) (assigned_to done)
            = K (mkPtr (Some a) (Z.of_nat done)) (assigned_to done)) as Hat1.
  { intros K. unfold RawMemory_at, bind, assert. cbn [capacity_ buffer_].
    by rewrite (proj2 (Z.ltb_lt _ _)) by lia. }
  assert (∀ K : Ptr → M (State T) Z,
            (let* dst0 := RawMemory_at (mkRawMemory (mkPtr (Some a') 0) cap) (Z.of_nat done)
             in K dst0) (assigned_to done)
            = K (mkPtr (Some a') (Z.of_nat done)) (assigned_to done)) as Hat2.
  { intros K. unfold RawMemory_at, bind, assert. cbn [capacity_ buffer_].
    by rewrite (proj2 (Z.ltb_lt _ _)) by lia. }
  rewrite Hat1, Hat2 in HR.
  assert (load (mkPtr (Some a) (Z.of_nat done)) (mem (assigned_to done))
          = Ok y (mem (assigned_to done))) as Hl1.
  { apply (load_block _ _ a done src y); [done|done| |by apply Hys].
    unfold assigned. cbn [mem]. by rewrite get_block_set_ne. }
  assert (load (mkPtr (Some a') (Z.of_nat done)) (mem (assigned_to done))
          = Ok w (mem (assigned_to done))) as Hl2.
  { apply (load_block _ _ a' done (list_inserts 0 (Some <$> take done ys) dst) w);
      [done|done| |].
    - unfold assigned. cbn [mem]. by apply get_block_set_eq.
    - rewrite list_lookup_inserts_ge; [done|]. rewrite length_fmap, length_take. lia. }
  destruct (copy_assign_throws E y) eqn:Hthrow.
  - exists done. split; [lia|].
    erewrite bind_Throw in HR; [by injection HR|].
    unfold on_heap, copy_assign_at.
    erewrite bind_Ok by exact Hl1. erewrite bind_Ok by exact Hl2. by rewrite Hthrow.
  - assert (on_heap (copy_assign_at E (mkPtr (Some a') (Z.of_nat done))
                       (mkPtr (Some a) (Z.of_nat done))) (assigned_to done)
            = Ok tt (assigned_to (S done))) as Hstep.
    { unfold assigned in *. cbn [mem] in *. apply on_heap_Ok. unfold copy_assign_at.
      step by exact Hl1. step by exact Hl2. rewrite Hthrow.
      rewrite (store_block _ _ a' done (list_inserts 0 (Some <$> take done ys) dst) w);
        [|done|done| |].
      - rewrite set_block_set. do 2 f_equal.
        by rewrite <- (list_inserts_take_S Some dst 0 ys done y Hy).
      - by apply get_block_set_eq.
      - rewrite list_lookup_inserts_ge; [done|]. rewrite length_fmap, length_take. lia. }
    step in HR by exact Hstep.
    rewrite wrap_small in HR by lia.
    replace (Z.of_nat done + 1) with (Z.of_nat (S done)) in HR by lia.
    apply (IH (S done) st'); [lia|done].
Qed.

End AssignThrows.

Section CopyAssignThrows.

Context {T : Type} (E : Traits T).
Hypothesis Hsane : sane E.
Implicit Types (h : Heap T) (v : Vector) (xs ys : list T) (st : State T).

(** The copy assignment in place, both containers having storage. *)
Lemma copy_assign_in_place_thrown h v rhs xs ys a a' st' :
  holds E h v xs → holds E h rhs ys →
  base (buffer_ (data_ v)) = Some a' → base (buffer_ (data_ rhs)) = Some a → a ≠ a' →
  size_ rhs ≤ Capacity v →
  copy_assign_from E rhs (mkState v h) = Throw st' → thrown h v xs st'.
Proof.
  intros Hh Hr Hb Hbr Hne Hfits HR.
  destruct (copy_assign_in_place E Hsane h v rhs xs ys a a' Hh Hr Hb Hbr Hne Hfits)
    as [Hok _].
  destruct (holds_inv E h v xs Hh) as (b & cap & -> & Hle & Hbytes & Hblk).
  destruct (holds_inv E h rhs ys Hr) as (br & capr & -> & Hler & Hbytesr & Hblkr).
  cbn [data_ buffer_ base vec] in Hb, Hbr. subst b br.
  unfold Capacity in *. cbn [data_ capacity_ size_ vec] in *.
  destruct (capacity_bound E Hsane cap) as (Hc1 & Hc2 & _); [lia|done|].
  pose proof PTRDIFF_MAX_lt as HP.
  set (m := min (length xs) (length ys)) in *.
  assert (length (take m ys) = m) as Hlm by (rewrite length_take; lia).
  assert (a' < length h)%nat as Ha' by (by eapply get_block_lt).
  set (v0 := vec (mkPtr (Some a') 0) cap (Z.of_nat (length xs))) in *.
  assert (∀ k, (k ≤ m)%nat →
            thrown h v0 xs (assigned h v0 a' (block_of xs (Z.to_nat cap)) (take m ys) k))
    as Hassigned.
  { intros k Hk. exists (list_inserts 0 (take k (take m ys)) xs), [].
    split; [by rewrite length_inserts|]. split; [by left|].
    rewrite app_nil_r. unfold assigned, updated, v0, Capacity.
    cbn [mem vec data_ buffer_ base capacity_]. do 2 f_equal.
    apply block_of_inserts. rewrite length_take, Hlm. lia. }
  destruct (assign_loop_spec E h v0 a a' cap capr (block_of ys (Z.to_nat capr))
              (block_of xs (Z.to_nat cap)) (take m ys)) with (n := m) (done := 0%nat)
    as [Hloop_ok Hloop_fail]; try done; try lia.
  { intros k y Hk. apply block_of_live. apply lookup_take_Some in Hk. apply Hk. }
  { intros k Hk. destruct (lookup_lt_is_Some_2 xs k) as [x Hx]; [lia|].
    exists x. by apply block_of_live. }
  rewrite drop_0, take_take, Nat.min_id in Hloop_ok, Hloop_fail.
  rewrite assigned_0 in Hloop_ok, Hloop_fail by done.
  change (Z.of_nat 0) with 0 in Hloop_ok, Hloop_fail.
  pose proof HR as HR0.
  unfold copy_assign_from in HR. step in HR by reflexivity.
  unfold Capacity in HR. cbn [v0 data_ capacity_ size_ vec] in HR.
  rewrite (proj2 (Z.ltb_ge _ _)) in HR by lia.
  replace (Z.to_nat (Z.min (Z.of_nat (length xs)) (Z.of_nat (length ys)))) with m in HR by lia.
  fold v0 in HR.
  apply bind_Throw_inv in HR as [HR|(pos & s1 & Hloop & HR)].
  { rewrite <- (assigned_0 h v0 a' (block_of xs (Z.to_nat cap)) (take m ys)) in HR by done.
    destruct (assign_loop_Throw E h v0 a a' cap capr (block_of ys (Z.to_nat capr))
                (block_of xs (Z.to_nat cap)) (take m ys)) with (n := m) (done := 0%nat)
                (st' := st') as (k & Hk & ->); try done; try lia.
    - intros k y Hk. apply block_of_live. apply lookup_take_Some in Hk. apply Hk.
    - intros k Hk. destruct (lookup_lt_is_Some_2 xs k) as [x Hx]; [lia|].
      exists x. by apply block_of_live.
    - apply Hassigned. lia. }
  destruct (none_throws (copy_assign_throws E) (take m ys)); cycle 1.
  { specialize (Hloop_fail eq_refl). by rewrite Hloop in Hloop_fail. }
  specialize (Hloop_ok eq_refl). clear Hloop_fail. cbn [andb] in Hok.
  rewrite Hloop_ok in Hloop. injection Hloop as <- <-. simpl Nat.add in HR.
  unfold assigned in HR. rewrite take_take, Nat.min_id in HR.
  set (B1 := list_inserts 0 (Some <$> take m ys) (block_of xs (Z.to_nat cap))) in *.
  set (h1 := set_block a' B1 h) in *.
  assert (B1 = block_of (take m ys ++ drop m xs) (Z.to_nat cap)) as HB1
    by (apply assign_prefix_block; lia).
  destruct (Z.ltb_spec (Z.of_nat (length ys)) (Z.of_nat (length xs))) as [Hshrink|Hgrow].
  { rewrite Hok in HR0 by done. discriminate. }
  assert (m = length xs) as Hm by lia.
  unfold RawMemory_at in HR. cbn [capacity_ buffer_] in HR.
  destruct (Z.ltb_spec (Z.of_nat (length xs)) capr) as [H1|H1]; cycle 1.
  { exfalso. rewrite Hm in HR. unfold bind, assert in HR.
    by rewrite (proj2 (Z.ltb_ge _ _)) in HR by lia. }
  destruct (Z.ltb_spec (Z.of_nat (length xs)) cap) as [H2|H2]; cycle 1.
  { exfalso. rewrite Hm in HR. unfold bind, assert, ret in HR.
    rewrite (proj2 (Z.ltb_lt _ _)) in HR by lia.
    by rewrite (proj2 (Z.ltb_ge _ _)) in HR by lia. }
  cbn [andb] in Hok.
  destruct (none_throws (copy_throws E) (drop (length xs) ys)) eqn:Hall.
  { rewrite Hok in HR0 by done. discriminate. }
  clear Hok.
  rewrite Hm in HR. rewrite (proj2 (Z.ltb_lt _ _) H1) in HR.
  rewrite (proj2 (Z.ltb_lt _ _) H2) in HR.
  step in HR by reflexivity. step in HR by reflexivity.
  step in HR by reflexivity. step in HR by reflexivity.
  rewrite wrap_small in HR by lia.
  replace (Z.of_nat (length ys) - Z.of_nat (length xs))
    with (Z.of_nat (length (drop (length xs) ys))) in HR by (rewrite length_drop; lia).
  assert (drop m xs = []) as Hdrop by (apply drop_ge; lia).
  rewrite Hdrop, app_nil_r in HB1.
  assert (get_block h1 a = Some (block_of ys (Z.to_nat capr))) as Hga
    by (unfold h1; by rewrite get_block_set_ne).
  assert (get_block h1 a' = Some B1) as Hga' by (by apply get_block_set_eq).
  erewrite bind_Throw in HR; cycle 1.
  { apply on_heap_Throw.
    apply (uninitialized_copy_n_Throw E h1 _ _ a a' (length xs) (length xs)
             (block_of ys (Z.to_nat capr)) B1 (drop (length xs) ys));
      [done|done|simpl; lia|done|simpl; lia|done|done
      |intros k y Hk; apply block_of_live; by rewrite lookup_drop in Hk
      |rewrite HB1, length_block_of, length_drop by (rewrite length_take; lia); lia
      | |done].
    intros k Hk. rewrite length_drop in Hk. rewrite HB1. apply block_of_raw.
    rewrite length_take. lia. }
  injection HR as <-. fold v0. unfold h1, B1.
  pose proof (Hassigned m (le_n _)) as Hth. unfold assigned in Hth.
  by rewrite take_take, Nat.min_id in Hth.
Qed.

(** The copy assignment where one of the two containers has no buffer does
    not throw. *)
Lemma copy_assign_null_not_thrown h v rhs xs ys st' :
  holds E h v xs → holds E h rhs ys → size_ rhs ≤ Capacity v →
  base (buffer_ (data_ v)) = None ∨ base (buffer_ (data_ rhs)) = None →
  copy_assign_from E rhs (mkState v h) ≠ Throw st'.
Proof.
  intros Hh Hr Hfits Hnull HR.
  destruct (decide (base (buffer_ (data_ rhs)) = None)) as [Hbr|Hbr].
  - destruct (copy_assign_from_null E Hsane h v rhs xs ys Hh Hr Hbr) as [Hok _].
    destruct xs as [|x xs]; [|by rewrite Hok in HR].
    clear Hok.
    destruct (holds_inv E h v [] Hh) as (b & cap & -> & Hle & Hbytes & Hblk).
    destruct (holds_inv E h rhs ys Hr) as (br & capr & -> & Hler & Hbytesr & Hblkr).
    cbn [data_ buffer_ base vec] in Hbr. subst br. destruct Hblkr as [-> ->].
    unfold copy_assign_from, Capacity, bind, get_this, RawMemory_at, assert in HR.
    cbn [this mem data_ capacity_ size_ vec length buffer_] in HR.
    rewrite (proj2 (Z.ltb_ge _ _)) in HR by (simpl in *; lia).
    simpl in HR. discriminate.
  - destruct Hnull as [Hb|Hb]; [|done].
    destruct (holds_inv E h v xs Hh) as (b & cap & -> & Hle & Hbytes & Hblk).
    destruct (holds_inv E h rhs ys Hr) as (br & capr & -> & Hler & Hbytesr & Hblkr).
    cbn [data_ buffer_ base vec] in Hb. subst b. destruct Hblk as [-> ->].
    unfold Capacity in Hfits. cbn [data_ capacity_ size_ vec length] in *.
    assert (ys = []) as -> by (destruct ys; [done|simpl in *; lia]).
    unfold copy_assign_from, Capacity, bind, get_this, RawMemory_at, assert in HR.
    cbn [this mem data_ capacity_ size_ vec length buffer_] in HR.
    simpl in HR. destruct (0 <? capr); discriminate.
Qed.

(** The copy assignment from another container that throws. *)
Lemma copy_assign_from_thrown h v rhs xs ys st' :
  holds E h v xs → holds E h rhs ys → (∀ a, owns v a → ¬ owns rhs a) →
  copy_assign_from E rhs (mkState v h) = Throw st' → thrown h v xs st'.
Proof.
  intros Hh Hr Hsep HR.
  assert (size_ rhs = Z.of_nat (length ys)) as Hszr by apply Hr.
  destruct (Z.lt_ge_cases (Capacity v) (size_ rhs)) as [Hlt|Hfits].
  - rewrite (copy_assign_realloc E Hsane h v rhs xs ys Hh Hr Hlt) in HR.
    destruct (can_alloc E _) eqn:Hgrant.
    + destruct (none_throws _ _); [discriminate|]. injection HR as <-.
      by apply (thrown_freed E).
    + injection HR as <-. by apply (thrown_same E).
  - destruct (base (buffer_ (data_ v))) as [a'|] eqn:Hb; cycle 1.
    { by destruct (copy_assign_null_not_thrown h v rhs xs ys st' Hh Hr ltac:(lia)
                     ltac:(by left)). }
    destruct (base (buffer_ (data_ rhs))) as [a|] eqn:Hbr; cycle 1.
    { by destruct (copy_assign_null_not_thrown h v rhs xs ys st' Hh Hr ltac:(lia)
                     ltac:(by right)). }
    assert (a ≠ a') as Hne.
    { intros ->. by apply (Hsep a'). }
    by apply (copy_assign_in_place_thrown h v rhs xs ys a a').
Qed.

End CopyAssignThrows.

(** ** The program after an operation that throws *)

(** An insertion into a container that has spare capacity: the call that
    runs [InsertWithRelocation], whose handler frees [end()]. *)
Definition into_spare_capacity {T} (op : Op T) (w : World T) : Prop :=
  match op with
  | OpEmplaceBack this_ _ | OpPushBackCopy this_ _ | OpPushBackMove this_ _
  | OpEmplace this_ _ _ | OpInsertCopy this_ _ _ | OpInsertMove this_ _ _ =>
      ∃ v, objects w !! this_ = Some v ∧ Size v < Capacity v
  | _ => False
  end.

Section EveryExit.

Context {T : Type} (E : Traits T).
Hypothesis Hsane : sane E.
Implicit Types (h : Heap T) (v : Vector) (xs : list T) (st : State T) (w : World T).

Lemma World_wf_freed w (l : Heap T) :
  World_wf E w → l = [] ∨ l = [None] → World_wf E (mkWorld (objects w) (heap w ++ l)).
Proof.
  intros Hwf [-> | ->].
  - rewrite app_nil_r. by destruct w.
  - destruct Hwf as [Hwf Hown]. split; cbn [objects heap]; [|done].
    intros i v Hi.
    destruct (well_formed_holds E _ (Hwf i v Hi)) as [xs Hh]. cbn [this mem] in Hh.
    apply (holds_well_formed E _ _ xs). by apply holds_app_freed.
Qed.

(** A call on one container that throws keeps the program well formed. *)
Lemma World_wf_thrown w i v xs st' :
  World_wf E w → objects w !! i = Some v → holds E (heap w) v xs →
  thrown (heap w) v xs st' →
  World_wf E (mkWorld (<[i := this st']> (objects w)) (mem st')).
Proof.
  intros Hwf Hi Hh (xs' & l & Hlen & Hl & ->). cbn [this mem].
  assert (this (updated (heap w) v xs') = v) as Hthis.
  { destruct (holds_inv E _ _ _ Hh) as (b & cap & -> & _).
    unfold updated, Capacity. cbn [this vec data_ buffer_ capacity_]. by rewrite Hlen. }
  assert (step_shape E (heap w) v (updated (heap w) v xs')) as Hshape.
  { left. exists xs'. split; [|done].
    assert (size_ v = Z.of_nat (length xs)) by apply Hh.
    assert (size_ v ≤ Capacity v) by apply Hh. lia. }
  pose proof (World_wf_step E w i v _ Hwf Hi Hshape) as Hstep.
  rewrite Hthis in Hstep. by apply (World_wf_freed _ l) in Hstep.
Qed.

Lemma at_object_Throw_inv {A} (a : nat) (m : M (State T) A) w w' :
  at_object a m w = Throw w' →
  ∃ v st', objects w !! a = Some v ∧ m (mkState v (heap w)) = Throw st' ∧
           w' = mkWorld (<[a := this st']> (objects w)) (mem st').
Proof.
  unfold at_object. destruct (objects w !! a) as [v|]; [|discriminate].
  destruct (m (mkState v (heap w))) as [r0 st0|st0| |] eqn:Hm; try discriminate.
  intros [= <-]. by exists v, st0.
Qed.

Lemma on_free_store_Throw_inv {A} (m : M (Heap T) A) w w' :
  on_free_store m w = Throw w' → ∃ h', m (heap w) = Throw h' ∧ w' = mkWorld (objects w) h'.
Proof.
  unfold on_free_store. destruct (m (heap w)) as [r0 h0|h0| |]; try discriminate.
  intros [= <-]. by exists h0.
Qed.

Lemma object_not_thrown (a : nat) w w' : object a w ≠ Throw w'.
Proof. unfold object. by destruct (objects w !! a). Qed.

(** A member function that leaves its container in one of the known
    shapes when it throws. *)
Lemma at_object_thrown_wf {A} (m : M (State T) A) w this_ w' :
  World_wf E w →
  (∀ v xs st', objects w !! this_ = Some v → holds E (heap w) v xs →
               m (mkState v (heap w)) = Throw st' →
               thrown (heap w) v xs st' ∨ step_shape E (heap w) v st') →
  at_object this_ m w = Throw w' → World_wf E w'.
Proof.
  intros Hwf Hshape HR.
  apply at_object_Throw_inv in HR as (v & st' & Hv & HR & ->).
  destruct (well_formed_holds E _ (proj1 Hwf this_ v Hv)) as [xs Hh]. cbn [this mem] in Hh.
  destruct (Hshape v xs st' Hv Hh HR) as [Hthrown|Hstep].
  - by apply (World_wf_thrown w this_ v xs).
  - by apply (World_wf_step E w this_ v st').
Qed.

(** The constructors that throw release what they obtained. *)
Lemma Vector_sized_thrown h n h' :
  0 ≤ n → n * sizeof_T E < SIZE_MOD →
  Vector_sized E n h = Throw h' → h' = h ++ [] ∨ h' = h ++ [None].
Proof.
  intros Hn Hfit HR.
  destruct (Vector_sized_spec E Hsane h n Hn Hfit) as [Hzero Hpos].
  destruct (decide (n = 0)) as [->|Hne]; [by rewrite Hzero in HR|].
  destruct Hpos as [Hok _]; [lia|].
  destruct (Vector_sized_throws E Hsane h n ltac:(lia) Hfit) as [Hfail Hinit].
  destruct (can_alloc E (n * sizeof_T E)) eqn:Hc; cycle 1.
  { rewrite Hfail in HR by done. injection HR as <-. left. by rewrite app_nil_r. }
  destruct (value_init E) as [v0|] eqn:Hv0.
  - by rewrite Hok in HR.
  - rewrite Hinit in HR by done. injection HR as <-. by right.
Qed.

Lemma Vector_copy_thrown h other ys h' :
  holds E h other ys → Vector_copy E other h = Throw h' → h' = h ++ [] ∨ h' = h ++ [None].
Proof.
  intros Hh HR.
  destruct (Vector_copy_spec E Hsane h other ys Hh) as [Hnil Hcons].
  destruct ys as [|y ys]; [by rewrite Hnil in HR|].
  rewrite Hcons in HR by done.
  destruct (can_alloc E _).
  - destruct (none_throws _ _); [discriminate|]. injection HR as <-. by right.
  - injection HR as <-. left. by rewrite app_nil_r.
Qed.

(** Insertions into a full container and [Erase], as [run_op] calls them. *)
Lemma EmplaceBack_thrown h v xs c st' :
  holds E h v xs → size_ v = Capacity v →
  (EmplaceBack E c;; ret tt) (mkState v h) = Throw st' → thrown h v xs st'.
Proof.
  intros Hh Hfull HR.
  assert (size_ v = Z.of_nat (length xs)) as Hsz by apply Hh.
  apply bind_Throw_inv in HR as [HR|(r & s1 & _ & HR)]; [|discriminate].
  unfold EmplaceBack in HR. step in HR by reflexivity.
  unfold end_ in HR. rewrite Hsz in HR.
  by apply (Emplace_full_thrown E Hsane h v xs (length xs) c).
Qed.

Lemma at_index_Emplace_thrown h v xs (p : nat) c st' :
  holds E h v xs → size_ v = Capacity v → Z.of_nat p ≤ Size v →
  at_index p (λ it, Emplace E it c) (mkState v h) = Throw st' → thrown h v xs st'.
Proof.
  intros Hh Hfull Hp HR.
  assert (size_ v = Z.of_nat (length xs)) as Hsz by apply Hh.
  unfold at_index in HR. step in HR by reflexivity.
  apply bind_Throw_inv in HR as [HR|(r & s1 & _ & HR)]; [|discriminate].
  apply (Emplace_full_thrown E Hsane h v xs p c); [done|done| |done].
  unfold Size in Hp. lia.
Qed.

Lemma at_index_Erase_thrown h v xs (p : nat) st' :
  holds E h v xs → Z.of_nat p < Size v →
  at_index p (Erase E) (mkState v h) = Throw st' → thrown h v xs st'.
Proof.
  intros Hh Hp HR.
  assert (size_ v = Z.of_nat (length xs)) as Hsz by apply Hh.
  assert (p < length xs)%nat as Hlt by (unfold Size in Hp; lia).
  unfold at_index in HR. step in HR by reflexivity.
  apply bind_Throw_inv in HR as [HR|(r & s1 & _ & HR)]; [|discriminate].
  destruct (lookup_lt_is_Some_2 xs p Hlt) as [y Hy].
  pose proof (take_drop_middle xs p y Hy) as Hsplit.
  rewrite <- Hsplit in Hh |- *.
  apply (Erase_thrown E Hsane h v (take p xs) y (drop (S p) xs)); [done|].
  by rewrite length_take_le by lia.
Qed.

(** Every operation that throws, but for an insertion into spare capacity,
    keeps the program well formed. *)
Lemma run_op_thrown_wf op w w' :
  World_wf E w → in_range op w → representable E op → ¬ into_spare_capacity op w →
  run_op E op w = Throw w' → World_wf E w'.
Proof.
  intros Hwf Hin Hrep Hfull HR.
  assert (∀ this_ v xs, objects w !! this_ = Some v → holds E (heap w) v xs →
            ¬ (∃ v, objects w !! this_ = Some v ∧ Size v < Capacity v) →
            size_ v = Capacity v) as Hisfull.
  { intros this_ v xs Hv Hh Hno.
    assert (size_ v ≤ Capacity v) by apply Hh.
    destruct (decide (size_ v = Capacity v)); [done|].
    exfalso. apply Hno. exists v. split; [done|]. unfold Size. lia. }
  destruct op as [|n|other|other|this_ rhs|this_ rhs|this_ other|this_ n|this_ n|this_
                 |this_ c|this_ x|this_ x|this_ p c|this_ p x|this_ p x|this_ p];
    cbn [run_op in_range representable into_spare_capacity] in *.
  - discriminate.
  - apply bind_Throw_inv in HR as [HR|(r & w1 & _ & HR)]; [|discriminate].
    unfold construct_sized in HR.
    apply bind_Throw_inv in HR as [HR|(r & w1 & _ & HR)]; [|discriminate].
    apply on_free_store_Throw_inv in HR as (h' & HR & ->).
    destruct (Vector_sized_thrown (heap w) n h' ltac:(lia) Hrep HR) as [-> | ->];
      apply World_wf_freed; auto.
  - apply bind_Throw_inv in HR as [HR|(r & w1 & _ & HR)]; [|discriminate].
    unfold construct_copy in HR.
    apply bind_Throw_inv in HR as [HR|(o & w0 & Ho & HR)];
      [by destruct (object_not_thrown _ _ _ HR)|].
    apply object_Ok_inv in Ho as [Ho ->].
    apply bind_Throw_inv in HR as [HR|(r & w1 & _ & HR)]; [|discriminate].
    apply on_free_store_Throw_inv in HR as (h' & HR & ->).
    destruct (well_formed_holds E _ (proj1 Hwf other o Ho)) as [ys Hh]. cbn [this mem] in Hh.
    destruct (Vector_copy_thrown (heap w) o ys h' Hh HR) as [-> | ->];
      apply World_wf_freed; auto.
  - apply bind_Throw_inv in HR as [HR|(r & w1 & _ & HR)]; [|discriminate].
    unfold construct_move in HR.
    apply bind_Throw_inv in HR as [HR|(o & w0 & Ho & HR)];
      [by destruct (object_not_thrown _ _ _ HR)|].
    destruct o as [[b cap] sz]. discriminate.
  - unfold copy_assign in HR.
    destruct (Nat.eqb_spec this_ rhs) as [->|Hne]; cbn [negb] in HR; [discriminate|].
    apply bind_Throw_inv in HR as [HR|(r & w0 & Hr & HR)];
      [by destruct (object_not_thrown _ _ _ HR)|].
    apply object_Ok_inv in Hr as [Hr ->].
    destruct (well_formed_holds E _ (proj1 Hwf rhs r Hr)) as [ys Hhr]. cbn [this mem] in Hhr.
    eapply (at_object_thrown_wf _ w this_ w' Hwf); [|exact HR].
    intros v xs st' Hv Hh Hm. left.
    apply (copy_assign_from_thrown E Hsane (heap w) v r xs ys st' Hh Hhr); [|done].
    intros a Ha Har. apply Hne. by apply (proj2 Hwf this_ rhs v r a).
  - unfold move_assign, noexcept in HR.
    destruct (if negb (this_ =? rhs)%nat then _ else _) as [| | |]; discriminate.
  - unfold Swap_objects in HR.
    apply bind_Throw_inv in HR as [HR|(o & w0 & Ho & HR)];
      [by destruct (object_not_thrown _ _ _ HR)|].
    apply bind_Throw_inv in HR as [HR|(o' & w1 & _ & HR)]; [|discriminate].
    apply at_object_Throw_inv in HR as (v & st' & _ & HR & _).
    unfold Swap in HR. cbn in HR. discriminate.
  - eapply (at_object_thrown_wf _ w this_ w' Hwf); [|exact HR].
    intros v xs st' _ Hh Hm. left.
    apply (Reserve_thrown E Hsane _ v xs n); [done|lia|done|done].
  - eapply (at_object_thrown_wf _ w this_ w' Hwf); [|exact HR].
    intros v xs st' _ Hh Hm.
    apply (Resize_thrown E Hsane _ v xs n); [done|lia|done|done].
  - apply at_object_Throw_inv in HR as (v & st' & _ & HR & _).
    unfold PopBack, noexcept in HR.
    destruct (bind _ _ _) as [| | |]; discriminate.
  - eapply (at_object_thrown_wf _ w this_ w' Hwf); [|exact HR].
    intros v xs st' Hv Hh Hm. left.
    apply (EmplaceBack_thrown _ v xs c st' Hh); [|done]. by apply (Hisfull this_ v xs).
  - eapply (at_object_thrown_wf _ w this_ w' Hwf); [|exact HR].
    intros v xs st' Hv Hh Hm. left.
    eapply (EmplaceBack_thrown _ v xs); [done| |exact Hm]. by apply (Hisfull this_ v xs).
  - eapply (at_object_thrown_wf _ w this_ w' Hwf); [|exact HR].
    intros v xs st' Hv Hh Hm. left.
    eapply (EmplaceBack_thrown _ v xs); [done| |exact Hm]. by apply (Hisfull this_ v xs).
  - eapply (at_object_thrown_wf _ w this_ w' Hwf); [|exact HR].
    intros v xs st' Hv Hh Hm. left.
    apply (at_index_Emplace_thrown _ v xs p c st' Hh); [|by apply Hin|done].
    by apply (Hisfull this_ v xs).
  - eapply (at_object_thrown_wf _ w this_ w' Hwf); [|exact HR].
    intros v xs st' Hv Hh Hm. left.
    eapply (at_index_Emplace_thrown _ v xs p); [done| |by apply Hin|exact Hm].
    by apply (Hisfull this_ v xs).
  - eapply (at_object_thrown_wf _ w this_ w' Hwf); [|exact HR].
    intros v xs st' Hv Hh Hm. left.
    eapply (at_index_Emplace_thrown _ v xs p); [done| |by apply Hin|exact Hm].
    by apply (Hisfull this_ v xs).
  - eapply (at_object_thrown_wf _ w this_ w' Hwf); [|exact HR].
    intros v xs st' Hv Hh Hm. left.
    apply (at_index_Erase_thrown _ v xs p st' Hh); [by apply Hin|done].
Qed.

End EveryExit.

(** ** The exception of an insertion into spare capacity *)

Section SpareCapacity.

Context {T : Type} (E : Traits T).
Implicit Types (h : Heap T) (v : Vector) (xs : list T) (st : State T) (w : World T).

(** The commands that leave the object as it is, whether they return or
    throw. *)
Definition keeps_this {A} (m : M (State T) A) : Prop :=
  ∀ st, match m st with
        | Ok _ st' | Throw st' => this st' = this st
        | _ => True
        end.

Lemma keeps_this_bind {A B} (m : M (State T) A) (k : A → M (State T) B) :
  keeps_this m → (∀ a, keeps_this (k a)) → keeps_this (bind m k).
Proof.
  intros Hm Hk st. unfold bind. specialize (Hm st).
  destruct (m st) as [a s1|s1| |]; [|done|done|done].
  specialize (Hk a s1). destruct (k a s1); congruence.
Qed.

Lemma keeps_this_on_heap {A} (m : M (Heap T) A) : keeps_this (on_heap m).
Proof. intros st. unfold on_heap. by destruct (m (mem st)). Qed.

Lemma keeps_this_get_this : keeps_this (@get_this T).
Proof. by intros st. Qed.

Lemma keeps_this_construct c : keeps_this (@construct T (State T) c).
Proof. intros st. by destruct c. Qed.

Lemma keeps_this_RawMemory_plus m offset : keeps_this (@RawMemory_plus (State T) m offset).
Proof. intros st. unfold RawMemory_plus, bind, assert. by destruct (offset <=? capacity_ m). Qed.

Lemma keeps_this_RawMemory_at m index : keeps_this (@RawMemory_at (State T) m index).
Proof. intros st. unfold RawMemory_at, bind, assert. by destruct (index <? capacity_ m). Qed.

Lemma try_catch_Throw_inv {S A} (m : M S A) (handler : M S unit) s s2 :
  try_catch_rethrow m handler s = Throw s2 →
  ∃ s1, m s = Throw s1 ∧ (handler s1 = Ok tt s2 ∨ handler s1 = Throw s2).
Proof.
  unfold try_catch_rethrow. destruct (m s) as [a s1|s1| |]; try discriminate.
  intros H. exists s1. split; [done|].
  destruct (handler s1) as [[] s3|s3| |]; try discriminate; injection H as <-; auto.
Qed.

(** [Emplace] into a container with spare capacity that throws: the
    handler of [InsertWithRelocation] has freed the block of the
    container. *)
Lemma Emplace_spare_thrown h v xs pos c st' :
  holds E h v xs → size_ v < Capacity v →
  Emplace E pos c (mkState v h) = Throw st' → invariant st' = false.
Proof.
  intros Hh Hspare HR.
  destruct (holds_inv E h v xs Hh) as (b & cap & -> & Hle & Hbytes & Hblk).
  unfold Capacity in Hspare. cbn [vec data_ capacity_ size_] in Hspare.
  destruct b as [a|]; [|destruct Hblk as [-> _]; lia].
  set (v0 := vec (mkPtr (Some a) 0) cap (Z.of_nat (length xs))) in *.
  unfold Emplace in HR. step in HR by reflexivity.
  apply bind_Throw_inv in HR as [HR|(ipos & s0 & Hoff & HR)].
  { unfold iterator_offset in HR. by destruct (ptr_diff _ _). }
  assert (s0 = mkState v0 h) as ->.
  { unfold iterator_offset in Hoff. destruct (ptr_diff _ _); [|discriminate].
    by injection Hoff. }
  unfold Capacity in HR. cbn [v0 vec data_ capacity_ size_] in HR.
  rewrite (proj2 (Z.eqb_neq _ _)) in HR by lia. fold v0 in HR.
  apply bind_Throw_inv in HR as [HR|([] & s1 & _ & HR)]; [|discriminate].
  unfold InsertWithRelocation in HR.
  apply try_catch_Throw_inv in HR as (s1 & Hbody & Hhandler).
  assert (this s1 = v0) as Hthis.
  { match type of Hbody with ?m _ = _ => assert (keeps_this m) as Hkeeps end.
    { apply keeps_this_bind; [apply keeps_this_get_this|]. intros v1.
      destruct (negb (ptr_eqb pos (end_ v1)));
        repeat first [apply keeps_this_on_heap | apply keeps_this_construct
                     | apply keeps_this_RawMemory_plus | apply keeps_this_RawMemory_at
                     | apply keeps_this_bind; [|intros ?]]. }
    specialize (Hkeeps (mkState v0 h)). by rewrite Hbody in Hkeeps. }
  destruct s1 as [v1 h1]. cbn [this] in Hthis. subst v1.
  assert (∃ h2, operator_delete (end_ v0) h1 = Ok tt h2 ∧ st' = mkState v0 h2)
    as (h2 & Hdel & ->).
  { unfold bind, get_this, on_heap in Hhandler. cbn [this mem] in Hhandler.
    destruct (operator_delete (end_ v0) h1) as [[] h2|h2| |] eqn:Hdel.
    - exists h2. split; [done|]. by destruct Hhandler as [[= <-]|[=]].
    - exfalso. unfold operator_delete in Hdel.
      destruct (base (end_ v0)); [destruct (get_block h1 _)|];
        by destruct (off (end_ v0) =? 0).
    - by destruct Hhandler.
    - by destruct Hhandler. }
  unfold operator_delete, end_, GetAddress in Hdel.
  cbn [v0 vec data_ buffer_ size_ ptr_add base off] in Hdel.
  destruct (get_block h1 a); [|discriminate].
  destruct (0 + Z.of_nat (length xs) =? 0); [|discriminate].
  injection Hdel as <-.
  unfold invariant. cbn [this mem v0 vec data_ buffer_ base].
  by rewrite get_block_free_eq, andb_false_r.
Qed.

(** The exception of an insertion into spare capacity leaves a container
    outside the invariant. *)
Lemma run_op_spare_thrown op w w' :
  World_wf E w → into_spare_capacity op w → run_op E op w = Throw w' → ¬ World_inv w'.
Proof.
  intros Hwf Hspare HR Hinv.
  assert (∀ this_ (m : M (State T) unit),
            (∃ v, objects w !! this_ = Some v ∧ Size v < Capacity v) →
            at_object this_ m w = Throw w' →
            (∀ v xs st', holds E (heap w) v xs → size_ v < Capacity v →
                         m (mkState v (heap w)) = Throw st' → invariant st' = false) →
            False) as Hat.
  { intros this_ m (v & Hv & Hlt) Hrun Hm.
    apply at_object_Throw_inv in Hrun as (v' & st' & Hv' & Hrun & ->).
    rewrite Hv in Hv'. injection Hv' as <-.
    destruct (well_formed_holds E _ (proj1 Hwf this_ v Hv)) as [xs Hh]. cbn [this mem] in Hh.
    pose proof (Hm v xs st' Hh Hlt Hrun) as Hlost.
    specialize (Hinv this_ (this st')). cbn [objects heap] in Hinv.
    rewrite list_lookup_insert_eq in Hinv by (by eapply lookup_lt_Some).
    specialize (Hinv eq_refl). destruct st' as [v' h']. cbn [this mem] in Hinv.
    congruence. }
  assert (∀ v xs c st', holds E (heap w) v xs → size_ v < Capacity v →
            (EmplaceBack E c;; ret tt) (mkState v (heap w)) = Throw st' →
            invariant st' = false) as Hback.
  { intros v xs c st' Hh Hlt Hm.
    apply bind_Throw_inv in Hm as [Hm|(r & s1 & _ & Hm)]; [|discriminate].
    unfold EmplaceBack in Hm. step in Hm by reflexivity.
    by apply (Emplace_spare_thrown (heap w) v xs (end_ v) c). }
  assert (∀ v xs p c st', holds E (heap w) v xs → size_ v < Capacity v →
            at_index p (λ it, Emplace E it c) (mkState v (heap w)) = Throw st' →
            invariant st' = false) as Hindex.
  { intros v xs p c st' Hh Hlt Hm.
    unfold at_index in Hm. step in Hm by reflexivity.
    apply bind_Throw_inv in Hm as [Hm|(r & s1 & _ & Hm)]; [|discriminate].
    by eapply (Emplace_spare_thrown (heap w) v xs). }
  destruct op as [|n|other|other|this_ rhs|this_ rhs|this_ other|this_ n|this_ n|this_
                 |this_ c|this_ x|this_ x|this_ p c|this_ p x|this_ p x|this_ p];
    cbn [run_op into_spare_capacity] in *; try done.
  - apply (Hat this_ _ Hspare HR). intros v xs st'. apply Hback.
  - apply (Hat this_ _ Hspare HR). intros v xs st'. apply Hback.
  - apply (Hat this_ _ Hspare HR). intros v xs st'. apply Hback.
  - apply (Hat this_ _ Hspare HR). intros v xs st'. apply Hindex.
  - apply (Hat this_ _ Hspare HR). intros v xs st'. apply Hindex.
  - apply (Hat this_ _ Hspare HR). intros v xs st'. apply Hindex.
Qed.

End SpareCapacity.

(** ** The invariant after every operation *)

(** How a call leaves, as far as the amended claim goes: it returns, or it
    throws and is not an insertion into spare capacity. *)
Definition leaves {T} (E : Traits T) (op : Op T) (w w' : World T) : Prop :=
  run_op E op w = Ok tt w' ∨ (run_op E op w = Throw w' ∧ ¬ into_spare_capacity op w).

(** The programs: the operations are called with arguments in range, and the
    program goes on after a call that returned and after one whose exception
    it caught. *)
Inductive attainable {T} (E : Traits T) : World T → Prop :=
| attainable_start : attainable E (mkWorld [] [])
| attainable_step op w w' :
    attainable E w → in_range op w → representable E op → leaves E op w w' →
    attainable E w'.

Lemma leaves_wf {T} (E : Traits T) op w w' :
  sane E → World_wf E w → in_range op w → representable E op → leaves E op w w' →
  World_wf E w'.
Proof.
  intros Hsane Hwf Hin Hrep [Hrun|[Hrun Hfull]].
  - by apply (run_op_wf E Hsane op w w').
  - by apply (run_op_thrown_wf E Hsane op w w').
Qed.

Lemma attainable_wf {T} (E : Traits T) w : sane E → attainable E w → World_wf E w.
Proof.
  intros Hsane Hreach. induction Hreach as [|op w w' _ IH Hin Hrep Hrun].
  - apply World_wf_empty.
  - by apply (leaves_wf E op w w').
Qed.

(** C2, amended. Every public operation (construction, copy and move
    construction and assignment, [Swap], [Reserve], [Resize], [PopBack],
    [EmplaceBack], [PushBack], [Emplace], [Insert], [Erase]), whether it
    returns or throws, leaves every container within the invariant, with no
    two containers sharing a buffer, when the byte size [n * sizeof(T)] of a
    count given to [Vector(n)], [Reserve(n)] or [Resize(n)] is representable
    in [size_t]; the one exit left out is the exception of an insertion into a
    container with spare capacity, whose handler frees storage the container
    keeps.  So every container of a program that calls the operations in
    this way, and goes on after the exceptions it catches, satisfies
    [0 <= size <= capacity], has its first [size] slots live and the other
    slots of its block unconstructed.  The exit left out never keeps the
    invariant: whenever an insertion into spare capacity throws, the
    container it was called on is outside the invariant. *)
Theorem invariant_preserved {T} (E : Traits T) :
  sane E →
  (∀ op w w', World_wf E w → in_range op w → representable E op →
              leaves E op w w' → World_wf E w' ∧ World_inv w') ∧
  (∀ w, attainable E w → World_inv w) ∧
  (∀ op w w', World_wf E w → into_spare_capacity op w →
              run_op E op w = Throw w' → ¬ World_inv w').
Proof.
  intros Hsane. split; [|split].
  - intros op w w' Hwf Hin Hrep Hrun.
    pose proof (leaves_wf E op w w' Hsane Hwf Hin Hrep Hrun) as Hwf'.
    split; [done|]. by apply (World_wf_inv E).
  - intros w Hreach. by apply (World_wf_inv E), attainable_wf.
  - intros op w w'. apply run_op_spare_thrown.
Qed.

(** [one_reserved] after [PushBack(5)], and then after [PushBack(13)] whose
    copy throws: the container is full, the new block is obtained and
    released. *)
Definition one_five : World Z := mkWorld [vec (mkPtr (Some 0%nat) 0) 1 1] [Some [Some 5]].

Definition one_five_thrown : World Z :=
  mkWorld [vec (mkPtr (Some 0%nat) 0) 1 1] [Some [Some 5]; None].

Lemma invariant_preserved_witness :
  sane throwing_traits ∧ World_wf throwing_traits one_reserved ∧
  run_op throwing_traits (OpPushBackCopy 0 5) one_reserved = Ok tt one_five ∧
  World_inv one_five ∧
  run_op throwing_traits (OpPushBackCopy 0 13) one_five = Throw one_five_thrown ∧
  ¬ into_spare_capacity (OpPushBackCopy 0 13) one_five ∧
  World_inv one_five_thrown ∧
  attainable throwing_traits one_five_thrown.
Proof.
  assert (¬ into_spare_capacity (OpPushBackCopy 0 13) one_five) as Hfull.
  { intros (v & Hv & Hlt). injection Hv as <-. unfold Size, Capacity in Hlt. simpl in Hlt.
    lia. }
  assert (leaves throwing_traits (OpPushBackCopy 0 5) one_reserved one_five) as H1
    by (by left).
  assert (leaves throwing_traits (OpPushBackCopy 0 13) one_five one_five_thrown) as H2
    by (by right).
  assert (attainable throwing_traits one_reserved) as Hreach.
  { apply (attainable_step throwing_traits (OpReserve 0 1) one_default).
    - by apply (attainable_step throwing_traits OpDefault (mkWorld [] []) one_default);
        [apply attainable_start|done|done|left].
    - simpl. unfold SIZE_MOD. lia.
    - simpl. unfold SIZE_MOD. lia.
    - by left. }
  destruct (invariant_preserved throwing_traits throwing_traits_sane) as [Hstep Hprog].
  destruct (Hstep (OpPushBackCopy 0 5) one_reserved one_five one_reserved_wf I I H1)
    as [Hwf1 Hinv1].
  destruct (Hstep (OpPushBackCopy 0 13) one_five one_five_thrown Hwf1 I I H2)
    as [Hwf2 Hinv2].
  split; [apply throwing_traits_sane|]. split; [apply one_reserved_wf|].
  split; [reflexivity|]. split; [exact Hinv1|]. split; [reflexivity|].
  split; [exact Hfull|]. split; [exact Hinv2|].
  apply (attainable_step throwing_traits (OpPushBackCopy 0 13) one_five); [|done|done|done].
  by apply (attainable_step throwing_traits (OpPushBackCopy 0 5) one_reserved).
Defined.
